(** * A shallow embedding of the iCalendar codec (pipobscure/ical)

    The TypeScript sources are embedded function by function:
    - [src/value-types.ts]  : the value codecs ([TEXT], [DATE], [DURATION], ...)
    - [src/tokenize.ts]     : [unfold], [parseContentLine], [tokenize]
    - [src/property.ts]     : [Property], [serializeParams], [parseProperty]
    - [src/component.ts]    : [octetLen], [foldLine], [Component]
    - [src/parse.ts]        : [buildTree], [buildComponent], [parse]

    A JavaScript string is a sequence of UTF-16 code units, so a string is
    modelled as a list of code units ([Z]).  JavaScript numbers that the
    code obtains through [parseInt] are integers or [NaN]; other doubles only
    arise from the platform conversions [parseFloat] and [Number], which are
    parameters of the development. *)

From Stdlib Require Import ZArith String Ascii Lia.
From stdpp Require Import gmap list.

Open Scope Z_scope.
Set Warnings "-register-all".

(** ** JavaScript strings *)

Abbreviation jsstring := (list Z).

(** A literal: the code units of an ASCII string. *)
Definition js (s : string) : jsstring :=
  map (fun a => Z.of_N (N_of_ascii a)) (list_ascii_of_string s).

Definition ch (a : ascii) : Z := Z.of_N (N_of_ascii a).

(** [s.slice(a, b)] for non-negative indices. *)
Definition slice (s : jsstring) (a b : nat) : jsstring := take (b - a) (drop a s).

(** [s.slice(a)]. *)
Definition sliceFrom (s : jsstring) (a : nat) : jsstring := drop a s.

(** [s.slice(0, -1)]. *)
Definition dropLast (s : jsstring) : jsstring := take (length s - 1) s.

(** [parts.join(sep)]. *)
Fixpoint join (sep : jsstring) (parts : list jsstring) : jsstring :=
  match parts with
  | [] => []
  | [p] => p
  | p :: ps => p ++ sep ++ join sep ps
  end.

Definition CRLF : jsstring := [13; 10].

Fixpoint takeWhile (p : Z -> bool) (s : jsstring) : jsstring :=
  match s with
  | c :: s' => if p c then c :: takeWhile p s' else []
  | [] => []
  end.

Fixpoint dropWhile (p : Z -> bool) (s : jsstring) : jsstring :=
  match s with
  | c :: s' => if p c then dropWhile p s' else s
  | [] => []
  end.

(** ECMAScript [WhiteSpace] and [LineTerminator] code units, the set that
    [trim] and the numeric conversions strip. *)
Definition isWhiteSpace (c : Z) : bool :=
  (c =? 9) || (c =? 10) || (c =? 11) || (c =? 12) || (c =? 13) || (c =? 32)
  || (c =? 0xA0) || (c =? 0x1680) || ((0x2000 <=? c) && (c <=? 0x200A))
  || (c =? 0x2028) || (c =? 0x2029) || (c =? 0x202F) || (c =? 0x205F)
  || (c =? 0x3000) || (c =? 0xFEFF).

Definition trimStart (s : jsstring) : jsstring := dropWhile isWhiteSpace s.
Definition trimEnd (s : jsstring) : jsstring := rev (dropWhile isWhiteSpace (rev s)).
Definition trim (s : jsstring) : jsstring := trimEnd (trimStart s).

Definition isDigit (c : Z) : bool := (48 <=? c) && (c <=? 57).

(** *** Surrogates *)

Definition isHighSurrogate (c : Z) : bool := (0xd800 <=? c) && (c <? 0xdc00).
Definition isLowSurrogate (c : Z) : bool := (0xdc00 <=? c) && (c <? 0xe000).

(** *** [String.prototype.toUpperCase]

    The method upper-cases the string code point by code point, with the
    full case mapping of the Unicode character database: one code point
    may become several ([U+00DF] becomes [SS]), and some code points
    outside ASCII become ASCII letters ([U+0131] becomes [I], [U+017F]
    becomes [S]).  The tables are those of Unicode 14.0 (the upper-case
    mappings of [UnicodeData.txt] and the unconditional ones of
    [SpecialCasing.txt]); no mapping depends on the context or on the
    locale.  An engine built on later tables maps the few letters added
    since as well. *)

(** The code units of the basic plane that change, with what they become. *)
Definition upperTable : list (Z * jsstring) :=
  [(181, [924]); (223, [83; 83]); (224, [192]); (225, [193]); (226, [194]); (227, [195]);
    (228, [196]); (229, [197]); (230, [198]); (231, [199]); (232, [200]); (233, [201]);
    (234, [202]); (235, [203]); (236, [204]); (237, [205]); (238, [206]); (239, [207]);
    (240, [208]); (241, [209]); (242, [210]); (243, [211]); (244, [212]); (245, [213]);
    (246, [214]); (248, [216]); (249, [217]); (250, [218]); (251, [219]); (252, [220]);
    (253, [221]); (254, [222]); (255, [376]); (257, [256]); (259, [258]); (261, [260]);
    (263, [262]); (265, [264]); (267, [266]); (269, [268]); (271, [270]); (273, [272]);
    (275, [274]); (277, [276]); (279, [278]); (281, [280]); (283, [282]); (285, [284]);
    (287, [286]); (289, [288]); (291, [290]); (293, [292]); (295, [294]); (297, [296]);
    (299, [298]); (301, [300]); (303, [302]); (305, [73]); (307, [306]); (309, [308]);
    (311, [310]); (314, [313]); (316, [315]); (318, [317]); (320, [319]); (322, [321]);
    (324, [323]); (326, [325]); (328, [327]); (329, [700; 78]); (331, [330]); (333, [332]);
    (335, [334]); (337, [336]); (339, [338]); (341, [340]); (343, [342]); (345, [344]);
    (347, [346]); (349, [348]); (351, [350]); (353, [352]); (355, [354]); (357, [356]);
    (359, [358]); (361, [360]); (363, [362]); (365, [364]); (367, [366]); (369, [368]);
    (371, [370]); (373, [372]); (375, [374]); (378, [377]); (380, [379]); (382, [381]);
    (383, [83]); (384, [579]); (387, [386]); (389, [388]); (392, [391]); (396, [395]);
    (402, [401]); (405, [502]); (409, [408]); (410, [573]); (414, [544]); (417, [416]);
    (419, [418]); (421, [420]); (424, [423]); (429, [428]); (432, [431]); (436, [435]);
    (438, [437]); (441, [440]); (445, [444]); (447, [503]); (453, [452]); (454, [452]);
    (456, [455]); (457, [455]); (459, [458]); (460, [458]); (462, [461]); (464, [463]);
    (466, [465]); (468, [467]); (470, [469]); (472, [471]); (474, [473]); (476, [475]);
    (477, [398]); (479, [478]); (481, [480]); (483, [482]); (485, [484]); (487, [486]);
    (489, [488]); (491, [490]); (493, [492]); (495, [494]); (496, [74; 780]); (498, [497]);
    (499, [497]); (501, [500]); (505, [504]); (507, [506]); (509, [508]); (511, [510]);
    (513, [512]); (515, [514]); (517, [516]); (519, [518]); (521, [520]); (523, [522]);
    (525, [524]); (527, [526]); (529, [528]); (531, [530]); (533, [532]); (535, [534]);
    (537, [536]); (539, [538]); (541, [540]); (543, [542]); (547, [546]); (549, [548]);
    (551, [550]); (553, [552]); (555, [554]); (557, [556]); (559, [558]); (561, [560]);
    (563, [562]); (572, [571]); (575, [11390]); (576, [11391]); (578, [577]); (583, [582]);
    (585, [584]); (587, [586]); (589, [588]); (591, [590]); (592, [11375]); (593, [11373]);
    (594, [11376]); (595, [385]); (596, [390]); (598, [393]); (599, [394]); (601, [399]);
    (603, [400]); (604, [42923]); (608, [403]); (609, [42924]); (611, [404]); (613, [42893]);
    (614, [42922]); (616, [407]); (617, [406]); (618, [42926]); (619, [11362]); (620, [42925]);
    (623, [412]); (625, [11374]); (626, [413]); (629, [415]); (637, [11364]); (640, [422]);
    (642, [42949]); (643, [425]); (647, [42929]); (648, [430]); (649, [580]); (650, [433]);
    (651, [434]); (652, [581]); (658, [439]); (669, [42930]); (670, [42928]); (837, [921]);
    (881, [880]); (883, [882]); (887, [886]); (891, [1021]); (892, [1022]); (893, [1023]);
    (912, [921; 776; 769]); (940, [902]); (941, [904]); (942, [905]); (943, [906]);
    (944, [933; 776; 769]); (945, [913]); (946, [914]); (947, [915]); (948, [916]);
    (949, [917]); (950, [918]); (951, [919]); (952, [920]); (953, [921]); (954, [922]);
    (955, [923]); (956, [924]); (957, [925]); (958, [926]); (959, [927]); (960, [928]);
    (961, [929]); (962, [931]); (963, [931]); (964, [932]); (965, [933]); (966, [934]);
    (967, [935]); (968, [936]); (969, [937]); (970, [938]); (971, [939]); (972, [908]);
    (973, [910]); (974, [911]); (976, [914]); (977, [920]); (981, [934]); (982, [928]);
    (983, [975]); (985, [984]); (987, [986]); (989, [988]); (991, [990]); (993, [992]);
    (995, [994]); (997, [996]); (999, [998]); (1001, [1000]); (1003, [1002]); (1005, [1004]);
    (1007, [1006]); (1008, [922]); (1009, [929]); (1010, [1017]); (1011, [895]); (1013, [917]);
    (1016, [1015]); (1019, [1018]); (1072, [1040]); (1073, [1041]); (1074, [1042]);
    (1075, [1043]); (1076, [1044]); (1077, [1045]); (1078, [1046]); (1079, [1047]);
    (1080, [1048]); (1081, [1049]); (1082, [1050]); (1083, [1051]); (1084, [1052]);
    (1085, [1053]); (1086, [1054]); (1087, [1055]); (1088, [1056]); (1089, [1057]);
    (1090, [1058]); (1091, [1059]); (1092, [1060]); (1093, [1061]); (1094, [1062]);
    (1095, [1063]); (1096, [1064]); (1097, [1065]); (1098, [1066]); (1099, [1067]);
    (1100, [1068]); (1101, [1069]); (1102, [1070]); (1103, [1071]); (1104, [1024]);
    (1105, [1025]); (1106, [1026]); (1107, [1027]); (1108, [1028]); (1109, [1029]);
    (1110, [1030]); (1111, [1031]); (1112, [1032]); (1113, [1033]); (1114, [1034]);
    (1115, [1035]); (1116, [1036]); (1117, [1037]); (1118, [1038]); (1119, [1039]);
    (1121, [1120]); (1123, [1122]); (1125, [1124]); (1127, [1126]); (1129, [1128]);
    (1131, [1130]); (1133, [1132]); (1135, [1134]); (1137, [1136]); (1139, [1138]);
    (1141, [1140]); (1143, [1142]); (1145, [1144]); (1147, [1146]); (1149, [1148]);
    (1151, [1150]); (1153, [1152]); (1163, [1162]); (1165, [1164]); (1167, [1166]);
    (1169, [1168]); (1171, [1170]); (1173, [1172]); (1175, [1174]); (1177, [1176]);
    (1179, [1178]); (1181, [1180]); (1183, [1182]); (1185, [1184]); (1187, [1186]);
    (1189, [1188]); (1191, [1190]); (1193, [1192]); (1195, [1194]); (1197, [1196]);
    (1199, [1198]); (1201, [1200]); (1203, [1202]); (1205, [1204]); (1207, [1206]);
    (1209, [1208]); (1211, [1210]); (1213, [1212]); (1215, [1214]); (1218, [1217]);
    (1220, [1219]); (1222, [1221]); (1224, [1223]); (1226, [1225]); (1228, [1227]);
    (1230, [1229]); (1231, [1216]); (1233, [1232]); (1235, [1234]); (1237, [1236]);
    (1239, [1238]); (1241, [1240]); (1243, [1242]); (1245, [1244]); (1247, [1246]);
    (1249, [1248]); (1251, [1250]); (1253, [1252]); (1255, [1254]); (1257, [1256]);
    (1259, [1258]); (1261, [1260]); (1263, [1262]); (1265, [1264]); (1267, [1266]);
    (1269, [1268]); (1271, [1270]); (1273, [1272]); (1275, [1274]); (1277, [1276]);
    (1279, [1278]); (1281, [1280]); (1283, [1282]); (1285, [1284]); (1287, [1286]);
    (1289, [1288]); (1291, [1290]); (1293, [1292]); (1295, [1294]); (1297, [1296]);
    (1299, [1298]); (1301, [1300]); (1303, [1302]); (1305, [1304]); (1307, [1306]);
    (1309, [1308]); (1311, [1310]); (1313, [1312]); (1315, [1314]); (1317, [1316]);
    (1319, [1318]); (1321, [1320]); (1323, [1322]); (1325, [1324]); (1327, [1326]);
    (1377, [1329]); (1378, [1330]); (1379, [1331]); (1380, [1332]); (1381, [1333]);
    (1382, [1334]); (1383, [1335]); (1384, [1336]); (1385, [1337]); (1386, [1338]);
    (1387, [1339]); (1388, [1340]); (1389, [1341]); (1390, [1342]); (1391, [1343]);
    (1392, [1344]); (1393, [1345]); (1394, [1346]); (1395, [1347]); (1396, [1348]);
    (1397, [1349]); (1398, [1350]); (1399, [1351]); (1400, [1352]); (1401, [1353]);
    (1402, [1354]); (1403, [1355]); (1404, [1356]); (1405, [1357]); (1406, [1358]);
    (1407, [1359]); (1408, [1360]); (1409, [1361]); (1410, [1362]); (1411, [1363]);
    (1412, [1364]); (1413, [1365]); (1414, [1366]); (1415, [1333; 1362]); (4304, [7312]);
    (4305, [7313]); (4306, [7314]); (4307, [7315]); (4308, [7316]); (4309, [7317]);
    (4310, [7318]); (4311, [7319]); (4312, [7320]); (4313, [7321]); (4314, [7322]);
    (4315, [7323]); (4316, [7324]); (4317, [7325]); (4318, [7326]); (4319, [7327]);
    (4320, [7328]); (4321, [7329]); (4322, [7330]); (4323, [7331]); (4324, [7332]);
    (4325, [7333]); (4326, [7334]); (4327, [7335]); (4328, [7336]); (4329, [7337]);
    (4330, [7338]); (4331, [7339]); (4332, [7340]); (4333, [7341]); (4334, [7342]);
    (4335, [7343]); (4336, [7344]); (4337, [7345]); (4338, [7346]); (4339, [7347]);
    (4340, [7348]); (4341, [7349]); (4342, [7350]); (4343, [7351]); (4344, [7352]);
    (4345, [7353]); (4346, [7354]); (4349, [7357]); (4350, [7358]); (4351, [7359]);
    (5112, [5104]); (5113, [5105]); (5114, [5106]); (5115, [5107]); (5116, [5108]);
    (5117, [5109]); (7296, [1042]); (7297, [1044]); (7298, [1054]); (7299, [1057]);
    (7300, [1058]); (7301, [1058]); (7302, [1066]); (7303, [1122]); (7304, [42570]);
    (7545, [42877]); (7549, [11363]); (7566, [42950]); (7681, [7680]); (7683, [7682]);
    (7685, [7684]); (7687, [7686]); (7689, [7688]); (7691, [7690]); (7693, [7692]);
    (7695, [7694]); (7697, [7696]); (7699, [7698]); (7701, [7700]); (7703, [7702]);
    (7705, [7704]); (7707, [7706]); (7709, [7708]); (7711, [7710]); (7713, [7712]);
    (7715, [7714]); (7717, [7716]); (7719, [7718]); (7721, [7720]); (7723, [7722]);
    (7725, [7724]); (7727, [7726]); (7729, [7728]); (7731, [7730]); (7733, [7732]);
    (7735, [7734]); (7737, [7736]); (7739, [7738]); (7741, [7740]); (7743, [7742]);
    (7745, [7744]); (7747, [7746]); (7749, [7748]); (7751, [7750]); (7753, [7752]);
    (7755, [7754]); (7757, [7756]); (7759, [7758]); (7761, [7760]); (7763, [7762]);
    (7765, [7764]); (7767, [7766]); (7769, [7768]); (7771, [7770]); (7773, [7772]);
    (7775, [7774]); (7777, [7776]); (7779, [7778]); (7781, [7780]); (7783, [7782]);
    (7785, [7784]); (7787, [7786]); (7789, [7788]); (7791, [7790]); (7793, [7792]);
    (7795, [7794]); (7797, [7796]); (7799, [7798]); (7801, [7800]); (7803, [7802]);
    (7805, [7804]); (7807, [7806]); (7809, [7808]); (7811, [7810]); (7813, [7812]);
    (7815, [7814]); (7817, [7816]); (7819, [7818]); (7821, [7820]); (7823, [7822]);
    (7825, [7824]); (7827, [7826]); (7829, [7828]); (7830, [72; 817]); (7831, [84; 776]);
    (7832, [87; 778]); (7833, [89; 778]); (7834, [65; 702]); (7835, [7776]); (7841, [7840]);
    (7843, [7842]); (7845, [7844]); (7847, [7846]); (7849, [7848]); (7851, [7850]);
    (7853, [7852]); (7855, [7854]); (7857, [7856]); (7859, [7858]); (7861, [7860]);
    (7863, [7862]); (7865, [7864]); (7867, [7866]); (7869, [7868]); (7871, [7870]);
    (7873, [7872]); (7875, [7874]); (7877, [7876]); (7879, [7878]); (7881, [7880]);
    (7883, [7882]); (7885, [7884]); (7887, [7886]); (7889, [7888]); (7891, [7890]);
    (7893, [7892]); (7895, [7894]); (7897, [7896]); (7899, [7898]); (7901, [7900]);
    (7903, [7902]); (7905, [7904]); (7907, [7906]); (7909, [7908]); (7911, [7910]);
    (7913, [7912]); (7915, [7914]); (7917, [7916]); (7919, [7918]); (7921, [7920]);
    (7923, [7922]); (7925, [7924]); (7927, [7926]); (7929, [7928]); (7931, [7930]);
    (7933, [7932]); (7935, [7934]); (7936, [7944]); (7937, [7945]); (7938, [7946]);
    (7939, [7947]); (7940, [7948]); (7941, [7949]); (7942, [7950]); (7943, [7951]);
    (7952, [7960]); (7953, [7961]); (7954, [7962]); (7955, [7963]); (7956, [7964]);
    (7957, [7965]); (7968, [7976]); (7969, [7977]); (7970, [7978]); (7971, [7979]);
    (7972, [7980]); (7973, [7981]); (7974, [7982]); (7975, [7983]); (7984, [7992]);
    (7985, [7993]); (7986, [7994]); (7987, [7995]); (7988, [7996]); (7989, [7997]);
    (7990, [7998]); (7991, [7999]); (8000, [8008]); (8001, [8009]); (8002, [8010]);
    (8003, [8011]); (8004, [8012]); (8005, [8013]); (8016, [933; 787]); (8017, [8025]);
    (8018, [933; 787; 768]); (8019, [8027]); (8020, [933; 787; 769]); (8021, [8029]);
    (8022, [933; 787; 834]); (8023, [8031]); (8032, [8040]); (8033, [8041]); (8034, [8042]);
    (8035, [8043]); (8036, [8044]); (8037, [8045]); (8038, [8046]); (8039, [8047]);
    (8048, [8122]); (8049, [8123]); (8050, [8136]); (8051, [8137]); (8052, [8138]);
    (8053, [8139]); (8054, [8154]); (8055, [8155]); (8056, [8184]); (8057, [8185]);
    (8058, [8170]); (8059, [8171]); (8060, [8186]); (8061, [8187]); (8064, [7944; 921]);
    (8065, [7945; 921]); (8066, [7946; 921]); (8067, [7947; 921]); (8068, [7948; 921]);
    (8069, [7949; 921]); (8070, [7950; 921]); (8071, [7951; 921]); (8072, [7944; 921]);
    (8073, [7945; 921]); (8074, [7946; 921]); (8075, [7947; 921]); (8076, [7948; 921]);
    (8077, [7949; 921]); (8078, [7950; 921]); (8079, [7951; 921]); (8080, [7976; 921]);
    (8081, [7977; 921]); (8082, [7978; 921]); (8083, [7979; 921]); (8084, [7980; 921]);
    (8085, [7981; 921]); (8086, [7982; 921]); (8087, [7983; 921]); (8088, [7976; 921]);
    (8089, [7977; 921]); (8090, [7978; 921]); (8091, [7979; 921]); (8092, [7980; 921]);
    (8093, [7981; 921]); (8094, [7982; 921]); (8095, [7983; 921]); (8096, [8040; 921]);
    (8097, [8041; 921]); (8098, [8042; 921]); (8099, [8043; 921]); (8100, [8044; 921]);
    (8101, [8045; 921]); (8102, [8046; 921]); (8103, [8047; 921]); (8104, [8040; 921]);
    (8105, [8041; 921]); (8106, [8042; 921]); (8107, [8043; 921]); (8108, [8044; 921]);
    (8109, [8045; 921]); (8110, [8046; 921]); (8111, [8047; 921]); (8112, [8120]);
    (8113, [8121]); (8114, [8122; 921]); (8115, [913; 921]); (8116, [902; 921]);
    (8118, [913; 834]); (8119, [913; 834; 921]); (8124, [913; 921]); (8126, [921]);
    (8130, [8138; 921]); (8131, [919; 921]); (8132, [905; 921]); (8134, [919; 834]);
    (8135, [919; 834; 921]); (8140, [919; 921]); (8144, [8152]); (8145, [8153]);
    (8146, [921; 776; 768]); (8147, [921; 776; 769]); (8150, [921; 834]);
    (8151, [921; 776; 834]); (8160, [8168]); (8161, [8169]); (8162, [933; 776; 768]);
    (8163, [933; 776; 769]); (8164, [929; 787]); (8165, [8172]); (8166, [933; 834]);
    (8167, [933; 776; 834]); (8178, [8186; 921]); (8179, [937; 921]); (8180, [911; 921]);
    (8182, [937; 834]); (8183, [937; 834; 921]); (8188, [937; 921]); (8526, [8498]);
    (8560, [8544]); (8561, [8545]); (8562, [8546]); (8563, [8547]); (8564, [8548]);
    (8565, [8549]); (8566, [8550]); (8567, [8551]); (8568, [8552]); (8569, [8553]);
    (8570, [8554]); (8571, [8555]); (8572, [8556]); (8573, [8557]); (8574, [8558]);
    (8575, [8559]); (8580, [8579]); (9424, [9398]); (9425, [9399]); (9426, [9400]);
    (9427, [9401]); (9428, [9402]); (9429, [9403]); (9430, [9404]); (9431, [9405]);
    (9432, [9406]); (9433, [9407]); (9434, [9408]); (9435, [9409]); (9436, [9410]);
    (9437, [9411]); (9438, [9412]); (9439, [9413]); (9440, [9414]); (9441, [9415]);
    (9442, [9416]); (9443, [9417]); (9444, [9418]); (9445, [9419]); (9446, [9420]);
    (9447, [9421]); (9448, [9422]); (9449, [9423]); (11312, [11264]); (11313, [11265]);
    (11314, [11266]); (11315, [11267]); (11316, [11268]); (11317, [11269]); (11318, [11270]);
    (11319, [11271]); (11320, [11272]); (11321, [11273]); (11322, [11274]); (11323, [11275]);
    (11324, [11276]); (11325, [11277]); (11326, [11278]); (11327, [11279]); (11328, [11280]);
    (11329, [11281]); (11330, [11282]); (11331, [11283]); (11332, [11284]); (11333, [11285]);
    (11334, [11286]); (11335, [11287]); (11336, [11288]); (11337, [11289]); (11338, [11290]);
    (11339, [11291]); (11340, [11292]); (11341, [11293]); (11342, [11294]); (11343, [11295]);
    (11344, [11296]); (11345, [11297]); (11346, [11298]); (11347, [11299]); (11348, [11300]);
    (11349, [11301]); (11350, [11302]); (11351, [11303]); (11352, [11304]); (11353, [11305]);
    (11354, [11306]); (11355, [11307]); (11356, [11308]); (11357, [11309]); (11358, [11310]);
    (11359, [11311]); (11361, [11360]); (11365, [570]); (11366, [574]); (11368, [11367]);
    (11370, [11369]); (11372, [11371]); (11379, [11378]); (11382, [11381]); (11393, [11392]);
    (11395, [11394]); (11397, [11396]); (11399, [11398]); (11401, [11400]); (11403, [11402]);
    (11405, [11404]); (11407, [11406]); (11409, [11408]); (11411, [11410]); (11413, [11412]);
    (11415, [11414]); (11417, [11416]); (11419, [11418]); (11421, [11420]); (11423, [11422]);
    (11425, [11424]); (11427, [11426]); (11429, [11428]); (11431, [11430]); (11433, [11432]);
    (11435, [11434]); (11437, [11436]); (11439, [11438]); (11441, [11440]); (11443, [11442]);
    (11445, [11444]); (11447, [11446]); (11449, [11448]); (11451, [11450]); (11453, [11452]);
    (11455, [11454]); (11457, [11456]); (11459, [11458]); (11461, [11460]); (11463, [11462]);
    (11465, [11464]); (11467, [11466]); (11469, [11468]); (11471, [11470]); (11473, [11472]);
    (11475, [11474]); (11477, [11476]); (11479, [11478]); (11481, [11480]); (11483, [11482]);
    (11485, [11484]); (11487, [11486]); (11489, [11488]); (11491, [11490]); (11500, [11499]);
    (11502, [11501]); (11507, [11506]); (11520, [4256]); (11521, [4257]); (11522, [4258]);
    (11523, [4259]); (11524, [4260]); (11525, [4261]); (11526, [4262]); (11527, [4263]);
    (11528, [4264]); (11529, [4265]); (11530, [4266]); (11531, [4267]); (11532, [4268]);
    (11533, [4269]); (11534, [4270]); (11535, [4271]); (11536, [4272]); (11537, [4273]);
    (11538, [4274]); (11539, [4275]); (11540, [4276]); (11541, [4277]); (11542, [4278]);
    (11543, [4279]); (11544, [4280]); (11545, [4281]); (11546, [4282]); (11547, [4283]);
    (11548, [4284]); (11549, [4285]); (11550, [4286]); (11551, [4287]); (11552, [4288]);
    (11553, [4289]); (11554, [4290]); (11555, [4291]); (11556, [4292]); (11557, [4293]);
    (11559, [4295]); (11565, [4301]); (42561, [42560]); (42563, [42562]); (42565, [42564]);
    (42567, [42566]); (42569, [42568]); (42571, [42570]); (42573, [42572]); (42575, [42574]);
    (42577, [42576]); (42579, [42578]); (42581, [42580]); (42583, [42582]); (42585, [42584]);
    (42587, [42586]); (42589, [42588]); (42591, [42590]); (42593, [42592]); (42595, [42594]);
    (42597, [42596]); (42599, [42598]); (42601, [42600]); (42603, [42602]); (42605, [42604]);
    (42625, [42624]); (42627, [42626]); (42629, [42628]); (42631, [42630]); (42633, [42632]);
    (42635, [42634]); (42637, [42636]); (42639, [42638]); (42641, [42640]); (42643, [42642]);
    (42645, [42644]); (42647, [42646]); (42649, [42648]); (42651, [42650]); (42787, [42786]);
    (42789, [42788]); (42791, [42790]); (42793, [42792]); (42795, [42794]); (42797, [42796]);
    (42799, [42798]); (42803, [42802]); (42805, [42804]); (42807, [42806]); (42809, [42808]);
    (42811, [42810]); (42813, [42812]); (42815, [42814]); (42817, [42816]); (42819, [42818]);
    (42821, [42820]); (42823, [42822]); (42825, [42824]); (42827, [42826]); (42829, [42828]);
    (42831, [42830]); (42833, [42832]); (42835, [42834]); (42837, [42836]); (42839, [42838]);
    (42841, [42840]); (42843, [42842]); (42845, [42844]); (42847, [42846]); (42849, [42848]);
    (42851, [42850]); (42853, [42852]); (42855, [42854]); (42857, [42856]); (42859, [42858]);
    (42861, [42860]); (42863, [42862]); (42874, [42873]); (42876, [42875]); (42879, [42878]);
    (42881, [42880]); (42883, [42882]); (42885, [42884]); (42887, [42886]); (42892, [42891]);
    (42897, [42896]); (42899, [42898]); (42900, [42948]); (42903, [42902]); (42905, [42904]);
    (42907, [42906]); (42909, [42908]); (42911, [42910]); (42913, [42912]); (42915, [42914]);
    (42917, [42916]); (42919, [42918]); (42921, [42920]); (42933, [42932]); (42935, [42934]);
    (42937, [42936]); (42939, [42938]); (42941, [42940]); (42943, [42942]); (42945, [42944]);
    (42947, [42946]); (42952, [42951]); (42954, [42953]); (42961, [42960]); (42967, [42966]);
    (42969, [42968]); (42998, [42997]); (43859, [42931]); (43888, [5024]); (43889, [5025]);
    (43890, [5026]); (43891, [5027]); (43892, [5028]); (43893, [5029]); (43894, [5030]);
    (43895, [5031]); (43896, [5032]); (43897, [5033]); (43898, [5034]); (43899, [5035]);
    (43900, [5036]); (43901, [5037]); (43902, [5038]); (43903, [5039]); (43904, [5040]);
    (43905, [5041]); (43906, [5042]); (43907, [5043]); (43908, [5044]); (43909, [5045]);
    (43910, [5046]); (43911, [5047]); (43912, [5048]); (43913, [5049]); (43914, [5050]);
    (43915, [5051]); (43916, [5052]); (43917, [5053]); (43918, [5054]); (43919, [5055]);
    (43920, [5056]); (43921, [5057]); (43922, [5058]); (43923, [5059]); (43924, [5060]);
    (43925, [5061]); (43926, [5062]); (43927, [5063]); (43928, [5064]); (43929, [5065]);
    (43930, [5066]); (43931, [5067]); (43932, [5068]); (43933, [5069]); (43934, [5070]);
    (43935, [5071]); (43936, [5072]); (43937, [5073]); (43938, [5074]); (43939, [5075]);
    (43940, [5076]); (43941, [5077]); (43942, [5078]); (43943, [5079]); (43944, [5080]);
    (43945, [5081]); (43946, [5082]); (43947, [5083]); (43948, [5084]); (43949, [5085]);
    (43950, [5086]); (43951, [5087]); (43952, [5088]); (43953, [5089]); (43954, [5090]);
    (43955, [5091]); (43956, [5092]); (43957, [5093]); (43958, [5094]); (43959, [5095]);
    (43960, [5096]); (43961, [5097]); (43962, [5098]); (43963, [5099]); (43964, [5100]);
    (43965, [5101]); (43966, [5102]); (43967, [5103]); (64256, [70; 70]); (64257, [70; 73]);
    (64258, [70; 76]); (64259, [70; 70; 73]); (64260, [70; 70; 76]); (64261, [83; 84]);
    (64262, [83; 84]); (64275, [1348; 1350]); (64276, [1348; 1333]); (64277, [1348; 1339]);
    (64278, [1358; 1350]); (64279, [1348; 1341]); (65345, [65313]); (65346, [65314]);
    (65347, [65315]); (65348, [65316]); (65349, [65317]); (65350, [65318]); (65351, [65319]);
    (65352, [65320]); (65353, [65321]); (65354, [65322]); (65355, [65323]); (65356, [65324]);
    (65357, [65325]); (65358, [65326]); (65359, [65327]); (65360, [65328]); (65361, [65329]);
    (65362, [65330]); (65363, [65331]); (65364, [65332]); (65365, [65333]); (65366, [65334]);
    (65367, [65335]); (65368, [65336]); (65369, [65337]); (65370, [65338])].

(** The surrogate pairs that change, with what they become. *)
Definition upperPairs : list ((Z * Z) * (Z * Z)) :=
  [((55297, 56360), (55297, 56320)); ((55297, 56361), (55297, 56321));
    ((55297, 56362), (55297, 56322)); ((55297, 56363), (55297, 56323));
    ((55297, 56364), (55297, 56324)); ((55297, 56365), (55297, 56325));
    ((55297, 56366), (55297, 56326)); ((55297, 56367), (55297, 56327));
    ((55297, 56368), (55297, 56328)); ((55297, 56369), (55297, 56329));
    ((55297, 56370), (55297, 56330)); ((55297, 56371), (55297, 56331));
    ((55297, 56372), (55297, 56332)); ((55297, 56373), (55297, 56333));
    ((55297, 56374), (55297, 56334)); ((55297, 56375), (55297, 56335));
    ((55297, 56376), (55297, 56336)); ((55297, 56377), (55297, 56337));
    ((55297, 56378), (55297, 56338)); ((55297, 56379), (55297, 56339));
    ((55297, 56380), (55297, 56340)); ((55297, 56381), (55297, 56341));
    ((55297, 56382), (55297, 56342)); ((55297, 56383), (55297, 56343));
    ((55297, 56384), (55297, 56344)); ((55297, 56385), (55297, 56345));
    ((55297, 56386), (55297, 56346)); ((55297, 56387), (55297, 56347));
    ((55297, 56388), (55297, 56348)); ((55297, 56389), (55297, 56349));
    ((55297, 56390), (55297, 56350)); ((55297, 56391), (55297, 56351));
    ((55297, 56392), (55297, 56352)); ((55297, 56393), (55297, 56353));
    ((55297, 56394), (55297, 56354)); ((55297, 56395), (55297, 56355));
    ((55297, 56396), (55297, 56356)); ((55297, 56397), (55297, 56357));
    ((55297, 56398), (55297, 56358)); ((55297, 56399), (55297, 56359));
    ((55297, 56536), (55297, 56496)); ((55297, 56537), (55297, 56497));
    ((55297, 56538), (55297, 56498)); ((55297, 56539), (55297, 56499));
    ((55297, 56540), (55297, 56500)); ((55297, 56541), (55297, 56501));
    ((55297, 56542), (55297, 56502)); ((55297, 56543), (55297, 56503));
    ((55297, 56544), (55297, 56504)); ((55297, 56545), (55297, 56505));
    ((55297, 56546), (55297, 56506)); ((55297, 56547), (55297, 56507));
    ((55297, 56548), (55297, 56508)); ((55297, 56549), (55297, 56509));
    ((55297, 56550), (55297, 56510)); ((55297, 56551), (55297, 56511));
    ((55297, 56552), (55297, 56512)); ((55297, 56553), (55297, 56513));
    ((55297, 56554), (55297, 56514)); ((55297, 56555), (55297, 56515));
    ((55297, 56556), (55297, 56516)); ((55297, 56557), (55297, 56517));
    ((55297, 56558), (55297, 56518)); ((55297, 56559), (55297, 56519));
    ((55297, 56560), (55297, 56520)); ((55297, 56561), (55297, 56521));
    ((55297, 56562), (55297, 56522)); ((55297, 56563), (55297, 56523));
    ((55297, 56564), (55297, 56524)); ((55297, 56565), (55297, 56525));
    ((55297, 56566), (55297, 56526)); ((55297, 56567), (55297, 56527));
    ((55297, 56568), (55297, 56528)); ((55297, 56569), (55297, 56529));
    ((55297, 56570), (55297, 56530)); ((55297, 56571), (55297, 56531));
    ((55297, 56727), (55297, 56688)); ((55297, 56728), (55297, 56689));
    ((55297, 56729), (55297, 56690)); ((55297, 56730), (55297, 56691));
    ((55297, 56731), (55297, 56692)); ((55297, 56732), (55297, 56693));
    ((55297, 56733), (55297, 56694)); ((55297, 56734), (55297, 56695));
    ((55297, 56735), (55297, 56696)); ((55297, 56736), (55297, 56697));
    ((55297, 56737), (55297, 56698)); ((55297, 56739), (55297, 56700));
    ((55297, 56740), (55297, 56701)); ((55297, 56741), (55297, 56702));
    ((55297, 56742), (55297, 56703)); ((55297, 56743), (55297, 56704));
    ((55297, 56744), (55297, 56705)); ((55297, 56745), (55297, 56706));
    ((55297, 56746), (55297, 56707)); ((55297, 56747), (55297, 56708));
    ((55297, 56748), (55297, 56709)); ((55297, 56749), (55297, 56710));
    ((55297, 56750), (55297, 56711)); ((55297, 56751), (55297, 56712));
    ((55297, 56752), (55297, 56713)); ((55297, 56753), (55297, 56714));
    ((55297, 56755), (55297, 56716)); ((55297, 56756), (55297, 56717));
    ((55297, 56757), (55297, 56718)); ((55297, 56758), (55297, 56719));
    ((55297, 56759), (55297, 56720)); ((55297, 56760), (55297, 56721));
    ((55297, 56761), (55297, 56722)); ((55297, 56763), (55297, 56724));
    ((55297, 56764), (55297, 56725)); ((55299, 56512), (55299, 56448));
    ((55299, 56513), (55299, 56449)); ((55299, 56514), (55299, 56450));
    ((55299, 56515), (55299, 56451)); ((55299, 56516), (55299, 56452));
    ((55299, 56517), (55299, 56453)); ((55299, 56518), (55299, 56454));
    ((55299, 56519), (55299, 56455)); ((55299, 56520), (55299, 56456));
    ((55299, 56521), (55299, 56457)); ((55299, 56522), (55299, 56458));
    ((55299, 56523), (55299, 56459)); ((55299, 56524), (55299, 56460));
    ((55299, 56525), (55299, 56461)); ((55299, 56526), (55299, 56462));
    ((55299, 56527), (55299, 56463)); ((55299, 56528), (55299, 56464));
    ((55299, 56529), (55299, 56465)); ((55299, 56530), (55299, 56466));
    ((55299, 56531), (55299, 56467)); ((55299, 56532), (55299, 56468));
    ((55299, 56533), (55299, 56469)); ((55299, 56534), (55299, 56470));
    ((55299, 56535), (55299, 56471)); ((55299, 56536), (55299, 56472));
    ((55299, 56537), (55299, 56473)); ((55299, 56538), (55299, 56474));
    ((55299, 56539), (55299, 56475)); ((55299, 56540), (55299, 56476));
    ((55299, 56541), (55299, 56477)); ((55299, 56542), (55299, 56478));
    ((55299, 56543), (55299, 56479)); ((55299, 56544), (55299, 56480));
    ((55299, 56545), (55299, 56481)); ((55299, 56546), (55299, 56482));
    ((55299, 56547), (55299, 56483)); ((55299, 56548), (55299, 56484));
    ((55299, 56549), (55299, 56485)); ((55299, 56550), (55299, 56486));
    ((55299, 56551), (55299, 56487)); ((55299, 56552), (55299, 56488));
    ((55299, 56553), (55299, 56489)); ((55299, 56554), (55299, 56490));
    ((55299, 56555), (55299, 56491)); ((55299, 56556), (55299, 56492));
    ((55299, 56557), (55299, 56493)); ((55299, 56558), (55299, 56494));
    ((55299, 56559), (55299, 56495)); ((55299, 56560), (55299, 56496));
    ((55299, 56561), (55299, 56497)); ((55299, 56562), (55299, 56498));
    ((55302, 56512), (55302, 56480)); ((55302, 56513), (55302, 56481));
    ((55302, 56514), (55302, 56482)); ((55302, 56515), (55302, 56483));
    ((55302, 56516), (55302, 56484)); ((55302, 56517), (55302, 56485));
    ((55302, 56518), (55302, 56486)); ((55302, 56519), (55302, 56487));
    ((55302, 56520), (55302, 56488)); ((55302, 56521), (55302, 56489));
    ((55302, 56522), (55302, 56490)); ((55302, 56523), (55302, 56491));
    ((55302, 56524), (55302, 56492)); ((55302, 56525), (55302, 56493));
    ((55302, 56526), (55302, 56494)); ((55302, 56527), (55302, 56495));
    ((55302, 56528), (55302, 56496)); ((55302, 56529), (55302, 56497));
    ((55302, 56530), (55302, 56498)); ((55302, 56531), (55302, 56499));
    ((55302, 56532), (55302, 56500)); ((55302, 56533), (55302, 56501));
    ((55302, 56534), (55302, 56502)); ((55302, 56535), (55302, 56503));
    ((55302, 56536), (55302, 56504)); ((55302, 56537), (55302, 56505));
    ((55302, 56538), (55302, 56506)); ((55302, 56539), (55302, 56507));
    ((55302, 56540), (55302, 56508)); ((55302, 56541), (55302, 56509));
    ((55302, 56542), (55302, 56510)); ((55302, 56543), (55302, 56511));
    ((55323, 56928), (55323, 56896)); ((55323, 56929), (55323, 56897));
    ((55323, 56930), (55323, 56898)); ((55323, 56931), (55323, 56899));
    ((55323, 56932), (55323, 56900)); ((55323, 56933), (55323, 56901));
    ((55323, 56934), (55323, 56902)); ((55323, 56935), (55323, 56903));
    ((55323, 56936), (55323, 56904)); ((55323, 56937), (55323, 56905));
    ((55323, 56938), (55323, 56906)); ((55323, 56939), (55323, 56907));
    ((55323, 56940), (55323, 56908)); ((55323, 56941), (55323, 56909));
    ((55323, 56942), (55323, 56910)); ((55323, 56943), (55323, 56911));
    ((55323, 56944), (55323, 56912)); ((55323, 56945), (55323, 56913));
    ((55323, 56946), (55323, 56914)); ((55323, 56947), (55323, 56915));
    ((55323, 56948), (55323, 56916)); ((55323, 56949), (55323, 56917));
    ((55323, 56950), (55323, 56918)); ((55323, 56951), (55323, 56919));
    ((55323, 56952), (55323, 56920)); ((55323, 56953), (55323, 56921));
    ((55323, 56954), (55323, 56922)); ((55323, 56955), (55323, 56923));
    ((55323, 56956), (55323, 56924)); ((55323, 56957), (55323, 56925));
    ((55323, 56958), (55323, 56926)); ((55323, 56959), (55323, 56927));
    ((55354, 56610), (55354, 56576)); ((55354, 56611), (55354, 56577));
    ((55354, 56612), (55354, 56578)); ((55354, 56613), (55354, 56579));
    ((55354, 56614), (55354, 56580)); ((55354, 56615), (55354, 56581));
    ((55354, 56616), (55354, 56582)); ((55354, 56617), (55354, 56583));
    ((55354, 56618), (55354, 56584)); ((55354, 56619), (55354, 56585));
    ((55354, 56620), (55354, 56586)); ((55354, 56621), (55354, 56587));
    ((55354, 56622), (55354, 56588)); ((55354, 56623), (55354, 56589));
    ((55354, 56624), (55354, 56590)); ((55354, 56625), (55354, 56591));
    ((55354, 56626), (55354, 56592)); ((55354, 56627), (55354, 56593));
    ((55354, 56628), (55354, 56594)); ((55354, 56629), (55354, 56595));
    ((55354, 56630), (55354, 56596)); ((55354, 56631), (55354, 56597));
    ((55354, 56632), (55354, 56598)); ((55354, 56633), (55354, 56599));
    ((55354, 56634), (55354, 56600)); ((55354, 56635), (55354, 56601));
    ((55354, 56636), (55354, 56602)); ((55354, 56637), (55354, 56603));
    ((55354, 56638), (55354, 56604)); ((55354, 56639), (55354, 56605));
    ((55354, 56640), (55354, 56606)); ((55354, 56641), (55354, 56607));
    ((55354, 56642), (55354, 56608)); ((55354, 56643), (55354, 56609))].

(** One code unit that is a code point of its own. *)
Definition upperUnit (c : Z) : jsstring :=
  if c <? 128 then (if (97 <=? c) && (c <=? 122) then [c - 32] else [c])
  else match find (fun e => fst e =? c) upperTable with
       | Some e => snd e
       | None => [c]
       end.

(** A code point written as a surrogate pair. *)
Definition upperPair (h l : Z) : Z * Z :=
  match find (fun e => (fst (fst e) =? h) && (snd (fst e) =? l)) upperPairs with
  | Some e => snd e
  | None => (h, l)
  end.

(** A high surrogate followed by a low one is one code point; every other
    code unit, a lone surrogate included, is a code point of its own. *)
Fixpoint toUpperCase (s : jsstring) : jsstring :=
  match s with
  | [] => []
  | c :: s' =>
      match s' with
      | d :: s'' =>
          if isHighSurrogate c && isLowSurrogate d
          then fst (upperPair c d) :: snd (upperPair c d) :: toUpperCase s''
          else upperUnit c ++ toUpperCase s'
      | [] => upperUnit c
      end
  end.

(** What a code unit written by the upper-casing of another one can be: a
    letter [A]-[Z] or a unit outside ASCII, and neither a surrogate nor
    white space. *)
Definition upperOut (x : Z) : bool :=
  (((65 <=? x) && (x <=? 90)) || (128 <=? x))
  && negb (isHighSurrogate x) && negb (isLowSurrogate x) && negb (isWhiteSpace x).

Fixpoint startsWith (s prefix : jsstring) {struct prefix} : bool :=
  match prefix, s with
  | [], _ => true
  | p :: prefix', c :: s' => (c =? p) && startsWith s' prefix'
  | _ :: _, [] => false
  end.

Definition endsWith (s suffix : jsstring) : bool := startsWith (rev s) (rev suffix).

Definition streq (a b : jsstring) : bool := bool_decide (a = b).

(** [s.indexOf(c)] for a one-character needle; [None] is [-1]. *)
Fixpoint indexOf (c : Z) (s : jsstring) : option nat :=
  match s with
  | [] => None
  | x :: s' => if x =? c then Some 0%nat else S <$> indexOf c s'
  end.

Definition includes (c : Z) (s : jsstring) : bool :=
  match indexOf c s with Some _ => true | None => false end.

(** [s.split(c)] for a one-character separator: [splitAux c cur s] is the
    split of [rev cur ++ s] once [rev cur] has been read. *)
Fixpoint splitAux (c : Z) (cur : jsstring) (s : jsstring) : list jsstring :=
  match s with
  | [] => [rev cur]
  | x :: s' => if x =? c then rev cur :: splitAux c [] s' else splitAux c (x :: cur) s'
  end.

Definition split (c : Z) (s : jsstring) : list jsstring := splitAux c [] s.

(** ** JavaScript numbers *)

(** An integer-valued double, [NaN], or any other double.  A double that is
    not an integer is identified by the text [String(n)] prints for it, which
    determines it; such values come out of [parseFloat] and [Number] only.
    Integers are exact here; the code's doubles agree below [2^53]. *)
Inductive number :=
| Int (z : Z)
| NaN
| Dbl (repr : jsstring).

Fixpoint digitsFuel (fuel : nat) (n : Z) (acc : jsstring) : jsstring :=
  match fuel with
  | O => acc
  | S fuel' =>
      let acc' := (48 + n mod 10) :: acc in
      if n <? 10 then acc' else digitsFuel fuel' (n / 10) acc'
  end.

(** Decimal digits of a non-negative integer. *)
Definition decimal (n : Z) : jsstring :=
  digitsFuel (S (Z.to_nat (Z.log2 n))) n [].

(** [String(n)]. *)
Definition numberToString (n : number) : jsstring :=
  match n with
  | Int z => if z <? 0 then 45 :: decimal (- z) else decimal z
  | NaN => js "NaN"
  | Dbl repr => repr
  end.

Definition digitsValue (ds : jsstring) : Z :=
  fold_left (fun acc d => acc * 10 + (d - 48)) ds 0.

(** [parseInt(s, 10)]: leading white space, an optional sign, then the
    longest run of decimal digits; [NaN] when that run is empty. *)
Definition parseInt (s : jsstring) : number :=
  let t := trimStart s in
  let neg := startsWith t [45] in
  let t' := if startsWith t [45] || startsWith t [43] then sliceFrom t 1 else t in
  match takeWhile isDigit t' with
  | [] => NaN
  | ds => Int (if neg then - digitsValue ds else digitsValue ds)
  end.

(** [s.padStart(n, '0')]. *)
Definition padStart0 (n : nat) (s : jsstring) : jsstring :=
  replicate (n - length s) 48 ++ s.

(** JavaScript truthiness of a number: [0] and [NaN] are falsy. *)
Definition truthy (n : number) : bool :=
  match n with
  | Int z => negb (z =? 0)
  | NaN => false
  | Dbl _ => true
  end.

(** ** Typed values ([src/types.ts]) *)

(** An optional field ([field?: T]) is an [option]; [None] is [undefined]. *)

Module ICalDate.
Record t := mk { year : number; month : number; day : number }.
End ICalDate.

Module ICalDateTime.
Record t := mk {
    year : number; month : number; day : number;
    hour : number; minute : number; second : number;
    utc : bool;
    tzid : option jsstring }.
End ICalDateTime.

Module ICalTime.
Record t := mk { hour : number; minute : number; second : number; utc : bool }.
End ICalTime.

Module ICalDuration.
Record t := mk {
    negative : bool;
    weeks : option number;
    days : option number;
    hours : option number;
    minutes : option number;
    seconds : option number }.
End ICalDuration.

(** [ICalPeriod.end] is [ICalDateTime | ICalDuration], told apart by the
    [type] tag. *)
Inductive PeriodEnd :=
| EndDateTime (dt : ICalDateTime.t)
| EndDuration (d : ICalDuration.t).

Module ICalPeriod.
Record t := mk { start : ICalDateTime.t; end_ : PeriodEnd }.
End ICalPeriod.

Inductive RecurFreq := SECONDLY | MINUTELY | HOURLY | DAILY | WEEKLY | MONTHLY | YEARLY.

Inductive Weekday := SU | MO | TU | WE | TH | FR | SA.

Module ByDayRule.
Record t := mk { day : Weekday; ordwk : option number }.
End ByDayRule.

(** [ICalRecur.until] is [ICalDate | ICalDateTime]. *)
Inductive Until :=
| UntilDate (d : ICalDate.t)
| UntilDateTime (dt : ICalDateTime.t).

Module ICalRecur.
Record t := mk {
    freq : RecurFreq;
    until : option Until;
    count : option number;
    interval : option number;
    bysecond : option (list number);
    byminute : option (list number);
    byhour : option (list number);
    byday : option (list ByDayRule.t);
    bymonthday : option (list number);
    byyearday : option (list number);
    byweekno : option (list number);
    bymonth : option (list number);
    bysetpos : option (list number);
    wkst : option Weekday }.
End ICalRecur.

Inductive Sign := Plus | Minus.

Module ICalUtcOffset.
Record t := mk { sign : Sign; hours : number; minutes : number; seconds : option number }.
End ICalUtcOffset.

Module ICalGeo.
Record t := mk { latitude : number; longitude : number }.
End ICalGeo.

(** [data] is the byte content of the [Uint8Array]. *)
Module ICalBinary.
Record t := mk { data : list Z }.
End ICalBinary.

(** [ICalValue]: the scalars and the nine structured variants. *)
Inductive ICalValue :=
| VString (s : jsstring)
| VNumber (n : number)
| VBoolean (b : bool)
| VDate (v : ICalDate.t)
| VDateTime (v : ICalDateTime.t)
| VTime (v : ICalTime.t)
| VDuration (v : ICalDuration.t)
| VPeriod (v : ICalPeriod.t)
| VRecur (v : ICalRecur.t)
| VUtcOffset (v : ICalUtcOffset.t)
| VGeo (v : ICalGeo.t)
| VBinary (v : ICalBinary.t).

(** A parameter value is [string | readonly string[]]. *)
Inductive ParamValue :=
| PString (s : jsstring)
| PList (l : list jsstring).

(** A parameter record [Record<string, string | string[]>], in the order
    [Object.entries] enumerates it. *)
Abbreviation Params := (list (jsstring * ParamValue)).

(** [params[key]]. *)
Fixpoint getParam (params : Params) (key : jsstring) : option ParamValue :=
  match params with
  | [] => None
  | (k, v) :: rest => if streq k key then Some v else getParam rest key
  end.

(** [params[key] = v]: an existing key keeps its place.  (JavaScript
    enumerates integer-like keys first; parameter names of that shape are not
    told apart here.) *)
Fixpoint setParam (params : Params) (key : jsstring) (v : ParamValue) : Params :=
  match params with
  | [] => [(key, v)]
  | (k, v0) :: rest =>
      if streq k key then (k, v) :: rest else (k, v0) :: setParam rest key v
  end.

(** A call either returns or throws an [Error] with a message. *)
Inductive result (A : Type) :=
| Ok (a : A)
| Throw (msg : jsstring).
Arguments Ok {A} a.
Arguments Throw {A} msg.

Definition bind {A B} (r : result A) (f : A -> result B) : result B :=
  match r with
  | Ok a => f a
  | Throw m => Throw m
  end.

(** [xs.map(f)] where [f] may throw: the first failure aborts the map. *)
Fixpoint mapM {A B} (f : A -> result B) (xs : list A) : result (list B) :=
  match xs with
  | [] => Ok []
  | x :: xs' => bind (f x) (fun y => bind (mapM f xs') (fun ys => Ok (y :: ys)))
  end.

(** The platform conversions the codecs call and this development does not
    define: they go through IEEE doubles or through [Buffer].  None of them
    throws.  The platform also bounds recursion: [callDepth] is the number
    of nested calls of the component builders that the call stack of the
    engine carries; a call nested more deeply fails with a [RangeError]. *)
Record Platform := {
  parseFloat : jsstring -> number;
  toNumber : jsstring -> number;
  base64Decode : jsstring -> list Z;
  base64Encode : list Z -> jsstring;
  callDepth : nat }.

(** ** Value codecs ([src/value-types.ts]) *)

Definition pad2 (n : number) : jsstring := padStart0 2 (numberToString n).
Definition pad4 (n : number) : jsstring := padStart0 4 (numberToString n).

(** [s.replace(/c/g, r)] for a one-character pattern. *)
Fixpoint replaceChar (c : Z) (r : jsstring) (s : jsstring) : jsstring :=
  match s with
  | [] => []
  | x :: s' => if x =? c then r ++ replaceChar c r s' else x :: replaceChar c r s'
  end.

(** [s.replace(/ab/g, r)] for a two-character pattern whose second character
    is any one accepted by [isB]: matches are found left to right and do not
    overlap. *)
Fixpoint replacePair (a : Z) (isB : Z -> bool) (r : jsstring) (s : jsstring) : jsstring :=
  match s with
  | x :: s' =>
      match s' with
      | y :: s'' =>
          if (x =? a) && isB y then r ++ replacePair a isB r s''
          else x :: replacePair a isB r s'
      | [] => [x]
      end
  | [] => []
  end.

Module TEXT.
(** Four global replacements, one after the other, each over the whole
      result of the previous one. *)
Definition parse (raw : jsstring) : jsstring :=
    let s1 := replacePair 92 (fun c => (c =? 110) || (c =? 78)) [10] raw in
    let s2 := replacePair 92 (fun c => c =? 44) [44] s1 in
    let s3 := replacePair 92 (fun c => c =? 59) [59] s2 in
    replacePair 92 (fun c => c =? 92) [92] s3.

(** [serialize] of a string value ([String(val)] is [val]). *)
Definition serialize (val : jsstring) : jsstring :=
    let s1 := replaceChar 92 [92; 92] val in
    let s2 := replaceChar 59 [92; 59] s1 in
    let s3 := replaceChar 44 [92; 44] s2 in
    replaceChar 10 [92; 110] s3.
End TEXT.

Module BOOLEAN.
Definition parse (raw : jsstring) : bool := streq (toUpperCase (trim raw)) (js "TRUE").
Definition serialize (val : bool) : jsstring := if val then js "TRUE" else js "FALSE".
End BOOLEAN.

Module INTEGER.
Definition parse (raw : jsstring) : number := parseInt (trim raw).
End INTEGER.

Module FLOAT.
Definition parse (P : Platform) (raw : jsstring) : number := parseFloat P (trim raw).
End FLOAT.

Module URI.
Definition parse (raw : jsstring) : jsstring := trim raw.
Definition serialize (val : jsstring) : jsstring := val.
End URI.

Module BINARY.
Definition parse (P : Platform) (raw : jsstring) : ICalBinary.t :=
    ICalBinary.mk (base64Decode P (trim raw)).
Definition serialize (P : Platform) (val : ICalBinary.t) : jsstring :=
    base64Encode P (ICalBinary.data val).
End BINARY.

Definition signChar (sg : Sign) : jsstring :=
  match sg with Plus => [43] | Minus => [45] end.

Module UTC_OFFSET.
Definition parse (raw : jsstring) : ICalUtcOffset.t :=
    let s := trim raw in
    let sign := if startsWith s [45] then Minus else Plus in
    let h := parseInt (slice s 1 3) in
    let m := parseInt (slice s 3 5) in
    let sec := if (7 <=? length s)%nat then Some (parseInt (slice s 5 7)) else None in
    ICalUtcOffset.mk sign h m sec.

Definition serialize (val : ICalUtcOffset.t) : jsstring :=
    let base := signChar (ICalUtcOffset.sign val)
                ++ pad2 (ICalUtcOffset.hours val) ++ pad2 (ICalUtcOffset.minutes val) in
    match ICalUtcOffset.seconds val with
    | Some sec => base ++ pad2 sec
    | None => base
    end.
End UTC_OFFSET.

Module DATE.
Definition parse (raw : jsstring) : ICalDate.t :=
    let s := trim raw in
    ICalDate.mk (parseInt (slice s 0 4)) (parseInt (slice s 4 6)) (parseInt (slice s 6 8)).

(** The [ICalDate] branch; the overload for a platform [Date] object is not
      a typed value and is left out. *)
Definition serialize (val : ICalDate.t) : jsstring :=
    pad4 (ICalDate.year val) ++ pad2 (ICalDate.month val) ++ pad2 (ICalDate.day val).
End DATE.

Module DATE_TIME.
Definition parse (raw : jsstring) (params : Params) : ICalDateTime.t :=
    let s := trim raw in
    let utc := endsWith s [90] in
    let core := if utc then dropLast s else s in
    let tzid := match getParam params (js "TZID") with
                | Some (PString t) => Some t
                | _ => None
                end in
    ICalDateTime.mk
      (parseInt (slice core 0 4)) (parseInt (slice core 4 6)) (parseInt (slice core 6 8))
      (parseInt (slice core 9 11)) (parseInt (slice core 11 13)) (parseInt (slice core 13 15))
      utc tzid.

Definition serialize (val : ICalDateTime.t) : jsstring :=
    let core :=
      pad4 (ICalDateTime.year val) ++ pad2 (ICalDateTime.month val)
      ++ pad2 (ICalDateTime.day val) ++ [84]
      ++ pad2 (ICalDateTime.hour val) ++ pad2 (ICalDateTime.minute val)
      ++ pad2 (ICalDateTime.second val) in
    if ICalDateTime.utc val then core ++ [90] else core.
End DATE_TIME.

Module TIME.
Definition parse (raw : jsstring) : ICalTime.t :=
    let s := trim raw in
    let utc := endsWith s [90] in
    let core := if utc then dropLast s else s in
    ICalTime.mk (parseInt (slice core 0 2)) (parseInt (slice core 2 4))
      (parseInt (slice core 4 6)) utc.

Definition serialize (val : ICalTime.t) : jsstring :=
    pad2 (ICalTime.hour val) ++ pad2 (ICalTime.minute val) ++ pad2 (ICalTime.second val)
    ++ (if ICalTime.utc val then [90] else []).
End TIME.

(** One attempt of the pattern [(\d+)u] at the head of [s]: the longest run
    of digits, then the unit letter [u].  A shorter run cannot be followed by
    [u], which is not a digit, so there is nothing to backtrack to. *)
Definition digitsThen (u : Z) (s : jsstring) : option jsstring :=
  match takeWhile isDigit s, dropWhile isDigit s with
  | d :: ds, c :: _ => if c =? u then Some (d :: ds) else None
  | _, _ => None
  end.

(** [s.match(/(\d+)u/)]: the leftmost position where the pattern matches;
    the result is capture group 1. *)
Fixpoint matchDigitsUnit (u : Z) (s : jsstring) : option jsstring :=
  match digitsThen u s with
  | Some ds => Some ds
  | None =>
      match s with
      | [] => None
      | _ :: s' => matchDigitsUnit u s'
      end
  end.

(** [s.match(/^(\d+)W$/)]. *)
Definition matchWeeks (s : jsstring) : option jsstring :=
  match takeWhile isDigit s with
  | d :: ds => if streq (dropWhile isDigit s) [87] then Some (d :: ds) else None
  | [] => None
  end.

(** [s.replace(/^[+-]/, '')]. *)
Definition stripSign (s : jsstring) : jsstring :=
  match s with
  | c :: s' => if (c =? 43) || (c =? 45) then s' else s
  | [] => []
  end.

Definition truthyOpt (o : option number) : bool :=
  match o with
  | Some n => truthy n
  | None => false
  end.

Definition showUnit (o : option number) (u : jsstring) : jsstring :=
  match o with
  | Some n => if truthy n then numberToString n ++ u else []
  | None => []
  end.

Module DURATION.
Definition parse (raw : jsstring) : ICalDuration.t :=
    let s := trim raw in
    let negative := startsWith s [45] in
    let str := stripSign s in
    if negb (startsWith str [80]) then
      ICalDuration.mk negative None (Some (Int 0)) None None None
    else
      let body := sliceFrom str 1 in
      match matchWeeks body with
      | Some w => ICalDuration.mk negative (Some (parseInt w)) None None None None
      | None =>
          let days := parseInt <$> matchDigitsUnit 68 body in
          match indexOf 84 body with
          | Some tIdx =>
              let timePart := sliceFrom body (tIdx + 1) in
              ICalDuration.mk negative None days
                (parseInt <$> matchDigitsUnit 72 timePart)
                (parseInt <$> matchDigitsUnit 77 timePart)
                (parseInt <$> matchDigitsUnit 83 timePart)
          | None => ICalDuration.mk negative None days None None None
          end
      end.

Definition serialize (val : ICalDuration.t) : jsstring :=
    let sign := if ICalDuration.negative val then [45] else [] in
    match ICalDuration.weeks val with
    | Some w => sign ++ [80] ++ numberToString w ++ [87]
    | None =>
        let s := sign ++ [80] in
        let s := s ++ showUnit (ICalDuration.days val) [68] in
        let hasTime := truthyOpt (ICalDuration.hours val)
                       || truthyOpt (ICalDuration.minutes val)
                       || truthyOpt (ICalDuration.seconds val) in
        let s :=
          if hasTime then
            s ++ [84] ++ showUnit (ICalDuration.hours val) [72]
              ++ showUnit (ICalDuration.minutes val) [77]
              ++ showUnit (ICalDuration.seconds val) [83]
          else s in
        (* return s || `${sign}P0D` : the empty string is the only falsy one *)
        match s with
        | [] => sign ++ js "P0D"
        | _ :: _ => s
        end
    end.
End DURATION.

Module PERIOD.
Definition parse (raw : jsstring) : result ICalPeriod.t :=
    match indexOf 47 raw with
    | None => Throw (js "Invalid PERIOD value: " ++ raw)
    | Some slashIdx =>
        let start := DATE_TIME.parse (slice raw 0 slashIdx) [] in
        let endStr := trim (sliceFrom raw (slashIdx + 1)) in
        let end_ :=
          if startsWith endStr (js "P") || startsWith endStr (js "-P")
             || startsWith endStr (js "+P")
          then EndDuration (DURATION.parse endStr)
          else EndDateTime (DATE_TIME.parse endStr []) in
        Ok (ICalPeriod.mk start end_)
    end.

Definition serialize (val : ICalPeriod.t) : jsstring :=
    let startStr := DATE_TIME.serialize (ICalPeriod.start val) in
    let endStr :=
      match ICalPeriod.end_ val with
      | EndDuration d => DURATION.serialize d
      | EndDateTime dt => DATE_TIME.serialize dt
      end in
    startStr ++ [47] ++ endStr.
End PERIOD.

Definition freqToString (f : RecurFreq) : jsstring :=
  match f with
  | SECONDLY => js "SECONDLY" | MINUTELY => js "MINUTELY" | HOURLY => js "HOURLY"
  | DAILY => js "DAILY" | WEEKLY => js "WEEKLY" | MONTHLY => js "MONTHLY"
  | YEARLY => js "YEARLY"
  end.

(** Membership in [VALID_FREQS], with the member found. *)
Definition VALID_FREQS (s : jsstring) : option RecurFreq :=
  find (fun f => streq (freqToString f) s)
    [SECONDLY; MINUTELY; HOURLY; DAILY; WEEKLY; MONTHLY; YEARLY].

Definition weekdayToString (d : Weekday) : jsstring :=
  match d with
  | SU => js "SU" | MO => js "MO" | TU => js "TU" | WE => js "WE"
  | TH => js "TH" | FR => js "FR" | SA => js "SA"
  end.

(** Membership in [VALID_WEEKDAYS], with the member found. *)
Definition VALID_WEEKDAYS (s : jsstring) : option Weekday :=
  find (fun d => streq (weekdayToString d) s) [SU; MO; TU; WE; TH; FR; SA].

(** [s.match(/^([+-]?\d+)?(SU|MO|TU|WE|TH|FR|SA)$/i)]: capture group 1 (when
    it takes part) and the weekday of group 2, upper-cased.  Group 1 takes
    part exactly when digits follow the optional sign. *)
Definition matchByDay (s : jsstring) : option (option jsstring * Weekday) :=
  let '(sg, r) :=
    match s with
    | c :: r' => if (c =? 43) || (c =? 45) then ([c], r') else ([], s)
    | [] => ([], [])
    end in
  match takeWhile isDigit r with
  | [] => (fun d => (None, d)) <$> VALID_WEEKDAYS (toUpperCase s)
  | ds => (fun d => (Some (sg ++ ds), d)) <$> VALID_WEEKDAYS (toUpperCase (dropWhile isDigit r))
  end.

Definition parseByDay (raw : jsstring) : list ByDayRule.t :=
  map (fun s =>
         match matchByDay (trim s) with
         | None => ByDayRule.mk MO None
         | Some (m1, d) => ByDayRule.mk d (parseInt <$> m1)
         end)
      (split 44 raw).

(** [xs.length] is truthy. *)
Definition nonEmpty {A} (o : option (list A)) : option (list A) :=
  match o with
  | Some (x :: xs) => Some (x :: xs)
  | _ => None
  end.

Module RECUR.
(** The [for (const part of parts)] loop filling [map]. *)
Definition buildMap (parts : list jsstring) : gmap jsstring jsstring :=
    fold_left
      (fun (m : gmap jsstring jsstring) part =>
         match indexOf 61 part with
         | None => m
         | Some eq => <[toUpperCase (slice part 0 eq) := sliceFrom part (eq + 1)]> m
         end)
      parts ∅.

Definition parse (P : Platform) (raw : jsstring) : result ICalRecur.t :=
    let parts := split 59 (trim raw) in
    let map_ := buildMap parts in
    let freqStr := toUpperCase (default [] (map_ !! js "FREQ")) in
    match VALID_FREQS freqStr with
    | None => Throw (js "Invalid FREQ in RRULE: " ++ freqStr)
    | Some freq =>
        let parseInts k := (fun v => map (toNumber P) (split 44 v)) <$> map_ !! k in
        let parseWkst k :=
          match map_ !! k with
          | Some v => match toUpperCase v with
                      | [] => None
                      | v' => VALID_WEEKDAYS v'
                      end
          | None => None
          end in
        let until :=
          match map_ !! js "UNTIL" with
          | Some (c :: u') =>
              let u := c :: u' in
              Some (if includes 84 u then UntilDateTime (DATE_TIME.parse u [])
                    else UntilDate (DATE.parse u))
          | _ => None
          end in
        Ok (ICalRecur.mk freq until
              (parseInt <$> map_ !! js "COUNT")
              (parseInt <$> map_ !! js "INTERVAL")
              (parseInts (js "BYSECOND"))
              (parseInts (js "BYMINUTE"))
              (parseInts (js "BYHOUR"))
              (match map_ !! js "BYDAY" with
               | Some (c :: b) => Some (parseByDay (c :: b))
               | _ => None
               end)
              (parseInts (js "BYMONTHDAY"))
              (parseInts (js "BYYEARDAY"))
              (parseInts (js "BYWEEKNO"))
              (parseInts (js "BYMONTH"))
              (parseInts (js "BYSETPOS"))
              (parseWkst (js "WKST")))
    end.

Definition intsPart (key : jsstring) (o : option (list number)) : list jsstring :=
    match nonEmpty o with
    | Some ns => [key ++ join [44] (map numberToString ns)]
    | None => []
    end.

Definition showByDay (d : ByDayRule.t) : jsstring :=
    match ByDayRule.ordwk d with
    | Some n => numberToString n ++ weekdayToString (ByDayRule.day d)
    | None => weekdayToString (ByDayRule.day d)
    end.

(** The [parts] array of [serialize], in the order of its [push] calls. *)
Definition serializeParts (val : ICalRecur.t) : list jsstring :=
    [js "FREQ=" ++ freqToString (ICalRecur.freq val)]
    ++ match ICalRecur.until val with
       | Some (UntilDate d) => [js "UNTIL=" ++ DATE.serialize d]
       | Some (UntilDateTime dt) => [js "UNTIL=" ++ DATE_TIME.serialize dt]
       | None => []
       end
    ++ match ICalRecur.count val with
       | Some n => [js "COUNT=" ++ numberToString n]
       | None => []
       end
    ++ match ICalRecur.interval val with
       | Some n => [js "INTERVAL=" ++ numberToString n]
       | None => []
       end
    ++ intsPart (js "BYSECOND=") (ICalRecur.bysecond val)
    ++ intsPart (js "BYMINUTE=") (ICalRecur.byminute val)
    ++ intsPart (js "BYHOUR=") (ICalRecur.byhour val)
    ++ match nonEmpty (ICalRecur.byday val) with
       | Some ds => [js "BYDAY=" ++ join [44] (map showByDay ds)]
       | None => []
       end
    ++ intsPart (js "BYMONTHDAY=") (ICalRecur.bymonthday val)
    ++ intsPart (js "BYYEARDAY=") (ICalRecur.byyearday val)
    ++ intsPart (js "BYWEEKNO=") (ICalRecur.byweekno val)
    ++ intsPart (js "BYMONTH=") (ICalRecur.bymonth val)
    ++ intsPart (js "BYSETPOS=") (ICalRecur.bysetpos val)
    ++ match ICalRecur.wkst val with
       | Some d => [js "WKST=" ++ weekdayToString d]
       | None => []
       end.

Definition serialize (val : ICalRecur.t) : jsstring :=
    join [59] (serializeParts val).
End RECUR.

Module GEO.
(** [const [lat, lon] = raw.split(';')]; a missing [lon] defaults to ['0']. *)
Definition parse (P : Platform) (raw : jsstring) : ICalGeo.t :=
    match split 59 raw with
    | lat :: lon :: _ => ICalGeo.mk (parseFloat P lat) (parseFloat P lon)
    | [lat] => ICalGeo.mk (parseFloat P lat) (parseFloat P (js "0"))
    | [] => ICalGeo.mk (parseFloat P (js "0")) (parseFloat P (js "0"))
    end.

Definition serialize (val : ICalGeo.t) : jsstring :=
    numberToString (ICalGeo.latitude val) ++ [59] ++ numberToString (ICalGeo.longitude val).
End GEO.

(** The [codec.parse(raw, params)] signature of a [CODECS] entry. *)
Abbreviation CodecParse := (jsstring -> Params -> result ICalValue).

(** [CODECS], the type-name to codec table, by its [parse] members. *)
Definition CODECS (P : Platform) : list (jsstring * CodecParse) :=
  [ (js "TEXT", fun raw _ => Ok (VString (TEXT.parse raw)));
    (js "BOOLEAN", fun raw _ => Ok (VBoolean (BOOLEAN.parse raw)));
    (js "INTEGER", fun raw _ => Ok (VNumber (INTEGER.parse raw)));
    (js "FLOAT", fun raw _ => Ok (VNumber (FLOAT.parse P raw)));
    (js "URI", fun raw _ => Ok (VString (URI.parse raw)));
    (js "CAL-ADDRESS", fun raw _ => Ok (VString (URI.parse raw)));
    (js "BINARY", fun raw _ => Ok (VBinary (BINARY.parse P raw)));
    (js "UTC-OFFSET", fun raw _ => Ok (VUtcOffset (UTC_OFFSET.parse raw)));
    (js "DATE", fun raw _ => Ok (VDate (DATE.parse raw)));
    (js "DATE-TIME", fun raw params => Ok (VDateTime (DATE_TIME.parse raw params)));
    (js "TIME", fun raw _ => Ok (VTime (TIME.parse raw)));
    (js "DURATION", fun raw _ => Ok (VDuration (DURATION.parse raw)));
    (js "PERIOD", fun raw _ => bind (PERIOD.parse raw) (fun v => Ok (VPeriod v)));
    (js "RECUR", fun raw _ => bind (RECUR.parse P raw) (fun v => Ok (VRecur v))) ].

(** [CODECS[typeName]]. *)
Definition lookupCodec (P : Platform) (typeName : jsstring) : option CodecParse :=
  snd <$> find (fun e => streq (fst e) typeName) (CODECS P).

(** ** The property registry ([src/property-registry.ts]) *)

Module PropertyDef.
Record t := mk { defaultType : jsstring; multi : bool }.
End PropertyDef.

Definition pdef (name type : string) : jsstring * PropertyDef.t :=
  (js name, PropertyDef.mk (js type) false).
Definition pdefMulti (name type : string) : jsstring * PropertyDef.t :=
  (js name, PropertyDef.mk (js type) true).

(** [PROPERTY_REGISTRY]: default type and [multi] flag of each entry (the
    [allowedTypes] lists are not read by any function). *)
Definition PROPERTY_REGISTRY : list (jsstring * PropertyDef.t) :=
  [ pdef "CALSCALE" "TEXT"; pdef "METHOD" "TEXT"; pdef "PRODID" "TEXT";
    pdef "VERSION" "TEXT";
    pdef "ATTACH" "URI"; pdefMulti "CATEGORIES" "TEXT"; pdef "CLASS" "TEXT";
    pdef "COMMENT" "TEXT"; pdef "DESCRIPTION" "TEXT"; pdef "GEO" "GEO";
    pdef "LOCATION" "TEXT"; pdef "PERCENT-COMPLETE" "INTEGER";
    pdef "PRIORITY" "INTEGER"; pdefMulti "RESOURCES" "TEXT"; pdef "STATUS" "TEXT";
    pdef "SUMMARY" "TEXT";
    pdef "COMPLETED" "DATE-TIME"; pdef "DTEND" "DATE-TIME"; pdef "DUE" "DATE-TIME";
    pdef "DTSTART" "DATE-TIME"; pdef "DURATION" "DURATION";
    pdefMulti "FREEBUSY" "PERIOD"; pdef "TRANSP" "TEXT";
    pdef "TZID" "TEXT"; pdef "TZNAME" "TEXT"; pdef "TZOFFSETFROM" "UTC-OFFSET";
    pdef "TZOFFSETTO" "UTC-OFFSET"; pdef "TZURL" "URI";
    pdef "ATTENDEE" "CAL-ADDRESS"; pdef "CONTACT" "TEXT";
    pdef "ORGANIZER" "CAL-ADDRESS"; pdef "RECURRENCE-ID" "DATE-TIME";
    pdef "RELATED-TO" "TEXT"; pdef "URL" "URI"; pdef "UID" "TEXT";
    pdefMulti "EXDATE" "DATE-TIME"; pdefMulti "RDATE" "DATE-TIME";
    pdef "RRULE" "RECUR"; pdef "EXRULE" "RECUR";
    pdef "ACTION" "TEXT"; pdef "REPEAT" "INTEGER"; pdef "TRIGGER" "DURATION";
    pdef "CREATED" "DATE-TIME"; pdef "DTSTAMP" "DATE-TIME";
    pdef "LAST-MODIFIED" "DATE-TIME"; pdef "SEQUENCE" "INTEGER";
    pdef "REQUEST-STATUS" "TEXT" ].

(** [PROPERTY_REGISTRY[name]].  A name inherited from [Object.prototype]
    yields an object with neither [defaultType] nor [multi], which both
    callers treat as they treat [undefined]. *)
Definition getPropertyDef (name : jsstring) : option PropertyDef.t :=
  snd <$> find (fun e => streq (fst e) name) PROPERTY_REGISTRY.

Definition resolveValueType (name : jsstring) (params : Params) : jsstring :=
  let override :=
    match getParam params (js "VALUE") with
    | Some (PString v) => Some (toUpperCase v)
    | _ => None
    end in
  match override with
  | Some (c :: o) => c :: o
  | _ => default (js "TEXT") (PropertyDef.defaultType <$> getPropertyDef name)
  end.

(** ** Properties ([src/property.ts]) *)

(** [Property.value] is [ICalValue | readonly ICalValue[]]. *)
Inductive PropValue :=
| Single (v : ICalValue)
| Multi (vs : list ICalValue).

Module Property.
Record t := mk {
    name : jsstring;
    params : Params;
    value : PropValue;
    rawValue : jsstring }.
End Property.

(** [new Property(name, value, params, rawValue)]. *)
Definition newProperty (name : jsstring) (value : PropValue) (params : Params)
    (rawValue : jsstring) : Property.t :=
  Property.mk (toUpperCase name) params value rawValue.

(** [/[;:,]/.test(s)]. *)
Definition needsQuote (s : jsstring) : bool :=
  existsb (fun c => (c =? 59) || (c =? 58) || (c =? 44)) s.

Definition serializeParams (params : Params) : jsstring :=
  fold_left
    (fun result '(key, val) =>
       let valStr := match val with
                     | PList l => join [44] l
                     | PString v => v
                     end in
       result ++ [59] ++ key ++ [61]
         ++ (if needsQuote valStr then [34] ++ valStr ++ [34] else valStr))
    params [].

(** The loop of [splitMultiValue] over the unread rest of [raw]. *)
Fixpoint splitMultiValueLoop (parts : list jsstring) (current : jsstring)
    (rest : jsstring) : list jsstring :=
  match rest with
  | [] => parts ++ [current]
  | c :: rest' =>
      match rest' with
      | d :: rest'' =>
          if c =? 92 then splitMultiValueLoop parts (current ++ [c; d]) rest''
          else if c =? 44 then splitMultiValueLoop (parts ++ [current]) [] rest'
          else splitMultiValueLoop parts (current ++ [c]) rest'
      | [] =>
          if c =? 44 then parts ++ [current] ++ [[]]
          else parts ++ [current ++ [c]]
      end
  end.

Definition splitMultiValue (raw : jsstring) : list jsstring :=
  splitMultiValueLoop [] [] raw.

(** [try { body } catch { handler }]. *)
Definition catch {A} (body : result A) (handler : result A) : result A :=
  match body with
  | Ok a => Ok a
  | Throw _ => handler
  end.

(** The [try] block of [parseProperty]. *)
Definition parsePropertyTry (P : Platform) (name rawValue : jsstring) (params : Params)
    (typeName : jsstring) (def : option PropertyDef.t) : result Property.t :=
  if streq typeName (js "GEO") then
    Ok (newProperty name (Single (VGeo (GEO.parse P rawValue))) params rawValue)
  else
    let codec :=
      default (fun raw _ => Ok (VString (TEXT.parse raw))) (lookupCodec P typeName) in
    if default false (PropertyDef.multi <$> def) then
      let parts := splitMultiValue rawValue in
      bind (mapM (fun p => codec p params) parts) (fun values =>
      Ok (newProperty name (Multi values) params rawValue))
    else
      bind (codec rawValue params) (fun value =>
      Ok (newProperty name (Single value) params rawValue)).

Definition parseProperty (P : Platform) (name rawValue : jsstring) (params : Params)
    : result Property.t :=
  let typeName := resolveValueType name params in
  let def := getPropertyDef name in
  catch (parsePropertyTry P name rawValue params typeName def)
        (Ok (newProperty name (Single (VString rawValue)) params rawValue)).

(** ** The tokenizer ([src/tokenize.ts]) *)

Module ContentLine.
Record t := mk { name : jsstring; params : Params; value : jsstring }.
End ContentLine.

(** Normalize line endings and unfold continuation lines. *)
Definition unfold (str : jsstring) : jsstring :=
  let s1 := replacePair 13 (fun c => c =? 10) [10] str in
  let s2 := replaceChar 13 [10] s1 in
  replacePair 10 (fun c => (c =? 32) || (c =? 9)) [] s2.

Definition isNameEnd (c : Z) : bool := (c =? 58) || (c =? 59).
Definition isParamNameEnd (c : Z) : bool := (c =? 61) || (c =? 59) || (c =? 58).
Definition isParamValueEnd (c : Z) : bool := (c =? 44) || (c =? 59) || (c =? 58).

(** The body of the [do ... while] loop that reads the values of one
    parameter: a quoted value runs to the next quote, which is consumed when
    there is one; an unquoted value runs to the next [,], [;] or [:] and is
    trimmed. *)
Definition paramValue (values : list jsstring) (rest : jsstring)
    : list jsstring * jsstring :=
  if startsWith rest [34] then
    let r := sliceFrom rest 1 in
    let v := takeWhile (fun c => negb (c =? 34)) r in
    (values ++ [v], sliceFrom (dropWhile (fun c => negb (c =? 34)) r) 1)
  else
    let v := takeWhile (fun c => negb (isParamValueEnd c)) rest in
    (values ++ [trim v], dropWhile (fun c => negb (isParamValueEnd c)) rest).

(** The [do ... while] loop reading the values of one parameter, on the
    unread rest of the line: it returns [values] and the rest at loop exit.
    An iteration that goes round again has consumed a comma, so the fuel
    [length rest + 1] is never exhausted. *)
Fixpoint paramValuesLoop (fuel : nat) (values : list jsstring) (rest : jsstring)
    : list jsstring * jsstring :=
  match fuel with
  | O => (values, rest)
  | S fuel' =>
      let '(values', rest') := paramValue values rest in
      if startsWith rest' [44] then paramValuesLoop fuel' values' (sliceFrom rest' 1)
      else (values', rest')
  end.

(** The [while (i < len && line[i] === ';')] loop over the parameters. *)
Fixpoint paramsLoop (fuel : nat) (params : Params) (rest : jsstring) : Params * jsstring :=
  match fuel with
  | O => (params, rest)
  | S fuel' =>
      if startsWith rest [59] then
          let r := sliceFrom rest 1 in
          let paramName :=
            toUpperCase (trim (takeWhile (fun c => negb (isParamNameEnd c)) r)) in
          let r1 := dropWhile (fun c => negb (isParamNameEnd c)) r in
          let '(values, r2) :=
            if startsWith r1 [61]
            then paramValuesLoop (length r1) [] (sliceFrom r1 1)
            else ([], r1) in
          let params' :=
            match paramName with
            | [] => params
            | _ :: _ =>
                setParam params paramName
                  (match values with
                   | [v] => PString v
                   | _ => PList values
                   end)
            end in
          paramsLoop fuel' params' r2
      else (params, rest)
  end.

(** [None] is the [null] result. *)
Definition parseContentLine (line : jsstring) : option ContentLine.t :=
  match line with
  | [] => None
  | _ :: _ =>
      let name := toUpperCase (trim (takeWhile (fun c => negb (isNameEnd c)) line)) in
      let rest := dropWhile (fun c => negb (isNameEnd c)) line in
      match name with
      | [] => None
      | _ :: _ =>
          let '(params, rest') := paramsLoop (length rest) [] rest in
          let value := if startsWith rest' [58] then sliceFrom rest' 1 else rest' in
          Some (ContentLine.mk name params value)
      end
  end.

Definition tokenize (src : jsstring) : list ContentLine.t :=
  fold_left
    (fun result line =>
       match trim line with
       | [] => result
       | _ :: _ =>
           match parseContentLine line with
           | Some parsed => result ++ [parsed]
           | None => result
           end
       end)
    (split 10 (unfold src)) [].

(** ** Line folding ([src/component.ts]) *)

(** Count UTF-8 octets in a string: the [for] loop of [octetLen], where the
    surrogate branch performs the extra [i++]. *)
Fixpoint octetLen (s : jsstring) : Z :=
  match s with
  | [] => 0
  | c :: s' =>
      if c <? 0x80 then 1 + octetLen s'
      else if c <? 0x800 then 2 + octetLen s'
      else if (c <? 0xd800) || (0xe000 <=? c) then 3 + octetLen s'
      else match s' with
           | [] => 4
           | _ :: s'' => 4 + octetLen s''
           end
  end.

(** The [charOctets] computed at the top of [foldLine]'s inner loop. *)
Definition charOctets (c : Z) : Z :=
  if c <? 0x80 then 1
  else if c <? 0x800 then 2
  else if (c <? 0xd800) || (0xe000 <=? c) then 3
  else 4.

(** The inner [while (end < line.length)] loop of [foldLine], run on the
    suffix [line.slice(end)]; the result is [end - pos] at loop exit. *)
Fixpoint scanChunk (maxOctets octets : Z) (rest : jsstring) : nat :=
  match rest with
  | [] => 0%nat
  | c :: rest' =>
      if octets + charOctets c >? maxOctets then 0%nat
      else if (0xd800 <=? c) && (c <? 0xdc00) then
        match rest' with
        | [] => 2%nat
        | _ :: rest'' => (2 + scanChunk maxOctets (octets + charOctets c) rest'')%nat
        end
      else (1 + scanChunk maxOctets (octets + charOctets c) rest')%nat
  end.

(** The outer [while (pos < line.length)] loop of [foldLine].  Every
    iteration that does not [break] advances [pos], so [length line] rounds
    of fuel are never exhausted (lemma [foldLoop_fuel]). *)
Fixpoint foldLoop (fuel : nat) (line : jsstring) (pos : nat) (firstLine : bool)
    (chunks : list jsstring) : list jsstring :=
  match fuel with
  | O => chunks
  | S fuel' =>
      if (pos <? length line)%nat then
        let maxOctets := if firstLine then 75 else 74 in
        let end_ := (pos + scanChunk maxOctets 0 (drop pos line))%nat in
        if (end_ =? pos)%nat then chunks
        else
          foldLoop fuel' line end_ false
            (chunks ++ [(if firstLine then [] else [32]) ++ slice line pos end_])
      else chunks
  end.

Definition foldChunks (line : jsstring) : list jsstring :=
  foldLoop (length line) line 0 true [].

Definition foldLine (line : jsstring) : jsstring :=
  if octetLen line <=? 75 then line
  else join CRLF (foldChunks line).


(** *** UTF-16 and UTF-8, to state what folding achieves *)


(** Well-formed UTF-16: surrogates occur in pairs only, high then low. *)
Fixpoint wellFormed (s : jsstring) : bool :=
  match s with
  | [] => true
  | c :: s' =>
      if isHighSurrogate c then
        match s' with
        | d :: s'' => isLowSurrogate d && wellFormed s''
        | [] => false
        end
      else negb (isLowSurrogate c) && wellFormed s'
  end.

(** The length of the UTF-8 encoding, [Buffer.byteLength(s, 'utf8')]: a
    surrogate pair is one four-octet character, and a surrogate on its own
    is encoded as the three-octet replacement character. *)
Fixpoint utf8Length (s : jsstring) : Z :=
  match s with
  | [] => 0
  | c :: s' =>
      if c <? 0x80 then 1 + utf8Length s'
      else if c <? 0x800 then 2 + utf8Length s'
      else if isHighSurrogate c then
        match s' with
        | d :: s'' => if isLowSurrogate d then 4 + utf8Length s'' else 3 + utf8Length s'
        | [] => 3
        end
      else 3 + utf8Length s'
  end.

(** The segments [foldLine] pushes for a list of payloads: each but the
    first of the line is preceded by a SPACE. *)
Definition segments (first : bool) (payloads : list jsstring) : list jsstring :=
  match payloads with
  | [] => []
  | p :: ps => ((if first then [] else [32]) ++ p) :: map (cons 32) ps
  end.

(** ** Components ([src/component.ts]) *)

(** A [Component] object: [type], the ordered [_props], the name index
    [_index] (a [Map<string, Property[]>]) and the child [components].  The
    subclasses ([Calendar], [Event], ...) add accessors only, no state. *)
Inductive Component := mkComponent {
  type : jsstring;
  _props : list Property.t;
  _index : gmap jsstring (list Property.t);
  components : list Component }.

(** [new Component(type)]. *)
Definition newComponent (type : jsstring) : Component :=
  mkComponent (toUpperCase type) [] ∅ [].

Definition getProperties (c : Component) (name : jsstring) : list Property.t :=
  default [] (_index c !! toUpperCase name).

Definition getProperty (c : Component) (name : jsstring) : option Property.t :=
  head (getProperties c name).

Definition addProperty (c : Component) (prop : Property.t) : Component :=
  let key := Property.name prop in
  mkComponent (type c)
    (_props c ++ [prop])
    (match _index c !! key with
     | Some existing => <[key := existing ++ [prop]]> (_index c)
     | None => <[key := [prop]]> (_index c)
     end)
    (components c).

(** [arr.findIndex(p => p.name === key)]; [None] is [-1]. *)
Fixpoint findIndex (key : jsstring) (props : list Property.t) : option nat :=
  match props with
  | [] => None
  | p :: props' =>
      if streq (Property.name p) key then Some 0%nat else S <$> findIndex key props'
  end.

(** [arr.splice(i, 0, x)] for [0 <= i <= arr.length]. *)
Definition spliceIn {A} (i : nat) (x : A) (l : list A) : list A :=
  take i l ++ x :: drop i l.

(** [value] is [None] for [null] or [undefined]. *)
Definition setProperty (c : Component) (name : jsstring) (value : option PropValue)
    (params : Params) : Component :=
  let key := toUpperCase name in
  let idx := findIndex key (_props c) in
  let props1 := match idx with
                | Some i => delete i (_props c)
                | None => _props c
                end in
  let index1 := delete key (_index c) in
  match value with
  | None => mkComponent (type c) props1 index1 (components c)
  | Some v =>
      let prop := newProperty key v params [] in
      let insertAt :=
        match idx with
        | Some i => if (i <? length props1)%nat then i else length props1
        | None => length props1
        end in
      mkComponent (type c) (spliceIn insertAt prop props1)
        (<[key := [prop]]> index1) (components c)
  end.

Definition appendProperty (c : Component) (name : jsstring) (value : PropValue)
    (params : Params) : Component :=
  addProperty c (newProperty (toUpperCase name) value params []).

Definition removeProperty (c : Component) (name : jsstring) : Component :=
  let key := toUpperCase name in
  mkComponent (type c)
    (filter (fun p => Property.name p ≠ key) (_props c))
    (delete key (_index c))
    (components c).

Definition addComponent (c : Component) (comp : Component) : Component :=
  mkComponent (type c) (_props c) (_index c) (components c ++ [comp]).

(** ** Document parsing ([src/parse.ts]) *)

Module RawProp.
Record t := mk { name : jsstring; params : list (jsstring * jsstring); value : jsstring }.
End RawProp.

Module RawNode.
Inductive t := mk { type : jsstring; props : list RawProp.t; children : list t }.
End RawNode.

(** [current.props.push(prop)]. *)
Definition pushProp (node : RawNode.t) (prop : RawProp.t) : RawNode.t :=
  RawNode.mk (RawNode.type node) (RawNode.props node ++ [prop]) (RawNode.children node).

(** [parent.children.push(child)]. *)
Definition pushChild (child parent : RawNode.t) : RawNode.t :=
  RawNode.mk (RawNode.type parent) (RawNode.props parent) (RawNode.children parent ++ [child]).

(** The parameter normalization of [buildTree]: every value becomes a
    string, a list by [join(',')]. *)
Definition normalizeParams (params : Params) : list (jsstring * jsstring) :=
  map (fun '(k, v) =>
         (k, match v with
             | PList l => join [44] l
             | PString x => x
             end))
      params.

(** One round of the [for (const token of tokens)] loop of [buildTree].

    The source pushes a new node both onto [current.children] and onto
    [stack], and later mutates it through the stack.  A node on the stack
    stays the last child of the node below it for as long as it is there,
    because children are only ever added to the stack top.  The stack is
    therefore kept top first with each node detached from its parent, and a
    node joins its parent's [children] when it leaves the stack. *)
Definition buildTreeStep (stack : list RawNode.t) (token : ContentLine.t)
    : list RawNode.t :=
  match stack with
  | [] => []
  | current :: below =>
      if streq (ContentLine.name token) (js "BEGIN") then
        RawNode.mk (trim (toUpperCase (ContentLine.value token))) [] [] :: current :: below
      else if streq (ContentLine.name token) (js "END") then
        match below with
        | parent :: below' => pushChild current parent :: below'
        | [] => stack
        end
      else
        pushProp current
          (RawProp.mk (ContentLine.name token)
             (normalizeParams (ContentLine.params token))
             (ContentLine.value token))
        :: below
  end.

(** The nodes still on the stack when the tokens run out are children of
    the nodes below them. *)
Definition closeStack (stack : list RawNode.t) : option RawNode.t :=
  match stack with
  | [] => None
  | top :: below => Some (fold_left pushChild below top)
  end.

Definition buildTreeFrom (tokens : list ContentLine.t) : list RawNode.t :=
  match closeStack (fold_left buildTreeStep tokens [RawNode.mk (js "ROOT") [] []]) with
  | Some root => RawNode.children root
  | None => []
  end.

Definition buildTree (src : jsstring) : list RawNode.t := buildTreeFrom (tokenize src).

(** A [Record<string, string>] read as a parameter record. *)
Definition stringParams (params : list (jsstring * jsstring)) : Params :=
  map (fun '(k, v) => (k, PString v)) params.

(** The two loops shared by every [fromRaw] factory and by [buildGeneric]:
    [addProperty(parseProperty(...))] for each raw property, then
    [addComponent] for each sub-component. *)
Definition addRawProps (P : Platform) (c : Component) (props : list RawProp.t)
    : result Component :=
  fold_left
    (fun acc prop =>
       bind acc (fun c =>
       bind (parseProperty P (RawProp.name prop) (RawProp.value prop)
               (stringParams (RawProp.params prop)))
            (fun p => Ok (addProperty c p))))
    props (Ok c).

Definition fromRaw (P : Platform) (type : jsstring) (props : list RawProp.t)
    (subcomponents : list Component) : result Component :=
  bind (addRawProps P (newComponent type) props) (fun c =>
  Ok (fold_left addComponent subcomponents c)).

(** What a call fails with when the call stack has no room for it. *)
Definition stackOverflow : jsstring := js "RangeError: Maximum call stack size exceeded".

(** [buildComponent] with the builders it dispatches to.  [Journal],
    [FreeBusy], [Alarm] and the time-zone rules take the properties only.

    The builders recurse on the sub-components outside any [try], so a
    tree nested more deeply than the call stack carries makes them fail:
    [depth] is the number of nested calls there is still room for. *)
Fixpoint buildComponent (P : Platform) (depth : nat) (node : RawNode.t)
    : result Component :=
  match depth with
  | O => Throw stackOverflow
  | S depth' =>
      let t := RawNode.type node in
      let withChildren (type : jsstring) :=
        bind (mapM (buildComponent P depth') (RawNode.children node)) (fun children =>
        fromRaw P type (RawNode.props node) children) in
      let propsOnly (type : jsstring) := fromRaw P type (RawNode.props node) [] in
      if streq t (js "VCALENDAR") then withChildren (js "VCALENDAR")
      else if streq t (js "VEVENT") then withChildren (js "VEVENT")
      else if streq t (js "VTODO") then withChildren (js "VTODO")
      else if streq t (js "VJOURNAL") then propsOnly (js "VJOURNAL")
      else if streq t (js "VFREEBUSY") then propsOnly (js "VFREEBUSY")
      else if streq t (js "VTIMEZONE") then withChildren (js "VTIMEZONE")
      else if streq t (js "VALARM") then propsOnly (js "VALARM")
      else if streq t (js "STANDARD") then propsOnly (js "STANDARD")
      else if streq t (js "DAYLIGHT") then propsOnly (js "DAYLIGHT")
      else
        (* buildGeneric *)
        bind (addRawProps P (newComponent t) (RawNode.props node)) (fun comp =>
        bind (mapM (buildComponent P depth') (RawNode.children node)) (fun children =>
        Ok (fold_left addComponent children comp)))
  end.

Definition buildCalendar (P : Platform) (depth : nat) (node : RawNode.t)
    : result Component :=
  match depth with
  | O => Throw stackOverflow
  | S depth' =>
      bind (mapM (buildComponent P depth') (RawNode.children node)) (fun children =>
      fromRaw P (js "VCALENDAR") (RawNode.props node) children)
  end.

Definition parse (P : Platform) (src : jsstring) : result Component :=
  let roots := buildTree src in
  match find (fun n => streq (RawNode.type n) (js "VCALENDAR")) roots with
  | Some calNode => buildCalendar P (callDepth P) calNode
  | None =>
      bind (mapM (buildComponent P (callDepth P)) roots) (fun comps =>
      Ok (fold_left addComponent comps (newComponent (js "VCALENDAR"))))
  end.

(** How deep a tree nests: one for the component itself. *)
Fixpoint nesting (n : RawNode.t) : nat :=
  S (foldr Nat.max 0%nat (map nesting (RawNode.children n))).

(** Every top-level component of the text nests no deeper than the call
    stack carries. *)
Definition withinCallDepth (P : Platform) (src : jsstring) : Prop :=
  Forall (fun n => (nesting n <= callDepth P)%nat) (buildTree src).

(** ** Predicates used to state what the parser does with parameters *)

(** A parameter value written bare: no separator, no quote, nothing for
    [trim] to remove. *)
Definition plainValue (v : jsstring) : bool :=
  forallb (fun c => negb (isParamValueEnd c) && negb (c =? 34)) v && streq (trim v) v.

(** A parameter name, and a property name, already trimmed and upper-cased. *)
Definition plainParamName (k : jsstring) : bool :=
  forallb (fun c => negb (isParamNameEnd c)) k
  && streq (toUpperCase (trim k)) k && negb (streq k []).

Definition plainName (n : jsstring) : bool :=
  forallb (fun c => negb (isNameEnd c)) n
  && streq (toUpperCase (trim n)) n && negb (streq n []).

(** A one-element list, which the tokenizer never stores. *)
Definition noSingletonList (v : ParamValue) : bool :=
  match v with
  | PList [_] => false
  | _ => true
  end.

(** A bare string. *)
Definition isPString (v : ParamValue) : bool :=
  match v with
  | PString _ => true
  | PList _ => false
  end.

(** Every parameter of every property in the tree is a bare string. *)
Fixpoint stringParamsOnly (c : Component) : bool :=
  forallb (fun p => forallb (fun kv => isPString kv.2) (Property.params p)) (_props c)
  && forallb stringParamsOnly (components c).

(** ** The values whose text the codecs read back *)

(** [c] does not occur in [s]. *)
Definition lacks (c : Z) (s : jsstring) : bool := forallb (fun x => negb (x =? c)) s.

(** No character of [s] is white space. *)
Definition noWS (s : jsstring) : bool := forallb (fun c => negb (isWhiteSpace c)) s.

(** The number is an integer in [lo, hi). *)
Definition inRange (lo hi : Z) (n : number) : Prop :=
  match n with
  | Int z => lo <= z < hi
  | _ => False
  end.

(** A date whose fields fit the four and two digits of [YYYYMMDD]. *)
Definition validDate (v : ICalDate.t) : Prop :=
  inRange 0 10000 (ICalDate.year v) /\ inRange 0 100 (ICalDate.month v)
  /\ inRange 0 100 (ICalDate.day v).

(** A date-time whose fields fit [YYYYMMDDTHHMMSS]. *)
Definition validDateTime (v : ICalDateTime.t) : Prop :=
  inRange 0 10000 (ICalDateTime.year v) /\ inRange 0 100 (ICalDateTime.month v)
  /\ inRange 0 100 (ICalDateTime.day v) /\ inRange 0 100 (ICalDateTime.hour v)
  /\ inRange 0 100 (ICalDateTime.minute v) /\ inRange 0 100 (ICalDateTime.second v).

(** The parameter record that carries a [tzid]. *)
Definition tzidParams (tzid : option jsstring) : Params :=
  match tzid with
  | Some t => [(js "TZID", PString t)]
  | None => []
  end.

(** The same instant with no [tzid]. *)
Definition withoutTzid (v : ICalDateTime.t) : ICalDateTime.t :=
  ICalDateTime.mk (ICalDateTime.year v) (ICalDateTime.month v) (ICalDateTime.day v)
    (ICalDateTime.hour v) (ICalDateTime.minute v) (ICalDateTime.second v)
    (ICalDateTime.utc v) None.

(** An offset whose fields fit two digits each. *)
Definition validUtcOffset (v : ICalUtcOffset.t) : Prop :=
  inRange 0 100 (ICalUtcOffset.hours v) /\ inRange 0 100 (ICalUtcOffset.minutes v)
  /\ match ICalUtcOffset.seconds v with
     | Some s => inRange 0 100 s
     | None => True
     end.

(** [Number.MAX_SAFE_INTEGER]: integers up to it are exact doubles. *)
Definition MAX_SAFE_INTEGER : Z := 9007199254740991.

(** A duration unit is absent or a positive safe integer. *)
Definition unitOK (o : option number) : Prop :=
  match o with
  | Some n => inRange 1 (MAX_SAFE_INTEGER + 1) n
  | None => True
  end.

(** Weeks alone, or the day and time group with at least one unit. *)
Definition validDuration (v : ICalDuration.t) : Prop :=
  match ICalDuration.weeks v with
  | Some w =>
      inRange 0 (MAX_SAFE_INTEGER + 1) w
      /\ ICalDuration.days v = None /\ ICalDuration.hours v = None
      /\ ICalDuration.minutes v = None /\ ICalDuration.seconds v = None
  | None =>
      unitOK (ICalDuration.days v) /\ unitOK (ICalDuration.hours v)
      /\ unitOK (ICalDuration.minutes v) /\ unitOK (ICalDuration.seconds v)
      /\ (ICalDuration.days v <> None \/ ICalDuration.hours v <> None
          \/ ICalDuration.minutes v <> None \/ ICalDuration.seconds v <> None)
  end.

(** No [tzid] is recorded. *)
Definition floating (v : ICalDateTime.t) : Prop := ICalDateTime.tzid v = None.

(** A period of date-times without [tzid], or of one and a duration. *)
Definition validPeriod (v : ICalPeriod.t) : Prop :=
  validDateTime (ICalPeriod.start v) /\ floating (ICalPeriod.start v)
  /\ match ICalPeriod.end_ v with
     | EndDateTime dt => validDateTime dt /\ floating dt
     | EndDuration d => validDuration d
     end.

(** An integer the doubles represent exactly. *)
Definition safeInt (n : number) : Prop :=
  inRange (- MAX_SAFE_INTEGER) (MAX_SAFE_INTEGER + 1) n.

(** Absent, or a safe integer. *)
Definition optSafeInt (o : option number) : Prop :=
  match o with
  | Some n => safeInt n
  | None => True
  end.

(** Absent, or a non-empty list of safe integers. *)
Definition validInts (o : option (list number)) : Prop :=
  match o with
  | Some ns => ns <> [] /\ Forall safeInt ns
  | None => True
  end.

(** A rule whose optional fields are absent or hold what the text carries:
    an [until] as above, integer [count] and [interval], non-empty lists. *)
Definition validRecur (v : ICalRecur.t) : Prop :=
  match ICalRecur.until v with
  | Some (UntilDate d) => validDate d
  | Some (UntilDateTime dt) => validDateTime dt /\ floating dt
  | None => True
  end
  /\ optSafeInt (ICalRecur.count v) /\ optSafeInt (ICalRecur.interval v)
  /\ validInts (ICalRecur.bysecond v) /\ validInts (ICalRecur.byminute v)
  /\ validInts (ICalRecur.byhour v)
  /\ match ICalRecur.byday v with
     | Some ds => ds <> [] /\ Forall (fun d => optSafeInt (ByDayRule.ordwk d)) ds
     | None => True
     end
  /\ validInts (ICalRecur.bymonthday v) /\ validInts (ICalRecur.byyearday v)
  /\ validInts (ICalRecur.byweekno v) /\ validInts (ICalRecur.bymonth v)
  /\ validInts (ICalRecur.bysetpos v).

(** [map[key] = value] when there is a value. *)
Definition optInsert (key : jsstring) (o : option jsstring) (m : gmap jsstring jsstring)
    : gmap jsstring jsstring :=
  match o with
  | Some v => <[key := v]> m
  | None => m
  end.

(** The part [KEY=value] pushed for a field that has a value. *)
Definition optPart (key : jsstring) (o : option jsstring) : list jsstring :=
  match o with
  | Some s => [key ++ 61 :: s]
  | None => []
  end.

(** The text of an [UNTIL] value. *)
Definition untilText (u : Until) : jsstring :=
  match u with
  | UntilDate d => DATE.serialize d
  | UntilDateTime dt => DATE_TIME.serialize dt
  end.

(** The text of a [BYxxx] list and of [BYDAY]. *)
Definition intsText (ns : list number) : jsstring := join [44] (map numberToString ns).
Definition byDayText (ds : list ByDayRule.t) : jsstring := join [44] (map RECUR.showByDay ds).

(** Free of white space, [;] and [,]. *)
Definition clean (s : jsstring) : bool := noWS s && lacks 59 s && lacks 44 s.

(** The characters of a printed integer. *)
Definition numChar (c : Z) : bool := isDigit c || (c =? 45).

(** The characters of a serialized date-time. *)
Definition dateTimeChar (c : Z) : bool := isDigit c || (c =? 84) || (c =? 90).

(** A part [KEY=value] of a serialized rule has no white space and no [;]. *)
Definition partOK (p : jsstring) : Prop := noWS p = true /\ lacks 59 p = true.

(** An element of a [Uint8Array]. *)
Definition isByte (b : Z) : Prop := 0 <= b < 256.

(** ** A reference platform *)

(** An instance of [Platform] to run the codecs on: base64 as in RFC 4648,
    read the lenient way [Buffer.from(s, 'base64')] reads it (characters
    outside the alphabet are skipped, [=] ends the data, [-] and [_] stand
    for [+] and [/]), and the number conversions on integer literals, where
    they are exact. *)

Definition b64char (i : Z) : Z :=
  if i <? 26 then 65 + i
  else if i <? 52 then 71 + i
  else if i <? 62 then i - 4
  else if i =? 62 then 43
  else 47.

Definition b64val (c : Z) : option Z :=
  if (65 <=? c) && (c <=? 90) then Some (c - 65)
  else if (97 <=? c) && (c <=? 122) then Some (c - 71)
  else if (48 <=? c) && (c <=? 57) then Some (c + 4)
  else if (c =? 43) || (c =? 45) then Some 62
  else if (c =? 47) || (c =? 95) then Some 63
  else None.

Fixpoint b64encode (bs : list Z) : jsstring :=
  match bs with
  | [] => []
  | [b0] => [b64char (b0 / 4); b64char (b0 mod 4 * 16); 61; 61]
  | [b0; b1] =>
      [b64char (b0 / 4); b64char (b0 mod 4 * 16 + b1 / 16); b64char (b1 mod 16 * 4); 61]
  | b0 :: b1 :: b2 :: rest =>
      [b64char (b0 / 4); b64char (b0 mod 4 * 16 + b1 / 16);
       b64char (b1 mod 16 * 4 + b2 / 64); b64char (b2 mod 64)]
      ++ b64encode rest
  end.

(** The sextets of the alphabet characters before the first [=]. *)
Definition b64sextets (s : jsstring) : list Z :=
  omap b64val (takeWhile (fun c => negb (c =? 61)) s).

Fixpoint b64bytes (vs : list Z) : list Z :=
  match vs with
  | v0 :: v1 :: v2 :: v3 :: rest =>
      [v0 * 4 + v1 / 16; v1 mod 16 * 16 + v2 / 4; v2 mod 4 * 64 + v3] ++ b64bytes rest
  | [v0; v1; v2] => [v0 * 4 + v1 / 16; v1 mod 16 * 16 + v2 / 4]
  | [v0; v1] => [v0 * 4 + v1 / 16]
  | _ => []
  end.

Definition b64decode (s : jsstring) : list Z := b64bytes (b64sextets s).

(** [Number(s)] on integer literals: the trimmed text is empty (the value
    is 0) or an optional sign and digits; anything else is [NaN] here. *)
Definition integerLiteral (s : jsstring) : number :=
  match trim s with
  | [] => Int 0
  | t =>
      let neg := startsWith t [45] in
      let ds := if startsWith t [45] || startsWith t [43] then sliceFrom t 1 else t in
      match ds with
      | [] => NaN
      | _ => if forallb isDigit ds
             then Int (if neg then - digitsValue ds else digitsValue ds)
             else NaN
      end
  end.

(** A platform to compute with: the conversions above, and a call stack
    with room for a thousand nested components. *)
Definition refPlatform : Platform := {|
  parseFloat := parseInt;
  toNumber := integerLiteral;
  base64Decode := b64decode;
  base64Encode := b64encode;
  callDepth := 1000 |}.

(** ** Escaped text *)

(** [n] or [N], the letters [/\\n/gi] accepts after the backslash. *)
Definition isLetterN (c : Z) : bool := (c =? 110) || (c =? 78).

(** No backslash of [s] is directly followed by [n] or [N]. *)
Fixpoint noBackslashN (s : jsstring) : bool :=
  match s with
  | [] => true
  | c :: s' =>
      negb ((c =? 92) && match s' with d :: _ => isLetterN d | [] => false end)
      && noBackslashN s'
  end.

(** What is left of the escaping of one character once [stage] of the four
    replacements of [TEXT.parse] have run: stage 0 is the escaping that
    [TEXT.serialize] writes, stage 4 is the character itself. *)
Definition escapeAt (stage : nat) (c : Z) : jsstring :=
  if (c =? 92) && (stage <? 4)%nat then [92; 92]
  else if (c =? 59) && (stage <? 3)%nat then [92; 59]
  else if (c =? 44) && (stage <? 2)%nat then [92; 44]
  else if (c =? 10) && (stage <? 1)%nat then [92; 110]
  else [c].

(** The text between the replacements of [TEXT.parse]: a backslash of the
    original that stands before [n] or [N] has become a backslash and a
    line feed, every other character is as [esc] leaves it. *)
Fixpoint escaped (esc : Z -> jsstring) (s : jsstring) : jsstring :=
  match s with
  | [] => []
  | c :: s' =>
      match s' with
      | d :: s'' =>
          if (c =? 92) && isLetterN d then 92 :: 10 :: escaped esc s''
          else esc c ++ escaped esc s'
      | [] => esc c
      end
  end.

(** The parts already split off, each followed by its comma. *)
Definition commaTerminated (parts : list jsstring) : jsstring :=
  concat (map (fun p => p ++ [44]) parts).

(** A time whose fields fit [HHMMSS]. *)
Definition validTime (v : ICalTime.t) : Prop :=
  inRange 0 100 (ICalTime.hour v) /\ inRange 0 100 (ICalTime.minute v)
  /\ inRange 0 100 (ICalTime.second v).

(** ** Lines of a document *)

(** The segments [foldLine] joins: the line itself when it is short. *)
Definition foldedSegments (line : jsstring) : list jsstring :=
  if octetLen line <=? 75 then [line] else foldChunks line.

(** The line starts with a SPACE or a TAB, the mark of a continuation. *)
Definition startsWithBlank (line : jsstring) : bool :=
  match line with
  | c :: _ => (c =? 32) || (c =? 9)
  | [] => false
  end.

(** A physical line of a serialized document: no line break inside, and
    not a continuation of the line before. *)
Definition isLine (line : jsstring) : Prop :=
  lacks 13 line = true /\ lacks 10 line = true /\ startsWithBlank line = false.

(** What the loop of [tokenize] pushes for one line. *)
Definition lineTokens (line : jsstring) : list ContentLine.t :=
  match trim line with
  | [] => []
  | _ :: _ =>
      match parseContentLine line with
      | Some parsed => [parsed]
      | None => []
      end
  end.

(** *** Parameters as a content line holds them *)

(** One value of a parameter in a line: between double quotes, or bare. *)
Definition writtenValue (qv : bool * jsstring) : jsstring :=
  if qv.1 then [34] ++ qv.2 ++ [34] else qv.2.

(** A value the tokenizer reads as it stands: a quoted one holds no double
    quote, a bare one no separator, no quote and nothing for [trim] to
    remove. *)
Definition readableWritten (qv : bool * jsstring) : bool :=
  if qv.1 then lacks 34 qv.2 else plainValue qv.2.

(** One parameter in a line: [;NAME=value,value,...], and [;NAME] alone
    when it has no value. *)
Definition writtenParam (p : jsstring * list (bool * jsstring)) : jsstring :=
  [59] ++ p.1
  ++ match p.2 with
     | [] => []
     | _ :: _ => [61] ++ join [44] (map writtenValue p.2)
     end.

(** What the tokenizer stores for the values it has read:
    [values.length === 1 ? values[0] : values]. *)
Definition storedValue (values : list jsstring) : ParamValue :=
  match values with
  | [v] => PString v
  | _ => PList values
  end.

(** A parameter of a line that is read as written: a plain name, not made
    of digits alone (JavaScript enumerates such keys before the others),
    and readable values. *)
Definition readableWrittenParam (p : jsstring * list (bool * jsstring)) : bool :=
  plainParamName p.1 && negb (forallb isDigit p.1) && forallb readableWritten p.2.

(** ** Content lines as [toContentLine] writes them *)

(** The text of a parameter value: a list is joined by commas. *)
Definition paramText (v : ParamValue) : jsstring :=
  match v with
  | PList l => join [44] l
  | PString x => x
  end.

(** What [serializeParams] appends for one parameter. *)
Definition paramPiece (kv : jsstring * ParamValue) : jsstring :=
  [59] ++ kv.1 ++ [61]
  ++ (if needsQuote (paramText kv.2) then [34] ++ paramText kv.2 ++ [34]
      else paramText kv.2).

(** A value text the tokenizer reads back: no double quote in it, and when
    it is written bare, nothing for [trim] to remove. *)
Definition readableValue (s : jsstring) : bool :=
  lacks 34 s && (needsQuote s || streq (trim s) s).

(** A parameter the tokenizer reads back.  The name is not made of digits
    alone: JavaScript enumerates such keys before the others, whatever the
    order they were set in. *)
Definition readableParam (kv : jsstring * ParamValue) : bool :=
  plainParamName kv.1 && negb (forallb isDigit kv.1) && readableValue (paramText kv.2).

(** ** The name index of a component *)

(** The index agrees with the ordered list: under every key it holds the
    properties of that name, in the order of the list. *)
Definition indexAgrees (c : Component) : Prop :=
  forall key,
    default [] (_index c !! key) = filter (fun p => Property.name p = key) (_props c).

(** The same for the component and every component below it. *)
Inductive indexAgreesDeep : Component -> Prop :=
| indexAgreesDeep_intro (c : Component) :
    indexAgrees c -> Forall indexAgreesDeep (components c) -> indexAgreesDeep c.

(** ** More of [src/parse.ts] *)

(** [parseAll]: every top-level [VCALENDAR], or the one calendar of [parse]
    when there is none. *)
Definition parseAll (P : Platform) (src : jsstring) : result (list Component) :=
  let roots := buildTree src in
  let calendars := List.filter (fun n => streq (RawNode.type n) (js "VCALENDAR")) roots in
  match calendars with
  | _ :: _ => mapM (buildCalendar P (callDepth P)) calendars
  | [] => bind (parse P src) (fun cal => Ok [cal])
  end.

(** *** The token stream of a tree *)

(** The token of one raw property. *)
Definition propToken (p : RawProp.t) : ContentLine.t :=
  ContentLine.mk (RawProp.name p) (stringParams (RawProp.params p)) (RawProp.value p).

Definition beginToken (ty : jsstring) : ContentLine.t := ContentLine.mk (js "BEGIN") [] ty.
Definition endToken (ty : jsstring) : ContentLine.t := ContentLine.mk (js "END") [] ty.

(** The tokens of a component without its [END]. *)
Fixpoint openTokens (n : RawNode.t) : list ContentLine.t :=
  beginToken (RawNode.type n)
  :: map propToken (RawNode.props n)
  ++ flat_map (fun child => openTokens child ++ [endToken (RawNode.type child)])
       (RawNode.children n).

(** The tokens of a component, in the order [toString] writes its lines:
    [BEGIN], the properties, the sub-components, [END]. *)
Definition nodeTokens (n : RawNode.t) : list ContentLine.t :=
  openTokens n ++ [endToken (RawNode.type n)].

(** The types of the tree are trimmed and upper-cased, and no property is
    named [BEGIN] or [END]. *)
Fixpoint wellNamed (n : RawNode.t) : bool :=
  streq (trim (toUpperCase (RawNode.type n))) (RawNode.type n)
  && forallb (fun p => negb (streq (RawProp.name p) (js "BEGIN"))
                       && negb (streq (RawProp.name p) (js "END")))
       (RawNode.props n)
  && forallb wellNamed (RawNode.children n).

(** *** The lines of a tree *)

(** The content line of a raw property, laid out as [toContentLine] lays
    a property out: name, parameters, colon, value text. *)
Definition propLine (p : RawProp.t) : jsstring :=
  RawProp.name p ++ serializeParams (stringParams (RawProp.params p))
  ++ [58] ++ RawProp.value p.

(** The lines of a component, in the order [toString] writes them. *)
Fixpoint nodeLines (n : RawNode.t) : list jsstring :=
  (js "BEGIN:" ++ RawNode.type n)
  :: map propLine (RawNode.props n)
  ++ flat_map nodeLines (RawNode.children n)
  ++ [js "END:" ++ RawNode.type n].

(** A property whose line is read back: a plain name other than [BEGIN]
    and [END], parameters with distinct readable names and values, and no
    line break anywhere in the line. *)
Definition writableProp (p : RawProp.t) : bool :=
  plainName (RawProp.name p)
  && negb (streq (RawProp.name p) (js "BEGIN"))
  && negb (streq (RawProp.name p) (js "END"))
  && bool_decide (NoDup (map fst (RawProp.params p)))
  && forallb readableParam (stringParams (RawProp.params p))
  && lacks 13 (propLine p) && lacks 10 (propLine p).

(** The text of a component, laid out as [Component.toString] lays it
    out: [BEGIN:type], the folded line of each property, the text of each
    sub-component, [END:type], joined by CRLF. *)
Fixpoint nodeText (n : RawNode.t) : jsstring :=
  join CRLF
    ([js "BEGIN:" ++ RawNode.type n]
     ++ map (fun p => foldLine (propLine p)) (RawNode.props n)
     ++ map nodeText (RawNode.children n)
     ++ [js "END:" ++ RawNode.type n]).

(** A tree whose lines are read back: types trimmed, upper-cased, free of
    line breaks and short enough for the [BEGIN] line to need no folding
    (it is not folded), and writable properties, at every level. *)
Fixpoint writable (n : RawNode.t) : bool :=
  streq (trim (toUpperCase (RawNode.type n))) (RawNode.type n)
  && lacks 13 (RawNode.type n) && lacks 10 (RawNode.type n)
  && (octetLen (js "BEGIN:" ++ RawNode.type n) <=? 75)
  && forallb writableProp (RawNode.props n)
  && forallb writable (RawNode.children n).

(** ** Durations as the text carries them *)

(** A unit that is absent or a non-negative safe integer. *)
Definition unitNonNegative (o : option number) : Prop :=
  match o with
  | Some n => inRange 0 (MAX_SAFE_INTEGER + 1) n
  | None => True
  end.

(** A unit as [DURATION.serialize] reads it: zero is written like an
    absent unit. *)
Definition writtenUnit (o : option number) : option number :=
  match o with
  | Some n => if truthy n then Some n else None
  | None => None
  end.

(** The duration that the text of [v] carries. *)
Definition writtenDuration (v : ICalDuration.t) : ICalDuration.t :=
  match ICalDuration.weeks v with
  | Some w => ICalDuration.mk (ICalDuration.negative v) (Some w) None None None None
  | None =>
      ICalDuration.mk (ICalDuration.negative v) None
        (writtenUnit (ICalDuration.days v)) (writtenUnit (ICalDuration.hours v))
        (writtenUnit (ICalDuration.minutes v)) (writtenUnit (ICalDuration.seconds v))
  end.

(** ** Accessors ([src/property.ts], [src/component.ts]) *)

(** [Property.scalar]: the first (or only) value; [None] is [null], for an
    empty list. *)
Definition scalar (p : Property.t) : option ICalValue :=
  match Property.value p with
  | Multi vs => head vs
  | Single v => Some v
  end.

(** [Property.list]: the value as an array. *)
Definition valueList (p : Property.t) : list ICalValue :=
  match Property.value p with
  | Multi vs => vs
  | Single v => [v]
  end.

(** [Component.getValue]: the outer [None] is [undefined] (no such
    property), the inner one is [null]. *)
Definition getValue (c : Component) (name : jsstring) : option (option ICalValue) :=
  scalar <$> getProperty c name.

(** [Component.getValues]. *)
Definition getValues (c : Component) (name : jsstring) : list ICalValue :=
  default [] (valueList <$> getProperty c name).

(** ** Lists of dates, date-times and periods *)

(** The [tzid] that [DATE_TIME.parse] records for a value read with
    [params]: the [TZID] parameter when it is a string. *)
Definition paramTzid (params : Params) : option jsstring :=
  match getParam params (js "TZID") with
  | Some (PString t) => Some t
  | _ => None
  end.

(** A character that no date, date-time, duration or period text holds. *)
Definition foreignChar (c : Z) : bool :=
  negb (isDigit c || existsb (Z.eqb c) (js "TZ/-PWDHMS")).

(** ** The parts of a recurrence rule *)

(** The key and the value that the loop of [RECUR.parse] takes from one
    part: the text before the first [=], upper-cased, and the text after
    it; a part without [=] gives none. *)
Definition partEntry (part : jsstring) : option (jsstring * jsstring) :=
  match indexOf 61 part with
  | None => None
  | Some eq => Some (toUpperCase (slice part 0 eq), sliceFrom part (eq + 1))
  end.

(** ** Sample data used by the statements below *)

Definition attendee (who : string) : Property.t :=
  newProperty (js "ATTENDEE") (Single (VString (js who))) [] [].

(** A component holding two [ATTENDEE] properties, as [addAttendee] or the
    parser leave it. *)
Definition twoAttendees : Component :=
  addProperty (addProperty (newComponent (js "VEVENT")) (attendee "mailto:a@x"))
    (attendee "mailto:b@x").

(** An event whose recurrence rule names a frequency that does not exist. *)
Definition badFreqDocument : jsstring :=
  js "BEGIN:VEVENT" ++ CRLF ++ js "RRULE:FREQ=HOURLY_ISH" ++ CRLF ++ js "END:VEVENT".

(** Seventy-four ASCII letters and one two-octet character: 76 octets. *)
Definition line76 : jsstring := replicate 74 97 ++ [233].

(** An event with a two-valued parameter. *)
Definition memberDocument : jsstring :=
  js "BEGIN:VEVENT" ++ CRLF ++ js "ATTENDEE;MEMBER=a,b:x" ++ CRLF ++ js "END:VEVENT".

(** A local time in a named zone. *)
Definition berlinTime : ICalDateTime.t :=
  ICalDateTime.mk (Int 2024) (Int 6) (Int 15) (Int 14) (Int 0) (Int 0) false
    (Some (js "Europe/Berlin")).

(** Zero days: what [DURATION.parse] returns for text without a [P]. *)
Definition zeroDays : ICalDuration.t :=
  ICalDuration.mk false None (Some (Int 0)) None None None.

(** A year of five digits. *)
Definition year10000 : ICalDate.t := ICalDate.mk (Int 10000) (Int 1) (Int 1).

(** The last Monday of January and June, ten times or until the end of 2024. *)
Definition lastMonday : ICalRecur.t :=
  ICalRecur.mk MONTHLY (Some (UntilDate (ICalDate.mk (Int 2024) (Int 12) (Int 31))))
    (Some (Int 10)) None None None None
    (Some [ByDayRule.mk MO (Some (Int (-1)))]) None None None
    (Some [Int 1; Int 6]) None (Some SU).

(** A rule with a present but empty [bysecond] list. *)
Definition emptyBySecond : ICalRecur.t :=
  ICalRecur.mk DAILY None None None (Some []) None None None None None None None None None.

(** * Verification *)

(** ** TEXT *)

(** C2.  The escaping inverse law fails on a backslash followed by [n]:
    [serialize] writes the three characters backslash, backslash, [n], and
    the first replacement of [parse] (for the pattern backslash-[n]) fires on
    the second and third of them before the backslash pair is undone.  The
    result is a backslash and a newline, not the input. *)
Theorem TEXT_parse_serialize_backslash_n :
  TEXT.serialize [92; 110] = [92; 92; 110]
  /\ TEXT.parse (TEXT.serialize [92; 110]) = [92; 10]
  /\ TEXT.parse (TEXT.serialize [92; 110]) <> [92; 110].
Proof. split; [reflexivity | split; [reflexivity | discriminate]]. Qed.

(** ** DURATION *)

(** C3.  With every unit absent [DURATION.serialize] returns the bare sign
    and [P]: the string built so far is never empty, so the [P0D] fallback
    of [s || ...] is not taken. *)
Theorem DURATION_serialize_all_absent (negative : bool) :
  DURATION.serialize (ICalDuration.mk negative None None None None None)
  = (if negative then js "-P" else js "P").
Proof. destruct negative; reflexivity. Qed.

(** ** Component storage *)

(** C7.  On a component that holds two properties of one name,
    [setProperty] takes only the first out of the ordered list: the second
    stays there, next to the replacement, and it also stays when the value
    is absent. *)
Theorem setProperty_keeps_later_duplicates :
  _props (setProperty twoAttendees (js "ATTENDEE")
            (Some (Single (VString (js "mailto:c@x")))) [])
  = [attendee "mailto:c@x"; attendee "mailto:b@x"]
  /\ _props (setProperty twoAttendees (js "ATTENDEE") None [])
     = [attendee "mailto:b@x"].
Proof. split; reflexivity. Qed.

(** C9.  After that [setProperty] the index and the ordered list disagree:
    [getProperties] returns the replacement alone, while the ordered list,
    which [toString] walks, holds two properties of that name. *)
Theorem getProperties_disagrees_after_setProperty :
  let c := setProperty twoAttendees (js "ATTENDEE")
             (Some (Single (VString (js "mailto:c@x")))) [] in
  getProperties c (js "ATTENDEE") = [attendee "mailto:c@x"]
  /\ filter (fun p => Property.name p = js "ATTENDEE") (_props c)
     = [attendee "mailto:c@x"; attendee "mailto:b@x"].
Proof. split; vm_compute; reflexivity. Qed.

(** ** Property parsing never fails *)

Lemma catch_ok {A} (body : result A) (a : A) :
  exists r, catch body (Ok a) = Ok r /\ (forall msg, body = Throw msg -> r = a)
            /\ (forall b, body = Ok b -> r = b).
Proof.
  destruct body as [b | m]; simpl.
  - exists b. repeat split; congruence.
  - exists a. repeat split; congruence.
Qed.

(** Whatever the [try] block returns has the name, parameters and raw value
    the call was given. *)
Lemma parsePropertyTry_fields (P : Platform) name rawValue params typeName def p :
  parsePropertyTry P name rawValue params typeName def = Ok p ->
  Property.name p = toUpperCase name /\ Property.params p = params
  /\ Property.rawValue p = rawValue.
Proof.
  unfold parsePropertyTry.
  destruct (streq typeName (js "GEO")).
  - intros [= <-]. auto.
  - destruct (default false (PropertyDef.multi <$> def)).
    + destruct (mapM _ _); simpl; [intros [= <-]; auto | discriminate].
    + destruct (default _ (lookupCodec P typeName) rawValue params); simpl;
        [intros [= <-]; auto | discriminate].
Qed.

Lemma parseProperty_ok (P : Platform) (name rawValue : jsstring) (params : Params) :
  exists p, parseProperty P name rawValue params = Ok p
            /\ Property.name p = toUpperCase name.
Proof.
  unfold parseProperty.
  destruct (parsePropertyTry P name rawValue params _ _) as [p | m] eqn:E; simpl.
  - exists p. split; [reflexivity | eapply parsePropertyTry_fields, E].
  - eexists. split; reflexivity.
Qed.

Lemma parseProperty_fallback (P : Platform) name rawValue params msg :
  parsePropertyTry P name rawValue params (resolveValueType name params)
    (getPropertyDef name) = Throw msg ->
  parseProperty P name rawValue params
  = Ok (newProperty name (Single (VString rawValue)) params rawValue).
Proof. unfold parseProperty. intros ->. reflexivity. Qed.

(** C10.  [parseProperty] returns a property for every name, raw value and
    parameter record; the property carries the upper-cased name, the
    parameters and the raw value it was given; and when the [try] block (the
    codec call) throws, the value stored is the untouched raw string. *)
Theorem parseProperty_never_throws (P : Platform) (name rawValue : jsstring)
    (params : Params) :
  exists p : Property.t,
    parseProperty P name rawValue params = Ok p
    /\ Property.name p = toUpperCase name
    /\ Property.params p = params
    /\ Property.rawValue p = rawValue
    /\ (forall msg,
          parsePropertyTry P name rawValue params (resolveValueType name params)
            (getPropertyDef name) = Throw msg ->
          Property.value p = Single (VString rawValue)).
Proof.
  unfold parseProperty.
  destruct (parsePropertyTry P name rawValue params _ _) as [p | m] eqn:E; simpl.
  - exists p. destruct (parsePropertyTry_fields _ _ _ _ _ _ _ E) as (? & ? & ?).
    repeat split; auto. discriminate.
  - eexists. repeat split; reflexivity.
Qed.

(** [RECUR.parse] throws exactly on a frequency outside [VALID_FREQS]. *)
Lemma RECUR_parse_invalid_freq (P : Platform) (raw : jsstring) :
  let freqStr :=
    toUpperCase (default [] (RECUR.buildMap (split 59 (trim raw)) !! js "FREQ")) in
  VALID_FREQS freqStr = None ->
  RECUR.parse P raw = Throw (js "Invalid FREQ in RRULE: " ++ freqStr).
Proof. intros freqStr H. unfold RECUR.parse. fold freqStr. rewrite H. reflexivity. Qed.

(** ** When document parsing returns *)

Lemma mapM_ok {A B} (f : A -> result B) (xs : list A) :
  Forall (fun x => exists y, f x = Ok y) xs -> exists ys, mapM f xs = Ok ys.
Proof.
  induction 1 as [| x xs [y Hy] _ [ys Hys]]; simpl.
  - eexists; reflexivity.
  - rewrite Hy; simpl. rewrite Hys; simpl. eexists; reflexivity.
Qed.

Lemma addComponents_type (comps : list Component) (c : Component) :
  type (fold_left addComponent comps c) = type c.
Proof. revert c; induction comps as [| x comps IH]; intros c; simpl; [| rewrite IH]; reflexivity. Qed.

Lemma addRawProps_step (P : Platform) (props : list RawProp.t) (acc : result Component) :
  (exists c, acc = Ok c) ->
  exists c', fold_left
               (fun acc prop =>
                  bind acc (fun c =>
                  bind (parseProperty P (RawProp.name prop) (RawProp.value prop)
                          (stringParams (RawProp.params prop)))
                       (fun p => Ok (addProperty c p))))
               props acc = Ok c'
             /\ forall c, acc = Ok c -> type c' = type c.
Proof.
  revert acc; induction props as [| prop props IH]; intros acc [c ->]; simpl.
  - exists c. split; [reflexivity | congruence].
  - destruct (parseProperty_ok P (RawProp.name prop) (RawProp.value prop)
                (stringParams (RawProp.params prop))) as (p & -> & _); simpl.
    destruct (IH (Ok (addProperty c p))) as (c' & -> & Ht); [eexists; reflexivity |].
    exists c'. split; [reflexivity |]. intros c0 [= <-]. apply (Ht _ eq_refl).
Qed.

Lemma addRawProps_ok (P : Platform) (c : Component) (props : list RawProp.t) :
  exists c', addRawProps P c props = Ok c' /\ type c' = type c.
Proof.
  destruct (addRawProps_step P props (Ok c)) as (c' & H & Ht); [eexists; reflexivity |].
  exists c'. split; [exact H | apply Ht; reflexivity].
Qed.

Lemma fromRaw_ok (P : Platform) (ty : jsstring) (props : list RawProp.t)
    (subs : list Component) :
  exists c, fromRaw P ty props subs = Ok c /\ type c = toUpperCase ty.
Proof.
  unfold fromRaw.
  destruct (addRawProps_ok P (newComponent ty) props) as (c & -> & Ht); simpl.
  eexists. split; [reflexivity |]. rewrite addComponents_type. exact Ht.
Qed.

(** Induction over a raw tree, with the hypothesis for every child. *)
Lemma RawNode_tree_ind (Q : RawNode.t -> Prop) :
  (forall ty props children, Forall Q children -> Q (RawNode.mk ty props children)) ->
  forall n, Q n.
Proof.
  intros H. fix IH 1. intros [ty props children]. apply H.
  induction children as [| ch children IHc]; constructor; [apply IH | exact IHc].
Qed.

Lemma nesting_children (ty : jsstring) (props : list RawProp.t) (children : list RawNode.t)
    (depth : nat) :
  (nesting (RawNode.mk ty props children) <= S depth)%nat ->
  Forall (fun n => (nesting n <= depth)%nat) children.
Proof.
  cbn [nesting RawNode.children]. intros H. apply le_S_n in H.
  induction children as [| ch children IH]; constructor; cbn [map foldr] in H; [lia |].
  apply IH. lia.
Qed.

(** A tree that nests no deeper than there is room for is built. *)
Lemma buildComponent_ok (P : Platform) (depth : nat) :
  forall node, (nesting node <= depth)%nat -> exists c, buildComponent P depth node = Ok c.
Proof.
  induction depth as [| depth IH]; intros [ty props children] Hn.
  - cbn [nesting] in Hn. lia.
  - apply nesting_children in Hn.
    destruct (mapM_ok (buildComponent P depth) children) as [subs Hsubs].
    { eapply Forall_impl; [exact Hn |]. intros n Hle. apply IH. exact Hle. }
    cbn [buildComponent RawNode.type RawNode.props RawNode.children]. rewrite Hsubs.
    cbn [bind].
    repeat match goal with
           | |- context [if ?b then _ else _] => destruct b
           end;
      try (match goal with
           | |- context [fromRaw P ?t ?p ?s] =>
               destruct (fromRaw_ok P t p s) as (c & -> & _); eexists; reflexivity
           end).
    destruct (addRawProps_ok P (newComponent ty) props) as (c & -> & _). cbn [bind].
    eexists; reflexivity.
Qed.

Lemma mapM_Throw_inv {A B} (f : A -> result B) (xs : list A) (m : jsstring) :
  mapM f xs = Throw m -> exists x, In x xs /\ f x = Throw m.
Proof.
  induction xs as [| x xs IH]; [discriminate |]. cbn [mapM].
  destruct (f x) as [y | m'] eqn:E; cbn [bind].
  - destruct (mapM f xs) as [ys | m'']; cbn [bind]; [discriminate |].
    intros [= <-]. destruct (IH eq_refl) as (x' & Hin & Hx'). exists x'. split; [right |]; auto.
  - intros [= <-]. exists x. split; [left; reflexivity | exact E].
Qed.

Lemma fromRaw_throws (P : Platform) ty props subs m :
  fromRaw P ty props subs = Throw m -> False.
Proof. destruct (fromRaw_ok P ty props subs) as (c & -> & _). discriminate. Qed.

(** The builders fail in one way only: for want of room on the stack. *)
Lemma buildComponent_fails (P : Platform) (depth : nat) :
  forall node m, buildComponent P depth node = Throw m -> m = stackOverflow.
Proof.
  induction depth as [| depth IH]; intros [ty props children] m.
  - cbn [buildComponent]. congruence.
  - cbn [buildComponent RawNode.type RawNode.props RawNode.children].
    destruct (mapM (buildComponent P depth) children) as [subs | m'] eqn:E; cbn [bind].
    + repeat match goal with
             | |- context [if ?b then _ else _] => destruct b
             end;
        intros H; exfalso; exact (fromRaw_throws _ _ _ _ _ H).
    + apply mapM_Throw_inv in E as (x & _ & Hx). apply IH in Hx. subst m'.
      repeat match goal with
             | |- context [if ?b then _ else _] => destruct b
             end;
        try (intros H; exfalso; exact (fromRaw_throws _ _ _ _ _ H));
        try congruence.
      destruct (addRawProps_ok P (newComponent ty) props) as (c & -> & _). cbn [bind].
      congruence.
Qed.

Lemma buildCalendar_ok (P : Platform) (depth : nat) (node : RawNode.t) :
  (nesting node <= depth)%nat ->
  exists c, buildCalendar P depth node = Ok c /\ type c = js "VCALENDAR".
Proof.
  destruct node as [ty props children]. destruct depth as [| depth]; intros Hn.
  - cbn [nesting] in Hn. lia.
  - apply nesting_children in Hn. cbn [buildCalendar RawNode.children RawNode.props].
    destruct (mapM_ok (buildComponent P depth) children) as [subs ->].
    + eapply Forall_impl; [exact Hn |]. intros n Hle. apply buildComponent_ok. exact Hle.
    + cbn [bind]. destruct (fromRaw_ok P (js "VCALENDAR") props subs) as (c & -> & Ht).
      exists c. split; [reflexivity | exact Ht].
Qed.

Lemma buildCalendar_type (P : Platform) (depth : nat) (node : RawNode.t) (c : Component) :
  buildCalendar P depth node = Ok c -> type c = js "VCALENDAR".
Proof.
  destruct depth as [| depth]; [discriminate |]. cbn [buildCalendar].
  destruct (mapM (buildComponent P depth) (RawNode.children node)) as [subs | m];
    cbn [bind]; [| discriminate].
  destruct (fromRaw_ok P (js "VCALENDAR") (RawNode.props node) subs) as (c' & -> & Ht).
  intros [= <-]. exact Ht.
Qed.

Lemma buildCalendar_fails (P : Platform) (depth : nat) (node : RawNode.t) (m : jsstring) :
  buildCalendar P depth node = Throw m -> m = stackOverflow.
Proof.
  destruct depth as [| depth]; cbn [buildCalendar]; [congruence |].
  destruct (mapM (buildComponent P depth) (RawNode.children node)) as [subs | m'] eqn:E;
    cbn [bind].
  - intros H. exfalso. exact (fromRaw_throws _ _ _ _ _ H).
  - apply mapM_Throw_inv in E as (x & _ & Hx). apply buildComponent_fails in Hx. congruence.
Qed.

(** [parse] returns for every text nested no deeper than the call stack
    carries. *)
Lemma parse_ok (P : Platform) (src : jsstring) :
  withinCallDepth P src ->
  exists cal, parse P src = Ok cal /\ type cal = js "VCALENDAR".
Proof.
  unfold withinCallDepth, parse. intros Hdepth.
  destruct (find _ (buildTree src)) as [calNode |] eqn:Ef.
  - apply buildCalendar_ok. apply find_some in Ef as [Hin _].
    exact (proj1 (List.Forall_forall _ _) Hdepth calNode Hin).
  - destruct (mapM_ok (buildComponent P (callDepth P)) (buildTree src)) as [comps ->].
    + eapply Forall_impl; [exact Hdepth |]. intros n Hle. apply buildComponent_ok. exact Hle.
    + cbn [bind]. eexists. split; [reflexivity |]. rewrite addComponents_type. reflexivity.
Qed.

(** And when it fails, it is for want of room on the stack. *)
Lemma parse_fails (P : Platform) (src : jsstring) (m : jsstring) :
  parse P src = Throw m -> m = stackOverflow.
Proof.
  unfold parse. destruct (find _ (buildTree src)) as [calNode |].
  - apply buildCalendar_fails.
  - destruct (mapM (buildComponent P (callDepth P)) (buildTree src)) as [comps | m'] eqn:E;
      cbn [bind]; [discriminate |].
    apply mapM_Throw_inv in E as (x & _ & Hx). apply buildComponent_fails in Hx. congruence.
Qed.

(** C6.  On an input that yields no token (the empty text, blank lines)
    [parse] does not throw: it returns a new calendar with nothing in it.
    The claim, and the doc comment of [parse], name this input as the one
    [parse] throws on. *)
Theorem parse_returns_on_zero_tokens (P : Platform) (src : jsstring) :
  tokenize src = [] -> parse P src = Ok (newComponent (js "VCALENDAR")).
Proof.
  intros Htok. unfold parse, buildTree. rewrite Htok. reflexivity.
Qed.

Lemma parse_returns_on_zero_tokens_witness :
  parse refPlatform [] = Ok (newComponent (js "VCALENDAR"))
  /\ parse refPlatform (js " " ++ CRLF ++ CRLF) = Ok (newComponent (js "VCALENDAR")).
Proof.
  split; apply parse_returns_on_zero_tokens; vm_compute; reflexivity.
Defined.

(** ** Recurrence rules with an unknown frequency *)

(** C5, as the code has it.  An unrecognized frequency makes [RECUR.parse]
    throw, and [parseProperty] catches that failure as it catches every
    other codec failure: the property stores the untouched raw string.  So
    the failure does not reach the caller of the document parse: [parse]
    returns for every text whose components nest no deeper than the call
    stack carries, and when it fails it is for want of room on that stack. *)
Theorem invalid_FREQ_is_recovered (P : Platform) (name raw : jsstring) (params : Params) :
  VALID_FREQS
    (toUpperCase (default [] (RECUR.buildMap (split 59 (trim raw)) !! js "FREQ"))) = None ->
  resolveValueType name params = js "RECUR" ->
  default false (PropertyDef.multi <$> getPropertyDef name) = false ->
  (exists msg, RECUR.parse P raw = Throw msg)
  /\ parseProperty P name raw params
     = Ok (newProperty name (Single (VString raw)) params raw)
  /\ (forall name' raw' params' msg,
        parsePropertyTry P name' raw' params' (resolveValueType name' params')
          (getPropertyDef name') = Throw msg ->
        parseProperty P name' raw' params'
        = Ok (newProperty name' (Single (VString raw')) params' raw'))
  /\ (forall src, withinCallDepth P src -> exists cal, parse P src = Ok cal)
  /\ (forall src msg, parse P src = Throw msg -> msg = stackOverflow).
Proof.
  intros Hfreq Hty Hmulti.
  pose proof (RECUR_parse_invalid_freq P raw Hfreq) as Hthrow.
  split; [eexists; exact Hthrow |].
  split; [| split; [| split]].
  - unfold parseProperty, parsePropertyTry. rewrite Hty, Hmulti.
    change (streq (js "RECUR") (js "GEO")) with false.
    change (lookupCodec P (js "RECUR"))
      with (Some (fun (raw : jsstring) (_ : Params) =>
                    bind (RECUR.parse P raw) (fun v => Ok (VRecur v)))).
    cbn [default id]. cbv beta. rewrite Hthrow. reflexivity.
  - intros. eapply parseProperty_fallback; eassumption.
  - intros src Hdepth. destruct (parse_ok P src Hdepth) as (cal & H & _). eauto.
  - intros src msg. apply parse_fails.
Qed.

Lemma invalid_FREQ_is_recovered_witness :
  parseProperty refPlatform (js "RRULE") (js "FREQ=HOURLY_ISH") []
  = Ok (newProperty (js "RRULE") (Single (VString (js "FREQ=HOURLY_ISH"))) []
          (js "FREQ=HOURLY_ISH")).
Proof.
  apply (invalid_FREQ_is_recovered refPlatform (js "RRULE") (js "FREQ=HOURLY_ISH") []);
    reflexivity.
Defined.

(** The failure of the codec does not reach the caller of [parse]: the
    document parses, and its [RRULE] holds the raw text. *)
Lemma invalid_FREQ_document_parses :
  (exists msg, RECUR.parse refPlatform (js "FREQ=HOURLY_ISH") = Throw msg)
  /\ exists cal,
       parse refPlatform badFreqDocument = Ok cal
       /\ map (fun e => getProperty e (js "RRULE")) (components cal)
          = [Some (newProperty (js "RRULE") (Single (VString (js "FREQ=HOURLY_ISH"))) []
                     (js "FREQ=HOURLY_ISH"))].
Proof.
  split; [eexists; reflexivity |].
  destruct (parse refPlatform badFreqDocument) as [cal | m] eqn:E.
  - exists cal. split; [reflexivity |].
    revert E. vm_compute. intros [= <-]. reflexivity.
  - revert E. vm_compute. discriminate.
Qed.

Lemma parseProperty_never_throws_witness :
  exists p,
    parseProperty refPlatform (js "RRULE") (js "FREQ=HOURLY_ISH") [] = Ok p
    /\ Property.value p = Single (VString (js "FREQ=HOURLY_ISH")).
Proof.
  destruct (parseProperty_never_throws refPlatform (js "RRULE") (js "FREQ=HOURLY_ISH") [])
    as (p & Hp & _ & _ & _ & Hraw).
  exists p. split; [exact Hp |].
  apply (Hraw (js "Invalid FREQ in RRULE: HOURLY_ISH")). reflexivity.
Defined.

(** ** Line folding *)

Ltac zify_bools :=
  unfold isHighSurrogate, isLowSurrogate in *;
  repeat match goal with
    | H : _ && _ = true |- _ => apply andb_true_iff in H; destruct H
    | H : _ || _ = false |- _ => apply orb_false_iff in H; destruct H
    | H : negb _ = true |- _ => apply negb_true_iff in H
    | H : (_ <? _) = true |- _ => apply Z.ltb_lt in H
    | H : (_ <? _) = false |- _ => apply Z.ltb_ge in H
    | H : (_ <=? _) = true |- _ => apply Z.leb_le in H
    | H : (_ <=? _) = false |- _ => apply Z.leb_gt in H
    | H : (_ >? _) = true |- _ => rewrite Z.gtb_ltb in H
    | H : (_ >? _) = false |- _ => rewrite Z.gtb_ltb in H
    end.

Lemma charOctets_range c : 1 <= charOctets c <= 4.
Proof. unfold charOctets. repeat case_match; lia. Qed.

Lemma gtb_false a b : (a >? b) = false <-> a <= b.
Proof. rewrite Z.gtb_ltb, Z.ltb_ge. reflexivity. Qed.

Lemma gtb_true a b : (a >? b) = true <-> b < a.
Proof. rewrite Z.gtb_ltb, Z.ltb_lt. reflexivity. Qed.

Lemma charOctets_high c : isHighSurrogate c = true -> charOctets c = 4.
Proof.
  unfold isHighSurrogate, charOctets. intros H.
  apply andb_true_iff in H as [H1 H2]. apply Z.leb_le in H1. apply Z.ltb_lt in H2.
  repeat case_match; zify_bools; try lia.
Qed.

Lemma octetLen_plain c s :
  isHighSurrogate c = false -> isLowSurrogate c = false ->
  octetLen (c :: s) = charOctets c + octetLen s.
Proof.
  unfold isHighSurrogate, isLowSurrogate, charOctets. intros Hh Hl. simpl.
  destruct (c <? 128); [reflexivity |].
  destruct (c <? 2048); [reflexivity |].
  destruct (c <? 55296) eqn:E1; [reflexivity |].
  destruct (57344 <=? c) eqn:E2; [reflexivity |].
  exfalso. zify_bools.
  destruct (55296 <=? c) eqn:E3, (c <? 56320) eqn:E4, (56320 <=? c) eqn:E5;
    simpl in *; zify_bools; try discriminate; lia.
Qed.

Lemma octetLen_pair h l s :
  isHighSurrogate h = true -> octetLen (h :: l :: s) = 4 + octetLen s.
Proof.
  unfold isHighSurrogate. intros Hh. zify_bools. simpl.
  repeat case_match; zify_bools; try lia; try reflexivity.
Qed.

Lemma scanChunk_plain max o c s :
  isHighSurrogate c = false ->
  scanChunk max o (c :: s)
  = if o + charOctets c >? max then 0%nat else S (scanChunk max (o + charOctets c) s).
Proof. intros Hh. simpl. fold (isHighSurrogate c). rewrite Hh. reflexivity. Qed.

Lemma scanChunk_pair max o h l s :
  isHighSurrogate h = true ->
  scanChunk max o (h :: l :: s)
  = if o + 4 >? max then 0%nat else S (S (scanChunk max (o + 4) s)).
Proof.
  intros Hh. simpl. fold (isHighSurrogate h). rewrite Hh, (charOctets_high h Hh). reflexivity.
Qed.

Lemma wellFormed_ind (Q : jsstring -> Prop) :
  Q [] ->
  (forall c s, isHighSurrogate c = false -> isLowSurrogate c = false ->
               wellFormed s = true -> Q s -> Q (c :: s)) ->
  (forall h l s, isHighSurrogate h = true -> isLowSurrogate l = true ->
                 wellFormed s = true -> Q s -> Q (h :: l :: s)) ->
  forall s, wellFormed s = true -> Q s.
Proof.
  intros Hnil Hplain Hpair.
  assert (H : forall n s, (length s <= n)%nat -> wellFormed s = true -> Q s).
  { induction n as [| n IH]; intros [| c s] Hlen Hwf; simpl in Hlen; try lia; try exact Hnil.
    simpl in Hwf. destruct (isHighSurrogate c) eqn:Hh.
    - destruct s as [| d s]; [discriminate |].
      apply andb_true_iff in Hwf as [Hd Hs]. simpl in Hlen.
      apply Hpair; auto. apply IH; [lia | exact Hs].
    - apply andb_true_iff in Hwf as [Hl Hs]. apply negb_true_iff in Hl.
      apply Hplain; auto. apply IH; [lia | exact Hs]. }
  intros s. apply (H (length s)). reflexivity.
Qed.

Lemma octetLen_nonneg (s : jsstring) : 0 <= octetLen s.
Proof.
  assert (H : forall n s, (length s <= n)%nat -> 0 <= octetLen s).
  { clear s. induction n as [| n IH]; intros [| c s] Hlen; simpl in Hlen; try lia;
      try (simpl; lia).
    pose proof (IH s ltac:(lia)). simpl.
    destruct s as [| d s]; repeat case_match; try lia.
    simpl in Hlen. pose proof (IH s ltac:(lia)). lia. }
  apply (H (length s)). reflexivity.
Qed.

Lemma octetLen_utf8Length : forall s, wellFormed s = true -> octetLen s = utf8Length s.
Proof.
  apply wellFormed_ind.
  - reflexivity.
  - intros c s Hh Hl Hs IH. rewrite octetLen_plain by assumption.
    simpl. rewrite Hh, <- IH. unfold charOctets.
    repeat case_match; zify_bools; try lia.
  - intros h l s Hh Hl Hs IH. rewrite octetLen_pair by assumption.
    simpl. rewrite Hh, Hl, <- IH. zify_bools.
    repeat case_match; zify_bools; try lia.
Qed.

Lemma wellFormed_plain c s :
  isHighSurrogate c = false -> isLowSurrogate c = false ->
  wellFormed (c :: s) = wellFormed s.
Proof. intros Hh Hl. simpl. rewrite Hh, Hl. reflexivity. Qed.

Lemma wellFormed_pair h l s :
  isHighSurrogate h = true -> isLowSurrogate l = true ->
  wellFormed (h :: l :: s) = wellFormed s.
Proof. intros Hh Hl. simpl. rewrite Hh, Hl. reflexivity. Qed.

(** What one run of the inner loop takes from a well-formed rest. *)
Lemma scanChunk_spec (max : Z) :
  forall rest, wellFormed rest = true ->
  forall o, 0 <= o <= max ->
  (scanChunk max o rest <= length rest)%nat
  /\ wellFormed (take (scanChunk max o rest) rest) = true
  /\ wellFormed (drop (scanChunk max o rest) rest) = true
  /\ octetLen rest = octetLen (take (scanChunk max o rest) rest)
                     + octetLen (drop (scanChunk max o rest) rest)
  /\ o + octetLen (take (scanChunk max o rest) rest) <= max
  /\ (drop (scanChunk max o rest) rest <> [] ->
      max - 4 < o + octetLen (take (scanChunk max o rest) rest))
  /\ (o + 4 <= max -> rest <> [] -> (0 < scanChunk max o rest)%nat)
  /\ (o + octetLen rest <= max -> scanChunk max o rest = length rest)
  /\ (forall k, o + octetLen (take k rest) <= max ->
                octetLen (take k rest) <= octetLen (take (scanChunk max o rest) rest)).
Proof.
  apply (wellFormed_ind (fun rest => forall o, 0 <= o <= max -> _)).
  - intros o Ho. simpl. split_and!; try lia; try congruence.
    intros k _. rewrite take_nil. simpl. lia.
  - intros c s Hh Hl Hs IH o Ho.
    rewrite scanChunk_plain by assumption.
    pose proof (charOctets_range c) as Hc.
    pose proof (octetLen_nonneg s) as Hs0.
    destruct (o + charOctets c >? max) eqn:E.
    + apply gtb_true in E.
      rewrite take_0, drop_0, octetLen_plain, wellFormed_plain by assumption.
      change (octetLen []) with 0.
      split_and!; simpl; try lia; auto.
      intros [| k]; [simpl; lia |].
      rewrite firstn_cons, octetLen_plain by assumption.
      pose proof (octetLen_nonneg (take k s)). lia.
    + apply gtb_false in E.
      destruct (IH (o + charOctets c)) as (I1 & I2 & I3 & I4 & I5 & I6 & I7 & I8 & I9); [lia |].
      rewrite firstn_cons, skipn_cons, !octetLen_plain, wellFormed_plain by assumption.
      split_and!;
        [ simpl; lia | assumption | assumption | lia | lia
        | intros H; specialize (I6 H); lia
        | intros; lia
        | intros H; simpl; f_equal; apply I8; lia
        | ].
      intros [| k]; [simpl; pose proof (octetLen_nonneg (take (scanChunk max (o + charOctets c) s) s)); lia |].
      rewrite firstn_cons, octetLen_plain by assumption.
      intros H. specialize (I9 k). lia.
  - intros h l s Hh Hl Hs IH o Ho.
    rewrite scanChunk_pair by assumption.
    pose proof (octetLen_nonneg s) as Hs0.
    destruct (o + 4 >? max) eqn:E.
    + apply gtb_true in E.
      rewrite take_0, drop_0, octetLen_pair, wellFormed_pair by assumption.
      change (octetLen []) with 0.
      split_and!; simpl; try lia; auto.
      intros [| [| k]]; [simpl; lia | |].
      * simpl take. change (octetLen [h]) with (octetLen (h :: [])). 
        assert (octetLen [h] = 4) as ->; [| lia].
        pose proof (charOctets_high h Hh) as H4. unfold charOctets in H4. simpl.
        repeat case_match; lia.
      * rewrite !firstn_cons, octetLen_pair by assumption.
        pose proof (octetLen_nonneg (take k s)). lia.
    + apply gtb_false in E.
      destruct (IH (o + 4)) as (I1 & I2 & I3 & I4 & I5 & I6 & I7 & I8 & I9); [lia |].
      rewrite !firstn_cons, !skipn_cons, !octetLen_pair, wellFormed_pair by assumption.
      split_and!;
        [ simpl; lia | assumption | assumption | lia | lia
        | intros H; specialize (I6 H); lia
        | intros; lia
        | intros H; simpl; do 2 f_equal; apply I8; lia
        | ].
      * pose proof (octetLen_nonneg (take (scanChunk max (o + 4) s) s)).
        intros [| [| k]]; [simpl; lia | |].
        -- simpl take. assert (octetLen [h] = 4) as ->; [| lia].
           pose proof (charOctets_high h Hh) as H4. unfold charOctets in H4. simpl.
           repeat case_match; lia.
        -- rewrite !firstn_cons, octetLen_pair by assumption.
           intros H'. specialize (I9 k). lia.
Qed.

Lemma octetLen_pos s : wellFormed s = true -> s <> [] -> 0 < octetLen s.
Proof.
  revert s. apply (wellFormed_ind (fun s => s <> [] -> 0 < octetLen s)).
  - congruence.
  - intros c s Hh Hl _ _ _. rewrite octetLen_plain by assumption.
    pose proof (charOctets_range c). pose proof (octetLen_nonneg s). lia.
  - intros h l s Hh _ _ _ _. rewrite octetLen_pair by assumption.
    pose proof (octetLen_nonneg s). lia.
Qed.

(** The outer loop: the payloads it cuts, with the fuel it is given. *)
Lemma foldLoop_spec (line : jsstring) :
  forall fuel pos first chunks,
    (pos <= length line)%nat ->
    wellFormed (drop pos line) = true ->
    (length line - pos <= fuel)%nat ->
    exists payloads,
      foldLoop fuel line pos first chunks = chunks ++ segments first payloads
      /\ concat payloads = drop pos line
      /\ Forall (fun q => wellFormed q = true /\ 0 < octetLen q) payloads
      /\ Forall (fun q => octetLen q <= 74) (tail payloads)
      /\ match payloads with
         | [] => pos = length line
         | q :: qs =>
             let n := scanChunk (if first then 75 else 74) 0 (drop pos line) in
             q = take n (drop pos line)
             /\ (qs = [] <-> drop n (drop pos line) = [])
             /\ (octetLen (drop n (drop pos line)) <= 74 -> (length qs <= 1)%nat)
         end.
Proof.
  induction fuel as [| fuel IH]; intros pos first chunks Hpos Hwf Hfuel.
  - exists []. simpl. rewrite app_nil_r.
    assert (pos = length line) as -> by lia. rewrite drop_all. auto.
  - simpl. destruct (pos <? length line)%nat eqn:Elt.
    + apply Nat.ltb_lt in Elt.
      set (max := if first then 75 else 74).
      set (rest := drop pos line) in *.
      assert (Hrest : rest <> []).
      { intros E. apply (f_equal length) in E. subst rest.
        rewrite length_drop in E. simpl in E. lia. }
      destruct (scanChunk_spec max rest Hwf 0) as (S1 & S2 & S3 & S4 & S5 & S6 & S7 & S8 & S9).
      { destruct first; subst max; lia. }
      set (n := scanChunk max 0 rest) in *.
      assert (Hn : (0 < n)%nat) by (apply S7; [destruct first; subst max; lia | exact Hrest]).
      assert (Hlen : length rest = (length line - pos)%nat) by (subst rest; apply length_drop).
      replace (pos + n =? pos)%nat with false by (symmetry; apply Nat.eqb_neq; lia).
      destruct (IH (pos + n)%nat false
                  (chunks ++ [(if first then [] else [32]) ++ slice line pos (pos + n)]))
        as (ps & Hps & Hcat & Hall & Htl & Hhd).
      { lia. }
      { rewrite <- drop_drop. exact S3. }
      { lia. }
      exists (take n rest :: ps).
      split; [| split; [| split; [| split]]].
      * rewrite Hps, <- app_assoc. f_equal. simpl. f_equal.
        -- unfold slice. replace (pos + n - pos)%nat with n by lia. reflexivity.
        -- destruct ps; reflexivity.
      * simpl. rewrite Hcat, <- drop_drop. apply take_drop.
      * constructor; [| exact Hall]. split; [exact S2 |].
        apply octetLen_pos; [exact S2 |].
        intros E. apply (f_equal length) in E. rewrite length_take in E. simpl in E. lia.
      * simpl. destruct ps as [| q qs]; [constructor |].
        constructor; [| exact Htl].
        destruct Hhd as (-> & _ & _).
        rewrite <- drop_drop. fold rest.
        destruct (scanChunk_spec 74 (drop n rest) S3 0) as (_ & _ & _ & _ & T5 & _); lia.
      * split; [reflexivity |].
        destruct ps as [| q qs].
        -- split; [| simpl; lia]. split; [intros _ | reflexivity].
           apply nil_length_inv. rewrite length_drop. lia.
        -- destruct Hhd as (Hq & Hqs & _). rewrite <- drop_drop in Hq, Hqs. fold rest in Hq, Hqs.
           split; [split; [discriminate |] |].
           ++ intros E. exfalso.
              rewrite Forall_cons in Hall. destruct Hall as [[_ Hq0] _].
              rewrite E in Hq. rewrite take_nil in Hq. subst q. simpl in Hq0. lia.
           ++ intros Hfit. simpl.
              destruct (scanChunk_spec 74 (drop n rest) S3 0) as (_ & _ & _ & _ & _ & _ & _ & T8 & _);
                [lia |].
              rewrite T8 in Hqs by lia. rewrite drop_all in Hqs.
              rewrite (proj2 Hqs eq_refl). simpl. lia.
    + apply Nat.ltb_ge in Elt. exists []. simpl. rewrite app_nil_r.
      assert (pos = length line) as -> by lia. rewrite drop_all. auto.
Qed.

(** C4, as the code has it.  For a line of well-formed UTF-16: when its UTF-8
    length is at most 75 it is emitted as it is; when it is longer it is
    emitted as a first segment and at least one continuation, each
    continuation a SPACE followed by its payload, joined by CRLF.  The
    payloads concatenate to the line and are well-formed themselves, so no
    character is split.  The first segment has between 72 and 75 octets,
    and exactly 75 when 75 octets end on a character boundary of the line;
    every continuation payload has between 1 and 74 octets; and a line of
    76 octets gives exactly two segments. *)
Theorem foldLine_folds_on_character_boundaries (line : jsstring) :
  wellFormed line = true ->
  (utf8Length line <= 75 -> foldLine line = line)
  /\ (75 < utf8Length line ->
      exists first rest,
        foldLine line = join CRLF (first :: map (cons 32) rest)
        /\ first ++ concat rest = line
        /\ rest <> []
        /\ Forall (fun p => wellFormed p = true) (first :: rest)
        /\ 71 < utf8Length first <= 75
        /\ ((exists k, wellFormed (take k line) = true /\ utf8Length (take k line) = 75) ->
            utf8Length first = 75)
        /\ Forall (fun p => 0 < utf8Length p <= 74) rest
        /\ (utf8Length line = 76 -> length rest = 1%nat)).
Proof.
  intros Hwf. rewrite <- (octetLen_utf8Length line Hwf). unfold foldLine. split.
  - intros H. apply Z.leb_le in H. rewrite H. reflexivity.
  - intros H. replace (octetLen line <=? 75) with false by (symmetry; apply Z.leb_gt; lia).
    unfold foldChunks.
    destruct (foldLoop_spec line (length line) 0 true []) as (ps & Hps & Hcat & Hall & Htl & Hhd);
      [lia | exact Hwf | lia |].
    rewrite drop_0 in *. simpl in Hps.
    destruct (scanChunk_spec 75 line Hwf 0) as (S1 & S2 & S3 & S4 & S5 & S6 & S7 & S8 & S9);
      [lia |].
    destruct ps as [| q qs].
    { apply eq_sym, nil_length_inv in Hhd. subst line. simpl in H. lia. }
    destruct Hhd as (Hq & Hqs & Hfit). cbv zeta in Hq, Hqs, Hfit.
    set (n := scanChunk 75 0 line) in *.
    assert (Hdrop : drop n line <> []).
    { intros E. rewrite E in S4. simpl in S4. lia. }
    exists q, qs. rewrite Hps. simpl in Htl. simpl.
    assert (Hwfs : Forall (fun p => wellFormed p = true) (q :: qs)).
    { eapply Forall_impl; [exact Hall |]. intros p [Hp _]. exact Hp. }
    assert (Hq8 : octetLen q = utf8Length q).
    { apply octetLen_utf8Length. rewrite Hq. exact S2. }
    split_and!.
    + reflexivity.
    + exact Hcat.
    + intros E. apply Hdrop. apply Hqs. exact E.
    + exact Hwfs.
    + rewrite <- Hq8, Hq. specialize (S6 Hdrop). lia.
    + rewrite <- Hq8, Hq. lia.
    + intros (k & Hk & Hk75). rewrite <- Hq8, Hq.
      rewrite <- (octetLen_utf8Length _ Hk) in Hk75.
      specialize (S9 k). lia.
    + apply Forall_cons in Hall as [_ Hall]. apply Forall_cons in Hwfs as [_ Hwfs].
      clear - Hall Htl. induction qs as [| p qs IH]; constructor.
      * apply Forall_cons in Hall as [[Hp Hp0] _]. apply Forall_cons in Htl as [Hp74 _].
        rewrite <- (octetLen_utf8Length _ Hp). lia.
      * apply Forall_cons in Hall as [_ Hall]. apply Forall_cons in Htl as [_ Htl]. auto.
    + intros H76. specialize (S6 Hdrop).
      assert (length qs <= 1)%nat by (apply Hfit; lia).
      destruct qs as [| p [| p' qs]]; simpl in *; try lia.
      exfalso. apply Hdrop. apply Hqs. reflexivity.
Qed.

(** A line of 76 octets whose 75th and 76th octets are one character: the
    first segment has 74 octets, not 75. *)
Lemma foldLine_line76_first_segment_74 :
  wellFormed line76 = true
  /\ utf8Length line76 = 76
  /\ foldLine line76 = join CRLF [replicate 74 97; [32; 233]]
  /\ utf8Length (replicate 74 97) = 74.
Proof. repeat split; vm_compute; reflexivity. Qed.

Lemma foldLine_folds_on_character_boundaries_witness :
  exists first rest,
    foldLine (replicate 76 65) = join CRLF (first :: map (cons 32) rest)
    /\ utf8Length first = 75 /\ length rest = 1%nat.
Proof.
  destruct (foldLine_folds_on_character_boundaries (replicate 76 65) eq_refl) as [_ H].
  destruct H as (first & rest & H1 & _ & _ & _ & _ & H75 & _ & H76); [vm_compute; reflexivity |].
  exists first, rest. split; [exact H1 |]. split.
  - apply H75. exists 75%nat. split; vm_compute; reflexivity.
  - apply H76. vm_compute; reflexivity.
Defined.

(** ** Parameter values: lists and strings *)

Lemma takeWhile_app p v c r :
  forallb p v = true -> p c = false -> takeWhile p (v ++ c :: r) = v.
Proof.
  induction v as [| x v IH]; simpl; intros Hv Hc.
  - rewrite Hc. reflexivity.
  - apply andb_true_iff in Hv as [Hx Hv]. rewrite Hx, IH by assumption. reflexivity.
Qed.

Lemma dropWhile_app p v c r :
  forallb p v = true -> p c = false -> dropWhile p (v ++ c :: r) = c :: r.
Proof.
  induction v as [| x v IH]; simpl; intros Hv Hc.
  - rewrite Hc. reflexivity.
  - apply andb_true_iff in Hv as [Hx Hv]. rewrite Hx, IH by assumption. reflexivity.
Qed.

Lemma streq_true a b : streq a b = true -> a = b.
Proof. unfold streq. apply bool_decide_eq_true_1. Qed.

Lemma streq_refl (s : jsstring) : streq s s = true.
Proof. unfold streq. apply bool_decide_eq_true_2. reflexivity. Qed.

Lemma streq_false (a b : jsstring) : a <> b -> streq a b = false.
Proof. unfold streq. apply bool_decide_eq_false_2. Qed.

Lemma forallb_weaken (p q : Z -> bool) v :
  (forall c, p c = true -> q c = true) -> forallb p v = true -> forallb q v = true.
Proof.
  intros H. induction v as [| x v IH]; simpl; [reflexivity |].
  intros Hv. apply andb_true_iff in Hv as [Hx Hv]. rewrite (H _ Hx), IH by assumption. reflexivity.
Qed.

Lemma startsWith_cons c s p : startsWith (c :: s) [p] = (c =? p).
Proof. simpl. apply andb_true_r. Qed.

(** One unquoted value, followed by a separator. *)
Lemma paramValue_plain (v : jsstring) (sep : Z) (r : jsstring) (values : list jsstring) :
  plainValue v = true -> isParamValueEnd sep = true ->
  paramValue values (v ++ sep :: r) = (values ++ [v], sep :: r).
Proof.
  intros Hv Hsep. unfold plainValue in Hv.
  apply andb_true_iff in Hv as [Hchars Htrim]. apply streq_true in Htrim.
  assert (Hend : forallb (fun c => negb (isParamValueEnd c)) v = true).
  { eapply forallb_weaken; [| exact Hchars]. intros c Hc.
    apply andb_true_iff in Hc as [Hc _]. exact Hc. }
  assert (Hhead : startsWith (v ++ sep :: r) [34] = false).
  { destruct v as [| x v]; simpl app; rewrite startsWith_cons.
    - unfold isParamValueEnd in Hsep. destruct (sep =? 34) eqn:E; [| reflexivity].
      apply Z.eqb_eq in E. subst. discriminate.
    - simpl in Hchars. apply andb_true_iff in Hchars as [Hx _].
      apply andb_true_iff in Hx as [_ Hx]. apply negb_true_iff in Hx. exact Hx. }
  unfold paramValue. rewrite Hhead.
  rewrite takeWhile_app, dropWhile_app, Htrim; auto; rewrite Hsep; reflexivity.
Qed.

Lemma join_cons2 sep (p q : jsstring) ps :
  join sep (p :: q :: ps) = p ++ sep ++ join sep (q :: ps).
Proof. reflexivity. Qed.

Lemma paramValuesLoop_plain (vs : list jsstring) :
  forall fuel values (sep : Z) (r : jsstring),
    vs <> [] -> Forall (fun v => plainValue v = true) vs ->
    (sep = 58 \/ sep = 59) ->
    (length vs <= fuel)%nat ->
    paramValuesLoop fuel values (join [44] vs ++ sep :: r) = (values ++ vs, sep :: r).
Proof.
  induction vs as [| v vs IH]; intros fuel values sep r Hne Hall Hsep Hfuel; [congruence |].
  destruct fuel as [| fuel]; [simpl in Hfuel; lia |].
  apply Forall_cons in Hall as [Hv Hall].
  destruct vs as [| v' vs].
  - simpl join. simpl paramValuesLoop.
    rewrite paramValue_plain by (auto; destruct Hsep; subst; reflexivity).
    cbn [startsWith]. rewrite andb_true_r.
    replace (sep =? 44) with false by (destruct Hsep; subst; reflexivity).
    reflexivity.
  - rewrite join_cons2. rewrite <- !app_assoc. simpl paramValuesLoop.
    change ([44] ++ join [44] (v' :: vs) ++ sep :: r)
      with (44 :: (join [44] (v' :: vs) ++ sep :: r)).
    rewrite paramValue_plain by (auto; reflexivity).
    cbn [startsWith]. change (44 =? 44) with true. cbn [andb].
    unfold sliceFrom. simpl drop.
    rewrite IH; auto; [| simpl in *; lia].
    rewrite <- app_assoc. reflexivity.
Qed.

Lemma parseContentLine_unfold (line : jsstring) :
  line <> [] ->
  parseContentLine line =
    let name := toUpperCase (trim (takeWhile (fun c => negb (isNameEnd c)) line)) in
    let rest := dropWhile (fun c => negb (isNameEnd c)) line in
    match name with
    | [] => None
    | _ :: _ =>
        let '(params, rest') := paramsLoop (length rest) [] rest in
        let value := if startsWith rest' [58] then sliceFrom rest' 1 else rest' in
        Some (ContentLine.mk name params value)
    end.
Proof. destruct line; [congruence | reflexivity]. Qed.

Lemma paramsLoop_stop fuel params (r : jsstring) :
  paramsLoop fuel params (58 :: r) = (params, 58 :: r).
Proof. destruct fuel; reflexivity. Qed.

Lemma paramsLoop_step fuel params (r : jsstring) :
  paramsLoop (S fuel) params (59 :: r) =
    let paramName := toUpperCase (trim (takeWhile (fun c => negb (isParamNameEnd c)) r)) in
    let r1 := dropWhile (fun c => negb (isParamNameEnd c)) r in
    let '(values, r2) :=
      if startsWith r1 [61] then paramValuesLoop (length r1) [] (sliceFrom r1 1)
      else ([], r1) in
    let params' :=
      match paramName with
      | [] => params
      | _ :: _ =>
          setParam params paramName
            (match values with
             | [v] => PString v
             | _ => PList values
             end)
      end in
    paramsLoop fuel params' r2.
Proof. reflexivity. Qed.

Lemma length_join_lower (vs : list jsstring) :
  (length vs <= S (length (join [44%Z] vs)))%nat.
Proof.
  induction vs as [| v [| v' vs] IH]; simpl in *; try lia.
  rewrite !length_app. simpl. lia.
Qed.

Lemma parseContentLine_one_param (N K : jsstring) (vs : list jsstring) (V : jsstring) :
  plainName N = true -> plainParamName K = true ->
  vs <> [] -> Forall (fun v => plainValue v = true) vs ->
  parseContentLine (N ++ [59] ++ K ++ [61] ++ join [44] vs ++ [58] ++ V)
  = Some (ContentLine.mk N
            [(K, match vs with [v] => PString v | _ => PList vs end)] V).
Proof.
  intros HN HK Hne Hvs.
  unfold plainName in HN. apply andb_true_iff in HN as [HN HN0].
  apply andb_true_iff in HN as [HNc HNu]. apply streq_true in HNu.
  unfold plainParamName in HK. apply andb_true_iff in HK as [HK HK0].
  apply andb_true_iff in HK as [HKc HKu]. apply streq_true in HKu.
  assert (HNne : N <> []) by (intros ->; discriminate).
  assert (HKne : K <> []) by (intros ->; discriminate).
  rewrite parseContentLine_unfold by (destruct N; [congruence | discriminate]).
  cbv zeta. simpl app.
  rewrite takeWhile_app, dropWhile_app, HNu by (auto; reflexivity).
  destruct N as [| n0 N']; [congruence |].
  cbn [length]. rewrite paramsLoop_step. cbv zeta.
  rewrite takeWhile_app, dropWhile_app, HKu by (auto; reflexivity).
  rewrite startsWith_cons. change (61 =? 61) with true. cbv iota.
  unfold sliceFrom at 1. cbn [drop]. rewrite drop_0.
  rewrite paramValuesLoop_plain; auto.
  2: { cbn [length]. rewrite length_app. pose proof (length_join_lower vs). lia. }
  destruct K as [| k0 K']; [congruence |].
  rewrite paramsLoop_stop, startsWith_cons. change (58 =? 58) with true. cbv iota.
  unfold sliceFrom. cbn [drop setParam app].
  reflexivity.
Qed.

Lemma setParam_noSingleton params key v :
  forallb (fun kv => noSingletonList kv.2) params = true ->
  noSingletonList v = true ->
  forallb (fun kv => noSingletonList kv.2) (setParam params key v) = true.
Proof.
  intros Hps Hv. induction params as [| [k v0] params IH]; simpl in *.
  - rewrite Hv. reflexivity.
  - apply andb_true_iff in Hps as [H0 Hps].
    destruct (streq k key); simpl; rewrite ?Hv, ?H0, ?Hps, ?IH; auto.
Qed.

Lemma paramsLoop_S fuel params (rest : jsstring) :
  paramsLoop (S fuel) params rest =
    if startsWith rest [59] then
      let r := sliceFrom rest 1 in
      let paramName := toUpperCase (trim (takeWhile (fun c => negb (isParamNameEnd c)) r)) in
      let r1 := dropWhile (fun c => negb (isParamNameEnd c)) r in
      let '(values, r2) :=
        if startsWith r1 [61] then paramValuesLoop (length r1) [] (sliceFrom r1 1)
        else ([], r1) in
      let params' :=
        match paramName with
        | [] => params
        | _ :: _ =>
            setParam params paramName
              (match values with
               | [v] => PString v
               | _ => PList values
               end)
        end in
      paramsLoop fuel params' r2
    else (params, rest).
Proof. reflexivity. Qed.

Lemma paramsLoop_noSingleton fuel :
  forall params rest,
    forallb (fun kv => noSingletonList kv.2) params = true ->
    forallb (fun kv => noSingletonList kv.2) (paramsLoop fuel params rest).1 = true.
Proof.
  induction fuel as [| fuel IH]; intros params rest Hps; [exact Hps |].
  rewrite paramsLoop_S.
  destruct (startsWith rest [59]); [| exact Hps].
  cbv zeta.
  destruct (if startsWith _ [61] then _ else _) as [values r2].
  apply IH.
  destruct (toUpperCase _) as [| c name]; [exact Hps |].
  apply setParam_noSingleton; [exact Hps |].
  destruct values as [| v [| v' values]]; reflexivity.
Qed.

Lemma parseContentLine_noSingleton (line : jsstring) (cl : ContentLine.t) :
  parseContentLine line = Some cl ->
  forallb (fun kv => noSingletonList kv.2) (ContentLine.params cl) = true.
Proof.
  destruct line as [| c line]; [discriminate |].
  unfold parseContentLine.
  destruct (toUpperCase _) as [| n name]; [discriminate |].
  pose proof (paramsLoop_noSingleton
                (length (dropWhile (fun c => negb (isNameEnd c)) (c :: line))) []
                (dropWhile (fun c => negb (isNameEnd c)) (c :: line)) eq_refl) as H.
  destruct (paramsLoop _ _ _) as [params rest'].
  intros [= <-]. exact H.
Qed.

(** Serialization does not tell a list from its comma-joined string. *)
Lemma serializeParams_normalize (params : Params) :
  serializeParams (stringParams (normalizeParams params)) = serializeParams params.
Proof.
  unfold serializeParams.
  match goal with |- fold_left ?f _ _ = _ => set (F := f) end.
  assert (H : forall acc,
             fold_left F (stringParams (normalizeParams params)) acc
             = fold_left F params acc); [| apply H].
  induction params as [| [k v] params IH]; intros acc; [reflexivity |].
  simpl. rewrite IH. destruct v; reflexivity.
Qed.

Lemma needsQuote_comma (a b : jsstring) : needsQuote (a ++ 44 :: b) = true.
Proof.
  unfold needsQuote. rewrite existsb_app. simpl. apply orb_true_r.
Qed.

Lemma serializeParams_list (k v1 v2 : jsstring) (vs : list jsstring) :
  serializeParams [(k, PList (v1 :: v2 :: vs))]
  = [59] ++ k ++ [61] ++ [34] ++ join [44] (v1 :: v2 :: vs) ++ [34].
Proof.
  unfold serializeParams. cbn [fold_left]. rewrite join_cons2.
  change (v1 ++ [44] ++ join [44] (v2 :: vs)) with (v1 ++ 44 :: join [44] (v2 :: vs)).
  rewrite needsQuote_comma. reflexivity.
Qed.

Lemma stringParamsOnly_unfold (c : Component) :
  stringParamsOnly c =
    forallb (fun p => forallb (fun kv => isPString kv.2) (Property.params p)) (_props c)
    && forallb stringParamsOnly (components c).
Proof. destruct c; reflexivity. Qed.

Lemma stringParams_isPString (ps : list (jsstring * jsstring)) :
  forallb (fun kv => isPString kv.2) (stringParams ps) = true.
Proof. induction ps as [| [k v] ps IH]; simpl; auto. Qed.

Lemma parseProperty_params (P : Platform) name rawValue params p :
  parseProperty P name rawValue params = Ok p -> Property.params p = params.
Proof.
  unfold parseProperty.
  destruct (parsePropertyTry P name rawValue params _ _) as [p' | m] eqn:E; simpl.
  - intros [= <-]. apply (parsePropertyTry_fields _ _ _ _ _ _ _ E).
  - intros [= <-]. reflexivity.
Qed.

Lemma addProperty_strings (c : Component) (p : Property.t) :
  stringParamsOnly c = true ->
  forallb (fun kv => isPString kv.2) (Property.params p) = true ->
  stringParamsOnly (addProperty c p) = true.
Proof.
  rewrite !stringParamsOnly_unfold. unfold addProperty. simpl.
  intros Hc Hp. apply andb_true_iff in Hc as [Hprops Hcomps].
  rewrite forallb_app, Hprops, Hcomps. simpl. rewrite Hp. reflexivity.
Qed.

Lemma addComponent_strings (c comp : Component) :
  stringParamsOnly c = true -> stringParamsOnly comp = true ->
  stringParamsOnly (addComponent c comp) = true.
Proof.
  rewrite !(stringParamsOnly_unfold c), (stringParamsOnly_unfold (addComponent c comp)).
  unfold addComponent. simpl.
  intros Hc Hcomp. apply andb_true_iff in Hc as [Hprops Hcomps].
  rewrite forallb_app, Hprops, Hcomps. simpl. rewrite Hcomp. reflexivity.
Qed.

Lemma addComponents_strings (comps : list Component) (c : Component) :
  stringParamsOnly c = true ->
  Forall (fun x => stringParamsOnly x = true) comps ->
  stringParamsOnly (fold_left addComponent comps c) = true.
Proof.
  intros Hc Hall. revert c Hc.
  induction Hall as [| x comps Hx _ IH]; intros c Hc; simpl; [exact Hc |].
  apply IH. apply addComponent_strings; assumption.
Qed.

Lemma addRawProps_strings (P : Platform) (props : list RawProp.t) :
  forall c c', addRawProps P c props = Ok c' ->
               stringParamsOnly c = true -> stringParamsOnly c' = true.
Proof.
  unfold addRawProps.
  induction props as [| prop props IH]; intros c c' H Hc; simpl in H.
  - congruence.
  - destruct (parseProperty P (RawProp.name prop) (RawProp.value prop)
                (stringParams (RawProp.params prop))) as [p | m] eqn:E; simpl in H.
    + apply (IH _ _ H). apply addProperty_strings; [exact Hc |].
      rewrite (parseProperty_params _ _ _ _ _ E). apply stringParams_isPString.
    + exfalso. clear -H. induction props as [| x props IH]; simpl in H; [discriminate | auto].
Qed.

Lemma newComponent_strings ty : stringParamsOnly (newComponent ty) = true.
Proof. reflexivity. Qed.

Lemma fromRaw_strings (P : Platform) ty props subs c :
  fromRaw P ty props subs = Ok c ->
  Forall (fun x => stringParamsOnly x = true) subs ->
  stringParamsOnly c = true.
Proof.
  unfold fromRaw. intros H Hsubs.
  destruct (addRawProps P (newComponent ty) props) as [c0 | m] eqn:E; simpl in H; [| discriminate].
  injection H as <-. apply addComponents_strings; [| exact Hsubs].
  eapply addRawProps_strings; [exact E | apply newComponent_strings].
Qed.

Lemma mapM_Forall {A B} (f : A -> result B) (Q : B -> Prop) (xs : list A) (ys : list B) :
  Forall (fun x => forall y, f x = Ok y -> Q y) xs ->
  mapM f xs = Ok ys -> Forall Q ys.
Proof.
  intros Hall. revert ys. induction Hall as [| x xs Hx _ IH]; intros ys H; simpl in H.
  - injection H as <-. constructor.
  - destruct (f x) as [y | m] eqn:E; simpl in H; [| discriminate].
    destruct (mapM f xs) as [ys' | m]; simpl in H; [| discriminate].
    injection H as <-. constructor; [apply Hx; reflexivity | apply IH; reflexivity].
Qed.

Lemma buildComponent_strings (P : Platform) (depth : nat) :
  forall node c, buildComponent P depth node = Ok c -> stringParamsOnly c = true.
Proof.
  induction depth as [| depth IH]; intros [ty props children] c; [discriminate |].
  cbn [buildComponent RawNode.type RawNode.props RawNode.children].
  destruct (mapM (buildComponent P depth) children) as [subs | m] eqn:E; cbn [bind].
  - assert (Hsubs : Forall (fun x => stringParamsOnly x = true) subs).
    { eapply mapM_Forall; [| exact E]. apply Forall_forall. intros x _. apply IH. }
    repeat match goal with
           | |- context [if ?b then _ else _] => destruct b
           end;
      (intros H; eapply fromRaw_strings; [exact H | first [exact Hsubs | constructor]]).
  - repeat match goal with
           | |- context [if ?b then _ else _] => destruct b
           end;
      try discriminate;
      try (intros H; eapply fromRaw_strings; [exact H | constructor]).
    destruct (addRawProps P (newComponent ty) props); cbn [bind]; discriminate.
Qed.

Lemma buildCalendar_strings (P : Platform) (depth : nat) (node : RawNode.t) (c : Component) :
  buildCalendar P depth node = Ok c -> stringParamsOnly c = true.
Proof.
  destruct depth as [| depth]; [discriminate |]. cbn [buildCalendar].
  destruct (mapM (buildComponent P depth) (RawNode.children node)) as [subs | m] eqn:E;
    cbn [bind]; [| discriminate].
  intros H. eapply fromRaw_strings; [exact H |].
  eapply mapM_Forall; [| exact E].
  apply Forall_forall. intros x _. apply buildComponent_strings.
Qed.

Lemma parse_strings (P : Platform) (src : jsstring) (cal : Component) :
  parse P src = Ok cal -> stringParamsOnly cal = true.
Proof.
  unfold parse. destruct (find _ (buildTree src)) as [calNode |].
  - apply buildCalendar_strings.
  - destruct (mapM (buildComponent P (callDepth P)) (buildTree src)) as [comps | m] eqn:E;
      cbn [bind]; [| discriminate].
    intros [= <-]. apply addComponents_strings; [reflexivity |].
    eapply mapM_Forall; [| exact E].
    apply Forall_forall. intros x _. apply buildComponent_strings.
Qed.

Lemma buildTreeFrom_one_property (ty : jsstring) (tok : ContentLine.t) :
  streq (ContentLine.name tok) (js "BEGIN") = false ->
  streq (ContentLine.name tok) (js "END") = false ->
  buildTreeFrom [ContentLine.mk (js "BEGIN") [] ty; tok; ContentLine.mk (js "END") [] ty]
  = [RawNode.mk (trim (toUpperCase ty))
       [RawProp.mk (ContentLine.name tok) (normalizeParams (ContentLine.params tok))
          (ContentLine.value tok)] []].
Proof.
  intros Hb He. unfold buildTreeFrom. cbn [fold_left].
  unfold buildTreeStep at 3. cbn [ContentLine.name ContentLine.value].
  change (streq (js "BEGIN") (js "BEGIN")) with true. cbv iota.
  unfold buildTreeStep at 2. rewrite Hb, He.
  unfold buildTreeStep. cbn [ContentLine.name].
  change (streq (js "END") (js "BEGIN")) with false.
  change (streq (js "END") (js "END")) with true. cbv iota.
  reflexivity.
Qed.

(** One quoted value, followed by anything. *)
Lemma paramValue_quoted (v : jsstring) (r : jsstring) (values : list jsstring) :
  lacks 34 v = true ->
  paramValue values (34 :: v ++ 34 :: r) = (values ++ [v], r).
Proof.
  intros Hv. unfold paramValue. rewrite startsWith_cons. change (34 =? 34) with true.
  cbv iota. unfold sliceFrom. cbn [drop]. rewrite !drop_0.
  rewrite takeWhile_app, dropWhile_app by (exact Hv || reflexivity).
  cbn [drop]. rewrite drop_0. reflexivity.
Qed.

(** One value as the line holds it, followed by a separator. *)
Lemma paramValue_written (qv : bool * jsstring) (sep : Z) (r : jsstring)
    (values : list jsstring) :
  readableWritten qv = true -> isParamValueEnd sep = true ->
  paramValue values (writtenValue qv ++ sep :: r) = (values ++ [qv.2], sep :: r).
Proof.
  destruct qv as [[|] v]; unfold readableWritten, writtenValue; cbn [fst snd]; intros Hv Hsep.
  - rewrite <- !app_assoc. cbn [app]. apply paramValue_quoted. exact Hv.
  - apply paramValue_plain; assumption.
Qed.

(** The values of one parameter, whatever way each one is written. *)
Lemma paramValuesLoop_written (vs : list (bool * jsstring)) :
  forall fuel values (sep : Z) (r : jsstring),
    vs <> [] -> Forall (fun qv => readableWritten qv = true) vs ->
    (sep = 58 \/ sep = 59) ->
    (length vs <= fuel)%nat ->
    paramValuesLoop fuel values (join [44] (map writtenValue vs) ++ sep :: r)
    = (values ++ map snd vs, sep :: r).
Proof.
  induction vs as [| v vs IH]; intros fuel values sep r Hne Hall Hsep Hfuel; [congruence |].
  destruct fuel as [| fuel]; [simpl in Hfuel; lia |].
  apply Forall_cons in Hall as [Hv Hall].
  destruct vs as [| v' vs].
  - cbn [map join]. cbn [paramValuesLoop].
    rewrite paramValue_written by (auto; destruct Hsep; subst; reflexivity).
    rewrite startsWith_cons.
    replace (sep =? 44) with false by (destruct Hsep; subst; reflexivity).
    reflexivity.
  - cbn [map]. rewrite join_cons2. rewrite <- !app_assoc. cbn [paramValuesLoop].
    change ([44] ++ join [44] (writtenValue v' :: map writtenValue vs) ++ sep :: r)
      with (44 :: (join [44] (map writtenValue (v' :: vs)) ++ sep :: r)).
    rewrite paramValue_written by (auto; reflexivity).
    rewrite startsWith_cons. change (44 =? 44) with true. cbv iota.
    unfold sliceFrom. cbn [drop]. rewrite drop_0.
    rewrite IH; auto; [| cbn [length] in *; lia].
    rewrite <- app_assoc. reflexivity.
Qed.

Lemma length_written_lower (vs : list (bool * jsstring)) :
  (length vs <= S (length (join [44%Z] (map writtenValue vs))))%nat.
Proof.
  rewrite <- (length_map writtenValue vs). apply length_join_lower.
Qed.

Lemma setParam_fresh (params : Params) key v :
  key ∉ map fst params -> setParam params key v = params ++ [(key, v)].
Proof.
  induction params as [| [k v0] params IH]; intros H; [reflexivity |].
  cbn [map fst] in H. apply not_elem_of_cons in H as [Hk H].
  cbn [setParam app]. rewrite streq_false by congruence. rewrite IH by exact H. reflexivity.
Qed.

Lemma written_rest (ps : list (jsstring * list (bool * jsstring))) (V : jsstring) :
  exists sep R, concat (map writtenParam ps) ++ 58 :: V = sep :: R /\ (sep = 58 \/ sep = 59).
Proof.
  destruct ps as [| p ps]; [exists 58, V; auto |].
  cbn [map concat]. unfold writtenParam at 1. cbn [app].
  eexists _, _. split; [reflexivity | auto].
Qed.

(** The parameter loop on the parameters of a line, any number of them. *)
Lemma paramsLoop_written (V : jsstring) (ps : list (jsstring * list (bool * jsstring))) :
  forall acc fuel,
    (length ps <= fuel)%nat ->
    Forall (fun p => readableWrittenParam p = true) ps ->
    NoDup (map fst acc ++ map fst ps) ->
    paramsLoop fuel acc (concat (map writtenParam ps) ++ 58 :: V)
    = (acc ++ map (fun p => (p.1, storedValue (map snd p.2))) ps, 58 :: V).
Proof.
  induction ps as [| [k vs] ps IH]; intros acc fuel Hfuel Hall Hnd.
  - cbn [map concat app]. rewrite paramsLoop_stop, app_nil_r. reflexivity.
  - destruct fuel as [| fuel]; [cbn [length] in Hfuel; lia |].
    apply Forall_cons in Hall as [Hp Hall].
    unfold readableWrittenParam in Hp. cbn [fst snd] in Hp.
    apply andb_true_iff in Hp as [Hp Hvs]. apply andb_true_iff in Hp as [Hk _].
    assert (Hvs' : Forall (fun qv => readableWritten qv = true) vs).
    { apply Forall_forall. intros x Hx. apply list_elem_of_In in Hx.
      exact (proj1 (forallb_forall _ _) Hvs x Hx). }
    clear Hvs. rename Hvs' into Hvs.
    unfold plainParamName in Hk. apply andb_true_iff in Hk as [Hk Hk0].
    apply andb_true_iff in Hk as [Hkc Hku]. apply streq_true in Hku.
    destruct (written_rest ps V) as (sep & R & ER & Hsep).
    assert (Hfresh : k ∉ map fst acc).
    { cbn [map fst] in Hnd. apply NoDup_app in Hnd as (_ & Hnd & _).
      intros Hin. apply (Hnd _ Hin). left. }
    assert (Hrest : paramsLoop fuel (acc ++ [(k, storedValue (map snd vs))]) (sep :: R)
                    = (acc ++ map (fun p => (p.1, storedValue (map snd p.2))) ((k, vs) :: ps),
                       58 :: V)).
    { rewrite <- ER, IH.
      - cbn [map fst snd]. rewrite <- app_assoc. reflexivity.
      - cbn [length] in Hfuel. lia.
      - exact Hall.
      - rewrite map_app. cbn [map fst]. rewrite <- app_assoc. exact Hnd. }
    cbn [map concat]. rewrite <- app_assoc, ER.
    unfold writtenParam. cbn [fst snd].
    destruct vs as [| v vs].
    + rewrite app_nil_r. cbn [app]. rewrite paramsLoop_step. cbv zeta.
      rewrite takeWhile_app, dropWhile_app, Hku
        by (exact Hkc || (destruct Hsep; subst; reflexivity)).
      rewrite startsWith_cons.
      replace (sep =? 61) with false by (destruct Hsep; subst; reflexivity).
      destruct k as [| k0 k']; [discriminate |].
      rewrite setParam_fresh by exact Hfresh. exact Hrest.
    + rewrite <- !app_assoc. cbn [app]. rewrite paramsLoop_step. cbv zeta.
      rewrite takeWhile_app, dropWhile_app, Hku by (exact Hkc || reflexivity).
      rewrite startsWith_cons. change (61 =? 61) with true. cbv iota.
      unfold sliceFrom at 1. cbn [drop length]. rewrite drop_0.
      rewrite paramValuesLoop_written; [| discriminate | exact Hvs | exact Hsep |].
      * cbn [app]. destruct k as [| k0 k']; [discriminate |].
        rewrite setParam_fresh by exact Hfresh. exact Hrest.
      * rewrite length_app. pose proof (length_written_lower (v :: vs)).
        cbn [length] in *. lia.
Qed.

Lemma length_writtenParams (ps : list (jsstring * list (bool * jsstring))) :
  (length ps <= length (concat (map writtenParam ps)))%nat.
Proof.
  induction ps as [| p ps IH]; [reflexivity |].
  cbn [map concat length]. rewrite length_app. unfold writtenParam at 1.
  cbn [app length]. lia.
Qed.

(** A whole line: the name, any number of parameters, the value. *)
Lemma parseContentLine_written (N : jsstring) (ps : list (jsstring * list (bool * jsstring)))
    (V : jsstring) :
  plainName N = true ->
  NoDup (map fst ps) ->
  Forall (fun p => readableWrittenParam p = true) ps ->
  parseContentLine (N ++ concat (map writtenParam ps) ++ [58] ++ V)
  = Some (ContentLine.mk N (map (fun p => (p.1, storedValue (map snd p.2))) ps) V).
Proof.
  intros HN Hnd Hall.
  unfold plainName in HN. apply andb_true_iff in HN as [HN HN0].
  apply andb_true_iff in HN as [HNc HNu]. apply streq_true in HNu.
  change ([58] ++ V) with (58 :: V).
  destruct (written_rest ps V) as (sep & R & ER & Hsep).
  rewrite parseContentLine_unfold by (destruct N; [discriminate HN0 | discriminate]).
  cbv zeta. rewrite ER.
  rewrite takeWhile_app, dropWhile_app, HNu
    by (exact HNc || (destruct Hsep; subst; reflexivity)).
  destruct N as [| n0 N']; [discriminate HN0 |].
  rewrite <- ER, paramsLoop_written.
  - cbn [app]. rewrite startsWith_cons. change (58 =? 58) with true. reflexivity.
  - rewrite length_app. pose proof (length_writtenParams ps). lia.
  - exact Hall.
  - exact Hnd.
Qed.

(** What [/[;:,]/.test] tests. *)
Lemma needsQuote_spec (s : jsstring) :
  needsQuote s = negb (lacks 59 s && lacks 58 s && lacks 44 s).
Proof.
  unfold needsQuote, lacks. induction s as [| c s IH]; [reflexivity |].
  cbn [existsb forallb]. rewrite IH.
  destruct (c =? 59), (c =? 58), (c =? 44); cbn [negb andb orb]; try reflexivity;
    destruct (forallb _ s), (forallb _ s), (forallb _ s); reflexivity.
Qed.

Lemma serializeParams_pieces (params : Params) :
  serializeParams params = concat (map paramPiece params).
Proof.
  unfold serializeParams.
  match goal with |- fold_left ?f _ _ = _ => set (F := f) end.
  assert (H : forall acc, fold_left F params acc = acc ++ concat (map paramPiece params));
    [| apply H].
  induction params as [| [k v] params IH]; intros acc.
  - cbn [fold_left map concat]. rewrite app_nil_r. reflexivity.
  - cbn [fold_left map concat]. rewrite IH. unfold F, paramPiece, paramText.
    cbn [fst snd]. rewrite <- !app_assoc. reflexivity.
Qed.




(** ** Codec round trips *)

(** ** Decimal numerals *)

Lemma digitsValue_app ds d : digitsValue (ds ++ [d]) = digitsValue ds * 10 + (d - 48).
Proof. unfold digitsValue. rewrite fold_left_app. reflexivity. Qed.

Lemma forallb_isDigit_app (a b : jsstring) :
  forallb isDigit (a ++ b) = forallb isDigit a && forallb isDigit b.
Proof. apply forallb_app. Qed.

Lemma isDigit_mod n : isDigit (48 + n mod 10) = true.
Proof.
  unfold isDigit. pose proof (Z.mod_pos_bound n 10 ltac:(lia)).
  apply andb_true_iff. split; apply Z.leb_le; lia.
Qed.

Lemma digitsFuel_spec (fuel : nat) :
  forall n acc, (1 <= fuel)%nat -> 0 <= n < 2 ^ Z.of_nat fuel ->
    exists ds, digitsFuel fuel n acc = ds ++ acc
               /\ ds <> [] /\ forallb isDigit ds = true /\ digitsValue ds = n
               /\ forall k, (1 <= k)%nat -> n < 10 ^ Z.of_nat k -> (length ds <= k)%nat.
Proof.
  induction fuel as [| fuel IH]; intros n acc Hfuel Hn.
  - lia.
  - cbn [digitsFuel]. destruct (n <? 10) eqn:E.
    + apply Z.ltb_lt in E. exists [48 + n mod 10]. split_and!.
      * reflexivity.
      * discriminate.
      * simpl. rewrite isDigit_mod. reflexivity.
      * unfold digitsValue. simpl. rewrite Z.mod_small by lia. lia.
      * intros k Hk _. simpl. lia.
    + apply Z.ltb_ge in E.
      assert (Hdiv : 0 <= n / 10 < 2 ^ Z.of_nat fuel).
      { split; [apply Z.div_pos; lia |].
        apply Z.div_lt_upper_bound; [lia |].
        rewrite Nat2Z.inj_succ, Z.pow_succ_r in Hn by lia. lia. }
      assert (Hfuel' : (1 <= fuel)%nat).
      { destruct fuel; [simpl in Hn; lia | lia]. }
      destruct (IH (n / 10) ((48 + n mod 10) :: acc) Hfuel' Hdiv)
        as (ds & -> & Hne & Hdig & Hval & Hlen).
      exists (ds ++ [48 + n mod 10]). split_and!.
      * rewrite <- app_assoc. reflexivity.
      * destruct ds; discriminate.
      * rewrite forallb_isDigit_app, Hdig. simpl. rewrite isDigit_mod. reflexivity.
      * rewrite digitsValue_app, Hval. pose proof (Z.div_mod n 10 ltac:(lia)). lia.
      * intros k Hk Hn10. rewrite length_app. simpl.
        destruct k as [| [| k]]; [lia | simpl in Hn10; lia |].
        assert (length ds <= S k)%nat; [| lia].
        apply Hlen; [lia |].
        apply Z.div_lt_upper_bound; [lia |].
        rewrite (Nat2Z.inj_succ (S k)), Z.pow_succ_r in Hn10 by lia. lia.
Qed.

Lemma decimal_spec (n : Z) :
  0 <= n ->
  decimal n <> [] /\ forallb isDigit (decimal n) = true /\ digitsValue (decimal n) = n
  /\ forall k, (1 <= k)%nat -> n < 10 ^ Z.of_nat k -> (length (decimal n) <= k)%nat.
Proof.
  intros Hn. unfold decimal.
  destruct (digitsFuel_spec (S (Z.to_nat (Z.log2 n))) n []) as (ds & -> & H).
  - lia.
  - split; [exact Hn |].
    destruct (Z.eq_dec n 0) as [-> | Hn0]; [simpl; lia |].
    rewrite Nat2Z.inj_succ, Z2Nat.id by apply Z.log2_nonneg.
    apply Z.log2_spec. lia.
  - rewrite app_nil_r. exact H.
Qed.

Lemma isDigit_range c : isDigit c = true -> 48 <= c <= 57.
Proof. unfold isDigit. intros H. apply andb_true_iff in H as [H1 H2]. lia. Qed.

Lemma isDigit_not_ws c : isDigit c = true -> isWhiteSpace c = false.
Proof.
  intros H. apply isDigit_range in H. unfold isWhiteSpace.
  repeat match goal with
         | |- context [?a =? ?b] => rewrite (proj2 (Z.eqb_neq a b)) by lia
         | |- context [?a <=? ?b] => rewrite (proj2 (Z.leb_gt a b)) by lia
         end.
  reflexivity.
Qed.

Lemma takeWhile_all p (s : jsstring) : forallb p s = true -> takeWhile p s = s.
Proof.
  induction s as [| c s IH]; simpl; [reflexivity |].
  intros H. apply andb_true_iff in H as [Hc Hs]. rewrite Hc, IH by exact Hs. reflexivity.
Qed.

Lemma dropWhile_all p (s : jsstring) : forallb p s = true -> dropWhile p s = [].
Proof.
  induction s as [| c s IH]; simpl; [reflexivity |].
  intros H. apply andb_true_iff in H as [Hc Hs]. rewrite Hc, IH by exact Hs. reflexivity.
Qed.

Lemma parseInt_digits (ds : jsstring) :
  ds <> [] -> forallb isDigit ds = true -> parseInt ds = Int (digitsValue ds).
Proof.
  intros Hne Hds. destruct ds as [| d ds]; [congruence |].
  pose proof Hds as Hall. simpl in Hds. apply andb_true_iff in Hds as [Hd Hds].
  pose proof (isDigit_range d Hd) as Hr.
  unfold parseInt, trimStart. cbn [dropWhile]. rewrite (isDigit_not_ws d Hd).
  cbn [startsWith].
  rewrite (proj2 (Z.eqb_neq d 45)), (proj2 (Z.eqb_neq d 43)) by lia. cbn [andb orb].
  rewrite (takeWhile_all _ _ Hall). reflexivity.
Qed.

Lemma parseInt_negative (ds : jsstring) :
  ds <> [] -> forallb isDigit ds = true -> parseInt (45 :: ds) = Int (- digitsValue ds).
Proof.
  intros Hne Hds. unfold parseInt, trimStart. cbn [dropWhile].
  change (isWhiteSpace 45) with false. cbn [startsWith].
  change (45 =? 45) with true. cbn [andb orb]. unfold sliceFrom. cbn [drop].
  rewrite drop_0, (takeWhile_all _ _ Hds).
  destruct ds; [congruence | reflexivity].
Qed.

(** [parseInt] reads back what [String] prints for an integer. *)
Lemma parseInt_numberToString (z : Z) : parseInt (numberToString (Int z)) = Int z.
Proof.
  unfold numberToString. destruct (z <? 0) eqn:E.
  - apply Z.ltb_lt in E. destruct (decimal_spec (- z)) as (Hne & Hd & Hv & _); [lia |].
    rewrite parseInt_negative, Hv by assumption. f_equal. lia.
  - apply Z.ltb_ge in E. destruct (decimal_spec z E) as (Hne & Hd & Hv & _).
    rewrite parseInt_digits, Hv by assumption. reflexivity.
Qed.

Lemma pad2_digits (z : Z) :
  0 <= z < 100 ->
  exists a b, pad2 (Int z) = [a; b] /\ isDigit a = true /\ isDigit b = true
              /\ parseInt [a; b] = Int z.
Proof.
  intros Hz. unfold pad2, padStart0, numberToString.
  replace (z <? 0) with false by (symmetry; apply Z.ltb_ge; lia).
  destruct (decimal_spec z) as (Hne & Hd & Hv & Hlen); [lia |].
  specialize (Hlen 2%nat ltac:(lia) ltac:(simpl; lia)).
  destruct (decimal z) as [| a [| b [| c ds]]]; simpl in Hlen; try lia; try congruence.
  - exists 48, a. simpl in Hd. apply andb_true_iff in Hd as [Ha _].
    split_and!; auto.
    rewrite parseInt_digits; [| discriminate | simpl; rewrite Ha; reflexivity].
    f_equal. unfold digitsValue in *. simpl in *. lia.
  - exists a, b. simpl in Hd. apply andb_true_iff in Hd as [Ha Hb].
    apply andb_true_iff in Hb as [Hb _].
    split_and!; auto.
    rewrite parseInt_digits; [| discriminate | simpl; rewrite Ha, Hb; reflexivity].
    f_equal. exact Hv.
Qed.

Lemma pad4_digits (z : Z) :
  0 <= z < 10000 ->
  exists a b c d, pad4 (Int z) = [a; b; c; d]
                  /\ isDigit a = true /\ isDigit b = true /\ isDigit c = true
                  /\ isDigit d = true /\ parseInt [a; b; c; d] = Int z.
Proof.
  intros Hz. unfold pad4, padStart0, numberToString.
  replace (z <? 0) with false by (symmetry; apply Z.ltb_ge; lia).
  destruct (decimal_spec z) as (Hne & Hd & Hv & Hlen); [lia |].
  specialize (Hlen 4%nat ltac:(lia) ltac:(simpl; lia)).
  destruct (decimal z) as [| a [| b [| c [| d [| e ds]]]]]; simpl in Hlen; try lia;
    try congruence; simpl in Hd;
    repeat match goal with
           | H : _ && _ = true |- _ => apply andb_true_iff in H; destruct H
           end.
  - exists 48, 48, 48, a. split_and!; auto.
    rewrite parseInt_digits; [| discriminate | simpl; rewrite H; reflexivity].
    f_equal. unfold digitsValue in *. simpl in *. lia.
  - exists 48, 48, a, b. split_and!; auto.
    rewrite parseInt_digits; [| discriminate | simpl; rewrite H, H0; reflexivity].
    f_equal. unfold digitsValue in *. simpl in *. lia.
  - exists 48, a, b, c. split_and!; auto.
    rewrite parseInt_digits; [| discriminate | simpl; rewrite H, H0, H1; reflexivity].
    f_equal. unfold digitsValue in *. simpl in *. lia.
  - exists a, b, c, d. split_and!; auto.
    rewrite parseInt_digits; [| discriminate | simpl; rewrite H, H0, H1, H2; reflexivity].
    f_equal. exact Hv.
Qed.

Lemma dropWhile_head p (c : Z) (s : jsstring) : p c = false -> dropWhile p (c :: s) = c :: s.
Proof. intros H. simpl. rewrite H. reflexivity. Qed.

Lemma trim_noWS (s : jsstring) : noWS s = true -> trim s = s.
Proof.
  unfold noWS, trim, trimStart, trimEnd. intros H.
  assert (Hd : forall t : jsstring,
             forallb (fun c => negb (isWhiteSpace c)) t = true ->
             dropWhile isWhiteSpace t = t).
  { intros [| c t]; [reflexivity |]. simpl. intros Ht.
    apply andb_true_iff in Ht as [Hc _]. apply negb_true_iff in Hc. rewrite Hc. reflexivity. }
  rewrite (Hd s H), Hd, rev_involutive; [reflexivity |].
  rewrite forallb_forall in *. intros x Hx. apply H. apply in_rev. exact Hx.
Qed.

Lemma inRange_Int lo hi n : inRange lo hi n -> exists z, n = Int z /\ lo <= z < hi.
Proof. destruct n; simpl; [eauto | contradiction | contradiction]. Qed.

Ltac digits2 H a b Ha Hb Hp :=
  let z := fresh "z" in let Hz := fresh "Hz" in let E := fresh "E" in
  apply inRange_Int in H as (z & -> & Hz);
  destruct (pad2_digits z Hz) as (a & b & E & Ha & Hb & Hp); rewrite E; clear E.

Ltac digits4 H a b c d Ha Hb Hc Hd Hp :=
  let z := fresh "z" in let Hz := fresh "Hz" in let E := fresh "E" in
  apply inRange_Int in H as (z & -> & Hz);
  destruct (pad4_digits z Hz) as (a & b & c & d & E & Ha & Hb & Hc & Hd & Hp);
  rewrite E; clear E.

Ltac solve_noWS :=
  unfold noWS; cbn [forallb app];
  repeat match goal with
         | H : isDigit ?c = true |- context [isWhiteSpace ?c] =>
             rewrite (isDigit_not_ws c H)
         end;
  reflexivity.

Lemma DATE_round_trip (v : ICalDate.t) :
  validDate v -> DATE.parse (DATE.serialize v) = v.
Proof.
  destruct v as [y m d]. unfold validDate. cbn [ICalDate.year ICalDate.month ICalDate.day].
  intros (Hy & Hm & Hd).
  unfold DATE.serialize, DATE.parse. cbn [ICalDate.year ICalDate.month ICalDate.day].
  digits4 Hy y1 y2 y3 y4 Hy1 Hy2 Hy3 Hy4 Py.
  digits2 Hm m1 m2 Hm1 Hm2 Pm.
  digits2 Hd d1 d2 Hd1 Hd2 Pd.
  rewrite trim_noWS by solve_noWS.
  cbn [slice app drop take Nat.sub]. rewrite Py, Pm, Pd. reflexivity.
Qed.

Lemma digit_neq c k : isDigit c = true -> (k < 48 \/ 57 < k) -> (c =? k) = false.
Proof. intros H Hk. apply isDigit_range in H. apply Z.eqb_neq. lia. Qed.

Lemma DATE_TIME_round_trip (v : ICalDateTime.t) (params : Params) :
  validDateTime v ->
  DATE_TIME.parse (DATE_TIME.serialize v) params
  = ICalDateTime.mk (ICalDateTime.year v) (ICalDateTime.month v) (ICalDateTime.day v)
      (ICalDateTime.hour v) (ICalDateTime.minute v) (ICalDateTime.second v)
      (ICalDateTime.utc v)
      (match getParam params (js "TZID") with
       | Some (PString t) => Some t
       | _ => None
       end).
Proof.
  destruct v as [y m d h mi s utc tzid]. unfold validDateTime.
  cbn [ICalDateTime.year ICalDateTime.month ICalDateTime.day ICalDateTime.hour
       ICalDateTime.minute ICalDateTime.second ICalDateTime.utc ICalDateTime.tzid].
  intros (Hy & Hm & Hd & Hh & Hmi & Hs).
  unfold DATE_TIME.serialize, DATE_TIME.parse.
  cbn [ICalDateTime.year ICalDateTime.month ICalDateTime.day ICalDateTime.hour
       ICalDateTime.minute ICalDateTime.second ICalDateTime.utc ICalDateTime.tzid].
  digits4 Hy y1 y2 y3 y4 Hy1 Hy2 Hy3 Hy4 Py.
  digits2 Hm m1 m2 Hm1 Hm2 Pm.
  digits2 Hd d1 d2 Hd1 Hd2 Pd.
  digits2 Hh h1 h2 Hh1 Hh2 Ph.
  digits2 Hmi n1 n2 Hn1 Hn2 Pn.
  digits2 Hs s1 s2 Hs1 Hs2 Ps.
  destruct utc.
  - rewrite trim_noWS by solve_noWS.
    unfold endsWith, dropLast.
    cbn [slice app drop take Nat.sub rev startsWith length].
    change (90 =? 90) with true. cbn [andb].
    cbn [slice app drop take Nat.sub rev startsWith length].
    rewrite Py, Pm, Pd, Ph, Pn, Ps. reflexivity.
  - rewrite trim_noWS by solve_noWS.
    unfold endsWith, dropLast.
    cbn [slice app drop take Nat.sub rev startsWith length].
    rewrite (digit_neq s2 90 Hs2) by lia. cbn [andb].
    cbn [slice app drop take Nat.sub rev startsWith length].
    rewrite Py, Pm, Pd, Ph, Pn, Ps. reflexivity.
Qed.

Lemma UTC_OFFSET_round_trip (v : ICalUtcOffset.t) :
  validUtcOffset v -> UTC_OFFSET.parse (UTC_OFFSET.serialize v) = v.
Proof.
  destruct v as [sg h m sec]. unfold validUtcOffset.
  cbn [ICalUtcOffset.sign ICalUtcOffset.hours ICalUtcOffset.minutes ICalUtcOffset.seconds].
  intros (Hh & Hm & Hs).
  unfold UTC_OFFSET.serialize, UTC_OFFSET.parse.
  cbn [ICalUtcOffset.sign ICalUtcOffset.hours ICalUtcOffset.minutes ICalUtcOffset.seconds].
  digits2 Hh h1 h2 Hh1 Hh2 Ph.
  digits2 Hm m1 m2 Hm1 Hm2 Pm.
  destruct sec as [sec |].
  - digits2 Hs s1 s2 Hs1 Hs2 Ps.
    destruct sg; cbn [signChar]; rewrite trim_noWS by solve_noWS;
      cbn [slice app drop take Nat.sub startsWith length Nat.leb];
      rewrite Ph, Pm, Ps; reflexivity.
  - destruct sg; cbn [signChar]; rewrite trim_noWS by solve_noWS;
      cbn [slice app drop take Nat.sub startsWith length Nat.leb];
      rewrite Ph, Pm; reflexivity.
Qed.

Lemma takeWhile_digits_stop (ds : jsstring) (c : Z) (rest : jsstring) :
  forallb isDigit ds = true -> isDigit c = false ->
  takeWhile isDigit (ds ++ c :: rest) = ds /\ dropWhile isDigit (ds ++ c :: rest) = c :: rest.
Proof.
  intros Hds Hc. induction ds as [| d ds IH]; simpl.
  - rewrite Hc. auto.
  - simpl in Hds. apply andb_true_iff in Hds as [Hd Hds]. rewrite Hd.
    destruct (IH Hds) as [-> ->]. auto.
Qed.

Lemma matchDigitsUnit_unfold u (s : jsstring) :
  matchDigitsUnit u s =
    match digitsThen u s with
    | Some ds => Some ds
    | None => match s with [] => None | _ :: s' => matchDigitsUnit u s' end
    end.
Proof. destruct s; reflexivity. Qed.

Lemma matchDigitsUnit_hit u (ds rest : jsstring) :
  ds <> [] -> forallb isDigit ds = true -> isDigit u = false ->
  matchDigitsUnit u (ds ++ u :: rest) = Some ds.
Proof.
  intros Hne Hds Hu. rewrite matchDigitsUnit_unfold. unfold digitsThen.
  destruct (takeWhile_digits_stop ds u rest Hds Hu) as [-> ->].
  destruct ds; [congruence |]. rewrite Z.eqb_refl. reflexivity.
Qed.

Lemma matchDigitsUnit_nondigit u c (rest : jsstring) :
  isDigit c = false -> matchDigitsUnit u (c :: rest) = matchDigitsUnit u rest.
Proof.
  intros Hc. rewrite matchDigitsUnit_unfold. unfold digitsThen. simpl. rewrite Hc. reflexivity.
Qed.

Lemma matchDigitsUnit_skip u u' (ds rest : jsstring) :
  forallb isDigit ds = true -> isDigit u' = false -> u' <> u ->
  matchDigitsUnit u (ds ++ u' :: rest) = matchDigitsUnit u rest.
Proof.
  intros Hds Hu' Hne. induction ds as [| d ds IH].
  - apply matchDigitsUnit_nondigit. exact Hu'.
  - rewrite matchDigitsUnit_unfold. unfold digitsThen.
    destruct (takeWhile_digits_stop (d :: ds) u' rest Hds Hu') as [-> ->].
    rewrite (proj2 (Z.eqb_neq u' u) Hne). simpl in Hds.
    apply andb_true_iff in Hds as [_ Hds]. apply IH. exact Hds.
Qed.

Lemma unitOK_show (o : option number) (u : Z) :
  unitOK o ->
  (o = None /\ showUnit o [u] = [] /\ truthyOpt o = false)
  \/ (exists z, o = Some (Int z) /\ 1 <= z /\ showUnit o [u] = decimal z ++ [u]
                /\ truthyOpt o = true /\ decimal z <> []
                /\ forallb isDigit (decimal z) = true /\ parseInt (decimal z) = Int z).
Proof.
  destruct o as [n |]; simpl; [| auto].
  intros H. apply inRange_Int in H as (z & -> & Hz). right. exists z.
  destruct (decimal_spec z) as (Hne & Hd & Hv & _); [lia |].
  simpl. replace (z =? 0) with false by (symmetry; apply Z.eqb_neq; lia).
  replace (z <? 0) with false by (symmetry; apply Z.ltb_ge; lia). simpl.
  split_and!; auto; try lia.
  rewrite parseInt_digits, Hv by assumption. reflexivity.
Qed.

(** Reading the unit [u] back from its own text, whatever follows. *)
Lemma unit_hit (o : option number) (u : Z) (rest : jsstring) :
  unitOK o -> isDigit u = false ->
  parseInt <$> matchDigitsUnit u (showUnit o [u] ++ rest)
  = match o with
    | Some n => Some n
    | None => parseInt <$> matchDigitsUnit u rest
    end.
Proof.
  intros Ho Hu. destruct (unitOK_show o u Ho) as [(-> & -> & _) | (z & -> & _ & -> & _ & Hne & Hd & Hp)].
  - reflexivity.
  - rewrite <- app_assoc. simpl app. rewrite matchDigitsUnit_hit by assumption.
    simpl. rewrite Hp. reflexivity.
Qed.

(** Another unit's text is skipped when looking for [u]. *)
Lemma unit_skip (o : option number) (u u' : Z) (rest : jsstring) :
  unitOK o -> isDigit u' = false -> u' <> u ->
  matchDigitsUnit u (showUnit o [u'] ++ rest) = matchDigitsUnit u rest.
Proof.
  intros Ho Hu' Hne.
  destruct (unitOK_show o u' Ho) as [(-> & -> & _) | (z & -> & _ & -> & _ & _ & Hd & _)].
  - reflexivity.
  - rewrite <- app_assoc. simpl app. apply matchDigitsUnit_skip; assumption.
Qed.

Lemma noWS_app (a b : jsstring) : noWS (a ++ b) = noWS a && noWS b.
Proof. apply forallb_app. Qed.

Lemma noWS_digits (ds : jsstring) : forallb isDigit ds = true -> noWS ds = true.
Proof.
  unfold noWS. induction ds as [| d ds IH]; simpl; [reflexivity |].
  intros H. apply andb_true_iff in H as [Hd Hds].
  rewrite (isDigit_not_ws d Hd), IH by exact Hds. reflexivity.
Qed.

Lemma noWS_showUnit (o : option number) (u : Z) :
  unitOK o -> isWhiteSpace u = false -> noWS (showUnit o [u]) = true.
Proof.
  intros Ho Hu. destruct (unitOK_show o u Ho) as [(_ & -> & _) | (z & _ & _ & -> & _ & _ & Hd & _)].
  - reflexivity.
  - rewrite noWS_app, (noWS_digits _ Hd). simpl. unfold noWS. simpl. rewrite Hu. reflexivity.
Qed.

(** What [DURATION.parse] does with a sign, a [P] and a body. *)
Lemma DURATION_parse_body (neg : bool) (body : jsstring) :
  noWS body = true ->
  DURATION.parse ((if neg then [45] else []) ++ 80 :: body)
  = match matchWeeks body with
    | Some w => ICalDuration.mk neg (Some (parseInt w)) None None None None
    | None =>
        let days := parseInt <$> matchDigitsUnit 68 body in
        match indexOf 84 body with
        | Some tIdx =>
            let timePart := sliceFrom body (tIdx + 1) in
            ICalDuration.mk neg None days
              (parseInt <$> matchDigitsUnit 72 timePart)
              (parseInt <$> matchDigitsUnit 77 timePart)
              (parseInt <$> matchDigitsUnit 83 timePart)
        | None => ICalDuration.mk neg None days None None None
        end
    end.
Proof.
  intros Hws. unfold DURATION.parse.
  rewrite trim_noWS.
  2: { rewrite noWS_app. destruct neg; simpl; unfold noWS in *; simpl; rewrite Hws; reflexivity. }
  destruct neg; reflexivity.
Qed.

Lemma indexOf_skip (c : Z) (a b : jsstring) :
  forallb (fun x => negb (x =? c)) a = true ->
  indexOf c (a ++ b) = (fun i => (length a + i)%nat) <$> indexOf c b.
Proof.
  induction a as [| x a IH]; simpl; intros H.
  - destruct (indexOf c b); reflexivity.
  - apply andb_true_iff in H as [Hx Ha]. apply negb_true_iff in Hx. rewrite Hx, IH by exact Ha.
    destruct (indexOf c b); reflexivity.
Qed.

Lemma showUnit_no_char (o : option number) (u c : Z) :
  unitOK o -> isDigit c = false -> u <> c ->
  forallb (fun x => negb (x =? c)) (showUnit o [u]) = true.
Proof.
  intros Ho Hc Hu. destruct (unitOK_show o u Ho) as [(_ & -> & _) | (z & _ & _ & -> & _ & _ & Hd & _)].
  - reflexivity.
  - rewrite forallb_app. simpl. rewrite (proj2 (Z.eqb_neq u c) Hu). simpl.
    rewrite andb_true_r. rewrite forallb_forall in *. intros x Hx.
    specialize (Hd x Hx). apply negb_true_iff, Z.eqb_neq. intros ->. congruence.
Qed.

Lemma matchWeeks_days (o : option number) (rest : jsstring) :
  unitOK o -> (o = None -> exists r, rest = 84 :: r) ->
  matchWeeks (showUnit o [68] ++ rest) = None.
Proof.
  intros Ho Hrest. unfold matchWeeks.
  destruct (unitOK_show o 68 Ho) as [(-> & -> & _) | (z & -> & _ & -> & _ & Hne & Hd & _)].
  - destruct (Hrest eq_refl) as [r ->]. reflexivity.
  - rewrite <- app_assoc. simpl app.
    destruct (takeWhile_digits_stop (decimal z) 68 rest Hd eq_refl) as [-> ->].
    destruct (decimal z); [congruence | reflexivity].
Qed.

Lemma DURATION_round_trip (v : ICalDuration.t) :
  validDuration v -> DURATION.parse (DURATION.serialize v) = v.
Proof.
  destruct v as [neg weeks days hours minutes seconds]. unfold validDuration.
  cbn [ICalDuration.weeks ICalDuration.days ICalDuration.hours ICalDuration.minutes
       ICalDuration.seconds].
  destruct weeks as [w |].
  - intros (Hw & -> & -> & -> & ->). apply inRange_Int in Hw as (z & -> & Hz).
    destruct (decimal_spec z) as (Hne & Hd & Hv & _); [lia |].
    unfold DURATION.serialize. cbn [ICalDuration.negative ICalDuration.weeks numberToString].
    replace (z <? 0) with false by (symmetry; apply Z.ltb_ge; lia).
    change ((if neg then [45] else []) ++ [80] ++ decimal z ++ [87])
      with ((if neg then [45] else []) ++ 80 :: (decimal z ++ [87])).
    rewrite DURATION_parse_body.
    2: { rewrite noWS_app, (noWS_digits _ Hd). reflexivity. }
    unfold matchWeeks.
    destruct (takeWhile_digits_stop (decimal z) 87 [] Hd eq_refl) as [-> ->].
    destruct (decimal z) as [| d ds] eqn:E; [congruence |].
    change (streq [87] [87]) with true. cbv iota.
    rewrite parseInt_digits, Hv by assumption. reflexivity.
  - intros (Hd & Hh & Hm & Hs & Hsome).
    set (units := showUnit hours [72] ++ showUnit minutes [77] ++ showUnit seconds [83]).
    set (hasTime := truthyOpt hours || truthyOpt minutes || truthyOpt seconds).
    assert (Hser : DURATION.serialize
                     (ICalDuration.mk neg None days hours minutes seconds)
                   = (if neg then [45] else [])
                     ++ 80 :: (showUnit days [68] ++ (if hasTime then 84 :: units else []))).
    { unfold DURATION.serialize.
      cbn [ICalDuration.negative ICalDuration.weeks ICalDuration.days ICalDuration.hours
           ICalDuration.minutes ICalDuration.seconds].
      fold hasTime. destruct neg, hasTime; cbn [app]; rewrite ?app_nil_r; reflexivity. }
    rewrite Hser. clear Hser.
    assert (Hunits_ws : noWS units = true).
    { unfold units. rewrite !noWS_app, !noWS_showUnit by (auto; reflexivity). reflexivity. }
    assert (Hno : forall u, isDigit u = false -> u <> 72 -> u <> 77 -> u <> 83 ->
                            matchDigitsUnit u units = None).
    { intros u Hu H1 H2 H3. unfold units.
      rewrite !unit_skip by (auto; reflexivity).
      rewrite <- (app_nil_r (showUnit seconds [83])), unit_skip by (auto; reflexivity).
      reflexivity. }
    assert (Hh' : parseInt <$> matchDigitsUnit 72 units = hours).
    { unfold units. rewrite unit_hit by (auto; reflexivity).
      destruct hours; [reflexivity |].
      rewrite unit_skip by (auto; try reflexivity; lia).
      rewrite <- (app_nil_r (showUnit seconds [83])), unit_skip by (auto; try reflexivity; lia).
      reflexivity. }
    assert (Hm' : parseInt <$> matchDigitsUnit 77 units = minutes).
    { unfold units. rewrite unit_skip by (auto; try reflexivity; lia).
      rewrite unit_hit by (auto; reflexivity).
      destruct minutes; [reflexivity |].
      rewrite <- (app_nil_r (showUnit seconds [83])), unit_skip by (auto; try reflexivity; lia).
      reflexivity. }
    assert (Hs' : parseInt <$> matchDigitsUnit 83 units = seconds).
    { unfold units. rewrite !unit_skip by (auto; try reflexivity; lia).
      rewrite <- (app_nil_r (showUnit seconds [83])), unit_hit by (auto; reflexivity).
      destruct seconds; reflexivity. }
    assert (HhasTime : hasTime = false -> hours = None /\ minutes = None /\ seconds = None).
    { unfold hasTime. intros H.
      apply orb_false_iff in H as [H Hs0]. apply orb_false_iff in H as [Hh0 Hm0].
      destruct (unitOK_show hours 72 Hh) as [(-> & _) | (? & _ & _ & _ & ? & _)]; [| congruence].
      destruct (unitOK_show minutes 77 Hm) as [(-> & _) | (? & _ & _ & _ & ? & _)]; [| congruence].
      destruct (unitOK_show seconds 83 Hs) as [(-> & _) | (? & _ & _ & _ & ? & _)]; [| congruence].
      auto. }
    rewrite DURATION_parse_body.
    2: { rewrite noWS_app, noWS_showUnit by (auto; reflexivity).
         destruct hasTime; [| reflexivity]. unfold noWS in *. simpl. exact Hunits_ws. }
    rewrite matchWeeks_days; [| exact Hd |].
    2: { intros ->. destruct hasTime; [eauto |].
         destruct (HhasTime eq_refl) as (-> & -> & ->). destruct Hsome as [? | [? | [? | ?]]]; congruence. }
    cbv zeta.
    rewrite unit_hit by (auto; reflexivity).
    rewrite indexOf_skip by (apply showUnit_no_char; auto; lia).
    destruct hasTime.
    + rewrite matchDigitsUnit_nondigit, Hno by (auto; lia).
      cbn [indexOf]. change (84 =? 84) with true. cbn [fmap option_fmap option_map].
      unfold sliceFrom.
      rewrite Nat.add_0_r.
      rewrite <- drop_drop, drop_app_length. cbn [drop]. rewrite drop_0.
      rewrite Hh', Hm', Hs'. destruct days; reflexivity.
    + destruct (HhasTime eq_refl) as (-> & -> & ->).
      cbn [indexOf fmap option_fmap option_map matchDigitsUnit digitsThen takeWhile dropWhile].
      destruct days; reflexivity.
Qed.

Lemma DATE_TIME_serialize_chars (v : ICalDateTime.t) :
  validDateTime v ->
  forallb dateTimeChar (DATE_TIME.serialize v) = true
  /\ exists c r, DATE_TIME.serialize v = c :: r /\ isDigit c = true.
Proof.
  destruct v as [y m d h mi s utc tzid]. unfold validDateTime.
  cbn [ICalDateTime.year ICalDateTime.month ICalDateTime.day ICalDateTime.hour
       ICalDateTime.minute ICalDateTime.second ICalDateTime.utc ICalDateTime.tzid].
  intros (Hy & Hm & Hd & Hh & Hmi & Hs).
  unfold DATE_TIME.serialize.
  cbn [ICalDateTime.year ICalDateTime.month ICalDateTime.day ICalDateTime.hour
       ICalDateTime.minute ICalDateTime.second ICalDateTime.utc ICalDateTime.tzid].
  digits4 Hy y1 y2 y3 y4 Hy1 Hy2 Hy3 Hy4 Py.
  digits2 Hm m1 m2 Hm1 Hm2 Pm.
  digits2 Hd d1 d2 Hd1 Hd2 Pd.
  digits2 Hh h1 h2 Hh1 Hh2 Ph.
  digits2 Hmi n1 n2 Hn1 Hn2 Pn.
  digits2 Hs s1 s2 Hs1 Hs2 Ps.
  split.
  - destruct utc; cbn [app forallb]; unfold dateTimeChar;
      rewrite Hy1, Hy2, Hy3, Hy4, Hm1, Hm2, Hd1, Hd2, Hh1, Hh2, Hn1, Hn2, Hs1, Hs2;
      reflexivity.
  - destruct utc; cbn [app]; eauto.
Qed.

Lemma dateTimeChar_not_ws c : dateTimeChar c = true -> negb (isWhiteSpace c) = true.
Proof.
  unfold dateTimeChar. intros H. apply orb_true_iff in H as [H | H].
  - apply orb_true_iff in H as [H | H].
    + rewrite (isDigit_not_ws c H). reflexivity.
    + apply Z.eqb_eq in H. subst. reflexivity.
  - apply Z.eqb_eq in H. subst. reflexivity.
Qed.

Lemma dateTimeChar_not (k : Z) c :
  dateTimeChar k = false -> dateTimeChar c = true -> negb (c =? k) = true.
Proof.
  intros Hk Hc. apply negb_true_iff, Z.eqb_neq. intros ->. congruence.
Qed.

Lemma DURATION_serialize_shape (v : ICalDuration.t) :
  validDuration v ->
  exists body,
    DURATION.serialize v = (if ICalDuration.negative v then [45] else []) ++ 80 :: body
    /\ noWS body = true.
Proof.
  destruct v as [neg weeks days hours minutes seconds]. unfold validDuration.
  cbn [ICalDuration.weeks ICalDuration.days ICalDuration.hours ICalDuration.minutes
       ICalDuration.seconds ICalDuration.negative].
  destruct weeks as [w |].
  - intros (Hw & -> & -> & -> & ->). apply inRange_Int in Hw as (z & -> & Hz).
    destruct (decimal_spec z) as (Hne & Hd & Hv & _); [lia |].
    exists (decimal z ++ [87]). split.
    + unfold DURATION.serialize. cbn [ICalDuration.negative ICalDuration.weeks numberToString].
      replace (z <? 0) with false by (symmetry; apply Z.ltb_ge; lia). reflexivity.
    + rewrite noWS_app, (noWS_digits _ Hd). reflexivity.
  - intros (Hd & Hh & Hm & Hs & _).
    exists (showUnit days [68]
            ++ (if truthyOpt hours || truthyOpt minutes || truthyOpt seconds
                then 84 :: (showUnit hours [72] ++ showUnit minutes [77]
                            ++ showUnit seconds [83])
                else [])).
    split.
    + unfold DURATION.serialize.
      cbn [ICalDuration.negative ICalDuration.weeks ICalDuration.days ICalDuration.hours
           ICalDuration.minutes ICalDuration.seconds].
      destruct neg, (truthyOpt hours || truthyOpt minutes || truthyOpt seconds);
        cbn [app]; rewrite ?app_nil_r; reflexivity.
    + rewrite noWS_app, noWS_showUnit by (auto; reflexivity).
      destruct (truthyOpt hours || truthyOpt minutes || truthyOpt seconds); [| reflexivity].
      change (noWS (84 :: ?x)) with (noWS x).
      rewrite !noWS_app, !noWS_showUnit by (auto; reflexivity). reflexivity.
Qed.

Lemma PERIOD_round_trip (v : ICalPeriod.t) :
  validPeriod v -> PERIOD.parse (PERIOD.serialize v) = Ok v.
Proof.
  destruct v as [start e]. unfold validPeriod, floating.
  cbn [ICalPeriod.start ICalPeriod.end_]. intros (Hstart & Htz & Hend).
  destruct (DATE_TIME_serialize_chars start Hstart) as (Hchars & _).
  unfold PERIOD.serialize, PERIOD.parse. cbn [ICalPeriod.start ICalPeriod.end_].
  set (startStr := DATE_TIME.serialize start) in *.
  rewrite indexOf_skip.
  2: { eapply forallb_weaken; [| exact Hchars]. intros c. apply dateTimeChar_not. reflexivity. }
  cbn [app indexOf]. change (47 =? 47) with true. cbn [fmap option_fmap option_map].
  rewrite Nat.add_0_r. unfold slice, sliceFrom.
  rewrite drop_0, Nat.sub_0_r, take_app_length.
  rewrite <- drop_drop, drop_app_length. cbn [drop]. rewrite drop_0.
  unfold startStr. rewrite (DATE_TIME_round_trip start []) by exact Hstart.
  cbn [getParam].
  assert (Es : ICalDateTime.mk (ICalDateTime.year start) (ICalDateTime.month start)
                 (ICalDateTime.day start) (ICalDateTime.hour start)
                 (ICalDateTime.minute start) (ICalDateTime.second start)
                 (ICalDateTime.utc start) None = start).
  { destruct start; cbn in *; subst; reflexivity. }
  rewrite Es.
  destruct e as [dt | d].
  - destruct Hend as [Hdt Hdtz].
    destruct (DATE_TIME_serialize_chars dt Hdt) as (Hc & c & r & Ec & Hdig).
    rewrite trim_noWS.
    2: { unfold noWS. eapply forallb_weaken; [| exact Hc]. apply dateTimeChar_not_ws. }
    rewrite Ec at 1 2 3. cbn [startsWith js map list_ascii_of_string].
    pose proof (isDigit_range c Hdig).
    replace (c =? _) with false by (symmetry; apply Z.eqb_neq; cbn; lia).
    replace (c =? _) with false by (symmetry; apply Z.eqb_neq; cbn; lia).
    replace (c =? _) with false by (symmetry; apply Z.eqb_neq; cbn; lia).
    cbn [andb orb].
    rewrite (DATE_TIME_round_trip dt []) by exact Hdt. cbn [getParam].
    do 3 f_equal. destruct dt; cbn in *; subst; reflexivity.
  - destruct (DURATION_serialize_shape d Hend) as (body & Eb & Hws).
    rewrite trim_noWS.
    2: { rewrite Eb, noWS_app. destruct (ICalDuration.negative d); unfold noWS in *; simpl;
         rewrite Hws; reflexivity. }
    rewrite Eb at 1 2 3.
    replace (startsWith _ (js "P") || startsWith _ (js "-P") || startsWith _ (js "+P"))
      with true by (destruct (ICalDuration.negative d); reflexivity).
    rewrite (DURATION_round_trip d Hend). reflexivity.
Qed.

(** ** Splitting and joining *)

Lemma splitAux_lacks c (cur s : jsstring) :
  lacks c s = true -> splitAux c cur s = [rev cur ++ s].
Proof.
  revert cur. induction s as [| x s IH]; intros cur H; simpl.
  - rewrite app_nil_r. reflexivity.
  - simpl in H. apply andb_true_iff in H as [Hx Hs]. apply negb_true_iff in Hx.
    rewrite Hx, IH by exact Hs. simpl. rewrite <- app_assoc. reflexivity.
Qed.

Lemma splitAux_sep c (cur a rest : jsstring) :
  lacks c a = true ->
  splitAux c cur (a ++ c :: rest) = (rev cur ++ a) :: splitAux c [] rest.
Proof.
  revert cur. induction a as [| x a IH]; intros cur H; simpl.
  - rewrite Z.eqb_refl, app_nil_r. reflexivity.
  - simpl in H. apply andb_true_iff in H as [Hx Ha]. apply negb_true_iff in Hx.
    rewrite Hx, IH by exact Ha. simpl. rewrite <- app_assoc. reflexivity.
Qed.

Lemma split_join c (parts : list jsstring) :
  parts <> [] -> Forall (fun p => lacks c p = true) parts ->
  split c (join [c] parts) = parts.
Proof.
  intros Hne Hall. unfold split.
  induction parts as [| p parts IH]; [congruence |].
  apply Forall_cons in Hall as [Hp Hall].
  destruct parts as [| q parts].
  - simpl. rewrite splitAux_lacks by exact Hp. reflexivity.
  - change (join [c] (p :: q :: parts)) with (p ++ c :: join [c] (q :: parts)).
    rewrite splitAux_sep by exact Hp. simpl rev. simpl app at 1.
    rewrite IH; [reflexivity | discriminate | exact Hall].
Qed.

Lemma lacks_app c (a b : jsstring) : lacks c (a ++ b) = lacks c a && lacks c b.
Proof. apply forallb_app. Qed.

Lemma lacks_join c sep (parts : list jsstring) :
  lacks c sep = true -> Forall (fun p => lacks c p = true) parts ->
  lacks c (join sep parts) = true.
Proof.
  intros Hsep Hall. induction Hall as [| p parts Hp Hall IH]; [reflexivity |].
  destruct parts as [| q parts]; [exact Hp |].
  change (join sep (p :: q :: parts)) with (p ++ sep ++ join sep (q :: parts)).
  rewrite !lacks_app, Hp, Hsep, IH. reflexivity.
Qed.

Lemma noWS_join sep (parts : list jsstring) :
  noWS sep = true -> Forall (fun p => noWS p = true) parts ->
  noWS (join sep parts) = true.
Proof.
  intros Hsep Hall. induction Hall as [| p parts Hp Hall IH]; [reflexivity |].
  destruct parts as [| q parts]; [exact Hp |].
  change (join sep (p :: q :: parts)) with (p ++ sep ++ join sep (q :: parts)).
  rewrite !noWS_app, Hp, Hsep, IH. reflexivity.
Qed.

(** ** GEO and BINARY, given the platform's own round trips *)

Lemma GEO_round_trip (P : Platform) (v : ICalGeo.t) :
  parseFloat P (numberToString (ICalGeo.latitude v)) = ICalGeo.latitude v ->
  parseFloat P (numberToString (ICalGeo.longitude v)) = ICalGeo.longitude v ->
  lacks 59 (numberToString (ICalGeo.latitude v)) = true ->
  lacks 59 (numberToString (ICalGeo.longitude v)) = true ->
  GEO.parse P (GEO.serialize v) = v.
Proof.
  destruct v as [lat lon]. cbn [ICalGeo.latitude ICalGeo.longitude].
  intros Hlat Hlon Llat Llon. unfold GEO.serialize, GEO.parse.
  cbn [ICalGeo.latitude ICalGeo.longitude].
  change (numberToString lat ++ [59] ++ numberToString lon)
    with (join [59] [numberToString lat; numberToString lon]).
  rewrite split_join; [| discriminate | repeat constructor; assumption].
  rewrite Hlat, Hlon. reflexivity.
Qed.

Lemma BINARY_round_trip (P : Platform) (v : ICalBinary.t) :
  base64Decode P (trim (base64Encode P (ICalBinary.data v))) = ICalBinary.data v ->
  BINARY.parse P (BINARY.serialize P v) = v.
Proof.
  destruct v as [data]. cbn [ICalBinary.data]. intros H.
  unfold BINARY.parse, BINARY.serialize. cbn [ICalBinary.data]. rewrite H. reflexivity.
Qed.

Lemma lookup_optInsert_ne (key : jsstring) (o : option jsstring)
    (m : gmap jsstring jsstring) (k : jsstring) :
  streq key k = false -> optInsert key o m !! k = m !! k.
Proof.
  unfold optInsert, streq. intros H. apply bool_decide_eq_false_1 in H.
  destruct o as [v |]; [apply lookup_insert_ne; exact H | reflexivity].
Qed.

Lemma lookup_optInsert_eq (key : jsstring) (o : option jsstring)
    (m : gmap jsstring jsstring) :
  optInsert key o m !! key = match o with Some v => Some v | None => m !! key end.
Proof. unfold optInsert. destruct o as [v |]; [apply lookup_insert_eq | reflexivity]. Qed.

(** One round of the loop of [buildMap] on a part [KEY=value]. *)
Lemma buildMap_step (key value : jsstring) (m : gmap jsstring jsstring) :
  lacks 61 key = true -> toUpperCase key = key ->
  match indexOf 61 (key ++ 61 :: value) with
  | None => m
  | Some eq => <[toUpperCase (slice (key ++ 61 :: value) 0 eq)
                 := sliceFrom (key ++ 61 :: value) (eq + 1)]> m
  end = <[key := value]> m.
Proof.
  intros Hk Hu. rewrite indexOf_skip by exact Hk.
  cbn [indexOf]. rewrite Z.eqb_refl. cbn [fmap option_fmap option_map].
  rewrite Nat.add_0_r. unfold slice, sliceFrom.
  rewrite drop_0, Nat.sub_0_r, take_app_length, Hu.
  rewrite <- drop_drop, drop_app_length. reflexivity.
Qed.

Lemma buildMap_app (a b : list jsstring) :
  RECUR.buildMap (a ++ b)
  = fold_left
      (fun (m : gmap jsstring jsstring) part =>
         match indexOf 61 part with
         | None => m
         | Some eq => <[toUpperCase (slice part 0 eq) := sliceFrom part (eq + 1)]> m
         end)
      b (RECUR.buildMap a).
Proof. unfold RECUR.buildMap. apply fold_left_app. Qed.

Lemma buildMap_optPart (key : jsstring) (o : option jsstring) (m : gmap jsstring jsstring) :
  lacks 61 key = true -> toUpperCase key = key ->
  fold_left
    (fun (m : gmap jsstring jsstring) part =>
       match indexOf 61 part with
       | None => m
       | Some eq => <[toUpperCase (slice part 0 eq) := sliceFrom part (eq + 1)]> m
       end)
    (optPart key o) m
  = optInsert key o m.
Proof.
  intros Hk Hu. destruct o as [s |]; [| reflexivity].
  cbn [optPart fold_left optInsert]. apply buildMap_step; assumption.
Qed.

Lemma intsPart_optPart (key : jsstring) (o : option (list number)) :
  validInts o ->
  RECUR.intsPart (key ++ [61]) o = optPart key (intsText <$> o).
Proof.
  unfold RECUR.intsPart. destruct o as [[| n ns] |]; simpl; [intros [H _]; congruence | |].
  - intros _. unfold intsText. rewrite <- app_assoc. reflexivity.
  - reflexivity.
Qed.

Lemma serializeParts_optParts (v : ICalRecur.t) :
  validRecur v ->
  RECUR.serializeParts v
  = [js "FREQ" ++ 61 :: freqToString (ICalRecur.freq v)]
    ++ optPart (js "UNTIL") (untilText <$> ICalRecur.until v)
    ++ optPart (js "COUNT") (numberToString <$> ICalRecur.count v)
    ++ optPart (js "INTERVAL") (numberToString <$> ICalRecur.interval v)
    ++ optPart (js "BYSECOND") (intsText <$> ICalRecur.bysecond v)
    ++ optPart (js "BYMINUTE") (intsText <$> ICalRecur.byminute v)
    ++ optPart (js "BYHOUR") (intsText <$> ICalRecur.byhour v)
    ++ optPart (js "BYDAY") (byDayText <$> ICalRecur.byday v)
    ++ optPart (js "BYMONTHDAY") (intsText <$> ICalRecur.bymonthday v)
    ++ optPart (js "BYYEARDAY") (intsText <$> ICalRecur.byyearday v)
    ++ optPart (js "BYWEEKNO") (intsText <$> ICalRecur.byweekno v)
    ++ optPart (js "BYMONTH") (intsText <$> ICalRecur.bymonth v)
    ++ optPart (js "BYSETPOS") (intsText <$> ICalRecur.bysetpos v)
    ++ optPart (js "WKST") (weekdayToString <$> ICalRecur.wkst v).
Proof.
  intros (Hu & Hc & Hi & H1 & H2 & H3 & Hbd & H4 & H5 & H6 & H7 & H8).
  unfold RECUR.serializeParts.
  change (js "BYSECOND=") with (js "BYSECOND" ++ [61]).
  change (js "BYMINUTE=") with (js "BYMINUTE" ++ [61]).
  change (js "BYHOUR=") with (js "BYHOUR" ++ [61]).
  change (js "BYMONTHDAY=") with (js "BYMONTHDAY" ++ [61]).
  change (js "BYYEARDAY=") with (js "BYYEARDAY" ++ [61]).
  change (js "BYWEEKNO=") with (js "BYWEEKNO" ++ [61]).
  change (js "BYMONTH=") with (js "BYMONTH" ++ [61]).
  change (js "BYSETPOS=") with (js "BYSETPOS" ++ [61]).
  rewrite !intsPart_optPart by assumption.
  f_equal. f_equal; [destruct (ICalRecur.until v) as [[d | dt] |]; reflexivity |].
  f_equal; [destruct (ICalRecur.count v); reflexivity |].
  f_equal; [destruct (ICalRecur.interval v); reflexivity |].
  do 3 f_equal.
  f_equal; [| do 5 f_equal; destruct (ICalRecur.wkst v); reflexivity].
  destruct (ICalRecur.byday v) as [[| d ds] |]; simpl in *; try reflexivity.
  destruct Hbd as [Hne _]. congruence.
Qed.

Lemma buildMap_serializeParts (v : ICalRecur.t) :
  validRecur v ->
  RECUR.buildMap (RECUR.serializeParts v)
  = optInsert (js "WKST") (weekdayToString <$> ICalRecur.wkst v)
    (optInsert (js "BYSETPOS") (intsText <$> ICalRecur.bysetpos v)
    (optInsert (js "BYMONTH") (intsText <$> ICalRecur.bymonth v)
    (optInsert (js "BYWEEKNO") (intsText <$> ICalRecur.byweekno v)
    (optInsert (js "BYYEARDAY") (intsText <$> ICalRecur.byyearday v)
    (optInsert (js "BYMONTHDAY") (intsText <$> ICalRecur.bymonthday v)
    (optInsert (js "BYDAY") (byDayText <$> ICalRecur.byday v)
    (optInsert (js "BYHOUR") (intsText <$> ICalRecur.byhour v)
    (optInsert (js "BYMINUTE") (intsText <$> ICalRecur.byminute v)
    (optInsert (js "BYSECOND") (intsText <$> ICalRecur.bysecond v)
    (optInsert (js "INTERVAL") (numberToString <$> ICalRecur.interval v)
    (optInsert (js "COUNT") (numberToString <$> ICalRecur.count v)
    (optInsert (js "UNTIL") (untilText <$> ICalRecur.until v)
    (optInsert (js "FREQ") (Some (freqToString (ICalRecur.freq v))) ∅))))))))))))).
Proof.
  intros Hv. rewrite (serializeParts_optParts v Hv).
  unfold RECUR.buildMap. rewrite !fold_left_app.
  rewrite !buildMap_optPart by reflexivity.
  cbn [fold_left]. rewrite buildMap_step by reflexivity. reflexivity.
Qed.

Ltac lookup_key :=
  repeat first [ rewrite lookup_optInsert_ne by reflexivity
               | rewrite lookup_optInsert_eq
               | rewrite lookup_empty ].

Lemma recur_lookups (v : ICalRecur.t) :
  validRecur v ->
  let m := RECUR.buildMap (RECUR.serializeParts v) in
  m !! js "FREQ" = Some (freqToString (ICalRecur.freq v))
  /\ m !! js "UNTIL" = untilText <$> ICalRecur.until v
  /\ m !! js "COUNT" = numberToString <$> ICalRecur.count v
  /\ m !! js "INTERVAL" = numberToString <$> ICalRecur.interval v
  /\ m !! js "BYSECOND" = intsText <$> ICalRecur.bysecond v
  /\ m !! js "BYMINUTE" = intsText <$> ICalRecur.byminute v
  /\ m !! js "BYHOUR" = intsText <$> ICalRecur.byhour v
  /\ m !! js "BYDAY" = byDayText <$> ICalRecur.byday v
  /\ m !! js "BYMONTHDAY" = intsText <$> ICalRecur.bymonthday v
  /\ m !! js "BYYEARDAY" = intsText <$> ICalRecur.byyearday v
  /\ m !! js "BYWEEKNO" = intsText <$> ICalRecur.byweekno v
  /\ m !! js "BYMONTH" = intsText <$> ICalRecur.bymonth v
  /\ m !! js "BYSETPOS" = intsText <$> ICalRecur.bysetpos v
  /\ m !! js "WKST" = weekdayToString <$> ICalRecur.wkst v.
Proof.
  intros Hv m. subst m. rewrite (buildMap_serializeParts v Hv).
  split_and!; lookup_key;
    match goal with
    | |- match ?o with Some _ => _ | None => _ end = _ => destruct o; reflexivity
    | |- _ => reflexivity
    end.
Qed.

Lemma numberToString_chars (z : Z) :
  forallb numChar (numberToString (Int z)) = true /\ numberToString (Int z) <> [].
Proof.
  unfold numberToString. destruct (z <? 0) eqn:E.
  - apply Z.ltb_lt in E. destruct (decimal_spec (- z)) as (Hne & Hd & _); [lia |].
    split; [| discriminate]. simpl. eapply forallb_weaken; [| exact Hd].
    intros c Hc. unfold numChar. rewrite Hc. reflexivity.
  - apply Z.ltb_ge in E. destruct (decimal_spec z E) as (Hne & Hd & _).
    split; [| exact Hne]. eapply forallb_weaken; [| exact Hd].
    intros c Hc. unfold numChar. rewrite Hc. reflexivity.
Qed.

Lemma numChar_clean (s : jsstring) : forallb numChar s = true -> clean s = true.
Proof.
  intros H. unfold clean, noWS, lacks.
  rewrite !andb_true_iff. split_and!; (eapply forallb_weaken; [| exact H]); intros c Hc;
    unfold numChar in Hc; apply orb_true_iff in Hc as [Hc | Hc];
    try (apply Z.eqb_eq in Hc; subst; reflexivity).
  - rewrite (isDigit_not_ws c Hc). reflexivity.
  - apply isDigit_range in Hc. apply negb_true_iff, Z.eqb_neq. lia.
  - apply isDigit_range in Hc. apply negb_true_iff, Z.eqb_neq. lia.
Qed.

Lemma clean_app (a b : jsstring) : clean (a ++ b) = clean a && clean b.
Proof.
  unfold clean. rewrite noWS_app, !lacks_app.
  destruct (noWS a), (noWS b), (lacks 59 a), (lacks 59 b), (lacks 44 a), (lacks 44 b);
    reflexivity.
Qed.

Lemma clean_parts (s : jsstring) :
  clean s = true -> noWS s = true /\ lacks 59 s = true /\ lacks 44 s = true.
Proof.
  unfold clean. intros H. apply andb_true_iff in H as [H H3].
  apply andb_true_iff in H as [H1 H2]. auto.
Qed.

Lemma weekdayToString_clean (d : Weekday) : clean (weekdayToString d) = true.
Proof. destruct d; reflexivity. Qed.

Lemma freqToString_clean (f : RecurFreq) : clean (freqToString f) = true.
Proof. destruct f; reflexivity. Qed.

Lemma safeInt_Int (n : number) : safeInt n -> exists z, n = Int z.
Proof. intros H. apply inRange_Int in H as (z & -> & _). eauto. Qed.

Lemma showByDay_clean (d : ByDayRule.t) :
  optSafeInt (ByDayRule.ordwk d) -> clean (RECUR.showByDay d) = true.
Proof.
  destruct d as [day [n |]]; unfold RECUR.showByDay; cbn [ByDayRule.ordwk ByDayRule.day optSafeInt].
  - intros H. apply safeInt_Int in H as [z ->].
    rewrite clean_app, weekdayToString_clean, numChar_clean; [reflexivity |].
    apply numberToString_chars.
  - intros _. apply weekdayToString_clean.
Qed.

Lemma dateTimeChar_clean (s : jsstring) : forallb dateTimeChar s = true -> clean s = true.
Proof.
  intros H. unfold clean, noWS, lacks.
  rewrite !andb_true_iff. split_and!; (eapply forallb_weaken; [| exact H]); intros c Hc.
  - apply dateTimeChar_not_ws. exact Hc.
  - apply (dateTimeChar_not 59); [reflexivity | exact Hc].
  - apply (dateTimeChar_not 44); [reflexivity | exact Hc].
Qed.

Lemma DATE_serialize_chars (v : ICalDate.t) :
  validDate v ->
  forallb isDigit (DATE.serialize v) = true /\ DATE.serialize v <> [].
Proof.
  destruct v as [y m d]. unfold validDate. cbn [ICalDate.year ICalDate.month ICalDate.day].
  intros (Hy & Hm & Hd). unfold DATE.serialize.
  cbn [ICalDate.year ICalDate.month ICalDate.day].
  digits4 Hy y1 y2 y3 y4 Hy1 Hy2 Hy3 Hy4 Py.
  digits2 Hm m1 m2 Hm1 Hm2 Pm.
  digits2 Hd d1 d2 Hd1 Hd2 Pd.
  split; [| discriminate]. cbn [app forallb].
  rewrite Hy1, Hy2, Hy3, Hy4, Hm1, Hm2, Hd1, Hd2. reflexivity.
Qed.

Lemma join_clean (parts : list jsstring) :
  Forall (fun p => clean p = true) parts ->
  noWS (join [44] parts) = true /\ lacks 59 (join [44] parts) = true.
Proof.
  intros H. split.
  - apply noWS_join; [reflexivity |]. eapply Forall_impl; [exact H |].
    intros p Hp. apply clean_parts in Hp. tauto.
  - apply lacks_join; [reflexivity |]. eapply Forall_impl; [exact H |].
    intros p Hp. apply clean_parts in Hp. tauto.
Qed.

Lemma intsText_elements (ns : list number) :
  Forall safeInt ns -> Forall (fun p => clean p = true) (map numberToString ns).
Proof.
  intros H. apply Forall_map. eapply Forall_impl; [exact H |].
  intros n Hn. apply safeInt_Int in Hn as [z ->]. apply numChar_clean, numberToString_chars.
Qed.

Lemma partOK_optPart (key : jsstring) (o : option jsstring) :
  clean key = true ->
  (forall s, o = Some s -> noWS s = true /\ lacks 59 s = true) ->
  Forall partOK (optPart key o).
Proof.
  intros Hk Ho. destruct o as [s |]; [| constructor].
  destruct (Ho s eq_refl) as [H1 H2]. apply clean_parts in Hk as (K1 & K2 & _).
  constructor; [| constructor]. unfold partOK.
  rewrite noWS_app, lacks_app, K1, K2. simpl. unfold noWS, lacks in *. simpl.
  rewrite H1, H2. auto.
Qed.

Lemma validInts_text (o : option (list number)) :
  validInts o ->
  forall s, intsText <$> o = Some s -> noWS s = true /\ lacks 59 s = true.
Proof.
  destruct o as [ns |]; [| discriminate]. simpl. intros [_ Hns] s [= <-].
  apply join_clean, intsText_elements, Hns.
Qed.

Lemma serializeParts_ok (v : ICalRecur.t) :
  validRecur v -> Forall partOK (RECUR.serializeParts v).
Proof.
  intros Hv. rewrite (serializeParts_optParts v Hv).
  destruct Hv as (Hu & Hc & Hi & H1 & H2 & H3 & Hbd & H4 & H5 & H6 & H7 & H8).
  repeat apply Forall_app_2;
    try (apply partOK_optPart; [reflexivity | apply validInts_text; assumption]).
  - constructor; [| constructor]. unfold partOK.
    pose proof (freqToString_clean (ICalRecur.freq v)) as Hf.
    apply clean_parts in Hf as (F1 & F2 & _).
    rewrite noWS_app, lacks_app. simpl. unfold noWS, lacks in *. simpl. rewrite F1, F2. auto.
  - apply partOK_optPart; [reflexivity |].
    destruct (ICalRecur.until v) as [[d | dt] |]; simpl; intros s [= <-].
    + destruct (DATE_serialize_chars d Hu) as [Hd _].
      assert (Hcl : clean (DATE.serialize d) = true).
      { apply numChar_clean. eapply forallb_weaken; [| exact Hd].
        intros c Hc'. unfold numChar. rewrite Hc'. reflexivity. }
      apply clean_parts in Hcl. tauto.
    + destruct Hu as [Hdt _]. destruct (DATE_TIME_serialize_chars dt Hdt) as [Hd _].
      pose proof (dateTimeChar_clean _ Hd) as Hcl. apply clean_parts in Hcl. tauto.
  - apply partOK_optPart; [reflexivity |].
    destruct (ICalRecur.count v) as [n |]; simpl; intros s [= <-].
    apply safeInt_Int in Hc as [z ->].
    pose proof (numChar_clean _ (proj1 (numberToString_chars z))) as Hcl.
    apply clean_parts in Hcl. tauto.
  - apply partOK_optPart; [reflexivity |].
    destruct (ICalRecur.interval v) as [n |]; simpl; intros s [= <-].
    apply safeInt_Int in Hi as [z ->].
    pose proof (numChar_clean _ (proj1 (numberToString_chars z))) as Hcl.
    apply clean_parts in Hcl. tauto.
  - apply partOK_optPart; [reflexivity |].
    destruct (ICalRecur.byday v) as [ds |]; simpl; intros s [= <-].
    destruct Hbd as [_ Hds]. apply join_clean. apply Forall_map.
    eapply Forall_impl; [exact Hds |]. intros d Hd. apply showByDay_clean. exact Hd.
  - apply partOK_optPart; [reflexivity |].
    destruct (ICalRecur.wkst v) as [d |]; simpl; intros s [= <-].
    pose proof (weekdayToString_clean d) as Hcl. apply clean_parts in Hcl. tauto.
Qed.

Lemma VALID_FREQS_freqToString (f : RecurFreq) :
  VALID_FREQS (toUpperCase (freqToString f)) = Some f.
Proof. destruct f; reflexivity. Qed.

Lemma VALID_WEEKDAYS_weekdayToString (d : Weekday) :
  VALID_WEEKDAYS (toUpperCase (weekdayToString d)) = Some d.
Proof. destruct d; reflexivity. Qed.

Lemma weekdayToString_shape (d : Weekday) :
  exists c1 c2, weekdayToString d = [c1; c2] /\ isDigit c1 = false
                /\ (c1 =? 43) = false /\ (c1 =? 45) = false.
Proof. destruct d; do 2 eexists; (split; [reflexivity |]); auto. Qed.

Lemma parseInts_text (P : Platform) (o : option (list number)) :
  (forall z, - MAX_SAFE_INTEGER <= z <= MAX_SAFE_INTEGER ->
             toNumber P (numberToString (Int z)) = Int z) ->
  validInts o ->
  (fun v => map (toNumber P) (split 44 v)) <$> (intsText <$> o) = o.
Proof.
  intros Hnum Ho. destruct o as [ns |]; [| reflexivity].
  destruct Ho as [Hne Hns]. cbn [fmap option_fmap option_map]. f_equal.
  unfold intsText. rewrite split_join.
  - clear Hne. induction Hns as [| n ns Hn _ IH]; [reflexivity |].
    cbn [map]. rewrite IH. f_equal.
    apply inRange_Int in Hn as (z & -> & Hz). apply Hnum. lia.
  - destruct ns; [congruence | discriminate].
  - eapply Forall_impl; [apply intsText_elements, Hns |].
    intros p Hp. apply clean_parts in Hp. tauto.
Qed.

Lemma matchByDay_showByDay (d : ByDayRule.t) :
  optSafeInt (ByDayRule.ordwk d) ->
  matchByDay (RECUR.showByDay d) = Some (numberToString <$> ByDayRule.ordwk d, ByDayRule.day d).
Proof.
  destruct d as [day [n |]]; unfold RECUR.showByDay;
    cbn [ByDayRule.ordwk ByDayRule.day optSafeInt].
  - intros H. apply safeInt_Int in H as [z ->].
    destruct (weekdayToString_shape day) as (c1 & c2 & Ewd & Hc1 & _).
    cbn [fmap option_fmap option_map].
    unfold numberToString. destruct (z <? 0) eqn:E.
    + apply Z.ltb_lt in E. destruct (decimal_spec (- z)) as (Hne & Hd & _); [lia |].
      unfold matchByDay. cbn [app]. change (45 =? 43) with false.
      change (45 =? 45) with true. cbn [orb].
      rewrite Ewd.
      destruct (takeWhile_digits_stop (decimal (- z)) c1 [c2] Hd Hc1) as [-> ->].
      destruct (decimal (- z)) as [| x xs] eqn:Ed; [congruence |].
      rewrite <- Ewd, VALID_WEEKDAYS_weekdayToString. reflexivity.
    + apply Z.ltb_ge in E. destruct (decimal_spec z E) as (Hne & Hd & _).
      unfold matchByDay.
      destruct (decimal z) as [| x xs] eqn:Ed; [congruence |].
      pose proof Hd as Hd'. simpl in Hd'. apply andb_true_iff in Hd' as [Hx _].
      pose proof (isDigit_range x Hx).
      cbn [app]. rewrite (proj2 (Z.eqb_neq x 43)), (proj2 (Z.eqb_neq x 45)) by lia.
      cbn [orb]. rewrite Ewd.
      change (x :: xs ++ [c1; c2]) with ((x :: xs) ++ c1 :: [c2]).
      destruct (takeWhile_digits_stop (x :: xs) c1 [c2] Hd Hc1) as [-> ->].
      rewrite <- Ewd, VALID_WEEKDAYS_weekdayToString. reflexivity.
  - intros _. destruct day; reflexivity.
Qed.

Lemma parseByDay_text (ds : list ByDayRule.t) :
  ds <> [] -> Forall (fun d => optSafeInt (ByDayRule.ordwk d)) ds ->
  parseByDay (byDayText ds) = ds.
Proof.
  intros Hne Hds. unfold parseByDay, byDayText. rewrite split_join.
  - clear Hne. induction Hds as [| d ds Hd _ IH]; [reflexivity |].
    cbn [map]. rewrite IH. f_equal.
    pose proof (showByDay_clean d Hd) as Hcl. apply clean_parts in Hcl as (Hws & _).
    rewrite (trim_noWS _ Hws), (matchByDay_showByDay d Hd).
    destruct d as [day [n |]]; cbn [ByDayRule.ordwk ByDayRule.day fmap option_fmap option_map] in *;
      [| reflexivity].
    apply safeInt_Int in Hd as [z ->]. rewrite parseInt_numberToString. reflexivity.
  - destruct ds; [congruence | discriminate].
  - apply Forall_map. eapply Forall_impl; [exact Hds |].
    intros d Hd. pose proof (showByDay_clean d Hd) as Hcl. apply clean_parts in Hcl. tauto.
Qed.

Lemma byDayText_nonempty (ds : list ByDayRule.t) :
  ds <> [] -> exists c b, byDayText ds = c :: b.
Proof.
  intros Hne. destruct ds as [| d ds]; [congruence |].
  unfold byDayText. cbn [map].
  assert (H : exists c b, RECUR.showByDay d = c :: b).
  { unfold RECUR.showByDay.
    destruct (weekdayToString_shape (ByDayRule.day d)) as (c1 & c2 & -> & _).
    destruct (ByDayRule.ordwk d) as [n |]; [| eauto].
    destruct (numberToString n); simpl; eauto. }
  destruct H as (c & b & E). destruct (map RECUR.showByDay ds) as [| q qs].
  - simpl. eauto.
  - change (join [44] (RECUR.showByDay d :: q :: qs))
      with (RECUR.showByDay d ++ [44] ++ join [44] (q :: qs)).
    rewrite E. simpl. eauto.
Qed.

Lemma until_round_trip (u : Until) :
  match u with
  | UntilDate d => validDate d
  | UntilDateTime dt => validDateTime dt /\ floating dt
  end ->
  exists c r,
    untilText u = c :: r
    /\ (if includes 84 (c :: r)
        then UntilDateTime (DATE_TIME.parse (c :: r) [])
        else UntilDate (DATE.parse (c :: r))) = u.
Proof.
  destruct u as [d | dt]; cbn [untilText].
  - intros Hd. pose proof (DATE_round_trip d Hd) as Hrt.
    destruct (DATE_serialize_chars d Hd) as [Hdig Hne].
    destruct (DATE.serialize d) as [| c r] eqn:E; [congruence |].
    exists c, r. split; [reflexivity |].
    assert (Hinc : includes 84 (c :: r) = false).
    { unfold includes. 
      assert (Hnone : forall s : jsstring, forallb isDigit s = true -> indexOf 84 s = None).
      { induction s as [| x s IH]; [reflexivity |]. simpl. intros H.
        apply andb_true_iff in H as [Hx Hs]. rewrite (digit_neq x 84 Hx) by lia.
        rewrite IH by exact Hs. reflexivity. }
      rewrite Hnone by exact Hdig. reflexivity. }
    rewrite Hinc, Hrt. reflexivity.
  - intros [Hdt Hfl]. pose proof (DATE_TIME_round_trip dt [] Hdt) as Hrt.
    cbn [getParam] in Hrt.
    assert (Hinc : includes 84 (DATE_TIME.serialize dt) = true).
    { clear Hrt. destruct dt as [y m d h mi s utc tzid]. unfold validDateTime in Hdt.
      cbn [ICalDateTime.year ICalDateTime.month ICalDateTime.day ICalDateTime.hour
           ICalDateTime.minute ICalDateTime.second] in Hdt.
      destruct Hdt as (Hy & Hm & Hd & Hh & Hmi & Hs).
      unfold DATE_TIME.serialize.
      cbn [ICalDateTime.year ICalDateTime.month ICalDateTime.day ICalDateTime.hour
           ICalDateTime.minute ICalDateTime.second ICalDateTime.utc].
      digits4 Hy y1 y2 y3 y4 Hy1 Hy2 Hy3 Hy4 Py.
      digits2 Hm m1 m2 Hm1 Hm2 Pm.
      digits2 Hd d1 d2 Hd1 Hd2 Pd.
      unfold includes. destruct utc; cbn [app indexOf];
      rewrite (digit_neq y1 84 Hy1), (digit_neq y2 84 Hy2), (digit_neq y3 84 Hy3),
        (digit_neq y4 84 Hy4), (digit_neq m1 84 Hm1), (digit_neq m2 84 Hm2),
        (digit_neq d1 84 Hd1), (digit_neq d2 84 Hd2) by lia;
      reflexivity. }
    destruct (DATE_TIME_serialize_chars dt Hdt) as (_ & c & r & E & _).
    exists c, r. split; [exact E |]. rewrite <- E, Hinc, Hrt.
    f_equal. destruct dt; unfold floating in Hfl; cbn in *; subst; reflexivity.
Qed.

Lemma RECUR_round_trip (P : Platform) (v : ICalRecur.t) :
  (forall z, - MAX_SAFE_INTEGER <= z <= MAX_SAFE_INTEGER ->
             toNumber P (numberToString (Int z)) = Int z) ->
  validRecur v -> RECUR.parse P (RECUR.serialize v) = Ok v.
Proof.
  intros Hnum Hv. pose proof (serializeParts_ok v Hv) as Hparts.
  unfold RECUR.parse, RECUR.serialize.
  rewrite trim_noWS.
  2: { apply noWS_join; [reflexivity |]. eapply Forall_impl; [exact Hparts |].
       intros p [Hp _]. exact Hp. }
  rewrite split_join.
  2: { rewrite (serializeParts_optParts v Hv). discriminate. }
  2: { eapply Forall_impl; [exact Hparts |]. intros p [_ Hp]. exact Hp. }
  destruct (recur_lookups v Hv)
    as (L1 & L2 & L3 & L4 & L5 & L6 & L7 & L8 & L9 & L10 & L11 & L12 & L13 & L14).
  cbv zeta in *.
  rewrite L1, L2, L3, L4, L5, L6, L7, L8, L9, L10, L11, L12, L13, L14.
  simpl (default _ _). rewrite VALID_FREQS_freqToString.
  destruct Hv as (Hu & Hc & Hi & H1 & H2 & H3 & Hbd & H4 & H5 & H6 & H7 & H8).
  rewrite !(parseInts_text P) by assumption.
  assert (Ecount : parseInt <$> (numberToString <$> ICalRecur.count v) = ICalRecur.count v).
  { destruct (ICalRecur.count v) as [n |]; [| reflexivity].
    apply safeInt_Int in Hc as [z ->]. cbn [fmap option_fmap option_map].
    rewrite parseInt_numberToString. reflexivity. }
  assert (Eint : parseInt <$> (numberToString <$> ICalRecur.interval v) = ICalRecur.interval v).
  { destruct (ICalRecur.interval v) as [n |]; [| reflexivity].
    apply safeInt_Int in Hi as [z ->]. cbn [fmap option_fmap option_map].
    rewrite parseInt_numberToString. reflexivity. }
  rewrite Ecount, Eint.
  assert (Euntil :
    match untilText <$> ICalRecur.until v with
    | Some (c :: u') =>
        Some (if includes 84 (c :: u')
              then UntilDateTime (DATE_TIME.parse (c :: u') [])
              else UntilDate (DATE.parse (c :: u')))
    | _ => None
    end = ICalRecur.until v).
  { destruct (ICalRecur.until v) as [u |]; [| reflexivity].
    destruct (until_round_trip u Hu) as (c & r & E & Hrt).
    cbn [fmap option_fmap option_map]. rewrite E, Hrt. reflexivity. }
  rewrite Euntil.
  assert (Ebyday :
    match byDayText <$> ICalRecur.byday v with
    | Some (c :: b) => Some (parseByDay (c :: b))
    | _ => None
    end = ICalRecur.byday v).
  { destruct (ICalRecur.byday v) as [ds |]; [| reflexivity].
    destruct Hbd as [Hne Hds]. destruct (byDayText_nonempty ds Hne) as (c & b & E).
    cbn [fmap option_fmap option_map]. rewrite E, <- E, parseByDay_text by assumption.
    reflexivity. }
  rewrite Ebyday.
  assert (Ewkst :
    match weekdayToString <$> ICalRecur.wkst v with
    | Some v0 => match toUpperCase v0 with
                 | [] => None
                 | v' => VALID_WEEKDAYS v'
                 end
    | None => None
    end = ICalRecur.wkst v).
  { destruct (ICalRecur.wkst v) as [d |]; [| reflexivity]. destruct d; reflexivity. }
  rewrite Ewkst.
  destruct v; reflexivity.
Qed.

(** ** The reference platform meets the assumptions *)

Lemma b64_table :
  forallb (fun i => bool_decide (b64val (b64char i) = Some i)
                    && negb (b64char i =? 61) && negb (isWhiteSpace (b64char i)))
    (map Z.of_nat (seq 0 64)) = true.
Proof. vm_compute. reflexivity. Qed.

Lemma b64char_spec (i : Z) :
  0 <= i < 64 ->
  b64val (b64char i) = Some i /\ (b64char i =? 61) = false
  /\ isWhiteSpace (b64char i) = false.
Proof.
  intros Hi. pose proof b64_table as H. rewrite forallb_forall in H.
  assert (Hin : In i (map Z.of_nat (seq 0 64))).
  { replace i with (Z.of_nat (Z.to_nat i)) by lia. apply in_map, in_seq. lia. }
  specialize (H i Hin).
  apply andb_true_iff in H as [H H3]. apply andb_true_iff in H as [H1 H2].
  apply bool_decide_eq_true_1 in H1. apply negb_true_iff in H2, H3. auto.
Qed.

Lemma b64sextets_char (i : Z) (s : jsstring) :
  0 <= i < 64 -> b64sextets (b64char i :: s) = i :: b64sextets s.
Proof.
  intros Hi. destruct (b64char_spec i Hi) as (Hv & H61 & _).
  unfold b64sextets. cbn [takeWhile]. rewrite H61. cbn [negb omap list_omap]. rewrite Hv.
  reflexivity.
Qed.

Lemma b64sextets_pad (s : jsstring) : b64sextets (61 :: s) = [].
Proof. reflexivity. Qed.

Lemma list_ind3 (Q : list Z -> Prop) :
  Q [] -> (forall a, Q [a]) -> (forall a b, Q [a; b]) ->
  (forall a b c l, Q l -> Q (a :: b :: c :: l)) ->
  forall l, Q l.
Proof.
  intros H0 H1 H2 H3. fix IH 1.
  intros [| a [| b [| c l]]]; [exact H0 | apply H1 | apply H2 | apply H3, IH].
Qed.

Lemma b64_round_trip : forall bs, Forall isByte bs -> b64decode (b64encode bs) = bs.
Proof.
  unfold b64decode, isByte. apply (list_ind3 (fun bs => Forall _ bs -> _)).
  - reflexivity.
  - intros a Ha. apply Forall_cons in Ha as [Ha _]. cbn [b64encode].
    rewrite !b64sextets_char, b64sextets_pad by (Z.div_mod_to_equations; lia).
    cbn [b64bytes]. f_equal. Z.div_mod_to_equations; lia.
  - intros a b Hab. apply Forall_cons in Hab as [Ha Hb]. apply Forall_cons in Hb as [Hb _].
    cbn [b64encode].
    rewrite !b64sextets_char, b64sextets_pad by (Z.div_mod_to_equations; lia).
    cbn [b64bytes]. f_equal; [| f_equal]; Z.div_mod_to_equations; lia.
  - intros a b c l IH Habc. apply Forall_cons in Habc as [Ha Hb].
    apply Forall_cons in Hb as [Hb Hc]. apply Forall_cons in Hc as [Hc Hl].
    cbn [b64encode app].
    rewrite !b64sextets_char by (Z.div_mod_to_equations; lia).
    cbn [b64bytes app]. rewrite (IH Hl).
    f_equal; [| f_equal; [| f_equal]]; Z.div_mod_to_equations; lia.
Qed.

Lemma b64encode_noWS : forall bs, Forall isByte bs -> noWS (b64encode bs) = true.
Proof.
  unfold isByte, noWS. apply (list_ind3 (fun bs => Forall _ bs -> _)).
  - reflexivity.
  - intros a Ha. apply Forall_cons in Ha as [Ha _]. cbn [b64encode forallb].
    destruct (b64char_spec (a / 4)) as (_ & _ & ->); [Z.div_mod_to_equations; lia |].
    destruct (b64char_spec (a mod 4 * 16)) as (_ & _ & ->); [Z.div_mod_to_equations; lia |].
    reflexivity.
  - intros a b Hab. apply Forall_cons in Hab as [Ha Hb]. apply Forall_cons in Hb as [Hb _].
    cbn [b64encode forallb].
    destruct (b64char_spec (a / 4)) as (_ & _ & ->); [Z.div_mod_to_equations; lia |].
    destruct (b64char_spec (a mod 4 * 16 + b / 16)) as (_ & _ & ->);
      [Z.div_mod_to_equations; lia |].
    destruct (b64char_spec (b mod 16 * 4)) as (_ & _ & ->); [Z.div_mod_to_equations; lia |].
    reflexivity.
  - intros a b c l IH Habc. apply Forall_cons in Habc as [Ha Hb].
    apply Forall_cons in Hb as [Hb Hc]. apply Forall_cons in Hc as [Hc Hl].
    cbn [b64encode app forallb]. rewrite (IH Hl).
    destruct (b64char_spec (a / 4)) as (_ & _ & ->); [Z.div_mod_to_equations; lia |].
    destruct (b64char_spec (a mod 4 * 16 + b / 16)) as (_ & _ & ->);
      [Z.div_mod_to_equations; lia |].
    destruct (b64char_spec (b mod 16 * 4 + c / 64)) as (_ & _ & ->);
      [Z.div_mod_to_equations; lia |].
    destruct (b64char_spec (c mod 64)) as (_ & _ & ->); [Z.div_mod_to_equations; lia |].
    reflexivity.
Qed.

Lemma refPlatform_base64 (bs : list Z) :
  Forall isByte bs ->
  base64Decode refPlatform (trim (base64Encode refPlatform bs)) = bs.
Proof.
  intros H. cbn [base64Decode base64Encode refPlatform].
  rewrite trim_noWS by (apply b64encode_noWS; exact H). apply b64_round_trip. exact H.
Qed.

Lemma refPlatform_toNumber (z : Z) :
  toNumber refPlatform (numberToString (Int z)) = Int z.
Proof.
  cbn [toNumber refPlatform]. unfold integerLiteral.
  destruct (numberToString_chars z) as [Hchars Hne].
  pose proof (numChar_clean _ Hchars) as Hcl. apply clean_parts in Hcl as (Hws & _).
  rewrite (trim_noWS _ Hws).
  unfold numberToString in *. destruct (z <? 0) eqn:E.
  - apply Z.ltb_lt in E. destruct (decimal_spec (- z)) as (Hn & Hd & Hv & _); [lia |].
    cbn [startsWith]. change (45 =? 45) with true. cbn [andb orb].
    unfold sliceFrom. cbn [drop]. rewrite drop_0.
    destruct (decimal (- z)) as [| d ds] eqn:Ed; [congruence |].
    rewrite Hd, Hv. f_equal. lia.
  - apply Z.ltb_ge in E. destruct (decimal_spec z E) as (Hn & Hd & Hv & _).
    destruct (decimal z) as [| d ds] eqn:Ed; [congruence |].
    pose proof Hd as Hd'. simpl in Hd'. apply andb_true_iff in Hd' as [Hx _].
    pose proof (isDigit_range d Hx).
    cbn [startsWith]. rewrite (proj2 (Z.eqb_neq d 45)), (proj2 (Z.eqb_neq d 43)) by lia.
    cbn [andb orb]. rewrite Hd, Hv. reflexivity.
Qed.




(** ** TEXT: what escaping and unescaping compose to *)

Lemma replaceChar_app c r (a b : jsstring) :
  replaceChar c r (a ++ b) = replaceChar c r a ++ replaceChar c r b.
Proof.
  induction a as [| x a IH]; [reflexivity |].
  simpl. destruct (x =? c); rewrite IH; [rewrite app_assoc |]; reflexivity.
Qed.

Lemma TEXT_serialize_app (a b : jsstring) :
  TEXT.serialize (a ++ b) = TEXT.serialize a ++ TEXT.serialize b.
Proof. unfold TEXT.serialize. rewrite !replaceChar_app. reflexivity. Qed.

Lemma TEXT_serialize_char (c : Z) : TEXT.serialize [c] = escapeAt 0 c.
Proof.
  unfold TEXT.serialize, escapeAt. change (0 <? 4)%nat with true.
  change (0 <? 3)%nat with true. change (0 <? 2)%nat with true.
  change (0 <? 1)%nat with true. rewrite !andb_true_r.
  destruct (c =? 92) eqn:E92; [apply Z.eqb_eq in E92; subst; reflexivity |].
  destruct (c =? 59) eqn:E59; [apply Z.eqb_eq in E59; subst; reflexivity |].
  destruct (c =? 44) eqn:E44; [apply Z.eqb_eq in E44; subst; reflexivity |].
  destruct (c =? 10) eqn:E10; [apply Z.eqb_eq in E10; subst; reflexivity |].
  simpl. rewrite E92. simpl. rewrite E59. simpl. rewrite E44. simpl. rewrite E10.
  reflexivity.
Qed.

(** [TEXT.serialize] escapes character by character. *)
Lemma TEXT_serialize_flat (s : jsstring) :
  TEXT.serialize s = flat_map (escapeAt 0) s.
Proof.
  induction s as [| c s IH]; [reflexivity |].
  change (c :: s) with ([c] ++ s).
  rewrite TEXT_serialize_app, TEXT_serialize_char, IH. reflexivity.
Qed.

Lemma replacePair_skip a isB r x (t : jsstring) :
  x <> a -> replacePair a isB r (x :: t) = x :: replacePair a isB r t.
Proof.
  intros H. destruct t as [| y t]; [reflexivity |].
  cbn [replacePair]. rewrite (proj2 (Z.eqb_neq x a) H). reflexivity.
Qed.

Lemma replacePair_hit a isB r y (t : jsstring) :
  isB y = true -> replacePair a isB r (a :: y :: t) = r ++ replacePair a isB r t.
Proof. intros H. cbn [replacePair]. rewrite Z.eqb_refl, H. reflexivity. Qed.

Lemma replacePair_keep a isB r (t : jsstring) :
  match t with y :: _ => isB y = false | [] => True end ->
  replacePair a isB r (a :: t) = a :: replacePair a isB r t.
Proof.
  destruct t as [| y t]; [reflexivity |].
  intros H. cbn [replacePair]. rewrite H, andb_false_r. reflexivity.
Qed.

(** Induction along the pairs [escaped] reads. *)
Lemma escaped_ind (P : jsstring -> Prop) :
  P [] ->
  (forall d s, isLetterN d = true -> P s -> P (92 :: d :: s)) ->
  (forall c s,
      (c = 92 -> match s with d :: _ => isLetterN d = false | [] => True end) ->
      P s -> P (c :: s)) ->
  forall s, P s.
Proof.
  intros H0 H1 H2 s.
  assert (H : forall n (t : jsstring), (length t <= n)%nat -> P t).
  { induction n as [| n IH]; intros [| c t] Hlen; simpl in Hlen; try lia; auto.
    destruct (Z.eq_dec c 92) as [-> | Hc].
    - destruct t as [| d t]; [apply H2; auto |].
      destruct (isLetterN d) eqn:E.
      + apply H1; [exact E |]. apply IH. simpl in Hlen. lia.
      + apply H2; [auto |]. apply IH. lia.
    - apply H2; [congruence |]. apply IH. lia. }
  apply (H (length s)). lia.
Qed.

Lemma escaped_pair esc d (s : jsstring) :
  isLetterN d = true -> escaped esc (92 :: d :: s) = 92 :: 10 :: escaped esc s.
Proof. intros H. cbn [escaped]. rewrite H. reflexivity. Qed.

Lemma escaped_cons esc c (s : jsstring) :
  (c = 92 -> match s with d :: _ => isLetterN d = false | [] => True end) ->
  escaped esc (c :: s) = esc c ++ escaped esc s.
Proof.
  intros H. destruct s as [| d s]; [cbn [escaped]; rewrite app_nil_r; reflexivity |].
  cbn [escaped]. destruct (c =? 92) eqn:E; [| reflexivity].
  apply Z.eqb_eq in E. rewrite (H E). reflexivity.
Qed.

Lemma escapeAt_plain k c :
  c <> 92 -> c <> 59 -> c <> 44 -> c <> 10 -> escapeAt k c = [c].
Proof.
  intros H1 H2 H3 H4. unfold escapeAt.
  rewrite (proj2 (Z.eqb_neq c 92) H1), (proj2 (Z.eqb_neq c 59) H2),
    (proj2 (Z.eqb_neq c 44) H3), (proj2 (Z.eqb_neq c 10) H4). reflexivity.
Qed.

Lemma escapeAt_cases k c : escapeAt k c = [c] \/ exists y, escapeAt k c = [92; y].
Proof. unfold escapeAt. repeat case_match; eauto. Qed.

Lemma isLetterN_plain k d : isLetterN d = true -> escapeAt k d = [d].
Proof.
  unfold isLetterN. intros H. apply orb_true_iff in H as [H | H];
    apply Z.eqb_eq in H; subst; apply escapeAt_plain; lia.
Qed.

(** The first character of a partly unescaped text is not a character
    that is still escaped. *)
Lemma escaped_head k b (s : jsstring) :
  b <> 92 -> b <> 10 -> escapeAt k b = [92; b] ->
  match escaped (escapeAt k) s with y :: _ => (y =? b) = false | [] => True end.
Proof.
  intros Hb Hb' Hesc. destruct s as [| c s]; [exact I |].
  assert (Hc : match escapeAt k c ++ escaped (escapeAt k) s with
               | y :: _ => (y =? b) = false | [] => True end).
  { destruct (escapeAt_cases k c) as [E | [y E]]; rewrite E; cbn [app].
    - apply Z.eqb_neq. intros ->. rewrite E in Hesc. discriminate.
    - apply Z.eqb_neq. congruence. }
  destruct s as [| d s].
  - cbn [escaped]. cbn [escaped] in Hc. rewrite app_nil_r in Hc. exact Hc.
  - cbn [escaped]. destruct ((c =? 92) && isLetterN d).
    + apply Z.eqb_neq. congruence.
    + exact Hc.
Qed.

Ltac by_char c :=
  destruct (Z.eq_dec c 92) as [-> | ?];
  [| destruct (Z.eq_dec c 59) as [-> | ?];
     [| destruct (Z.eq_dec c 44) as [-> | ?];
        [| destruct (Z.eq_dec c 10) as [-> | ?]]]].

Lemma TEXT_parse_stage1 (s : jsstring) :
  replacePair 92 (fun c => (c =? 110) || (c =? 78)) [10] (flat_map (escapeAt 0) s)
  = escaped (escapeAt 1) s.
Proof.
  change (fun c => (c =? 110) || (c =? 78)) with isLetterN.
  revert s. apply escaped_ind.
  - reflexivity.
  - intros d s Hd IH. rewrite escaped_pair by exact Hd.
    cbn [flat_map]. rewrite (isLetterN_plain 0 d Hd).
    change (escapeAt 0 92) with [92; 92]. cbn [app].
    rewrite replacePair_keep by reflexivity.
    rewrite replacePair_hit by exact Hd. rewrite IH. reflexivity.
  - intros c s Hside IH. rewrite escaped_cons by exact Hside. cbn [flat_map].
    by_char c.
    + change (escapeAt 0 92) with [92; 92]. change (escapeAt 1 92) with [92; 92].
      cbn [app]. rewrite replacePair_keep by reflexivity.
      rewrite replacePair_keep, IH; [reflexivity |].
      specialize (Hside eq_refl). destruct s as [| d s]; [exact I |].
      cbn [flat_map]. destruct (escapeAt_cases 0 d) as [E | [y E]]; rewrite E; cbn [app];
        [exact Hside | reflexivity].
    + change (escapeAt 0 59) with [92; 59]. change (escapeAt 1 59) with [92; 59].
      cbn [app]. rewrite replacePair_keep by reflexivity.
      rewrite replacePair_skip by lia. rewrite IH. reflexivity.
    + change (escapeAt 0 44) with [92; 44]. change (escapeAt 1 44) with [92; 44].
      cbn [app]. rewrite replacePair_keep by reflexivity.
      rewrite replacePair_skip by lia. rewrite IH. reflexivity.
    + change (escapeAt 0 10) with [92; 110]. change (escapeAt 1 10) with [10].
      cbn [app]. rewrite replacePair_hit by reflexivity. rewrite IH. reflexivity.
    + rewrite !escapeAt_plain by assumption. cbn [app].
      rewrite replacePair_skip by assumption. rewrite IH. reflexivity.
Qed.

Lemma TEXT_parse_stage2 (s : jsstring) :
  replacePair 92 (fun c => c =? 44) [44] (escaped (escapeAt 1) s) = escaped (escapeAt 2) s.
Proof.
  revert s. apply escaped_ind.
  - reflexivity.
  - intros d s Hd IH. rewrite !escaped_pair by exact Hd.
    rewrite replacePair_keep by reflexivity. rewrite replacePair_skip by lia.
    rewrite IH. reflexivity.
  - intros c s Hside IH. rewrite !escaped_cons by exact Hside.
    by_char c.
    + change (escapeAt 1 92) with [92; 92]. change (escapeAt 2 92) with [92; 92].
      cbn [app]. rewrite replacePair_keep by reflexivity.
      rewrite replacePair_keep, IH; [reflexivity |].
      apply (escaped_head 1 44); [lia | lia | reflexivity].
    + change (escapeAt 1 59) with [92; 59]. change (escapeAt 2 59) with [92; 59].
      cbn [app]. rewrite replacePair_keep by reflexivity.
      rewrite replacePair_skip by lia. rewrite IH. reflexivity.
    + change (escapeAt 1 44) with [92; 44]. change (escapeAt 2 44) with [44].
      cbn [app]. rewrite replacePair_hit by reflexivity. rewrite IH. reflexivity.
    + change (escapeAt 1 10) with [10]. change (escapeAt 2 10) with [10].
      cbn [app]. rewrite replacePair_skip by lia. rewrite IH. reflexivity.
    + rewrite !escapeAt_plain by assumption. cbn [app].
      rewrite replacePair_skip by assumption. rewrite IH. reflexivity.
Qed.

Lemma TEXT_parse_stage3 (s : jsstring) :
  replacePair 92 (fun c => c =? 59) [59] (escaped (escapeAt 2) s) = escaped (escapeAt 3) s.
Proof.
  revert s. apply escaped_ind.
  - reflexivity.
  - intros d s Hd IH. rewrite !escaped_pair by exact Hd.
    rewrite replacePair_keep by reflexivity. rewrite replacePair_skip by lia.
    rewrite IH. reflexivity.
  - intros c s Hside IH. rewrite !escaped_cons by exact Hside.
    by_char c.
    + change (escapeAt 2 92) with [92; 92]. change (escapeAt 3 92) with [92; 92].
      cbn [app]. rewrite replacePair_keep by reflexivity.
      rewrite replacePair_keep, IH; [reflexivity |].
      apply (escaped_head 2 59); [lia | lia | reflexivity].
    + change (escapeAt 2 59) with [92; 59]. change (escapeAt 3 59) with [59].
      cbn [app]. rewrite replacePair_hit by reflexivity. rewrite IH. reflexivity.
    + change (escapeAt 2 44) with [44]. change (escapeAt 3 44) with [44].
      cbn [app]. rewrite replacePair_skip by lia. rewrite IH. reflexivity.
    + change (escapeAt 2 10) with [10]. change (escapeAt 3 10) with [10].
      cbn [app]. rewrite replacePair_skip by lia. rewrite IH. reflexivity.
    + rewrite !escapeAt_plain by assumption. cbn [app].
      rewrite replacePair_skip by assumption. rewrite IH. reflexivity.
Qed.

Lemma TEXT_parse_stage4 (s : jsstring) :
  replacePair 92 (fun c => c =? 92) [92] (escaped (escapeAt 3) s) = escaped (escapeAt 4) s.
Proof.
  revert s. apply escaped_ind.
  - reflexivity.
  - intros d s Hd IH. rewrite !escaped_pair by exact Hd.
    rewrite replacePair_keep by reflexivity. rewrite replacePair_skip by lia.
    rewrite IH. reflexivity.
  - intros c s Hside IH. rewrite !escaped_cons by exact Hside.
    by_char c.
    + change (escapeAt 3 92) with [92; 92]. change (escapeAt 4 92) with [92].
      cbn [app]. rewrite replacePair_hit by reflexivity. rewrite IH. reflexivity.
    + change (escapeAt 3 59) with [59]. change (escapeAt 4 59) with [59].
      cbn [app]. rewrite replacePair_skip by lia. rewrite IH. reflexivity.
    + change (escapeAt 3 44) with [44]. change (escapeAt 4 44) with [44].
      cbn [app]. rewrite replacePair_skip by lia. rewrite IH. reflexivity.
    + change (escapeAt 3 10) with [10]. change (escapeAt 4 10) with [10].
      cbn [app]. rewrite replacePair_skip by lia. rewrite IH. reflexivity.
    + rewrite !escapeAt_plain by assumption. cbn [app].
      rewrite replacePair_skip by assumption. rewrite IH. reflexivity.
Qed.

Lemma escapeAt_4 c : escapeAt 4 c = [c].
Proof.
  unfold escapeAt. change (4 <? 4)%nat with false. change (4 <? 3)%nat with false.
  change (4 <? 2)%nat with false. change (4 <? 1)%nat with false.
  rewrite !andb_false_r. reflexivity.
Qed.

Lemma escaped_stage4 (s : jsstring) :
  escaped (escapeAt 4) s = replacePair 92 isLetterN [92; 10] s.
Proof.
  revert s. apply escaped_ind.
  - reflexivity.
  - intros d s Hd IH. rewrite escaped_pair, replacePair_hit by exact Hd.
    rewrite IH. reflexivity.
  - intros c s Hside IH. rewrite escaped_cons by exact Hside.
    rewrite escapeAt_4, IH. cbn [app].
    destruct (Z.eq_dec c 92) as [-> | Hc].
    + rewrite replacePair_keep; [reflexivity | exact (Hside eq_refl)].
    + rewrite replacePair_skip by exact Hc. reflexivity.
Qed.

(** What [TEXT.parse] makes of an escaped text, for every string. *)
Lemma TEXT_unescape_escaped (s : jsstring) :
  TEXT.parse (TEXT.serialize s) = replacePair 92 isLetterN [92; 10] s.
Proof.
  unfold TEXT.parse. cbv zeta.
  rewrite TEXT_serialize_flat, TEXT_parse_stage1, TEXT_parse_stage2, TEXT_parse_stage3,
    TEXT_parse_stage4.
  apply escaped_stage4.
Qed.

Lemma replacePair_fixed (s : jsstring) :
  replacePair 92 isLetterN [92; 10] s = s <-> noBackslashN s = true.
Proof.
  revert s. apply escaped_ind.
  - split; reflexivity.
  - intros d s Hd _. rewrite replacePair_hit by exact Hd.
    cbn [noBackslashN]. rewrite Hd. cbn. split; [| discriminate].
    intros [= E _]. subst d. discriminate.
  - intros c s Hside IH.
    assert (Hc : (c =? 92) && match s with d :: _ => isLetterN d | [] => false end = false).
    { destruct (c =? 92) eqn:E; [| reflexivity]. apply Z.eqb_eq in E.
      specialize (Hside E). destruct s; [reflexivity | exact Hside]. }
    cbn [noBackslashN]. rewrite Hc. cbn [negb andb]. rewrite <- IH.
    assert (Hr : replacePair 92 isLetterN [92; 10] (c :: s)
                 = c :: replacePair 92 isLetterN [92; 10] s).
    { destruct (Z.eq_dec c 92) as [-> | Hne].
      - apply replacePair_keep. exact (Hside eq_refl).
      - apply replacePair_skip. exact Hne. }
    rewrite Hr. split; [intros [= E]; exact E | intros ->; reflexivity].
Qed.

(** ** Multi-valued properties: splitting on unescaped commas *)

Lemma splitMultiValueLoop_pair parts cur d (rest : jsstring) :
  splitMultiValueLoop parts cur (92 :: d :: rest)
  = splitMultiValueLoop parts (cur ++ [92; d]) rest.
Proof. reflexivity. Qed.

Lemma splitMultiValueLoop_comma parts cur (rest : jsstring) :
  splitMultiValueLoop parts cur (44 :: rest) = splitMultiValueLoop (parts ++ [cur]) [] rest.
Proof. destruct rest; cbn [splitMultiValueLoop]; [rewrite <- app_assoc |]; reflexivity. Qed.

Lemma splitMultiValueLoop_plain parts cur c (rest : jsstring) :
  c <> 92 -> c <> 44 ->
  splitMultiValueLoop parts cur (c :: rest) = splitMultiValueLoop parts (cur ++ [c]) rest.
Proof.
  intros H1 H2. destruct rest; cbn [splitMultiValueLoop];
    rewrite ?(proj2 (Z.eqb_neq c 92) H1), (proj2 (Z.eqb_neq c 44) H2); reflexivity.
Qed.

Lemma join_snoc (parts : list jsstring) (x : jsstring) :
  join [44] (parts ++ [x]) = commaTerminated parts ++ x.
Proof.
  induction parts as [| p ps IH]; [reflexivity |].
  unfold commaTerminated in *. cbn [map concat app].
  destruct (ps ++ [x]) as [| q qs] eqn:E; [destruct ps; discriminate |].
  rewrite join_cons2, IH, <- !app_assoc. reflexivity.
Qed.

Lemma commaTerminated_snoc (parts : list jsstring) (x : jsstring) :
  commaTerminated (parts ++ [x]) = commaTerminated parts ++ x ++ [44].
Proof.
  unfold commaTerminated. rewrite map_app, concat_app. cbn [map concat].
  rewrite app_nil_r. reflexivity.
Qed.

(** The loop loses nothing: the parts, joined by commas, are the text. *)
Lemma join_splitMultiValueLoop (rest : jsstring) :
  forall parts cur,
    join [44] (splitMultiValueLoop parts cur rest) = commaTerminated parts ++ cur ++ rest.
Proof.
  assert (H : forall n (rest : jsstring), (length rest <= n)%nat ->
              forall parts cur,
                join [44] (splitMultiValueLoop parts cur rest)
                = commaTerminated parts ++ cur ++ rest).
  { induction n as [| n IH]; intros [| c r] Hlen parts cur; simpl in Hlen; try lia;
      try (cbn [splitMultiValueLoop]; rewrite join_snoc, app_nil_r; reflexivity).
    destruct (Z.eq_dec c 92) as [-> | H92].
    - destruct r as [| d r].
      + cbn [splitMultiValueLoop]. change (92 =? 44) with false. cbn iota.
        rewrite join_snoc. reflexivity.
      + rewrite splitMultiValueLoop_pair, IH by (simpl in Hlen; lia).
        rewrite <- app_assoc. reflexivity.
    - destruct (Z.eq_dec c 44) as [-> | H44].
      + rewrite splitMultiValueLoop_comma, IH by lia.
        rewrite commaTerminated_snoc, <- !app_assoc. reflexivity.
      + rewrite splitMultiValueLoop_plain, IH by (assumption || lia).
        rewrite <- app_assoc. reflexivity. }
  intros parts cur. apply (H (length rest)). lia.
Qed.

Lemma splitMultiValueLoop_nonempty (rest : jsstring) :
  forall parts cur, splitMultiValueLoop parts cur rest <> [].
Proof.
  assert (H : forall n (rest : jsstring), (length rest <= n)%nat ->
              forall parts cur, splitMultiValueLoop parts cur rest <> []).
  { induction n as [| n IH]; intros [| c r] Hlen parts cur; simpl in Hlen; try lia;
      try (cbn [splitMultiValueLoop]; destruct parts; discriminate).
    destruct (Z.eq_dec c 92) as [-> | H92].
    - destruct r as [| d r].
      + cbn [splitMultiValueLoop]. change (92 =? 44) with false. cbn iota.
        destruct parts; discriminate.
      + rewrite splitMultiValueLoop_pair. apply IH. simpl in Hlen. lia.
    - destruct (Z.eq_dec c 44) as [-> | H44].
      + rewrite splitMultiValueLoop_comma. apply IH. lia.
      + rewrite splitMultiValueLoop_plain by assumption. apply IH. lia. }
  intros parts cur. apply (H (length rest)). lia.
Qed.

Lemma splitMultiValueLoop_split (rest : jsstring) :
  forall parts cur,
    lacks 92 rest = true ->
    splitMultiValueLoop parts cur rest = parts ++ splitAux 44 (rev cur) rest.
Proof.
  induction rest as [| c r IH]; intros parts cur Hl.
  - cbn [splitMultiValueLoop splitAux]. rewrite rev_involutive. reflexivity.
  - unfold lacks in Hl. cbn [forallb] in Hl. apply andb_true_iff in Hl as [Hc Hr].
    apply negb_true_iff, Z.eqb_neq in Hc. cbn [splitAux].
    destruct (Z.eq_dec c 44) as [-> | H44].
    + rewrite splitMultiValueLoop_comma, IH by exact Hr.
      change (44 =? 44) with true. cbn iota. rewrite rev_involutive, <- app_assoc.
      reflexivity.
    + rewrite splitMultiValueLoop_plain, IH by assumption.
      rewrite (proj2 (Z.eqb_neq c 44) H44), rev_app_distr. reflexivity.
Qed.

(** X1.  [splitMultiValue] loses nothing and invents nothing: joining its
    parts with commas gives the raw text back, whatever the text; it never
    returns an empty list; and on a text without backslash it is
    [split(',')]. *)
Theorem splitMultiValue_join (raw : jsstring) :
  join [44] (splitMultiValue raw) = raw
  /\ splitMultiValue raw <> []
  /\ (lacks 92 raw = true -> splitMultiValue raw = split 44 raw).
Proof.
  unfold splitMultiValue. split_and!.
  - apply join_splitMultiValueLoop.
  - apply splitMultiValueLoop_nonempty.
  - intros H. rewrite splitMultiValueLoop_split by exact H. reflexivity.
Qed.

(** An escaped text is read as one piece. *)
Lemma splitMultiValueLoop_escaped (s : jsstring) :
  forall parts cur rest,
    splitMultiValueLoop parts cur (flat_map (escapeAt 0) s ++ rest)
    = splitMultiValueLoop parts (cur ++ flat_map (escapeAt 0) s) rest.
Proof.
  induction s as [| c s IH]; intros parts cur rest.
  - cbn [flat_map app]. rewrite app_nil_r. reflexivity.
  - cbn [flat_map]. rewrite <- app_assoc. by_char c.
    + change (escapeAt 0 92) with [92; 92]. cbn [app].
      rewrite splitMultiValueLoop_pair, IH, <- app_assoc. reflexivity.
    + change (escapeAt 0 59) with [92; 59]. cbn [app].
      rewrite splitMultiValueLoop_pair, IH, <- app_assoc. reflexivity.
    + change (escapeAt 0 44) with [92; 44]. cbn [app].
      rewrite splitMultiValueLoop_pair, IH, <- app_assoc. reflexivity.
    + change (escapeAt 0 10) with [92; 110]. cbn [app].
      rewrite splitMultiValueLoop_pair, IH, <- app_assoc. reflexivity.
    + rewrite escapeAt_plain by assumption. cbn [app].
      rewrite splitMultiValueLoop_plain, IH, <- app_assoc by assumption. reflexivity.
Qed.

Lemma splitMultiValueLoop_texts (xs : list jsstring) :
  forall parts,
    xs <> [] ->
    splitMultiValueLoop parts [] (join [44] (map TEXT.serialize xs))
    = parts ++ map TEXT.serialize xs.
Proof.
  induction xs as [| x xs IH]; intros parts Hne; [congruence |].
  destruct xs as [| y ys].
  - cbn [map join]. rewrite TEXT_serialize_flat.
    rewrite <- (app_nil_r (flat_map _ x)) at 1.
    rewrite splitMultiValueLoop_escaped. reflexivity.
  - cbn [map]. rewrite join_cons2. cbn [map] in IH.
    rewrite TEXT_serialize_flat at 1. rewrite splitMultiValueLoop_escaped.
    cbn [app]. rewrite splitMultiValueLoop_comma, IH by discriminate.
    rewrite <- app_assoc, <- TEXT_serialize_flat. reflexivity.
Qed.

Lemma mapM_pure {A B} (f : A -> B) (xs : list A) :
  mapM (fun x => Ok (f x)) xs = Ok (map f xs).
Proof. induction xs as [| x xs IH]; [reflexivity |]. simpl. rewrite IH. reflexivity. Qed.

(** X2.  A list of texts written the way a multi-valued property is
    serialized (each text escaped, the texts joined by commas) is split
    into the escaped texts again; and [parseProperty] reads it back as the
    list of texts, for a multi-valued TEXT property such as [CATEGORIES],
    when no text has a backslash before [n] or [N]. *)
Theorem text_list_round_trip (P : Platform) (name : jsstring) (params : Params)
    (xs : list jsstring) :
  xs <> [] ->
  resolveValueType name params = js "TEXT" ->
  PropertyDef.multi <$> getPropertyDef name = Some true ->
  Forall (fun x => noBackslashN x = true) xs ->
  let raw := join [44] (map TEXT.serialize xs) in
  splitMultiValue raw = map TEXT.serialize xs
  /\ parseProperty P name raw params
     = Ok (newProperty name (Multi (map VString xs)) params raw).
Proof.
  intros Hne Hty Hmulti Hxs raw.
  assert (Hsplit : splitMultiValue raw = map TEXT.serialize xs).
  { unfold splitMultiValue, raw. rewrite splitMultiValueLoop_texts by exact Hne.
    reflexivity. }
  split; [exact Hsplit |].
  unfold parseProperty, parsePropertyTry. rewrite Hty, Hmulti.
  change (streq (js "TEXT") (js "GEO")) with false.
  change (lookupCodec P (js "TEXT"))
    with (Some (fun (raw : jsstring) (_ : Params) => Ok (VString (TEXT.parse raw)))).
  cbn [default]. rewrite Hsplit. unfold id. cbv beta iota.
  rewrite (mapM_pure (fun p => VString (TEXT.parse p))). cbn [bind catch].
  do 3 f_equal. rewrite map_map.
  clear - Hxs. induction Hxs as [| x xs Hx _ IH]; [reflexivity |].
  cbn [map]. rewrite IH, TEXT_unescape_escaped.
  rewrite (proj2 (replacePair_fixed x) Hx). reflexivity.
Qed.

Lemma text_list_round_trip_witness :
  parseProperty refPlatform (js "CATEGORIES")
    (join [44] (map TEXT.serialize [js "a,b"; js "c;d"; [92; 10]])) []
  = Ok (newProperty (js "CATEGORIES") (Multi (map VString [js "a,b"; js "c;d"; [92; 10]])) []
          (join [44] (map TEXT.serialize [js "a,b"; js "c;d"; [92; 10]]))).
Proof.
  apply (text_list_round_trip refPlatform (js "CATEGORIES") []
           [js "a,b"; js "c;d"; [92; 10]]).
  - discriminate.
  - reflexivity.
  - reflexivity.
  - repeat constructor.
Defined.

(** X3.  Unescaping an escaped text gives the text with every backslash
    that stands before [n] or [N] followed by a line feed instead of that
    letter; so it gives the text back exactly when the text has no backslash
    before [n] or [N]. *)
Theorem TEXT_round_trip_exactly (s : jsstring) :
  TEXT.parse (TEXT.serialize s) = replacePair 92 isLetterN [92; 10] s
  /\ (TEXT.parse (TEXT.serialize s) = s <-> noBackslashN s = true).
Proof.
  split; [apply TEXT_unescape_escaped |].
  rewrite TEXT_unescape_escaped. apply replacePair_fixed.
Qed.

(** ** TIME *)

(** X4.  A time whose hour, minute and second are integers of at most two
    digits is read back from its serialization, with or without the [Z]. *)
Theorem TIME_round_trip (v : ICalTime.t) :
  validTime v -> TIME.parse (TIME.serialize v) = v.
Proof.
  destruct v as [h m s utc]. unfold validTime.
  cbn [ICalTime.hour ICalTime.minute ICalTime.second ICalTime.utc].
  intros (Hh & Hm & Hs).
  unfold TIME.serialize, TIME.parse.
  cbn [ICalTime.hour ICalTime.minute ICalTime.second ICalTime.utc].
  digits2 Hh h1 h2 Hh1 Hh2 Ph.
  digits2 Hm m1 m2 Hm1 Hm2 Pm.
  digits2 Hs s1 s2 Hs1 Hs2 Ps.
  destruct utc.
  - rewrite trim_noWS by solve_noWS.
    unfold endsWith, dropLast.
    cbn [slice app drop take Nat.sub rev startsWith length].
    change (90 =? 90) with true. cbn [andb].
    cbn [slice app drop take Nat.sub rev startsWith length].
    rewrite Ph, Pm, Ps. reflexivity.
  - rewrite trim_noWS by solve_noWS.
    unfold endsWith, dropLast.
    cbn [slice app drop take Nat.sub rev startsWith length].
    rewrite (digit_neq s2 90 Hs2) by lia. cbn [andb].
    cbn [slice app drop take Nat.sub rev startsWith length].
    rewrite Ph, Pm, Ps. reflexivity.
Qed.

Lemma TIME_round_trip_witness :
  TIME.parse (TIME.serialize (ICalTime.mk (Int 23) (Int 5) (Int 0) true))
  = ICalTime.mk (Int 23) (Int 5) (Int 0) true.
Proof. apply TIME_round_trip. unfold validTime; simpl; lia. Defined.

(** ** Folding and unfolding *)

Lemma scanChunk_positive max c (rest : jsstring) :
  4 <= max -> (0 < scanChunk max 0 (c :: rest))%nat.
Proof.
  intros Hmax. cbn [scanChunk]. pose proof (charOctets_range c) as Hc.
  replace (0 + charOctets c >? max) with false by (symmetry; apply gtb_false; lia).
  destruct ((55296 <=? c) && (c <? 56320)); [destruct rest |]; lia.
Qed.

(** The outer loop cuts the rest of the line into payloads, whatever the
    line: nothing is lost and nothing is added but the SPACE that starts a
    continuation. *)
Lemma foldLoop_payloads (line : jsstring) :
  forall fuel pos first chunks,
    (length line - pos <= fuel)%nat ->
    exists payloads,
      foldLoop fuel line pos first chunks = chunks ++ segments first payloads
      /\ concat payloads = drop pos line
      /\ Forall (fun q => q <> []) payloads.
Proof.
  induction fuel as [| fuel IH]; intros pos first chunks Hfuel.
  - exists []. cbn [foldLoop segments concat]. rewrite app_nil_r.
    rewrite drop_ge by lia. auto.
  - cbn [foldLoop]. destruct (pos <? length line)%nat eqn:Elt.
    + apply Nat.ltb_lt in Elt.
      set (max := if first then 75 else 74).
      destruct (drop pos line) as [| c rest] eqn:Erest.
      { apply (f_equal length) in Erest. rewrite length_drop in Erest. simpl in Erest. lia. }
      pose proof (scanChunk_positive max c rest) as Hn.
      set (n := scanChunk max 0 (c :: rest)) in *.
      assert (Hn' : (0 < n)%nat) by (apply Hn; destruct first; subst max; lia).
      replace (pos + n =? pos)%nat with false by (symmetry; apply Nat.eqb_neq; lia).
      destruct (IH (pos + n)%nat false
                  (chunks ++ [(if first then [] else [32]) ++ slice line pos (pos + n)]))
        as (ps & Hps & Hcat & Hne); [lia |].
      exists (take n (c :: rest) :: ps). split_and!.
      * rewrite Hps, <- app_assoc. f_equal. cbn [segments app]. f_equal.
        -- unfold slice. replace (pos + n - pos)%nat with n by lia.
           rewrite Erest. reflexivity.
        -- destruct ps; reflexivity.
      * cbn [concat]. rewrite Hcat, <- drop_drop, Erest. apply take_drop.
      * constructor; [| exact Hne]. destruct n; [lia | discriminate].
    + apply Nat.ltb_ge in Elt. exists []. cbn [segments concat]. rewrite app_nil_r.
      rewrite drop_ge by lia. auto.
Qed.

Lemma foldLine_segments (line : jsstring) :
  foldLine line = join CRLF (foldedSegments line).
Proof. unfold foldLine, foldedSegments. destruct (octetLen line <=? 75); reflexivity. Qed.

(** The segments of a line: a first payload and continuations, which
    concatenate to the line; the first payload starts as the line does. *)
Lemma foldedSegments_shape (line : jsstring) :
  exists q0 qs,
    foldedSegments line = q0 :: map (cons 32) qs
    /\ q0 ++ concat qs = line
    /\ (line <> [] -> q0 <> []).
Proof.
  unfold foldedSegments. destruct (octetLen line <=? 75) eqn:E.
  - exists line, []. cbn [map concat]. rewrite app_nil_r. auto.
  - unfold foldChunks.
    destruct (foldLoop_payloads line (length line) 0 true []) as (ps & Hps & Hcat & Hne);
      [lia |].
    rewrite drop_0 in Hcat. rewrite Hps. cbn [app].
    destruct ps as [| q0 qs].
    + cbn [concat] in Hcat. subst line. discriminate.
    + exists q0, qs. cbn [segments app]. split_and!; auto.
      intros _. apply Forall_cons in Hne as [H _]. exact H.
Qed.

Lemma replacePair_app_lacks a isB r (p t : jsstring) :
  lacks a p = true -> replacePair a isB r (p ++ t) = p ++ replacePair a isB r t.
Proof.
  induction p as [| x p IH]; [reflexivity |].
  unfold lacks. cbn [forallb]. intros H. apply andb_true_iff in H as [Hx Hp].
  apply negb_true_iff, Z.eqb_neq in Hx.
  cbn [app]. rewrite replacePair_skip by exact Hx. rewrite (IH Hp). reflexivity.
Qed.

Lemma replacePair_lacks a isB r (p : jsstring) :
  lacks a p = true -> replacePair a isB r p = p.
Proof.
  intros H. rewrite <- (app_nil_r p) at 1. rewrite replacePair_app_lacks by exact H.
  cbn [replacePair]. apply app_nil_r.
Qed.

(** No character of [p] can end a match. *)
Lemma replacePair_no_second a (isB : Z -> bool) r (p : jsstring) :
  forallb (fun c => negb (isB c)) p = true -> replacePair a isB r p = p.
Proof.
  induction p as [| x p IH]; [reflexivity |].
  cbn [forallb]. intros H. apply andb_true_iff in H as [_ Hp].
  destruct (Z.eq_dec x a) as [-> | Hx].
  - rewrite replacePair_keep, (IH Hp); [reflexivity |].
    destruct p as [| y p]; [exact I |]. cbn [forallb] in Hp.
    apply andb_true_iff in Hp as [Hy _]. apply negb_true_iff in Hy. exact Hy.
  - rewrite replacePair_skip, (IH Hp) by exact Hx. reflexivity.
Qed.

Lemma replaceChar_lacks c r (p : jsstring) : lacks c p = true -> replaceChar c r p = p.
Proof.
  induction p as [| x p IH]; [reflexivity |].
  unfold lacks. cbn [forallb]. intros H. apply andb_true_iff in H as [Hx Hp].
  apply negb_true_iff in Hx. cbn [replaceChar]. rewrite Hx, (IH Hp). reflexivity.
Qed.

Lemma join_cons_nonempty sep (p : jsstring) (ps : list jsstring) :
  ps <> [] -> join sep (p :: ps) = p ++ sep ++ join sep ps.
Proof. destruct ps; [congruence | reflexivity]. Qed.

Lemma join_head_cons sep c (p : jsstring) (ps : list jsstring) :
  join sep ((c :: p) :: ps) = c :: join sep (p :: ps).
Proof. destruct ps; reflexivity. Qed.

(** The first replacement of [unfold]: every CRLF between segments that
    have no CR becomes an LF. *)
Lemma unfold_CRLF (cs : list jsstring) :
  Forall (fun c => lacks 13 c = true) cs ->
  replacePair 13 (fun c => c =? 10) [10] (join CRLF cs) = join [10] cs.
Proof.
  unfold CRLF. induction 1 as [| c cs Hc Hcs IH]; [reflexivity |].
  destruct cs as [| c' cs].
  - cbn [join]. apply replacePair_lacks. exact Hc.
  - rewrite !join_cons2. rewrite replacePair_app_lacks by exact Hc.
    cbn [app]. rewrite replacePair_hit by reflexivity.
    rewrite IH. reflexivity.
Qed.

(** The second replacement: every CR between lines becomes an LF. *)
Lemma unfold_CR (cs : list jsstring) :
  Forall (fun c => lacks 13 c = true) cs ->
  replaceChar 13 [10] (join [13] cs) = join [10] cs.
Proof.
  induction 1 as [| c cs Hc Hcs IH]; [reflexivity |].
  destruct cs as [| c' cs].
  - cbn [join]. apply replaceChar_lacks. exact Hc.
  - rewrite !join_cons2, !replaceChar_app, IH, (replaceChar_lacks _ _ c Hc). reflexivity.
Qed.

(** The third replacement on one folded line and what follows it: the
    continuations are joined to the first payload. *)
Lemma unfold_continuations (qs : list jsstring) :
  forall (q0 : jsstring) (more : list jsstring),
    lacks 10 q0 = true -> Forall (fun q => lacks 10 q = true) qs ->
    replacePair 10 (fun c => (c =? 32) || (c =? 9)) []
      (join [10] (q0 :: map (cons 32) qs ++ more))
    = q0 ++ concat qs
      ++ match more with
         | [] => []
         | _ :: _ =>
             replacePair 10 (fun c => (c =? 32) || (c =? 9)) [] (10 :: join [10] more)
         end.
Proof.
  induction qs as [| q qs IH]; intros q0 more Hq0 Hqs.
  - cbn [map app concat]. destruct more as [| m more].
    + cbn [join]. rewrite app_nil_r. apply replacePair_lacks. exact Hq0.
    + rewrite join_cons2. apply replacePair_app_lacks. exact Hq0.
  - apply Forall_cons in Hqs as [Hq Hqs].
    cbn [map app concat]. rewrite join_cons2, join_head_cons.
    rewrite replacePair_app_lacks by exact Hq0.
    cbn [app]. rewrite replacePair_hit by reflexivity.
    cbn [app]. rewrite (IH q more Hq Hqs), <- app_assoc. reflexivity.
Qed.

Lemma lacks_concat c (q0 : jsstring) (qs : list jsstring) :
  lacks c (q0 ++ concat qs) = true ->
  lacks c q0 = true /\ Forall (fun q => lacks c q = true) qs.
Proof.
  rewrite lacks_app. intros H. apply andb_true_iff in H as [H0 H]. split; [exact H0 |].
  induction qs as [| q qs IH]; constructor.
  - cbn [concat] in H. rewrite lacks_app in H. apply andb_true_iff in H as [H _]. exact H.
  - apply IH. cbn [concat] in H. rewrite lacks_app in H.
    apply andb_true_iff in H as [_ H]. exact H.
Qed.

Lemma lacks_segments c (q0 : jsstring) (qs : list jsstring) :
  c <> 32 -> lacks c (q0 ++ concat qs) = true ->
  Forall (fun s => lacks c s = true) (q0 :: map (cons 32) qs).
Proof.
  intros Hc H. apply lacks_concat in H as [H0 Hqs]. constructor; [exact H0 |].
  apply Forall_map. eapply Forall_impl; [exact Hqs |].
  intros q Hq. unfold lacks in *. cbn [forallb]. rewrite Hq.
  rewrite (proj2 (Z.eqb_neq 32 c)) by congruence. reflexivity.
Qed.

(** X5.  Unfolding undoes folding: for a line with no CR and no LF,
    [unfold (foldLine line)] is the line, so a folded line is tokenized as
    the line itself is. *)
Theorem unfold_foldLine (line : jsstring) :
  lacks 13 line = true -> lacks 10 line = true ->
  unfold (foldLine line) = line
  /\ tokenize (foldLine line) = tokenize line.
Proof.
  intros H13 H10.
  assert (Hfold : unfold (foldLine line) = line).
  { rewrite foldLine_segments.
    destruct (foldedSegments_shape line) as (q0 & qs & -> & Hcat & _).
    rewrite <- Hcat in H13, H10.
    unfold unfold. rewrite unfold_CRLF by (apply lacks_segments; [lia | exact H13]).
    rewrite replaceChar_lacks
      by (apply lacks_join; [reflexivity | apply lacks_segments; [lia | exact H13]]).
    apply lacks_concat in H10 as [H0 Hqs].
    rewrite <- (app_nil_r (map (cons 32) qs)).
    rewrite unfold_continuations by assumption. rewrite app_nil_r. exact Hcat. }
  split; [exact Hfold |].
  assert (Hline : unfold line = line).
  { unfold unfold. rewrite (replacePair_lacks 13 _ _ line H13).
    rewrite (replaceChar_lacks 13 _ line H13). apply replacePair_lacks. exact H10. }
  unfold tokenize. rewrite Hfold, Hline. reflexivity.
Qed.

Lemma unfold_foldLine_witness :
  unfold (foldLine (replicate 200 233)) = replicate 200 233.
Proof. apply unfold_foldLine; reflexivity. Defined.

Lemma join_app sep (xs ys : list jsstring) :
  xs <> [] -> ys <> [] -> join sep (xs ++ ys) = join sep xs ++ sep ++ join sep ys.
Proof.
  intros Hx Hy. induction xs as [| x xs IH]; [congruence |].
  destruct xs as [| x' xs].
  - cbn [app]. rewrite join_cons_nonempty by exact Hy. reflexivity.
  - cbn [app] in *. rewrite !join_cons2, IH by discriminate.
    rewrite <- !app_assoc. reflexivity.
Qed.

Lemma join_join sep (css : list (list jsstring)) :
  Forall (fun cs => cs <> []) css ->
  join sep (map (join sep) css) = join sep (concat css).
Proof.
  induction 1 as [| cs css Hcs Hcss IH]; [reflexivity |].
  destruct css as [| cs' css].
  - cbn [map concat join]. rewrite app_nil_r. reflexivity.
  - cbn [map] in *. rewrite join_cons2, IH.
    change (concat (cs :: cs' :: css)) with (cs ++ concat (cs' :: css)).
    rewrite (join_app sep cs (concat (cs' :: css))); [reflexivity | exact Hcs |].
    apply Forall_cons in Hcss as [Hcs' _]. cbn [concat]. destruct cs'; [congruence | discriminate].
Qed.

Lemma foldedSegments_nonempty (line : jsstring) : foldedSegments line <> [].
Proof. destruct (foldedSegments_shape line) as (q0 & qs & -> & _). discriminate. Qed.

Lemma unfold_segments_lack c (ls : list jsstring) :
  c <> 32 -> Forall (fun l => lacks c l = true) ls ->
  Forall (fun s => lacks c s = true) (concat (map foldedSegments ls)).
Proof.
  intros Hc. induction 1 as [| l ls Hl Hls IH]; [constructor |].
  cbn [map concat]. apply Forall_app. split; [| exact IH].
  destruct (foldedSegments_shape l) as (q0 & qs & -> & Hcat & _).
  apply lacks_segments; [exact Hc |]. rewrite Hcat. exact Hl.
Qed.

Lemma join_head (q0 : jsstring) (rest : list jsstring) :
  match q0 with c :: _ => (c =? 32) || (c =? 9) = false | [] => True end ->
  match join [10] (q0 :: rest) with
  | y :: _ => (y =? 32) || (y =? 9) = false
  | [] => True
  end.
Proof.
  destruct q0 as [| c q0]; intros H.
  - destruct rest; [exact I | reflexivity].
  - rewrite join_head_cons. exact H.
Qed.

(** The third replacement of [unfold] on the segments of a document. *)
Lemma unfold_document (ls : list jsstring) :
  Forall isLine ls ->
  replacePair 10 (fun c => (c =? 32) || (c =? 9)) []
    (join [10] (concat (map foldedSegments ls)))
  = join [10] ls.
Proof.
  induction 1 as [| l ls Hl Hls IH]; [reflexivity |].
  cbn [map concat].
  destruct (foldedSegments_shape l) as (q0 & qs & -> & Hcat & _).
  destruct Hl as (_ & H10 & _). rewrite <- Hcat in H10.
  apply lacks_concat in H10 as [H0 Hqs].
  cbn [app]. rewrite unfold_continuations by assumption.
  destruct ls as [| l' ls].
  - cbn [map concat]. rewrite app_nil_r. exact Hcat.
  - assert (Hmore : exists m more, concat (map foldedSegments (l' :: ls)) = m :: more
                                   /\ match m with
                                      | c :: _ => (c =? 32) || (c =? 9) = false
                                      | [] => True
                                      end).
    { cbn [map concat].
      destruct (foldedSegments_shape l') as (q0' & qs' & -> & Hcat' & Hne').
      exists q0', (map (cons 32) qs' ++ concat (map foldedSegments ls)).
      split; [reflexivity |].
      apply Forall_cons in Hls as [(_ & _ & Hb) _].
      destruct q0' as [| c q0']; [exact I |].
      rewrite <- Hcat' in Hb. exact Hb. }
    destruct Hmore as (m & more & Em & Hm). rewrite Em in *.
    rewrite replacePair_keep by (apply join_head; exact Hm).
    rewrite IH, join_cons2, app_assoc, Hcat. reflexivity.
Qed.

Lemma tokenize_lines (ls : list jsstring) (acc : list ContentLine.t) :
  fold_left
    (fun result line =>
       match trim line with
       | [] => result
       | _ :: _ =>
           match parseContentLine line with
           | Some parsed => result ++ [parsed]
           | None => result
           end
       end) ls acc
  = acc ++ flat_map lineTokens ls.
Proof.
  revert acc. induction ls as [| l ls IH]; intros acc.
  - cbn [fold_left flat_map]. rewrite app_nil_r. reflexivity.
  - cbn [fold_left flat_map]. rewrite IH. unfold lineTokens at 2.
    destruct (trim l); [reflexivity |].
    destruct (parseContentLine l); [rewrite <- app_assoc |]; reflexivity.
Qed.

Lemma tokenize_folded_lines (ls : list jsstring) :
  Forall isLine ls ->
  unfold (join CRLF (map foldLine ls)) = join [10] ls
  /\ tokenize (join CRLF (map foldLine ls)) = flat_map lineTokens ls.
Proof.
  intros Hls.
  assert (H13 : Forall (fun l => lacks 13 l = true) ls).
  { eapply Forall_impl; [exact Hls |]. intros l (H & _). exact H. }
  assert (H10 : Forall (fun l => lacks 10 l = true) ls).
  { eapply Forall_impl; [exact Hls |]. intros l (_ & H & _). exact H. }
  assert (Hunf : unfold (join CRLF (map foldLine ls)) = join [10] ls).
  { replace (map foldLine ls) with (map (join CRLF) (map foldedSegments ls))
      by (rewrite map_map; apply map_ext; intros l; symmetry; apply foldLine_segments).
    rewrite join_join
      by (apply Forall_map, Forall_forall; intros l _; apply foldedSegments_nonempty).
    unfold unfold. rewrite unfold_CRLF by (apply unfold_segments_lack; [lia | exact H13]).
    rewrite replaceChar_lacks
      by (apply lacks_join; [reflexivity | apply unfold_segments_lack; [lia | exact H13]]).
    apply unfold_document. exact Hls. }
  split; [exact Hunf |].
  unfold tokenize. rewrite Hunf, tokenize_lines. cbn [app].
  destruct ls as [| l ls]; [reflexivity |].
  rewrite split_join by (discriminate || exact H10). reflexivity.
Qed.

(** X6.  A document written line by line, each content line folded and the
    lines joined by CRLF, is unfolded into its lines again, and tokenized
    line by line: the tokens are those of the content lines, in order. *)
Theorem tokenize_folded_document (ls : list jsstring) :
  Forall isLine ls ->
  unfold (join CRLF (map foldLine ls)) = join [10] ls
  /\ tokenize (join CRLF (map foldLine ls)) = flat_map lineTokens ls.
Proof. apply tokenize_folded_lines. Qed.

Lemma tokenize_folded_document_witness :
  tokenize (join CRLF (map foldLine [js "BEGIN:VEVENT"; js "SUMMARY:" ++ replicate 100 97;
                                     js "END:VEVENT"]))
  = [ContentLine.mk (js "BEGIN") [] (js "VEVENT");
     ContentLine.mk (js "SUMMARY") [] (replicate 100 97);
     ContentLine.mk (js "END") [] (js "VEVENT")].
Proof.
  refine (eq_trans (proj2 (tokenize_folded_document _ _)) _).
  - repeat constructor.
  - vm_compute. reflexivity.
Defined.

(** X7.  Line endings: a text whose lines are separated by CRLF, by LF or
    by CR throughout is unfolded, and so tokenized, the same way. *)
Theorem line_endings_are_equivalent (ls : list jsstring) :
  Forall (fun l => lacks 13 l = true /\ lacks 10 l = true) ls ->
  unfold (join CRLF ls) = unfold (join [10] ls)
  /\ unfold (join [13] ls) = unfold (join [10] ls)
  /\ tokenize (join CRLF ls) = tokenize (join [10] ls)
  /\ tokenize (join [13] ls) = tokenize (join [10] ls).
Proof.
  intros Hls.
  assert (H13 : Forall (fun l => lacks 13 l = true) ls).
  { eapply Forall_impl; [exact Hls |]. intros l (H & _). exact H. }
  assert (H10 : Forall (fun l => lacks 10 l = true) ls).
  { eapply Forall_impl; [exact Hls |]. intros l (_ & H). exact H. }
  assert (HLF : replaceChar 13 [10] (replacePair 13 (fun c => c =? 10) [10] (join [10] ls))
                = join [10] ls).
  { assert (H : lacks 13 (join [10] ls) = true) by (apply lacks_join; [reflexivity | exact H13]).
    rewrite (replacePair_lacks 13 _ _ _ H). apply replaceChar_lacks. exact H. }
  assert (HCRLF : replaceChar 13 [10]
                    (replacePair 13 (fun c => c =? 10) [10] (join CRLF ls))
                  = join [10] ls).
  { rewrite unfold_CRLF by exact H13. apply replaceChar_lacks.
    apply lacks_join; [reflexivity | exact H13]. }
  assert (HCR : replaceChar 13 [10] (replacePair 13 (fun c => c =? 10) [10] (join [13] ls))
                = join [10] ls).
  { rewrite replacePair_no_second; [apply unfold_CR; exact H13 |].
    assert (H : lacks 10 (join [13] ls) = true) by (apply lacks_join; [reflexivity | exact H10]).
    exact H. }
  assert (E1 : unfold (join CRLF ls) = unfold (join [10] ls)).
  { unfold unfold. rewrite HCRLF, HLF. reflexivity. }
  assert (E2 : unfold (join [13] ls) = unfold (join [10] ls)).
  { unfold unfold. rewrite HCR, HLF. reflexivity. }
  unfold tokenize. rewrite E1, E2. auto.
Qed.

Lemma line_endings_are_equivalent_witness :
  tokenize (join [13] [js "BEGIN:VEVENT"; js "SUMMARY:a"; js " b"; js "END:VEVENT"])
  = tokenize (join [10] [js "BEGIN:VEVENT"; js "SUMMARY:a"; js " b"; js "END:VEVENT"]).
Proof.
  apply (line_endings_are_equivalent [js "BEGIN:VEVENT"; js "SUMMARY:a"; js " b"; js "END:VEVENT"]).
  repeat constructor.
Defined.

(** ** Content lines: writing and reading *)

Lemma pieces_rest (ps : Params) (V : jsstring) :
  exists sep R, concat (map paramPiece ps) ++ 58 :: V = sep :: R /\ (sep = 58 \/ sep = 59).
Proof.
  destruct ps as [| kv ps]; [exists 58, V; auto |].
  cbn [map concat]. unfold paramPiece at 1. cbn [app]. eexists _, _. split; [reflexivity | auto].
Qed.

Lemma needsQuote_false (s : jsstring) :
  needsQuote s = false -> forallb (fun c => negb (isParamValueEnd c)) s = true.
Proof.
  unfold needsQuote. induction s as [| c s IH]; [reflexivity |].
  cbn [existsb forallb]. intros H. apply orb_false_iff in H as [Hc Hs].
  rewrite (IH Hs), andb_true_r. unfold isParamValueEnd.
  apply orb_false_iff in Hc as [Hc H44]. apply orb_false_iff in Hc as [H59 H58].
  rewrite H44, H59, H58. reflexivity.
Qed.

Lemma paramValuesLoop_quoted fuel (s : jsstring) (sep : Z) (R : jsstring) :
  lacks 34 s = true -> (sep = 58 \/ sep = 59) ->
  paramValuesLoop (S fuel) [] (34 :: s ++ 34 :: sep :: R) = ([s], sep :: R).
Proof.
  intros Hs Hsep. cbn [paramValuesLoop]. unfold paramValue.
  rewrite startsWith_cons. change (34 =? 34) with true. cbv iota.
  unfold sliceFrom. cbn [drop]. rewrite !drop_0.
  rewrite takeWhile_app, dropWhile_app by (exact Hs || reflexivity).
  cbn [drop app]. rewrite !drop_0, startsWith_cons.
  replace (sep =? 44) with false by (destruct Hsep; subst; reflexivity).
  reflexivity.
Qed.

Lemma paramValuesLoop_bare fuel (s : jsstring) (sep : Z) (R : jsstring) :
  lacks 34 s = true -> needsQuote s = false -> streq (trim s) s = true ->
  (sep = 58 \/ sep = 59) ->
  paramValuesLoop (S fuel) [] (s ++ sep :: R) = ([s], sep :: R).
Proof.
  intros H34 Hq Ht Hsep.
  assert (Hplain : plainValue s = true).
  { unfold plainValue. rewrite Ht, andb_true_r.
    apply needsQuote_false in Hq. unfold lacks in H34.
    clear Ht. induction s as [| c s IH]; [reflexivity |].
    cbn [forallb] in *. apply andb_true_iff in Hq as [Hq1 Hq2].
    apply andb_true_iff in H34 as [H1 H2]. rewrite Hq1, H1, IH by assumption. reflexivity. }
  pose proof (paramValuesLoop_plain [s] (S fuel) [] sep R) as H.
  cbn [join app] in H. apply H; [discriminate | repeat constructor; exact Hplain | exact Hsep |].
  cbn [length]. lia.
Qed.

(** The parameter loop reads the parameters [serializeParams] wrote. *)
Lemma paramsLoop_pieces (V : jsstring) (params : Params) :
  forall acc fuel,
    (length params <= fuel)%nat ->
    Forall (fun kv => readableParam kv = true) params ->
    NoDup (map fst acc ++ map fst params) ->
    paramsLoop fuel acc (concat (map paramPiece params) ++ 58 :: V)
    = (acc ++ stringParams (normalizeParams params), 58 :: V).
Proof.
  induction params as [| [k v] ps IH]; intros acc fuel Hfuel Hall Hnd.
  - cbn [map concat app normalizeParams stringParams].
    rewrite paramsLoop_stop, app_nil_r. reflexivity.
  - destruct fuel as [| fuel]; [cbn [length] in Hfuel; lia |].
    apply Forall_cons in Hall as [Hkv Hall].
    unfold readableParam in Hkv. cbn [fst snd] in Hkv.
    apply andb_true_iff in Hkv as [Hkv Hval]. apply andb_true_iff in Hkv as [Hk _].
    unfold plainParamName in Hk. apply andb_true_iff in Hk as [Hk Hk0].
    apply andb_true_iff in Hk as [Hkc Hku]. apply streq_true in Hku.
    unfold readableValue in Hval. apply andb_true_iff in Hval as [H34 Hval].
    destruct (pieces_rest ps V) as (sep & R & ER & Hsep).
    cbn [map concat]. rewrite <- app_assoc, ER.
    unfold paramPiece. cbn [fst snd]. rewrite <- !app_assoc. cbn [app].
    rewrite paramsLoop_step. cbv zeta.
    rewrite takeWhile_app, dropWhile_app, Hku by (exact Hkc || reflexivity).
    rewrite startsWith_cons. change (61 =? 61) with true. cbv iota.
    unfold sliceFrom at 1. cbn [drop length]. rewrite drop_0.
    assert (Hvals : paramValuesLoop
                      (S (length ((if needsQuote (paramText v)
                                   then 34 :: paramText v ++ [34] else paramText v)
                                  ++ sep :: R))) []
                      ((if needsQuote (paramText v)
                        then 34 :: paramText v ++ [34] else paramText v) ++ sep :: R)
                    = ([paramText v], sep :: R)).
    { destruct (needsQuote (paramText v)) eqn:Eq.
      - cbn [app]. rewrite <- app_assoc. cbn [app].
        apply paramValuesLoop_quoted; assumption.
      - apply paramValuesLoop_bare; assumption. }
    rewrite Hvals.
    destruct k as [| k0 k']; [discriminate |].
    rewrite setParam_fresh.
    2: { cbn [map fst] in Hnd. apply NoDup_app in Hnd as (_ & Hnd & _).
         intros Hin. apply (Hnd _ Hin). left. }
    rewrite <- ER, IH.
    + rewrite <- app_assoc. reflexivity.
    + cbn [length] in Hfuel. lia.
    + exact Hall.
    + rewrite map_app. cbn [map fst]. rewrite <- app_assoc. exact Hnd.
Qed.

Lemma length_pieces (params : Params) :
  (length params <= length (concat (map paramPiece params)))%nat.
Proof.
  induction params as [| kv ps IH]; [reflexivity |].
  cbn [map concat length]. rewrite length_app. unfold paramPiece at 1.
  cbn [app length]. lia.
Qed.

Lemma parseContentLine_serialized (N : jsstring) (params : Params) (V : jsstring) :
  plainName N = true ->
  NoDup (map fst params) ->
  Forall (fun kv => readableParam kv = true) params ->
  parseContentLine (N ++ serializeParams params ++ [58] ++ V)
  = Some (ContentLine.mk N (stringParams (normalizeParams params)) V).
Proof.
  intros HN Hnd Hall.
  unfold plainName in HN. apply andb_true_iff in HN as [HN HN0].
  apply andb_true_iff in HN as [HNc HNu]. apply streq_true in HNu.
  rewrite serializeParams_pieces.
  change ([58] ++ V) with (58 :: V).
  destruct (pieces_rest params V) as (sep & R & ER & Hsep).
  rewrite parseContentLine_unfold by (destruct N; [discriminate HN0 | discriminate]).
  cbv zeta. rewrite ER.
  rewrite takeWhile_app, dropWhile_app, HNu
    by (exact HNc || (destruct Hsep; subst; reflexivity)).
  destruct N as [| n0 N']; [discriminate HN0 |].
  rewrite <- ER, paramsLoop_pieces.
  - cbn [app]. rewrite startsWith_cons. change (58 =? 58) with true. reflexivity.
  - rewrite length_app. pose proof (length_pieces params). lia.
  - exact Hall.
  - exact Hnd.
Qed.

(** X8.  A content line written as [toContentLine] writes it (the name,
    the parameters through [serializeParams], a colon, the value text) is
    read back by [parseContentLine]: the same name, the same value text
    whatever it contains, and every parameter with the text of its value,
    a list as its comma-joined string. *)
Theorem parseContentLine_reads_serialized_line (N : jsstring) (params : Params)
    (V : jsstring) :
  plainName N = true ->
  NoDup (map fst params) ->
  Forall (fun kv => readableParam kv = true) params ->
  parseContentLine (N ++ serializeParams params ++ [58] ++ V)
  = Some (ContentLine.mk N (stringParams (normalizeParams params)) V).
Proof. apply parseContentLine_serialized. Qed.

Lemma parseContentLine_reads_serialized_line_witness :
  parseContentLine
    (js "ATTENDEE"
     ++ serializeParams [(js "CN", PString (js "Doe, Jane")); (js "MEMBER", PList [js "a"; js "b"])]
     ++ [58] ++ js "mailto:jane@example.com")
  = Some (ContentLine.mk (js "ATTENDEE")
            [(js "CN", PString (js "Doe, Jane")); (js "MEMBER", PString (js "a,b"))]
            (js "mailto:jane@example.com")).
Proof.
  apply (parseContentLine_reads_serialized_line (js "ATTENDEE")
           [(js "CN", PString (js "Doe, Jane")); (js "MEMBER", PList [js "a"; js "b"])]).
  - reflexivity.
  - apply (bool_decide_unpack (NoDup [js "CN"; js "MEMBER"])). vm_compute. exact I.
  - repeat constructor.
Defined.

(** * Upper-casing *)

(** ** The tables *)

Lemma upperTable_entries :
  forallb (fun e => (128 <=? fst e) && negb (isWhiteSpace (fst e))
                    && negb (isHighSurrogate (fst e)) && negb (isLowSurrogate (fst e))
                    && match snd e with [] => false | _ :: _ => true end
                    && forallb upperOut (snd e))
          upperTable = true.
Proof. vm_compute. reflexivity. Qed.

Lemma upperTable_fixed :
  forallb (fun e => bool_decide (toUpperCase (snd e) = snd e)) upperTable = true.
Proof. vm_compute. reflexivity. Qed.

Lemma upperPairs_entries :
  forallb (fun e => isHighSurrogate (fst (snd e)) && isLowSurrogate (snd (snd e))
                    && bool_decide (upperPair (fst (snd e)) (snd (snd e)) = snd e))
          upperPairs = true.
Proof. vm_compute. reflexivity. Qed.

(** ** One code unit *)

Lemma upperUnit_cases (c : Z) :
  upperUnit c = [c]
  \/ (97 <= c <= 122 /\ upperUnit c = [c - 32])
  \/ (128 <= c /\ isWhiteSpace c = false /\ isHighSurrogate c = false
      /\ isLowSurrogate c = false /\ upperUnit c <> []
      /\ forallb upperOut (upperUnit c) = true
      /\ toUpperCase (upperUnit c) = upperUnit c).
Proof.
  unfold upperUnit. destruct (c <? 128) eqn:E128.
  - destruct ((97 <=? c) && (c <=? 122)) eqn:Eaz; [| auto].
    right; left. split; [lia | reflexivity].
  - destruct (find (fun e => fst e =? c) upperTable) as [e |] eqn:Ef; [| auto].
    right; right. apply find_some in Ef as [Hin Hc]. apply Z.eqb_eq in Hc. subst c.
    pose proof (proj1 (forallb_forall _ _) upperTable_entries e Hin) as H1.
    pose proof (proj1 (forallb_forall _ _) upperTable_fixed e Hin) as H2.
    apply bool_decide_eq_true_1 in H2.
    repeat (apply andb_true_iff in H1 as [H1 ?]).
    repeat match goal with H : negb _ = true |- _ => apply negb_true_iff in H end.
    split_and!; try assumption; try lia.
    destruct (snd e); [discriminate | discriminate].
Qed.

(** A unit that is not a high surrogate is written without one at the end,
    and one that is not a low surrogate without one at the start. *)
Lemma upperUnit_units (c x : Z) :
  In x (upperUnit c) -> x = c \/ (65 <= x <= 90 /\ 97 <= c <= 122) \/ upperOut x = true.
Proof.
  destruct (upperUnit_cases c) as [-> | [[Hc ->] | (_ & _ & _ & _ & _ & Hout & _)]].
  - intros [<- | []]. auto.
  - intros [<- | []]. right; left. lia.
  - intros Hin. right; right. exact (proj1 (forallb_forall _ _) Hout x Hin).
Qed.

Lemma upperUnit_nonempty (c : Z) : upperUnit c <> [].
Proof.
  destruct (upperUnit_cases c) as [-> | [[_ ->] | (_ & _ & _ & _ & H & _)]];
    [discriminate | discriminate | exact H].
Qed.

Lemma upperUnit_fixed (c : Z) : toUpperCase (upperUnit c) = upperUnit c.
Proof.
  destruct (upperUnit_cases c) as [E | [[Hc E] | (_ & _ & _ & _ & _ & _ & H)]];
    [| | exact H].
  - rewrite E. cbn [toUpperCase]. exact E.
  - rewrite E. cbn [toUpperCase]. unfold upperUnit.
    replace (c - 32 <? 128) with true by (symmetry; apply Z.ltb_lt; lia).
    replace ((97 <=? c - 32) && (c - 32 <=? 122)) with false; [reflexivity |].
    symmetry. apply andb_false_iff. left. apply Z.leb_gt. lia.
Qed.

Lemma upperOut_spec (x : Z) :
  upperOut x = true ->
  (65 <= x <= 90 \/ 128 <= x) /\ isHighSurrogate x = false /\ isLowSurrogate x = false
  /\ isWhiteSpace x = false.
Proof.
  unfold upperOut. intros H. repeat (apply andb_true_iff in H as [H ?]).
  repeat match goal with H : negb _ = true |- _ => apply negb_true_iff in H end.
  apply orb_true_iff in H. split_and!; try assumption.
  destruct H as [H | H]; [apply andb_true_iff in H; lia | lia].
Qed.

Lemma isWhiteSpace_not_surrogate (c : Z) :
  isWhiteSpace c = true -> isHighSurrogate c = false /\ isLowSurrogate c = false.
Proof.
  unfold isWhiteSpace, isHighSurrogate, isLowSurrogate. intros H.
  repeat (apply orb_true_iff in H as [H | H]);
    try (apply andb_true_iff in H as [H1 H2]);
    split; apply andb_false_iff; lia.
Qed.

Lemma isWhiteSpace_not_letter (c : Z) : isWhiteSpace c = true -> ~ 65 <= c <= 122.
Proof.
  unfold isWhiteSpace. intros H.
  repeat (apply orb_true_iff in H as [H | H]);
    try (apply andb_true_iff in H as [H1 H2]); lia.
Qed.

(** White space is left as it is, and nothing else becomes white space. *)
Lemma upperUnit_ws (c : Z) : isWhiteSpace c = true -> upperUnit c = [c].
Proof.
  intros H. destruct (upperUnit_cases c) as [E | [[Hc _] | (_ & Hws & _)]];
    [exact E | | congruence].
  apply isWhiteSpace_not_letter in H. lia.
Qed.

Lemma upperUnit_not_ws (c : Z) :
  isWhiteSpace c = false -> forallb (fun x => negb (isWhiteSpace x)) (upperUnit c) = true.
Proof.
  intros H. apply forallb_forall. intros x Hx. apply negb_true_iff.
  destruct (upperUnit_units c x Hx) as [-> | [[Hx' _] | Hout]]; [exact H | |].
  - destruct (isWhiteSpace x) eqn:E; [| reflexivity].
    apply isWhiteSpace_not_letter in E. lia.
  - apply upperOut_spec in Hout. tauto.
Qed.

(** Surrogates: only a lone one is written as a surrogate, itself. *)
Lemma upperUnit_high (c x : Z) :
  In x (upperUnit c) -> isHighSurrogate x = true -> x = c.
Proof.
  intros Hin Hx. destruct (upperUnit_units c x Hin) as [-> | [[Hx' _] | Hout]];
    [reflexivity | |].
  - unfold isHighSurrogate in Hx. apply andb_true_iff in Hx. lia.
  - apply upperOut_spec in Hout. destruct Hout as (_ & H & _). congruence.
Qed.

Lemma upperUnit_low (c x : Z) :
  In x (upperUnit c) -> isLowSurrogate x = true -> x = c.
Proof.
  intros Hin Hx. destruct (upperUnit_units c x Hin) as [-> | [[Hx' _] | Hout]];
    [reflexivity | |].
  - unfold isLowSurrogate in Hx. apply andb_true_iff in Hx. lia.
  - apply upperOut_spec in Hout. destruct Hout as (_ & _ & H & _). congruence.
Qed.

(** ** One surrogate pair *)

Lemma upperPair_cases (h l : Z) :
  isHighSurrogate h = true -> isLowSurrogate l = true ->
  isHighSurrogate (fst (upperPair h l)) = true
  /\ isLowSurrogate (snd (upperPair h l)) = true
  /\ upperPair (fst (upperPair h l)) (snd (upperPair h l)) = upperPair h l.
Proof.
  intros Hh Hl. destruct (upperPair h l) as [h' l'] eqn:E. cbn [fst snd].
  unfold upperPair in E.
  destruct (find (fun e => (fst (fst e) =? h) && (snd (fst e) =? l)) upperPairs)
    as [e |] eqn:Ef.
  - apply find_some in Ef as [Hin _].
    pose proof (proj1 (forallb_forall _ _) upperPairs_entries e Hin) as H.
    cbv beta in H. rewrite E in H. cbn [fst snd] in H.
    apply andb_true_iff in H as [H H3]. apply andb_true_iff in H as [H1 H2].
    apply bool_decide_eq_true_1 in H3. auto.
  - injection E as <- <-. split_and!; try assumption.
    unfold upperPair. rewrite Ef. reflexivity.
Qed.

(** ** Strings *)

(** The equations of [toUpperCase]. *)
Lemma toUpperCase_pair (c d : Z) (s : jsstring) :
  isHighSurrogate c && isLowSurrogate d = true ->
  toUpperCase (c :: d :: s)
  = fst (upperPair c d) :: snd (upperPair c d) :: toUpperCase s.
Proof. intros H. cbn [toUpperCase]. rewrite H. reflexivity. Qed.

Lemma toUpperCase_unit (c : Z) (s : jsstring) :
  match s with
  | d :: _ => isHighSurrogate c && isLowSurrogate d = false
  | [] => True
  end ->
  toUpperCase (c :: s) = upperUnit c ++ toUpperCase s.
Proof.
  destruct s as [| d s]; intros H.
  - cbn [toUpperCase]. rewrite app_nil_r. reflexivity.
  - cbn [toUpperCase]. rewrite H. reflexivity.
Qed.

(** An induction that follows the code points. *)
Lemma codePoints_ind (Q : jsstring -> Prop) :
  Q [] ->
  (forall c d s, isHighSurrogate c && isLowSurrogate d = true -> Q s -> Q (c :: d :: s)) ->
  (forall c s,
      match s with
      | d :: _ => isHighSurrogate c && isLowSurrogate d = false
      | [] => True
      end -> Q s -> Q (c :: s)) ->
  forall s, Q s.
Proof.
  intros Hnil Hpair Hunit s.
  assert (H : Q s /\ forall c, Q (c :: s)); [| exact (proj1 H)].
  induction s as [| d s [IH1 IH2]].
  - split; [exact Hnil |]. intros c. apply Hunit; [exact I | exact Hnil].
  - split; [apply IH2 |]. intros c.
    destruct (isHighSurrogate c && isLowSurrogate d) eqn:E.
    + apply Hpair; assumption.
    + apply Hunit; [exact E | apply IH2].
Qed.

(** The first unit: a low surrogate only when the string starts with
    one, white space only when the string starts with it. *)
Lemma toUpperCase_head (c : Z) (s : jsstring) :
  exists x r,
    toUpperCase (c :: s) = x :: r
    /\ (isLowSurrogate x = true -> isLowSurrogate c = true)
    /\ (isWhiteSpace c = false -> isWhiteSpace x = false).
Proof.
  assert (Hunit : exists x r,
             upperUnit c = x :: r
             /\ (isLowSurrogate x = true -> isLowSurrogate c = true)
             /\ (isWhiteSpace c = false -> isWhiteSpace x = false)).
  { pose proof (upperUnit_nonempty c) as Hne.
    pose proof (upperUnit_low c) as Hlow. pose proof (upperUnit_not_ws c) as Hws.
    destruct (upperUnit c) as [| x r]; [congruence |]. exists x, r. split_and!.
    - reflexivity.
    - intros Hx. rewrite <- (Hlow x); [exact Hx | left; reflexivity | exact Hx].
    - intros Hc. specialize (Hws Hc). cbn [forallb] in Hws.
      apply andb_true_iff in Hws as [Hws _]. apply negb_true_iff in Hws. exact Hws. }
  destruct s as [| d s].
  - cbn [toUpperCase]. exact Hunit.
  - cbn [toUpperCase]. destruct (isHighSurrogate c && isLowSurrogate d) eqn:E.
    + apply andb_true_iff in E as [Hc Hd].
      destruct (upperPair_cases c d Hc Hd) as (Hh & _ & _).
      eexists _, _. split_and!; [reflexivity | |].
      * intros Hx. unfold isHighSurrogate, isLowSurrogate in *.
        apply andb_true_iff in Hh. apply andb_true_iff in Hx. lia.
      * intros _. destruct (isWhiteSpace (fst (upperPair c d))) eqn:Ews; [| reflexivity].
        apply isWhiteSpace_not_surrogate in Ews. destruct Ews. congruence.
    + destruct Hunit as (x & r & -> & H1 & H2). exists x, (r ++ toUpperCase (d :: s)).
      split_and!; [reflexivity | exact H1 | exact H2].
Qed.

(** Upper-casing goes through a concatenation that does not cut a
    surrogate pair. *)
Lemma toUpperCase_app (s t : jsstring) :
  match last s, t with
  | Some c, d :: _ => isHighSurrogate c && isLowSurrogate d = false
  | _, _ => True
  end ->
  toUpperCase (s ++ t) = toUpperCase s ++ toUpperCase t.
Proof.
  induction s as [| c d s Hcd IH | c s Hc IH] using codePoints_ind; intros H.
  - reflexivity.
  - cbn [app]. rewrite !toUpperCase_pair by exact Hcd. cbn [app]. rewrite IH; [reflexivity |].
    destruct s as [| x s].
    + cbn [last]. destruct t; exact I.
    + exact H.
  - cbn [app]. destruct s as [| x s].
    + cbn [app]. cbn [last] in H. rewrite (toUpperCase_unit c t).
      * cbn [toUpperCase]. reflexivity.
      * destruct t; [exact I | exact H].
    + rewrite (toUpperCase_unit c ((x :: s) ++ t)) by exact Hc.
      rewrite (toUpperCase_unit c (x :: s)) by exact Hc.
      rewrite IH by exact H. rewrite app_assoc. reflexivity.
Qed.

(** Upper-casing twice is upper-casing once. *)
Lemma toUpperCase_idem (s : jsstring) : toUpperCase (toUpperCase s) = toUpperCase s.
Proof.
  induction s as [| c d s Hcd IH | c s Hc IH] using codePoints_ind.
  - reflexivity.
  - rewrite toUpperCase_pair by exact Hcd.
    apply andb_true_iff in Hcd as [Hh Hl].
    destruct (upperPair_cases c d Hh Hl) as (Hh' & Hl' & Hfix).
    rewrite toUpperCase_pair by (rewrite Hh', Hl'; reflexivity).
    rewrite Hfix, IH. reflexivity.
  - rewrite toUpperCase_unit by exact Hc.
    rewrite toUpperCase_app.
    + rewrite upperUnit_fixed, IH. reflexivity.
    + destruct (last (upperUnit c)) as [x |] eqn:El; [| exact I].
      destruct s as [| d s]; [exact I |].
      destruct (toUpperCase_head d s) as (y & r & -> & Hlow & _).
      destruct (isHighSurrogate x) eqn:Ex; [| reflexivity].
      destruct (isLowSurrogate y) eqn:Ey; [| apply andb_false_r].
      exfalso. apply last_Some_elem_of, list_elem_of_In in El.
      rewrite (upperUnit_high c x El Ex) in Ex.
      rewrite Ex, (Hlow eq_refl) in Hc. discriminate.
Qed.

(** ** Upper-casing and trimming *)

Lemma trimStart_toUpperCase (s : jsstring) :
  trimStart (toUpperCase s) = toUpperCase (trimStart s).
Proof.
  unfold trimStart. induction s as [| c s IH]; [reflexivity |].
  cbn [dropWhile]. destruct (isWhiteSpace c) eqn:Ec.
  - destruct (isWhiteSpace_not_surrogate c Ec) as [Hh _].
    rewrite toUpperCase_unit by (destruct s; [exact I | rewrite Hh; reflexivity]).
    rewrite (upperUnit_ws c Ec). cbn [app dropWhile]. rewrite Ec. exact IH.
  - destruct (toUpperCase_head c s) as (x & r & -> & _ & Hws).
    cbn [dropWhile]. rewrite (Hws Ec). reflexivity.
Qed.

(** The last unit is white space only when the string ends with it. *)
Lemma toUpperCase_last (s : jsstring) (c : Z) :
  last s = Some c ->
  exists x, last (toUpperCase s) = Some x
            /\ (isWhiteSpace c = false -> isWhiteSpace x = false).
Proof.
  induction s as [| a d s Hcd IH | a s Ha IH] using codePoints_ind.
  - discriminate.
  - rewrite toUpperCase_pair by exact Hcd.
    apply andb_true_iff in Hcd as [Hh Hl].
    destruct (upperPair_cases a d Hh Hl) as (_ & Hl' & _).
    destruct s as [| x s].
    + cbn [toUpperCase last]. intros _. eexists. split; [reflexivity |]. intros _.
      destruct (isWhiteSpace (snd (upperPair a d))) eqn:Ews; [| reflexivity].
      apply isWhiteSpace_not_surrogate in Ews. destruct Ews. congruence.
    + change (last (a :: d :: x :: s)) with (last (x :: s)). intros Hlast.
      destruct (toUpperCase_head x s) as (y & r & E & _).
      rewrite E in *. change (last (_ :: _ :: y :: r)) with (last (y :: r)).
      exact (IH Hlast).
  - rewrite toUpperCase_unit by exact Ha.
    destruct s as [| x s].
    + cbn [toUpperCase]. rewrite app_nil_r. cbn [last]. intros [= <-].
      pose proof (upperUnit_nonempty a) as Hne. pose proof (upperUnit_not_ws a) as Hws.
      destruct (last (upperUnit a)) as [y |] eqn:El.
      * exists y. split; [reflexivity |]. intros Hcws. specialize (Hws Hcws).
        apply last_Some_elem_of, list_elem_of_In in El.
        apply negb_true_iff. exact (proj1 (forallb_forall _ _) Hws y El).
      * apply last_None in El. congruence.
    + change (last (a :: x :: s)) with (last (x :: s)). intros Hlast.
      destruct (toUpperCase_head x s) as (y & r & E & _).
      rewrite E in *. rewrite last_app. destruct (IH Hlast) as (z & -> & Hz).
      exists z. split; [reflexivity | exact Hz].
Qed.

Lemma trimEnd_snoc_ws (s : jsstring) (c : Z) :
  isWhiteSpace c = true -> trimEnd (s ++ [c]) = trimEnd s.
Proof.
  intros H. unfold trimEnd. rewrite rev_app_distr. cbn [rev app dropWhile].
  rewrite H. reflexivity.
Qed.

Lemma trimEnd_last (s : jsstring) :
  match last s with
  | Some c => isWhiteSpace c = false
  | None => True
  end -> trimEnd s = s.
Proof.
  destruct s as [| c s _] using rev_ind; [reflexivity |].
  rewrite last_snoc. intros H. unfold trimEnd. rewrite rev_app_distr.
  cbn [rev app dropWhile]. rewrite H. cbn [rev]. rewrite rev_involutive. reflexivity.
Qed.

Lemma trimEnd_toUpperCase (s : jsstring) :
  trimEnd (toUpperCase s) = toUpperCase (trimEnd s).
Proof.
  induction s as [| c s IH] using rev_ind; [reflexivity |].
  destruct (isWhiteSpace c) eqn:Ec.
  - rewrite trimEnd_snoc_ws by exact Ec.
    destruct (isWhiteSpace_not_surrogate c Ec) as [_ Hl].
    rewrite toUpperCase_app.
    + cbn [toUpperCase]. rewrite (upperUnit_ws c Ec), trimEnd_snoc_ws by exact Ec. exact IH.
    + destruct (last s); [| exact I]. rewrite Hl. apply andb_false_r.
  - rewrite (trimEnd_last (s ++ [c])) by (rewrite last_snoc; exact Ec).
    apply trimEnd_last.
    destruct (toUpperCase_last (s ++ [c]) c (last_snoc _ _)) as (x & -> & Hx).
    exact (Hx Ec).
Qed.

(** Trimming and upper-casing can be done in either order. *)
Lemma trim_toUpperCase (s : jsstring) : trim (toUpperCase s) = toUpperCase (trim s).
Proof. unfold trim. rewrite trimStart_toUpperCase, trimEnd_toUpperCase. reflexivity. Qed.

(** ** What upper-casing cannot write *)

(** A property of code units that upper-casing keeps: it holds of the
    letters [A]-[Z] and of every unit outside ASCII. *)
Lemma forallb_toUpperCase (q : Z -> bool) (s : jsstring) :
  (forall x, 65 <= x <= 90 \/ 128 <= x -> q x = true) ->
  forallb q s = true -> forallb q (toUpperCase s) = true.
Proof.
  intros Hq. induction s as [| c d s Hcd IH | c s Hc IH] using codePoints_ind; intros Hs.
  - reflexivity.
  - rewrite toUpperCase_pair by exact Hcd.
    apply andb_true_iff in Hcd as [Hh Hl].
    destruct (upperPair_cases c d Hh Hl) as (Hh' & Hl' & _).
    cbn [forallb] in *. apply andb_true_iff in Hs as [_ Hs]. apply andb_true_iff in Hs as [_ Hs].
    rewrite IH by exact Hs. rewrite !Hq; [reflexivity | |].
    + unfold isLowSurrogate in Hl'. apply andb_true_iff in Hl'. lia.
    + unfold isHighSurrogate in Hh'. apply andb_true_iff in Hh'. lia.
  - rewrite toUpperCase_unit by exact Hc. cbn [forallb] in Hs.
    apply andb_true_iff in Hs as [Hqc Hs]. rewrite forallb_app, IH by exact Hs.
    rewrite andb_true_r. apply forallb_forall. intros x Hx.
    destruct (upperUnit_units c x Hx) as [-> | [[Hx' _] | Hout]]; [exact Hqc | |].
    + apply Hq. lia.
    + apply Hq. apply upperOut_spec in Hout. tauto.
Qed.

(** ** Names the tokenizer produces *)

Lemma letter_not_ws c : 65 <= c <= 122 -> isWhiteSpace c = false.
Proof.
  intros H. unfold isWhiteSpace.
  repeat match goal with
         | |- context [?a =? ?b] => rewrite (proj2 (Z.eqb_neq a b)) by lia
         end.
  replace (8192 <=? c) with false by (symmetry; apply Z.leb_gt; lia). reflexivity.
Qed.

Lemma dropWhile_idem (p : Z -> bool) (s : jsstring) :
  dropWhile p (dropWhile p s) = dropWhile p s.
Proof.
  induction s as [| c s IH]; [reflexivity |].
  cbn [dropWhile]. destruct (p c) eqn:E; [exact IH |]. cbn [dropWhile]. rewrite E. reflexivity.
Qed.

Lemma takeWhile_dropWhile (p : Z -> bool) (s : jsstring) :
  takeWhile p s ++ dropWhile p s = s.
Proof.
  induction s as [| c s IH]; [reflexivity |].
  cbn [takeWhile dropWhile]. destruct (p c); [cbn [app]; rewrite IH |]; reflexivity.
Qed.

(** [trimEnd] keeps a prefix, so it keeps the first character. *)
Lemma trimStart_trimEnd (t : jsstring) :
  trimStart t = t -> trimStart (trimEnd t) = trimEnd t.
Proof.
  unfold trimStart, trimEnd. intros Ht.
  pose proof (takeWhile_dropWhile isWhiteSpace (rev t)) as H.
  apply (f_equal (@rev Z)) in H. rewrite rev_app_distr, rev_involutive in H.
  destruct (rev (dropWhile isWhiteSpace (rev t))) as [| c r] eqn:E; [reflexivity |].
  rewrite <- H in Ht. cbn [app dropWhile] in Ht. cbn [dropWhile].
  destruct (isWhiteSpace c); [| reflexivity].
  exfalso. apply (f_equal length) in Ht. cbn [length] in Ht.
  assert (Hle : forall u : jsstring, (length (dropWhile isWhiteSpace u) <= length u)%nat).
  { induction u as [| x u IHu]; [reflexivity |]. cbn [dropWhile].
    destruct (isWhiteSpace x); cbn [length]; lia. }
  specialize (Hle (r ++ rev (takeWhile isWhiteSpace (rev t)))). lia.
Qed.

Lemma trim_idem (s : jsstring) : trim (trim s) = trim s.
Proof.
  unfold trim. rewrite trimStart_trimEnd by apply dropWhile_idem.
  unfold trimEnd. rewrite rev_involutive, dropWhile_idem. reflexivity.
Qed.

Lemma forallb_takeWhile (p : Z -> bool) (s : jsstring) : forallb p (takeWhile p s) = true.
Proof.
  induction s as [| c s IH]; [reflexivity |].
  cbn [takeWhile]. destruct (p c) eqn:E; [| reflexivity]. cbn [forallb]. rewrite E, IH.
  reflexivity.
Qed.

Lemma forallb_dropWhile (q p : Z -> bool) (s : jsstring) :
  forallb q s = true -> forallb q (dropWhile p s) = true.
Proof.
  induction s as [| c s IH]; [reflexivity |].
  cbn [dropWhile]. destruct (p c); [| auto].
  cbn [forallb]. intros H. apply andb_true_iff in H as [_ H]. auto.
Qed.

Lemma forallb_rev (q : Z -> bool) (s : jsstring) :
  forallb q s = true -> forallb q (rev s) = true.
Proof.
  rewrite !forallb_forall. intros H x Hx. apply H. apply in_rev. exact Hx.
Qed.

Lemma forallb_trim (q : Z -> bool) (s : jsstring) :
  forallb q s = true -> forallb q (trim s) = true.
Proof.
  intros H. unfold trim, trimEnd, trimStart.
  apply forallb_rev, forallb_dropWhile, forallb_rev, forallb_dropWhile. exact H.
Qed.

Lemma isNameEnd_letters x : 65 <= x <= 90 \/ 128 <= x -> negb (isNameEnd x) = true.
Proof.
  intros H. unfold isNameEnd.
  repeat match goal with
         | |- context [?a =? ?b] => rewrite (proj2 (Z.eqb_neq a b)) by lia
         end.
  reflexivity.
Qed.

Lemma isParamNameEnd_letters x :
  65 <= x <= 90 \/ 128 <= x -> negb (isParamNameEnd x) = true.
Proof.
  intros H. unfold isParamNameEnd.
  repeat match goal with
         | |- context [?a =? ?b] => rewrite (proj2 (Z.eqb_neq a b)) by lia
         end.
  reflexivity.
Qed.

(** The name read up to a separator, trimmed and upper-cased, is left
    alone by trimming and upper-casing, and holds no separator. *)
Lemma read_name_normal (isEnd : Z -> bool) (s : jsstring) :
  (forall x, 65 <= x <= 90 \/ 128 <= x -> negb (isEnd x) = true) ->
  let name := toUpperCase (trim (takeWhile (fun c => negb (isEnd c)) s)) in
  forallb (fun c => negb (isEnd c)) name = true /\ toUpperCase (trim name) = name.
Proof.
  intros Hend name. split.
  - apply (forallb_toUpperCase (fun c => negb (isEnd c))); [exact Hend |].
    apply forallb_trim, (forallb_takeWhile (fun c => negb (isEnd c))).
  - unfold name. rewrite trim_toUpperCase, trim_idem, toUpperCase_idem. reflexivity.
Qed.

Lemma setParam_names (Q : jsstring -> Prop) (params : Params) key v :
  Forall (fun kv => Q kv.1) params -> Q key ->
  Forall (fun kv => Q kv.1) (setParam params key v).
Proof.
  intros Hps Hk. induction Hps as [| [k v0] ps Hkv Hps IH]; cbn [setParam].
  - repeat constructor. exact Hk.
  - destruct (streq k key); constructor; auto.
Qed.

Lemma paramsLoop_names fuel :
  forall params rest,
    Forall (fun kv => plainParamName kv.1 = true) params ->
    Forall (fun kv => plainParamName kv.1 = true) (paramsLoop fuel params rest).1.
Proof.
  induction fuel as [| fuel IH]; intros params rest Hps; [exact Hps |].
  rewrite paramsLoop_S.
  destruct (startsWith rest [59]); [| exact Hps].
  cbv zeta.
  destruct (if startsWith _ [61] then _ else _) as [values r2].
  apply IH.
  pose proof (read_name_normal isParamNameEnd (sliceFrom rest 1) isParamNameEnd_letters)
    as [H1 H2]. cbv zeta in H1, H2.
  destruct (toUpperCase _) as [| c name] eqn:E; [exact Hps |].
  apply (setParam_names (fun k => plainParamName k = true)); [exact Hps |].
  unfold plainParamName. rewrite H1, H2, streq_refl. reflexivity.
Qed.

Lemma parseContentLine_names (line : jsstring) (cl : ContentLine.t) :
  parseContentLine line = Some cl ->
  plainName (ContentLine.name cl) = true
  /\ Forall (fun kv => plainParamName kv.1 = true) (ContentLine.params cl).
Proof.
  destruct line as [| c line]; [discriminate |].
  unfold parseContentLine.
  pose proof (read_name_normal isNameEnd (c :: line) isNameEnd_letters) as [H1 H2].
  cbv zeta in H1, H2.
  destruct (toUpperCase _) as [| n name] eqn:E; [discriminate |].
  pose proof (paramsLoop_names
                (length (dropWhile (fun c => negb (isNameEnd c)) (c :: line))) []
                (dropWhile (fun c => negb (isNameEnd c)) (c :: line))
                (Forall_nil_2 _)) as H.
  destruct (paramsLoop _ _ _) as [params rest'].
  intros [= <-]. cbn [ContentLine.name ContentLine.params]. split; [| exact H].
  unfold plainName. rewrite H1, H2, streq_refl. reflexivity.
Qed.

(** X9.  Every token of [tokenize] has a name that is not empty, holds
    no [:] and no [;], and is already trimmed and upper-cased; and so has
    every one of its parameters (with [=] excluded as well). *)
Theorem tokenize_names_are_normalized (src : jsstring) :
  Forall (fun tok =>
            plainName (ContentLine.name tok) = true
            /\ Forall (fun kv => plainParamName kv.1 = true) (ContentLine.params tok))
         (tokenize src).
Proof.
  unfold tokenize. rewrite tokenize_lines. cbn [app].
  induction (split 10 (unfold src)) as [| l ls IH]; [constructor |].
  cbn [flat_map]. apply Forall_app. split; [| exact IH].
  unfold lineTokens. destruct (trim l); [constructor |].
  destruct (parseContentLine l) as [cl |] eqn:E; [| constructor].
  repeat constructor; eapply parseContentLine_names; exact E.
Qed.

(** ** Component storage: when the index and the list agree *)

Lemma indexAgrees_new (ty : jsstring) : indexAgrees (newComponent ty).
Proof. intros key. reflexivity. Qed.

Lemma indexAgrees_addProperty (c : Component) (p : Property.t) :
  indexAgrees c -> indexAgrees (addProperty c p).
Proof.
  intros H key. unfold addProperty. cbn [_index _props].
  rewrite filter_app. specialize (H key).
  destruct (decide (Property.name p = key)) as [E | E].
  - rewrite filter_cons_True, filter_nil by exact E. rewrite <- H, <- E.
    destruct (_index c !! Property.name p) as [existing |];
      rewrite lookup_insert_eq; reflexivity.
  - rewrite filter_cons_False, filter_nil, app_nil_r by exact E. rewrite <- H.
    destruct (_index c !! Property.name p) as [existing |];
      rewrite lookup_insert_ne by exact E; reflexivity.
Qed.

Lemma filter_name_others (key key' : jsstring) (props : list Property.t) :
  key' <> key ->
  filter (fun p => Property.name p = key') (filter (fun p => Property.name p ≠ key) props)
  = filter (fun p => Property.name p = key') props.
Proof.
  intros Hne. induction props as [| p props IH]; [reflexivity |].
  destruct (decide (Property.name p = key)) as [E | E].
  - rewrite (filter_cons_False (fun p => Property.name p ≠ key)) by (intros H; exact (H E)).
    rewrite (filter_cons_False (fun p => Property.name p = key')) by congruence. exact IH.
  - rewrite (filter_cons_True (fun p => Property.name p ≠ key)) by exact E.
    destruct (decide (Property.name p = key')) as [E' | E'].
    + rewrite !(filter_cons_True (fun p => Property.name p = key')) by exact E'.
      rewrite IH. reflexivity.
    + rewrite !(filter_cons_False (fun p => Property.name p = key')) by exact E'. exact IH.
Qed.

Lemma filter_name_removed (key : jsstring) (props : list Property.t) :
  filter (fun p => Property.name p = key) (filter (fun p => Property.name p ≠ key) props) = [].
Proof.
  induction props as [| p props IH]; [reflexivity |].
  destruct (decide (Property.name p = key)) as [E | E].
  - rewrite (filter_cons_False (fun p => Property.name p ≠ key)) by (intros H; exact (H E)).
    exact IH.
  - rewrite (filter_cons_True (fun p => Property.name p ≠ key)) by exact E.
    rewrite filter_cons_False by exact E. exact IH.
Qed.

Lemma indexAgrees_removeProperty (c : Component) (name : jsstring) :
  indexAgrees c -> indexAgrees (removeProperty c name).
Proof.
  intros H key. unfold removeProperty. cbn [_index _props].
  destruct (decide (key = toUpperCase name)) as [-> | E].
  - rewrite lookup_delete_eq, filter_name_removed. reflexivity.
  - rewrite lookup_delete_ne by congruence. rewrite filter_name_others by exact E. apply H.
Qed.

(** [findIndex] finds the first property of the name. *)
Lemma findIndex_spec (key : jsstring) (props : list Property.t) :
  match findIndex key props with
  | Some i =>
      exists l1 p l2,
        props = l1 ++ p :: l2 /\ length l1 = i /\ Property.name p = key
        /\ Forall (fun q => Property.name q <> key) l1
  | None => Forall (fun q => Property.name q <> key) props
  end.
Proof.
  induction props as [| p props IH]; [constructor |].
  cbn [findIndex]. unfold streq. destruct (decide (Property.name p = key)) as [E | E].
  - rewrite bool_decide_eq_true_2 by exact E.
    exists [], p, props. auto.
  - rewrite bool_decide_eq_false_2 by exact E.
    destruct (findIndex key props) as [i |]; cbn [fmap option_fmap option_map].
    + destruct IH as (l1 & q & l2 & -> & Hlen & Hq & Hl1).
      exists (p :: l1), q, l2. cbn [length]. split_and!; auto.
    + constructor; assumption.
Qed.

Lemma filter_none (key : jsstring) (props : list Property.t) :
  Forall (fun q => Property.name q <> key) props ->
  filter (fun p => Property.name p = key) props = [].
Proof.
  induction 1 as [| p props Hp _ IH]; [reflexivity |].
  rewrite filter_cons_False by exact Hp. exact IH.
Qed.

(** What [setProperty] does to the ordered list: the first property of the
    name is replaced where it stands, or the new one is appended. *)
Lemma setProperty_props (c : Component) (name : jsstring) (value : option PropValue)
    (params : Params) :
  let key := toUpperCase name in
  let new := match value with
             | Some v => [newProperty name v params []]
             | None => []
             end in
  (exists l1 p l2,
      _props c = l1 ++ p :: l2 /\ Property.name p = key
      /\ Forall (fun q => Property.name q <> key) l1
      /\ _props (setProperty c name value params) = l1 ++ new ++ l2)
  \/ (Forall (fun q => Property.name q <> key) (_props c)
      /\ _props (setProperty c name value params) = _props c ++ new).
Proof.
  intros key new. unfold setProperty. fold key.
  assert (Hnew : newProperty key = newProperty name).
  { unfold newProperty, key. rewrite toUpperCase_idem. reflexivity. }
  pose proof (findIndex_spec key (_props c)) as Hspec.
  destruct (findIndex key (_props c)) as [i |].
  - left. destruct Hspec as (l1 & p & l2 & E & Hlen & Hp & Hl1).
    exists l1, p, l2. split_and!; auto.
    assert (Hdel : delete i (_props c) = l1 ++ l2).
    { rewrite E, <- Hlen. clear. induction l1 as [| x l1 IH]; [reflexivity |].
      cbn [app length]. cbn. f_equal. exact IH. }
    rewrite Hdel. destruct value as [v |]; cbn [_props]; [| subst new; reflexivity].
    subst new. rewrite Hnew. unfold spliceIn.
    assert (Hat : (if (i <? length (l1 ++ l2))%nat then i else length (l1 ++ l2))
                  = length l1).
    { rewrite length_app. destruct (i <? length l1 + length l2)%nat eqn:Elt; [lia |].
      apply Nat.ltb_ge in Elt. lia. }
    rewrite Hat, take_app_length, drop_app_length. reflexivity.
  - right. split; [exact Hspec |].
    destruct value as [v |]; cbn [_props]; subst new; [| rewrite app_nil_r; reflexivity].
    rewrite Hnew. unfold spliceIn. rewrite take_ge, drop_ge by lia. reflexivity.
Qed.

Lemma filter_at_most_one (key : jsstring) (l1 l2 : list Property.t) (p : Property.t) :
  Property.name p = key ->
  (length (filter (fun q => Property.name q = key) (l1 ++ p :: l2)) <= 1)%nat ->
  Forall (fun q => Property.name q <> key) l1 /\ Forall (fun q => Property.name q <> key) l2.
Proof.
  intros Hp. rewrite filter_app, filter_cons_True, length_app by exact Hp. cbn [length].
  intros Hlen.
  assert (H : forall l : list Property.t,
             length (filter (fun q => Property.name q = key) l) = 0%nat ->
             Forall (fun q => Property.name q <> key) l).
  { induction l as [| q l IH]; [constructor |].
    destruct (decide (Property.name q = key)) as [E | E].
    - rewrite filter_cons_True by exact E. discriminate.
    - rewrite filter_cons_False by exact E. constructor; auto. }
  split; apply H; lia.
Qed.

Lemma indexAgrees_setProperty (c : Component) (name : jsstring) (value : option PropValue)
    (params : Params) :
  indexAgrees c ->
  (length (filter (fun p => Property.name p = toUpperCase name) (_props c)) <= 1)%nat ->
  indexAgrees (setProperty c name value params).
Proof.
  intros H Hone key.
  pose proof (setProperty_props c name value params) as Hprops. cbv zeta in Hprops.
  assert (Hidx : _index (setProperty c name value params)
                 = match value with
                   | Some v => <[toUpperCase name := [newProperty name v params []]]>
                                 (delete (toUpperCase name) (_index c))
                   | None => delete (toUpperCase name) (_index c)
                   end).
  { unfold setProperty. destruct value; cbn [_index]; [| reflexivity].
    unfold newProperty. rewrite toUpperCase_idem. reflexivity. }
  rewrite Hidx.
  assert (Hnewname : forall v, Property.name (newProperty name v params []) = toUpperCase name)
    by reflexivity.
  destruct Hprops as [(l1 & p & l2 & E & Hp & Hl1 & ->) | (Hnone & ->)].
  - rewrite E in Hone. destruct (filter_at_most_one _ l1 l2 p Hp Hone) as [_ Hl2].
    specialize (H key). rewrite E in H. rewrite !filter_app in *.
    destruct (decide (key = toUpperCase name)) as [-> | Hk].
    + rewrite (filter_none _ l1 Hl1), (filter_none _ l2 Hl2), app_nil_r. cbn [app].
      destruct value as [v |].
      * rewrite lookup_insert_eq, filter_cons_True, filter_nil by apply Hnewname. reflexivity.
      * rewrite lookup_delete_eq. reflexivity.
    + rewrite filter_cons_False in H by congruence.
      assert (Hnew : filter (fun q => Property.name q = key)
                       match value with
                       | Some v => [newProperty name v params []]
                       | None => []
                       end = []).
      { destruct value; [| reflexivity].
        rewrite filter_cons_False by (rewrite Hnewname; congruence). reflexivity. }
      rewrite Hnew. cbn [app]. rewrite <- H.
      destruct value; rewrite ?lookup_insert_ne by congruence;
        rewrite lookup_delete_ne by congruence; reflexivity.
  - specialize (H key). rewrite filter_app.
    destruct (decide (key = toUpperCase name)) as [-> | Hk].
    + rewrite (filter_none _ _ Hnone). cbn [app].
      destruct value as [v |].
      * rewrite lookup_insert_eq, filter_cons_True, filter_nil by apply Hnewname. reflexivity.
      * rewrite lookup_delete_eq. reflexivity.
    + assert (Hnew : filter (fun q => Property.name q = key)
                       match value with
                       | Some v => [newProperty name v params []]
                       | None => []
                       end = []).
      { destruct value; [| reflexivity].
        rewrite filter_cons_False by (rewrite Hnewname; congruence). reflexivity. }
      rewrite Hnew, app_nil_r, <- H.
      destruct value; rewrite ?lookup_insert_ne by congruence;
        rewrite lookup_delete_ne by congruence; reflexivity.
Qed.

(** X10.  If the name index of a component agrees with its ordered list,
    then [getProperties] returns the properties of the name in list order,
    and the agreement is kept by [addProperty], [appendProperty],
    [removeProperty] and [addComponent], and by [setProperty] when the list
    holds at most one property of the name that is set. *)
Theorem index_agreement_is_kept (c : Component) :
  indexAgrees c ->
  (forall name,
      getProperties c name
      = filter (fun p => Property.name p = toUpperCase name) (_props c))
  /\ (forall p, indexAgrees (addProperty c p))
  /\ (forall name v params, indexAgrees (appendProperty c name v params))
  /\ (forall name, indexAgrees (removeProperty c name))
  /\ (forall comp, indexAgrees (addComponent c comp))
  /\ (forall name value params,
        (length (filter (fun p => Property.name p = toUpperCase name) (_props c)) <= 1)%nat ->
        indexAgrees (setProperty c name value params)).
Proof.
  intros H. split_and!.
  - intros name. apply H.
  - intros p. apply indexAgrees_addProperty. exact H.
  - intros name v params. apply indexAgrees_addProperty. exact H.
  - intros name. apply indexAgrees_removeProperty. exact H.
  - intros comp key. apply H.
  - intros name value params Hone. apply indexAgrees_setProperty; assumption.
Qed.

Lemma index_agreement_is_kept_witness :
  indexAgrees
    (setProperty (addProperty (newComponent (js "VEVENT")) (attendee "mailto:a@x"))
       (js "attendee") (Some (Single (VString (js "mailto:c@x")))) []).
Proof.
  assert (H : indexAgrees (addProperty (newComponent (js "VEVENT")) (attendee "mailto:a@x"))).
  { destruct (index_agreement_is_kept (newComponent (js "VEVENT"))) as (_ & Hadd & _).
    - intros key. reflexivity.
    - exact (Hadd (attendee "mailto:a@x")). }
  destruct (index_agreement_is_kept _ H) as (_ & _ & _ & _ & _ & Hset).
  apply Hset. vm_compute. lia.
Defined.

(** X11.  [setProperty] replaces the first property of the name where it
    stands in the ordered list, or appends the new property when there is
    none; with an absent value it removes that first property and adds
    nothing.  Whatever the list held, [getProperties] of the name then
    returns the new property alone, or nothing. *)
Theorem setProperty_replaces_in_place (c : Component) (name : jsstring)
    (value : option PropValue) (params : Params) :
  let key := toUpperCase name in
  let new := match value with
             | Some v => [newProperty name v params []]
             | None => []
             end in
  ((exists l1 p l2,
       _props c = l1 ++ p :: l2 /\ Property.name p = key
       /\ Forall (fun q => Property.name q <> key) l1
       /\ _props (setProperty c name value params) = l1 ++ new ++ l2)
   \/ (Forall (fun q => Property.name q <> key) (_props c)
       /\ _props (setProperty c name value params) = _props c ++ new))
  /\ getProperties (setProperty c name value params) name = new
  /\ components (setProperty c name value params) = components c
  /\ type (setProperty c name value params) = type c.
Proof.
  intros key new. split; [apply setProperty_props |].
  unfold getProperties, setProperty. fold key.
  destruct value as [v |]; cbn [_index components type].
  - rewrite lookup_insert_eq. subst new. unfold newProperty, key.
    rewrite toUpperCase_idem. auto.
  - rewrite lookup_delete_eq. auto.
Qed.

(** ** Parsed documents: the index agrees everywhere *)

Lemma indexAgreesDeep_addProperty (c : Component) (p : Property.t) :
  indexAgreesDeep c -> indexAgreesDeep (addProperty c p).
Proof.
  intros [c' H Hsub]. constructor; [apply indexAgrees_addProperty; exact H | exact Hsub].
Qed.

Lemma indexAgreesDeep_addComponents (comps : list Component) :
  forall c,
    indexAgreesDeep c -> Forall indexAgreesDeep comps ->
    indexAgreesDeep (fold_left addComponent comps c).
Proof.
  induction comps as [| x comps IH]; intros c Hc Hall; [exact Hc |].
  apply Forall_cons in Hall as [Hx Hall]. cbn [fold_left]. apply IH; [| exact Hall].
  destruct Hc as [c H Hsub]. constructor; [exact H |].
  cbn [addComponent components]. apply Forall_app. split; [exact Hsub |].
  constructor; [exact Hx | constructor].
Qed.

Lemma addRawProps_agrees (P : Platform) (props : list RawProp.t) :
  forall c c', addRawProps P c props = Ok c' -> indexAgreesDeep c -> indexAgreesDeep c'.
Proof.
  unfold addRawProps.
  induction props as [| prop props IH]; intros c c' H Hc; simpl in H.
  - congruence.
  - destruct (parseProperty P (RawProp.name prop) (RawProp.value prop)
                (stringParams (RawProp.params prop))) as [p | m] eqn:E; simpl in H.
    + apply (IH _ _ H). apply indexAgreesDeep_addProperty. exact Hc.
    + exfalso. clear -H. induction props as [| x props IH]; simpl in H; [discriminate | auto].
Qed.

Lemma fromRaw_agrees (P : Platform) ty props subs c :
  fromRaw P ty props subs = Ok c -> Forall indexAgreesDeep subs -> indexAgreesDeep c.
Proof.
  unfold fromRaw. intros H Hsubs.
  destruct (addRawProps P (newComponent ty) props) as [c0 | m] eqn:E; simpl in H; [| discriminate].
  injection H as <-. apply indexAgreesDeep_addComponents; [| exact Hsubs].
  eapply addRawProps_agrees; [exact E |].
  constructor; [apply indexAgrees_new | constructor].
Qed.

Lemma buildComponent_agrees (P : Platform) (depth : nat) :
  forall node c, buildComponent P depth node = Ok c -> indexAgreesDeep c.
Proof.
  induction depth as [| depth IH]; intros [ty props children] c; [discriminate |].
  cbn [buildComponent RawNode.type RawNode.props RawNode.children].
  destruct (mapM (buildComponent P depth) children) as [subs | m] eqn:E; cbn [bind].
  - assert (Hsubs : Forall indexAgreesDeep subs).
    { eapply mapM_Forall; [| exact E]. apply Forall_forall. intros x _. apply IH. }
    repeat match goal with
           | |- context [if ?b then _ else _] => destruct b
           end;
      (intros H; eapply fromRaw_agrees; [exact H | first [exact Hsubs | constructor]]).
  - repeat match goal with
           | |- context [if ?b then _ else _] => destruct b
           end;
      try discriminate;
      try (intros H; eapply fromRaw_agrees; [exact H | constructor]).
    destruct (addRawProps P (newComponent ty) props); cbn [bind]; discriminate.
Qed.

Lemma parse_agrees (P : Platform) (src : jsstring) (cal : Component) :
  parse P src = Ok cal -> indexAgreesDeep cal.
Proof.
  unfold parse. destruct (find _ (buildTree src)) as [calNode |].
  - destruct (callDepth P) as [| depth]; [discriminate |]. cbn [buildCalendar].
    destruct (mapM (buildComponent P depth) (RawNode.children calNode)) as [subs | m] eqn:E;
      cbn [bind]; [| discriminate].
    intros H. eapply fromRaw_agrees; [exact H |].
    eapply mapM_Forall; [| exact E].
    apply Forall_forall. intros x _. apply buildComponent_agrees.
  - destruct (mapM (buildComponent P (callDepth P)) (buildTree src)) as [comps | m] eqn:E;
      cbn [bind]; [| discriminate].
    intros [= <-]. apply indexAgreesDeep_addComponents.
    + constructor; [apply indexAgrees_new | constructor].
    + eapply mapM_Forall; [| exact E].
      apply Forall_forall. intros x _. apply buildComponent_agrees.
Qed.

(** X12.  In a calendar that [parse] returns, and in every component
    below it, the name index agrees with the ordered property list:
    [getProperties] returns exactly the properties of the name that the
    ordered list holds, in the same order.  And [parse] does return one,
    for every text whose components nest no deeper than the call stack
    carries. *)
Theorem parse_index_agrees (P : Platform) (src : jsstring) :
  (forall cal, parse P src = Ok cal -> indexAgreesDeep cal)
  /\ (withinCallDepth P src -> exists cal, parse P src = Ok cal /\ indexAgreesDeep cal).
Proof.
  split.
  - intros cal. apply parse_agrees.
  - intros Hdepth. destruct (parse_ok P src Hdepth) as (cal & Hparse & _).
    exists cal. split; [exact Hparse | exact (parse_agrees P src cal Hparse)].
Qed.

Lemma parse_index_agrees_witness :
  exists cal, parse refPlatform memberDocument = Ok cal /\ indexAgreesDeep cal.
Proof.
  apply (parse_index_agrees refPlatform memberDocument).
  apply (bool_decide_unpack
           (Forall (fun n => (nesting n <= callDepth refPlatform)%nat)
              (buildTree memberDocument))).
  vm_compute. exact I.
Defined.

(** ** Tree assembly *)

Lemma normalizeParams_stringParams (ps : list (jsstring * jsstring)) :
  normalizeParams (stringParams ps) = ps.
Proof.
  unfold normalizeParams, stringParams.
  induction ps as [| [k v] ps IH]; [reflexivity |].
  cbn [map]. rewrite IH. reflexivity.
Qed.

Lemma buildTreeStep_begin (ty : jsstring) (cur : RawNode.t) (below : list RawNode.t) :
  buildTreeStep (cur :: below) (beginToken ty)
  = RawNode.mk (trim (toUpperCase ty)) [] [] :: cur :: below.
Proof. reflexivity. Qed.

Lemma buildTreeStep_end (ty : jsstring) (top parent : RawNode.t) (below : list RawNode.t) :
  buildTreeStep (top :: parent :: below) (endToken ty) = pushChild top parent :: below.
Proof. reflexivity. Qed.

Lemma buildTreeStep_end_root (ty : jsstring) (root : RawNode.t) :
  buildTreeStep [root] (endToken ty) = [root].
Proof. reflexivity. Qed.

Lemma buildTreeStep_prop (p : RawProp.t) (cur : RawNode.t) (below : list RawNode.t) :
  negb (streq (RawProp.name p) (js "BEGIN")) && negb (streq (RawProp.name p) (js "END")) = true ->
  buildTreeStep (cur :: below) (propToken p) = pushProp cur p :: below.
Proof.
  intros H. apply andb_true_iff in H as [Hb He].
  apply negb_true_iff in Hb, He.
  unfold buildTreeStep, propToken. cbn [ContentLine.name ContentLine.params ContentLine.value].
  rewrite Hb, He, normalizeParams_stringParams. destruct p; reflexivity.
Qed.

Lemma steps_props (props : list RawProp.t) :
  forall ty ps cs below rest,
    forallb (fun p => negb (streq (RawProp.name p) (js "BEGIN"))
                      && negb (streq (RawProp.name p) (js "END"))) props = true ->
    fold_left buildTreeStep (map propToken props ++ rest) (RawNode.mk ty ps cs :: below)
    = fold_left buildTreeStep rest (RawNode.mk ty (ps ++ props) cs :: below).
Proof.
  induction props as [| p props IH]; intros ty ps cs below rest H.
  - cbn [map app]. rewrite app_nil_r. reflexivity.
  - cbn [forallb] in H. apply andb_true_iff in H as [Hp H].
    cbn [map app fold_left]. rewrite buildTreeStep_prop by exact Hp.
    unfold pushProp. cbn [RawNode.type RawNode.props RawNode.children].
    rewrite IH by exact H. rewrite <- app_assoc. reflexivity.
Qed.

Lemma wellNamed_unfold ty props children :
  wellNamed (RawNode.mk ty props children)
  = streq (trim (toUpperCase ty)) ty
    && forallb (fun p => negb (streq (RawProp.name p) (js "BEGIN"))
                         && negb (streq (RawProp.name p) (js "END"))) props
    && forallb wellNamed children.
Proof. reflexivity. Qed.

Lemma openTokens_unfold ty props children :
  openTokens (RawNode.mk ty props children)
  = beginToken ty :: map propToken props
    ++ flat_map (fun child => openTokens child ++ [endToken (RawNode.type child)]) children.
Proof. reflexivity. Qed.

(** The tokens of a tree without its [END] leave the tree on top of the
    stack. *)
Lemma steps_open (n : RawNode.t) :
  wellNamed n = true ->
  forall cur below rest,
    fold_left buildTreeStep (openTokens n ++ rest) (cur :: below)
    = fold_left buildTreeStep rest (n :: cur :: below).
Proof.
  induction n as [ty props children IH] using RawNode_tree_ind.
  rewrite wellNamed_unfold. intros H cur below rest.
  apply andb_true_iff in H as [H Hch]. apply andb_true_iff in H as [Hty Hprops].
  apply streq_true in Hty.
  rewrite openTokens_unfold. cbn [app fold_left].
  rewrite buildTreeStep_begin, Hty, <- app_assoc, steps_props by exact Hprops.
  cbn [app].
  assert (Hkids : forall done,
             fold_left buildTreeStep
               (flat_map (fun child => openTokens child ++ [endToken (RawNode.type child)])
                  children ++ rest)
               (RawNode.mk ty props done :: cur :: below)
             = fold_left buildTreeStep rest
                 (RawNode.mk ty props (done ++ children) :: cur :: below)).
  { clear Hprops. induction children as [| child children IHc]; intros done.
    - cbn [flat_map app]. rewrite app_nil_r. reflexivity.
    - apply Forall_cons in IH as [IHchild IH].
      cbn [forallb] in Hch. apply andb_true_iff in Hch as [Hchild Hch].
      cbn [flat_map]. rewrite <- !app_assoc.
      rewrite (IHchild Hchild). cbn [app fold_left].
      rewrite buildTreeStep_end. unfold pushChild.
      cbn [RawNode.type RawNode.props RawNode.children].
      rewrite (IHc IH Hch). rewrite <- app_assoc. reflexivity. }
  apply (Hkids []).
Qed.

Lemma steps_node (n : RawNode.t) :
  wellNamed n = true ->
  forall cur below rest,
    fold_left buildTreeStep (nodeTokens n ++ rest) (cur :: below)
    = fold_left buildTreeStep rest (pushChild n cur :: below).
Proof.
  intros H cur below rest. unfold nodeTokens. rewrite <- app_assoc.
  rewrite steps_open by exact H. cbn [app fold_left]. rewrite buildTreeStep_end. reflexivity.
Qed.

Lemma steps_forest (forest : list RawNode.t) :
  forall ty ps cs below rest,
    forallb wellNamed forest = true ->
    fold_left buildTreeStep (flat_map nodeTokens forest ++ rest) (RawNode.mk ty ps cs :: below)
    = fold_left buildTreeStep rest (RawNode.mk ty ps (cs ++ forest) :: below).
Proof.
  induction forest as [| n forest IH]; intros ty ps cs below rest H.
  - cbn [flat_map app]. rewrite app_nil_r. reflexivity.
  - cbn [forallb] in H. apply andb_true_iff in H as [Hn H].
    cbn [flat_map]. rewrite <- app_assoc, steps_node by exact Hn.
    unfold pushChild. cbn [RawNode.type RawNode.props RawNode.children].
    rewrite IH by exact H. rewrite <- app_assoc. reflexivity.
Qed.

(** X13.  [buildTree]'s assembly inverts the flattening of a forest into
    tokens (for every component [BEGIN], its properties, its
    sub-components, [END]); an [END] with no component open is ignored;
    and a component still open when the tokens run out is closed as if its
    [END] were there. *)
Theorem buildTreeFrom_inverts_nodeTokens (forest more : list RawNode.t) (last : RawNode.t)
    (ty : jsstring) :
  forallb wellNamed forest = true -> forallb wellNamed more = true ->
  wellNamed last = true ->
  buildTreeFrom (flat_map nodeTokens forest) = forest
  /\ buildTreeFrom (flat_map nodeTokens forest ++ endToken ty :: flat_map nodeTokens more)
     = forest ++ more
  /\ buildTreeFrom (flat_map nodeTokens forest ++ openTokens last) = forest ++ [last].
Proof.
  intros Hf Hm Hl. unfold buildTreeFrom. split_and!.
  - rewrite <- (app_nil_r (flat_map nodeTokens forest)), steps_forest by exact Hf.
    reflexivity.
  - rewrite steps_forest by exact Hf. cbn [app fold_left].
    rewrite buildTreeStep_end_root.
    rewrite <- (app_nil_r (flat_map nodeTokens more)), steps_forest by exact Hm.
    reflexivity.
  - rewrite steps_forest by exact Hf.
    rewrite <- (app_nil_r (openTokens last)), steps_open by exact Hl.
    reflexivity.
Qed.

Lemma buildTreeFrom_inverts_nodeTokens_witness :
  buildTreeFrom
    (flat_map nodeTokens
       [RawNode.mk (js "VEVENT") [RawProp.mk (js "UID") [] (js "1")]
          [RawNode.mk (js "VALARM") [RawProp.mk (js "ACTION") [] (js "AUDIO")] []]]
     ++ openTokens (RawNode.mk (js "VTODO") [RawProp.mk (js "UID") [] (js "2")] []))
  = [RawNode.mk (js "VEVENT") [RawProp.mk (js "UID") [] (js "1")]
       [RawNode.mk (js "VALARM") [RawProp.mk (js "ACTION") [] (js "AUDIO")] []]]
    ++ [RawNode.mk (js "VTODO") [RawProp.mk (js "UID") [] (js "2")] []].
Proof.
  apply (buildTreeFrom_inverts_nodeTokens _ [] _ []); reflexivity.
Defined.

(** ** [parseAll] *)

Lemma find_filter {A} (p : A -> bool) (l : list A) : find p l = head (List.filter p l).
Proof.
  induction l as [| x l IH]; [reflexivity |].
  cbn [find List.filter]. destruct (p x); [reflexivity | exact IH].
Qed.

Lemma mapM_length {A B} (f : A -> result B) (xs : list A) (ys : list B) :
  mapM f xs = Ok ys -> length ys = length xs.
Proof.
  revert ys. induction xs as [| x xs IH]; intros ys H; simpl in H.
  - injection H as <-. reflexivity.
  - destruct (f x) as [y | m]; simpl in H; [| discriminate].
    destruct (mapM f xs) as [ys' | m]; simpl in H; [| discriminate].
    injection H as <-. cbn [length]. rewrite (IH ys' eq_refl). reflexivity.
Qed.

Lemma buildCalendars_head (P : Platform) (depth : nat) (n : RawNode.t)
    (ns : list RawNode.t) (l : list Component) :
  mapM (buildCalendar P depth) (n :: ns) = Ok l ->
  exists cal cals, l = cal :: cals /\ buildCalendar P depth n = Ok cal.
Proof.
  cbn [mapM]. destruct (buildCalendar P depth n) as [c | m]; cbn [bind]; [| discriminate].
  destruct (mapM (buildCalendar P depth) ns) as [cs | m]; cbn [bind]; [| discriminate].
  intros [= <-]. eauto.
Qed.

(** X14.  What [parseAll] returns is never empty: it holds one calendar
    for each top-level [VCALENDAR], or one calendar when there is none,
    and its first calendar is the one [parse] returns.  [parseAll]
    returns for every text whose components nest no deeper than the call
    stack carries, and when it fails it is for want of room on that
    stack. *)
Theorem parseAll_returns_calendars (P : Platform) (src : jsstring) :
  (forall l,
      parseAll P src = Ok l ->
      exists cal cals,
        l = cal :: cals
        /\ parse P src = Ok cal
        /\ length l
           = Nat.max 1 (length (List.filter (fun n => streq (RawNode.type n) (js "VCALENDAR"))
                                  (buildTree src)))
        /\ Forall (fun c => type c = js "VCALENDAR") l)
  /\ (withinCallDepth P src -> exists l, parseAll P src = Ok l)
  /\ (forall msg, parseAll P src = Throw msg -> msg = stackOverflow).
Proof.
  unfold parseAll. cbv zeta.
  destruct (List.filter _ (buildTree src)) as [| n ns] eqn:E.
  - split_and!.
    + intros l. destruct (parse P src) as [cal | m] eqn:Hparse; cbn [bind]; [| discriminate].
      intros [= <-]. exists cal, []. split_and!; auto.
      constructor; [| constructor].
      revert Hparse. unfold parse. rewrite find_filter, E. cbn [head].
      destruct (mapM _ (buildTree src)); cbn [bind]; [| discriminate].
      intros [= <-]. apply addComponents_type.
    + intros Hdepth. destruct (parse_ok P src Hdepth) as (cal & -> & _). cbn [bind]. eauto.
    + intros msg. destruct (parse P src) as [cal | m] eqn:Hparse; cbn [bind]; [discriminate |].
      intros [= <-]. exact (parse_fails P src m Hparse).
  - split_and!.
    + intros l Hl. destruct (buildCalendars_head _ _ _ _ _ Hl) as (cal & cals & -> & Hcal).
      exists cal, cals. split_and!.
      * reflexivity.
      * unfold parse. rewrite find_filter, E. exact Hcal.
      * rewrite (mapM_length _ _ _ Hl). reflexivity.
      * eapply mapM_Forall; [| exact Hl]. apply Forall_forall. intros x _ y.
        apply buildCalendar_type.
    + intros Hdepth. apply mapM_ok. apply Forall_forall. intros x Hx.
      destruct (buildCalendar_ok P (callDepth P) x) as (c & Hc & _); [| eauto].
      apply list_elem_of_In in Hx. rewrite <- E in Hx. apply filter_In in Hx as [Hx _].
      exact (proj1 (List.Forall_forall _ _) Hdepth x Hx).
    + intros msg Hm. apply mapM_Throw_inv in Hm as (x & _ & Hx).
      exact (buildCalendar_fails _ _ _ _ Hx).
Qed.

Lemma parseAll_returns_calendars_witness :
  exists l, parseAll refPlatform memberDocument = Ok l.
Proof.
  apply (parseAll_returns_calendars refPlatform memberDocument).
  apply (bool_decide_unpack
           (Forall (fun n => (nesting n <= callDepth refPlatform)%nat)
              (buildTree memberDocument))).
  vm_compute. exact I.
Defined.

(** ** From the text of a tree back to the tree *)

Lemma length_dropWhile (p : Z -> bool) (s : jsstring) :
  (length (dropWhile p s) <= length s)%nat.
Proof.
  induction s as [| c s IH]; [reflexivity |].
  cbn [dropWhile]. destruct (p c); cbn [length]; lia.
Qed.

Lemma length_trim (s : jsstring) : (length (trim s) <= length (trimStart s))%nat.
Proof.
  unfold trim, trimEnd. rewrite length_rev.
  etransitivity; [apply length_dropWhile |]. rewrite length_rev. reflexivity.
Qed.

Lemma trim_fixed_head c (s : jsstring) : trim (c :: s) = c :: s -> isWhiteSpace c = false.
Proof.
  intros H. destruct (isWhiteSpace c) eqn:E; [| reflexivity]. exfalso.
  pose proof (length_trim (c :: s)) as Hlen. rewrite H in Hlen.
  unfold trimStart in Hlen. cbn [dropWhile] in Hlen. rewrite E in Hlen.
  pose proof (length_dropWhile isWhiteSpace s). cbn [length] in Hlen. lia.
Qed.

Lemma dropWhile_snoc (p : Z -> bool) (u : jsstring) c :
  p c = false -> dropWhile p (u ++ [c]) <> [].
Proof.
  intros Hc. induction u as [| x u IH]; cbn [app dropWhile].
  - rewrite Hc. discriminate.
  - destruct (p x); [exact IH | discriminate].
Qed.

Lemma trim_head_nonempty c (s : jsstring) : isWhiteSpace c = false -> trim (c :: s) <> [].
Proof.
  intros Hc. unfold trim, trimStart, trimEnd. cbn [dropWhile]. rewrite Hc.
  cbn [rev]. intros H. apply (f_equal (@rev Z)) in H. rewrite rev_involutive in H.
  cbn [rev] in H. exact (dropWhile_snoc _ _ _ Hc H).
Qed.

Lemma nonws_not_blank c : isWhiteSpace c = false -> (c =? 32) || (c =? 9) = false.
Proof.
  intros H. destruct (c =? 32) eqn:E32; [apply Z.eqb_eq in E32; subst; discriminate |].
  destruct (c =? 9) eqn:E9; [apply Z.eqb_eq in E9; subst; discriminate |]. reflexivity.
Qed.

Lemma plainName_trimmed (N : jsstring) : toUpperCase (trim N) = N -> trim N = N.
Proof.
  intros H. rewrite <- H at 1. rewrite trim_toUpperCase, trim_idem. exact H.
Qed.

Lemma plainName_head (N : jsstring) :
  plainName N = true -> exists c N', N = c :: N' /\ isWhiteSpace c = false.
Proof.
  unfold plainName. intros H. apply andb_true_iff in H as [H H0].
  apply andb_true_iff in H as [_ Hu]. apply streq_true in Hu.
  destruct N as [| c N']; [discriminate |].
  exists c, N'. split; [reflexivity |].
  apply (trim_fixed_head c N'). apply plainName_trimmed. exact Hu.
Qed.

Lemma lineTokens_parsed (line : jsstring) (tok : ContentLine.t) c (s : jsstring) :
  line = c :: s -> isWhiteSpace c = false -> parseContentLine line = Some tok ->
  lineTokens line = [tok].
Proof.
  intros -> Hc Hp. unfold lineTokens. rewrite Hp.
  destruct (trim (c :: s)) eqn:E; [| reflexivity].
  exfalso. exact (trim_head_nonempty c s Hc E).
Qed.

(** A line [KEYWORD:type], for [BEGIN] and [END]. *)
Lemma keyword_line (kw ty : jsstring) c (kw' : jsstring) :
  kw = c :: kw' -> isWhiteSpace c = false -> plainName kw = true ->
  lacks 13 kw = true -> lacks 10 kw = true ->
  lacks 13 ty = true -> lacks 10 ty = true ->
  isLine (kw ++ [58] ++ ty)
  /\ lineTokens (kw ++ [58] ++ ty) = [ContentLine.mk kw [] ty].
Proof.
  intros Ekw Hc Hplain Hk13 Hk10 H13 H10. split.
  - unfold isLine. rewrite !lacks_app, Hk13, Hk10, H13, H10. split_and!; try reflexivity.
    rewrite Ekw. cbn [app startsWithBlank]. apply nonws_not_blank. exact Hc.
  - apply (lineTokens_parsed _ _ c (kw' ++ [58] ++ ty)); [rewrite Ekw; reflexivity | exact Hc |].
    pose proof (parseContentLine_serialized kw [] ty Hplain) as H.
    cbn [map fst] in H. apply H; constructor.
Qed.

Lemma map_fst_stringParams (ps : list (jsstring * jsstring)) :
  map fst (stringParams ps) = map fst ps.
Proof.
  unfold stringParams. rewrite map_map. apply map_ext. intros [k v]. reflexivity.
Qed.

Lemma prop_line (p : RawProp.t) :
  writableProp p = true ->
  isLine (propLine p) /\ lineTokens (propLine p) = [propToken p]
  /\ negb (streq (RawProp.name p) (js "BEGIN")) && negb (streq (RawProp.name p) (js "END"))
     = true.
Proof.
  unfold writableProp. intros H.
  apply andb_true_iff in H as [H H10]. apply andb_true_iff in H as [H H13].
  apply andb_true_iff in H as [H Hps]. apply andb_true_iff in H as [H Hnd].
  apply andb_true_iff in H as [H He]. apply andb_true_iff in H as [Hn Hb].
  apply bool_decide_eq_true_1 in Hnd.
  destruct (plainName_head _ Hn) as (c & N' & EN & Hc).
  split_and!.
  - unfold isLine. split_and!; [exact H13 | exact H10 |].
    unfold propLine. rewrite EN. cbn [app startsWithBlank]. apply nonws_not_blank. exact Hc.
  - apply (lineTokens_parsed _ _ c
             (N' ++ serializeParams (stringParams (RawProp.params p))
              ++ [58] ++ RawProp.value p)).
    + unfold propLine. rewrite EN. reflexivity.
    + exact Hc.
    + unfold propLine, propToken. rewrite parseContentLine_serialized.
      * rewrite normalizeParams_stringParams. reflexivity.
      * exact Hn.
      * rewrite map_fst_stringParams. exact Hnd.
      * apply Forall_forall. intros kv Hkv. rewrite forallb_forall in Hps.
        apply Hps. apply list_elem_of_In. exact Hkv.
  - rewrite Hb, He. reflexivity.
Qed.

Lemma nodeTokens_unfold ty props children :
  nodeTokens (RawNode.mk ty props children)
  = beginToken ty :: map propToken props ++ flat_map nodeTokens children ++ [endToken ty].
Proof.
  unfold nodeTokens at 1. rewrite openTokens_unfold. cbn [RawNode.type app].
  rewrite <- app_assoc. reflexivity.
Qed.

Lemma nodeLines_unfold ty props children :
  nodeLines (RawNode.mk ty props children)
  = (js "BEGIN:" ++ ty) :: map propLine props ++ flat_map nodeLines children
    ++ [js "END:" ++ ty].
Proof. reflexivity. Qed.

Lemma writable_unfold ty props children :
  writable (RawNode.mk ty props children)
  = streq (trim (toUpperCase ty)) ty && lacks 13 ty && lacks 10 ty
    && (octetLen (js "BEGIN:" ++ ty) <=? 75)
    && forallb writableProp props && forallb writable children.
Proof. reflexivity. Qed.

Lemma nodeText_unfold ty props children :
  nodeText (RawNode.mk ty props children)
  = join CRLF ([js "BEGIN:" ++ ty] ++ map (fun p => foldLine (propLine p)) props
               ++ map nodeText children ++ [js "END:" ++ ty]).
Proof. reflexivity. Qed.

(** The lines of a writable tree are lines of a document, their tokens are
    the tokens of the tree, and the tree is well named. *)
Lemma nodeLines_tokens (n : RawNode.t) :
  writable n = true ->
  Forall isLine (nodeLines n)
  /\ flat_map lineTokens (nodeLines n) = nodeTokens n
  /\ wellNamed n = true.
Proof.
  induction n as [ty props children IH] using RawNode_tree_ind.
  rewrite writable_unfold, nodeLines_unfold, nodeTokens_unfold, wellNamed_unfold.
  intros H. apply andb_true_iff in H as [H Hch]. apply andb_true_iff in H as [H Hprops].
  apply andb_true_iff in H as [H _].
  apply andb_true_iff in H as [H H10]. apply andb_true_iff in H as [Hty H13].
  destruct (keyword_line (js "BEGIN") ty 66 (js "EGIN")) as [Lb Tb]; try reflexivity;
    try assumption.
  destruct (keyword_line (js "END") ty 69 (js "ND")) as [Le Te]; try reflexivity;
    try assumption.
  assert (Hp : Forall isLine (map propLine props)
               /\ flat_map lineTokens (map propLine props) = map propToken props
               /\ forallb (fun p => negb (streq (RawProp.name p) (js "BEGIN"))
                                    && negb (streq (RawProp.name p) (js "END"))) props
                  = true).
  { clear - Hprops. induction props as [| p props IHp]; [repeat split; constructor |].
    cbn [forallb] in Hprops. apply andb_true_iff in Hprops as [Hp Hprops].
    destruct (prop_line p Hp) as (L & T & Nm). destruct (IHp Hprops) as (Ls & Ts & Ns).
    cbn [map flat_map forallb]. rewrite T, Ts, Nm, Ns. split_and!; auto. }
  destruct Hp as (Lp & Tp & Np).
  assert (Hc : Forall isLine (flat_map nodeLines children)
               /\ flat_map lineTokens (flat_map nodeLines children)
                  = flat_map nodeTokens children
               /\ forallb wellNamed children = true).
  { clear - IH Hch. induction children as [| child children IHc]; [repeat split; constructor |].
    apply Forall_cons in IH as [IHchild IH].
    cbn [forallb] in Hch. apply andb_true_iff in Hch as [Hchild Hch].
    destruct (IHchild Hchild) as (L & T & W). destruct (IHc IH Hch) as (Ls & Ts & Ws).
    cbn [flat_map forallb]. rewrite flat_map_app, T, Ts, W, Ws. split_and!; auto.
    apply Forall_app. auto. }
  destruct Hc as (Lc & Tc & Wc).
  split_and!.
  - constructor; [exact Lb |]. apply Forall_app. split; [exact Lp |].
    apply Forall_app. split; [exact Lc |]. constructor; [exact Le | constructor].
  - change (js "BEGIN:" ++ ty) with (js "BEGIN" ++ [58] ++ ty).
    change (js "END:" ++ ty) with (js "END" ++ [58] ++ ty).
    cbn [flat_map]. rewrite Tb, !flat_map_app, Tp, Tc. cbn [flat_map].
    rewrite Te. reflexivity.
  - rewrite Hty, Np, Wc. reflexivity.
Qed.

Lemma octetLen_ascii c (s : jsstring) : c < 128 -> octetLen (c :: s) = 1 + octetLen s.
Proof.
  intros H. cbn [octetLen]. rewrite (proj2 (Z.ltb_lt c 128) H). reflexivity.
Qed.

Lemma octetLen_END (ty : jsstring) :
  (octetLen (js "BEGIN:" ++ ty) <=? 75) = true -> (octetLen (js "END:" ++ ty) <=? 75) = true.
Proof.
  intros H. apply Z.leb_le in H. apply Z.leb_le.
  change (js "BEGIN:" ++ ty) with (66 :: 69 :: 71 :: 73 :: 78 :: 58 :: ty) in H.
  change (js "END:" ++ ty) with (69 :: 78 :: 68 :: 58 :: ty).
  rewrite !octetLen_ascii in * by lia. lia.
Qed.

Lemma join_pieces sep (a : list jsstring) (xss : list (list jsstring)) (b : list jsstring) :
  Forall (fun xs => xs <> []) xss ->
  join sep (a ++ map (join sep) xss ++ b) = join sep (a ++ concat xss ++ b).
Proof.
  intros Hx.
  assert (Hs : forall l : list jsstring,
             l = map (join sep) (map (fun x => [x]) l)
             /\ l = concat (map (fun x => [x]) l)
             /\ Forall (fun xs : list jsstring => xs <> []) (map (fun x => [x]) l)).
  { induction l as [| x l (I1 & I2 & I3)]; [repeat split; constructor |].
    cbn [map concat app join]. rewrite <- I1, <- I2. repeat split. constructor; [discriminate | exact I3]. }
  destruct (Hs a) as (A1 & A2 & A3). destruct (Hs b) as (B1 & B2 & B3).
  rewrite A1 at 1. rewrite B1 at 1. rewrite <- !map_app, join_join.
  - rewrite !concat_app, <- A2, <- B2. reflexivity.
  - apply Forall_app. split; [exact A3 |]. apply Forall_app. auto.
Qed.

(** The text of a writable component is its lines, each folded, joined by
    CRLF. *)
Lemma nodeText_lines (n : RawNode.t) :
  writable n = true -> nodeText n = join CRLF (map foldLine (nodeLines n)).
Proof.
  induction n as [ty props children IH] using RawNode_tree_ind.
  rewrite writable_unfold, nodeText_unfold, nodeLines_unfold.
  intros H. apply andb_true_iff in H as [H Hch]. apply andb_true_iff in H as [H _].
  apply andb_true_iff in H as [_ Hshort]. pose proof (octetLen_END ty Hshort) as Hshort'.
  assert (Hkids : map nodeText children
                  = map (join CRLF) (map (fun c => map foldLine (nodeLines c)) children)).
  { rewrite map_map. clear - IH Hch.
    induction children as [| child children IHc]; [reflexivity |].
    apply Forall_cons in IH as [IHchild IH].
    cbn [forallb] in Hch. apply andb_true_iff in Hch as [Hchild Hch].
    cbn [map]. rewrite (IHchild Hchild), (IHc IH Hch). reflexivity. }
  assert (Hb : foldLine (js "BEGIN:" ++ ty) = js "BEGIN:" ++ ty)
    by (unfold foldLine; rewrite Hshort; reflexivity).
  assert (He : foldLine (js "END:" ++ ty) = js "END:" ++ ty)
    by (unfold foldLine; rewrite Hshort'; reflexivity).
  assert (Hflat : map foldLine (flat_map nodeLines children)
                  = concat (map (fun c => map foldLine (nodeLines c)) children)).
  { clear. induction children as [| c cs IHc]; [reflexivity |].
    cbn [map concat flat_map]. rewrite map_app, IHc. reflexivity. }
  set (xss := map (fun c => map foldLine (nodeLines c)) children) in *.
  set (a := [js "BEGIN:" ++ ty] ++ map (fun p => foldLine (propLine p)) props).
  set (b := [js "END:" ++ ty]).
  transitivity (join CRLF (a ++ map (join CRLF) xss ++ b)).
  { subst a. rewrite Hkids, <- app_assoc. reflexivity. }
  rewrite join_pieces.
  - f_equal. subst a b. cbn [map app]. rewrite !map_app, map_map, Hflat, Hb. cbn [map].
    rewrite He. reflexivity.
  - subst xss. apply Forall_map, Forall_forall. intros [ty' ps' cs'] _. discriminate.
Qed.

(** X15.  The text of a component laid out as [toString] lays it out is
    read back by [buildTree] as that component: the same types, the same
    properties with their parameters and value texts, the same nesting.
    This holds when the names, parameters and types are ones the tokenizer
    reads back and no line holds a line break. *)
Theorem buildTree_reads_written_tree (n : RawNode.t) :
  writable n = true ->
  nodeText n = join CRLF (map foldLine (nodeLines n))
  /\ tokenize (nodeText n) = nodeTokens n
  /\ buildTree (nodeText n) = [n].
Proof.
  intros H. pose proof (nodeText_lines n H) as Htext.
  destruct (nodeLines_tokens n H) as (L & T & W).
  assert (Htok : tokenize (nodeText n) = nodeTokens n).
  { rewrite Htext, (proj2 (tokenize_folded_lines _ L)). exact T. }
  split_and!; [exact Htext | exact Htok |].
  unfold buildTree. rewrite Htok. unfold buildTreeFrom.
  rewrite <- (app_nil_r (nodeTokens n)), steps_node by exact W.
  reflexivity.
Qed.

Lemma buildTree_reads_written_tree_witness :
  buildTree
    (nodeText
       (RawNode.mk (js "VEVENT")
          [RawProp.mk (js "ATTENDEE") [(js "CN", js "Doe, Jane")] (js "mailto:jane@example.com");
           RawProp.mk (js "SUMMARY") [] (replicate 100 97)]
          [RawNode.mk (js "VALARM") [RawProp.mk (js "ACTION") [] (js "AUDIO")] []]))
  = [RawNode.mk (js "VEVENT")
       [RawProp.mk (js "ATTENDEE") [(js "CN", js "Doe, Jane")] (js "mailto:jane@example.com");
        RawProp.mk (js "SUMMARY") [] (replicate 100 97)]
       [RawNode.mk (js "VALARM") [RawProp.mk (js "ACTION") [] (js "AUDIO")] []]].
Proof.
  refine (proj2 (proj2 (buildTree_reads_written_tree _ _))). vm_compute. reflexivity.
Defined.

(** ** DURATION: what the text keeps *)

Lemma showUnit_written (o : option number) (u : jsstring) :
  showUnit (writtenUnit o) u = showUnit o u.
Proof.
  destruct o as [n |]; [| reflexivity]. cbn [writtenUnit showUnit].
  destruct (truthy n) eqn:E; cbn [showUnit]; rewrite ?E; reflexivity.
Qed.

Lemma truthyOpt_written (o : option number) : truthyOpt (writtenUnit o) = truthyOpt o.
Proof.
  destruct o as [n |]; [| reflexivity]. cbn [writtenUnit truthyOpt].
  destruct (truthy n) eqn:E; cbn [truthyOpt]; rewrite ?E; reflexivity.
Qed.

Lemma serialize_writtenDuration (v : ICalDuration.t) :
  DURATION.serialize (writtenDuration v) = DURATION.serialize v.
Proof.
  destruct v as [neg w d h m s]. unfold writtenDuration, DURATION.serialize.
  cbn [ICalDuration.weeks ICalDuration.negative ICalDuration.days ICalDuration.hours
       ICalDuration.minutes ICalDuration.seconds].
  destruct w as [w |]; cbn [ICalDuration.weeks ICalDuration.negative ICalDuration.days
                            ICalDuration.hours ICalDuration.minutes ICalDuration.seconds];
    [reflexivity |].
  rewrite !showUnit_written, !truthyOpt_written. reflexivity.
Qed.

Lemma unitOK_written (o : option number) : unitNonNegative o -> unitOK (writtenUnit o).
Proof.
  destruct o as [[z | | r] |]; cbn [unitNonNegative inRange writtenUnit truthy];
    try contradiction; try exact (fun _ => I).
  intros Hz. destruct (z =? 0) eqn:E; cbn [negb unitOK inRange]; [exact I |].
  apply Z.eqb_neq in E. lia.
Qed.

Lemma writtenUnit_idem (o : option number) : writtenUnit (writtenUnit o) = writtenUnit o.
Proof.
  destruct o as [n |]; [| reflexivity]. cbn [writtenUnit].
  destruct (truthy n) eqn:E; cbn [writtenUnit]; rewrite ?E; reflexivity.
Qed.

(** X16.  For a duration whose units are absent or non-negative integers,
    the text is read back as the duration the text carries: weeks alone
    when weeks are present, and otherwise the units that are not zero.
    So serializing what was parsed gives the same text again. *)
Theorem DURATION_text_is_stable (v : ICalDuration.t) :
  unitNonNegative (ICalDuration.weeks v) -> unitNonNegative (ICalDuration.days v) ->
  unitNonNegative (ICalDuration.hours v) -> unitNonNegative (ICalDuration.minutes v) ->
  unitNonNegative (ICalDuration.seconds v) ->
  DURATION.parse (DURATION.serialize v) = writtenDuration v
  /\ DURATION.serialize (DURATION.parse (DURATION.serialize v)) = DURATION.serialize v.
Proof.
  intros Hw Hd Hh Hm Hs.
  assert (Hparse : DURATION.parse (DURATION.serialize v) = writtenDuration v).
  { rewrite <- serialize_writtenDuration.
    destruct v as [neg w d h m s].
    cbn [ICalDuration.weeks ICalDuration.days ICalDuration.hours ICalDuration.minutes
         ICalDuration.seconds] in *.
    unfold writtenDuration.
    cbn [ICalDuration.weeks ICalDuration.negative ICalDuration.days ICalDuration.hours
         ICalDuration.minutes ICalDuration.seconds].
    destruct w as [w |].
    - apply DURATION_round_trip. cbn [validDuration ICalDuration.weeks ICalDuration.days
        ICalDuration.hours ICalDuration.minutes ICalDuration.seconds]. auto.
    - pose proof (unitOK_written d Hd) as Od. pose proof (unitOK_written h Hh) as Oh.
      pose proof (unitOK_written m Hm) as Om. pose proof (unitOK_written s Hs) as Os.
      destruct (writtenUnit d) as [d' |] eqn:Ed; [| destruct (writtenUnit h) as [h' |] eqn:Eh;
        [| destruct (writtenUnit m) as [m' |] eqn:Em;
           [| destruct (writtenUnit s) as [s' |] eqn:Es]]];
        try (apply DURATION_round_trip;
             cbn [validDuration ICalDuration.weeks ICalDuration.days ICalDuration.hours
                  ICalDuration.minutes ICalDuration.seconds];
             split_and!; auto; (left + (right; left) + (right; right; left)
                                + (right; right; right)); discriminate).
      destruct neg; reflexivity. }
  split; [exact Hparse |].
  rewrite Hparse. apply serialize_writtenDuration.
Qed.

Lemma DURATION_text_is_stable_witness :
  DURATION.parse (DURATION.serialize
                    (ICalDuration.mk true None (Some (Int 0)) (Some (Int 2)) (Some (Int 0)) None))
  = ICalDuration.mk true None None (Some (Int 2)) None None.
Proof.
  refine (proj1 (DURATION_text_is_stable
                   (ICalDuration.mk true None (Some (Int 0)) (Some (Int 2)) (Some (Int 0)) None)
                   _ _ _ _ _)); simpl; unfold MAX_SAFE_INTEGER; try lia; exact I.
Defined.

(** ** Where the raw-string fallback of [parseProperty] can come from *)

Lemma mapM_ext {A B} (f g : A -> result B) (xs : list A) :
  (forall x, f x = g x) -> mapM f xs = mapM g xs.
Proof.
  intros H. induction xs as [| x xs IH]; [reflexivity |].
  cbn [mapM]. rewrite H, IH. reflexivity.
Qed.

Lemma codec_returns (P : Platform) (typeName : jsstring) (params : Params) :
  typeName <> js "PERIOD" -> typeName <> js "RECUR" ->
  exists read : jsstring -> ICalValue,
    forall raw,
      default (fun raw _ => Ok (VString (TEXT.parse raw))) (lookupCodec P typeName) raw params
      = Ok (read raw).
Proof.
  intros Hp Hr. unfold lookupCodec, CODECS. cbn [find fst snd].
  repeat match goal with
         | |- context [streq ?a typeName] =>
             let E := fresh "E" in
             destruct (streq a typeName) eqn:E;
             [ try (apply streq_true in E; congruence);
               cbn [fmap option_fmap option_map snd default from_option id];
               eexists; intros raw; reflexivity
             | ]
         end.
  cbn [fmap option_fmap option_map default from_option id].
  eexists; intros raw; reflexivity.
Qed.

Lemma mapM_throws {A B} (f : A -> result B) (xs : list A) :
  Exists (fun x => exists m, f x = Throw m) xs -> exists m, mapM f xs = Throw m.
Proof.
  induction 1 as [x xs [m Hx] | x xs _ [m IH]]; cbn [mapM].
  - rewrite Hx. eauto.
  - destruct (f x); cbn [bind]; [rewrite IH |]; eauto.
Qed.

(** X17.  The raw-string fallback of [parseProperty] is reached through
    the PERIOD and RECUR codecs only.  For every other value type the
    codec returns on every text, so the [try] block returns and the value
    of the property is what the codec reads: of the whole text, or of each
    comma-separated part for a list property (and the [GEO] reading of the
    whole text for the type [GEO]).  A malformed value of such a type is
    therefore stored as the codec reads it, not as its raw string. *)
Theorem fallback_only_for_PERIOD_and_RECUR (P : Platform) (name raw : jsstring)
    (params : Params) :
  resolveValueType name params <> js "PERIOD" ->
  resolveValueType name params <> js "RECUR" ->
  let typeName := resolveValueType name params in
  let codec :=
    default (fun raw _ => Ok (VString (TEXT.parse raw))) (lookupCodec P typeName) in
  exists read : jsstring -> ICalValue,
    (forall text, codec text params = Ok (read text))
    /\ let value :=
         if streq typeName (js "GEO") then Single (VGeo (GEO.parse P raw))
         else if default false (PropertyDef.multi <$> getPropertyDef name)
              then Multi (map read (splitMultiValue raw))
              else Single (read raw) in
       parsePropertyTry P name raw params typeName (getPropertyDef name)
       = Ok (newProperty name value params raw)
       /\ parseProperty P name raw params = Ok (newProperty name value params raw).
Proof.
  intros Hp Hr typeName codec.
  destruct (codec_returns P typeName params Hp Hr) as (read & Hread).
  exists read. split; [exact Hread |]. cbv zeta.
  assert (H : parsePropertyTry P name raw params typeName (getPropertyDef name)
              = Ok (newProperty name
                      (if streq typeName (js "GEO") then Single (VGeo (GEO.parse P raw))
                       else if default false (PropertyDef.multi <$> getPropertyDef name)
                            then Multi (map read (splitMultiValue raw))
                            else Single (read raw))
                      params raw)).
  { unfold parsePropertyTry.
    destruct (streq typeName (js "GEO")); [reflexivity |].
    destruct (default false (PropertyDef.multi <$> getPropertyDef name)).
    - rewrite (mapM_ext _ (fun p => Ok (read p))) by (intros p; apply Hread).
      rewrite mapM_pure. reflexivity.
    - fold typeName. rewrite Hread. reflexivity. }
  split; [exact H |]. unfold parseProperty. fold typeName. rewrite H. reflexivity.
Qed.

Lemma fallback_only_for_PERIOD_and_RECUR_witness :
  parseProperty refPlatform (js "DTSTART") (js "tomorrow") []
  = Ok (newProperty (js "DTSTART")
          (Single (VDateTime (ICalDateTime.mk NaN NaN NaN NaN NaN NaN false None))) []
          (js "tomorrow")).
Proof.
  destruct (fallback_only_for_PERIOD_and_RECUR refPlatform (js "DTSTART") (js "tomorrow") [])
    as (read & Hread & _ & Hp); [discriminate | discriminate |].
  rewrite Hp. specialize (Hread (js "tomorrow")).
  match type of Hread with
  | ?l = _ =>
      assert (Hc : l = Ok (VDateTime (ICalDateTime.mk NaN NaN NaN NaN NaN NaN false None)))
        by (vm_compute; reflexivity)
  end.
  rewrite Hc in Hread. injection Hread as <-. reflexivity.
Defined.

Lemma PERIOD_parse_throws (raw : jsstring) :
  indexOf 47 raw = None -> PERIOD.parse raw = Throw (js "Invalid PERIOD value: " ++ raw).
Proof. intros H. unfold PERIOD.parse. rewrite H. reflexivity. Qed.

Lemma PERIOD_parse_returns (raw : jsstring) :
  indexOf 47 raw <> None -> exists v, PERIOD.parse raw = Ok v.
Proof.
  intros H. unfold PERIOD.parse. destruct (indexOf 47 raw); [eauto | congruence].
Qed.

(** X18.  A multi-valued PERIOD property (FREEBUSY, or RDATE with
    VALUE=PERIOD) is read all or nothing: when every part holds a [/] the
    value is the list of the periods, one for each part; when one part
    holds none, the value of the whole property is its raw string, the
    well-formed periods included. *)
Theorem PERIOD_list_is_read_all_or_nothing (P : Platform) (name raw : jsstring)
    (params : Params) :
  resolveValueType name params = js "PERIOD" ->
  PropertyDef.multi <$> getPropertyDef name = Some true ->
  (Forall (fun part => indexOf 47 part <> None) (splitMultiValue raw) ->
   exists vs,
     mapM PERIOD.parse (splitMultiValue raw) = Ok vs
     /\ parseProperty P name raw params
        = Ok (newProperty name (Multi (map VPeriod vs)) params raw))
  /\ (Exists (fun part => indexOf 47 part = None) (splitMultiValue raw) ->
      parseProperty P name raw params
      = Ok (newProperty name (Single (VString raw)) params raw)).
Proof.
  intros Hty Hmulti.
  assert (Htry : parsePropertyTry P name raw params (resolveValueType name params)
                   (getPropertyDef name)
                 = bind (mapM (fun p => bind (PERIOD.parse p) (fun v => Ok (VPeriod v)))
                           (splitMultiValue raw))
                     (fun values => Ok (newProperty name (Multi values) params raw))).
  { unfold parsePropertyTry. rewrite Hty, Hmulti.
    change (streq (js "PERIOD") (js "GEO")) with false.
    change (lookupCodec P (js "PERIOD"))
      with (Some (fun (raw : jsstring) (_ : Params) =>
                    bind (PERIOD.parse raw) (fun v => Ok (VPeriod v)))).
    reflexivity. }
  unfold parseProperty. rewrite Htry. split.
  - intros Hall.
    destruct (mapM_ok PERIOD.parse (splitMultiValue raw)) as (vs & Hvs).
    { eapply Forall_impl; [exact Hall |]. intros part. apply PERIOD_parse_returns. }
    exists vs. split; [exact Hvs |].
    assert (Hmap : mapM (fun p => bind (PERIOD.parse p) (fun v => Ok (VPeriod v)))
                     (splitMultiValue raw) = Ok (map VPeriod vs)).
    { clear - Hvs. revert vs Hvs.
      induction (splitMultiValue raw) as [| x xs IH]; intros vs Hvs; cbn [mapM] in *.
      - injection Hvs as <-. reflexivity.
      - destruct (PERIOD.parse x) as [y | m]; cbn [bind] in *; [| discriminate].
        destruct (mapM PERIOD.parse xs) as [ys | m]; cbn [bind] in *; [| discriminate].
        injection Hvs as <-. rewrite (IH ys eq_refl). reflexivity. }
    rewrite Hmap. reflexivity.
  - intros Hex.
    destruct (mapM_throws (fun p => bind (PERIOD.parse p) (fun v => Ok (VPeriod v)))
                (splitMultiValue raw)) as (m & Hm).
    { eapply Exists_impl; [exact Hex |]. intros part Hpart. cbv beta.
      rewrite (PERIOD_parse_throws part Hpart). cbn [bind]. eauto. }
    rewrite Hm. reflexivity.
Qed.

Lemma PERIOD_list_is_read_all_or_nothing_witness :
  parseProperty refPlatform (js "FREEBUSY")
    (js "20240101T000000Z/PT1H,20240102T000000Z") []
  = Ok (newProperty (js "FREEBUSY")
          (Single (VString (js "20240101T000000Z/PT1H,20240102T000000Z"))) []
          (js "20240101T000000Z/PT1H,20240102T000000Z")).
Proof.
  apply (PERIOD_list_is_read_all_or_nothing refPlatform (js "FREEBUSY")
           (js "20240101T000000Z/PT1H,20240102T000000Z") []); try reflexivity.
  vm_compute. apply Exists_cons_tl, Exists_cons_hd. reflexivity.
Defined.

(** ** The registry and the codec table *)

Lemma registry_codecs (P : Platform) (name : jsstring) (def : PropertyDef.t) :
  getPropertyDef name = Some def ->
  PropertyDef.defaultType def = js "GEO"
  \/ exists codec, lookupCodec P (PropertyDef.defaultType def) = Some codec.
Proof.
  unfold getPropertyDef.
  destruct (find _ PROPERTY_REGISTRY) as [[k d] |] eqn:E; [| discriminate].
  cbn [fmap option_fmap option_map snd]. intros [= <-].
  apply find_some in E as [Hin _].
  assert (Hall : Forall (fun e : jsstring * PropertyDef.t =>
                           PropertyDef.defaultType e.2 = js "GEO"
                           \/ exists codec,
                               lookupCodec P (PropertyDef.defaultType e.2) = Some codec)
                        PROPERTY_REGISTRY).
  { unfold PROPERTY_REGISTRY, pdef, pdefMulti.
    repeat (constructor;
            [cbn [snd PropertyDef.defaultType];
             first [left; reflexivity | right; eexists; reflexivity] |]).
    constructor. }
  rewrite Forall_forall in Hall. apply (Hall (k, d)). apply list_elem_of_In. exact Hin.
Qed.

(** X19.  A registered property read without a [VALUE] parameter,
    whatever its other parameters, resolves to the default type the
    registry gives it, and that type is [GEO], which [parseProperty]
    handles itself, or has a codec in [CODECS]: no registered property is
    read with the TEXT codec for want of its own.  A name the registry
    does not hold resolves to [TEXT]. *)
Theorem registry_types_have_codecs (P : Platform) (name : jsstring) (params : Params) :
  getParam params (js "VALUE") = None ->
  match getPropertyDef name with
  | Some def =>
      resolveValueType name params = PropertyDef.defaultType def
      /\ (PropertyDef.defaultType def = js "GEO"
          \/ exists codec, lookupCodec P (PropertyDef.defaultType def) = Some codec)
  | None => resolveValueType name params = js "TEXT"
  end.
Proof.
  intros Hvalue. unfold resolveValueType. rewrite Hvalue.
  destruct (getPropertyDef name) as [def |] eqn:E; [| reflexivity].
  split; [reflexivity | exact (registry_codecs P name def E)].
Qed.

Lemma registry_types_have_codecs_witness :
  resolveValueType (js "DTSTART") [(js "TZID", PString (js "Europe/Berlin"))]
  = js "DATE-TIME"
  /\ exists codec, lookupCodec refPlatform (js "DATE-TIME") = Some codec.
Proof.
  pose proof (registry_types_have_codecs refPlatform (js "DTSTART")
                [(js "TZID", PString (js "Europe/Berlin"))] eq_refl) as H.
  cbn in H. destruct H as [Hty [Hgeo | Hcodec]].
  - discriminate.
  - split; [exact Hty | exact Hcodec].
Defined.

(** ** Setting, getting and removing *)

Lemma getProperties_upper (c : Component) (name : jsstring) :
  getProperties c (toUpperCase name) = getProperties c name.
Proof. unfold getProperties. rewrite toUpperCase_idem. reflexivity. Qed.

Lemma getProperties_setProperty (c : Component) (name : jsstring) (value : option PropValue)
    (params : Params) :
  getProperties (setProperty c name value params) name
  = match value with
    | Some v => [newProperty name v params []]
    | None => []
    end.
Proof.
  unfold getProperties, setProperty. destruct value as [v |]; cbn [_index].
  - rewrite lookup_insert_eq. unfold newProperty. rewrite toUpperCase_idem. reflexivity.
  - rewrite lookup_delete_eq. reflexivity.
Qed.

Lemma getProperties_setProperty_other (c : Component) (name name' : jsstring)
    (value : option PropValue) (params : Params) :
  toUpperCase name' <> toUpperCase name ->
  getProperties (setProperty c name value params) name' = getProperties c name'.
Proof.
  intros H. unfold getProperties, setProperty. destruct value as [v |]; cbn [_index].
  - rewrite lookup_insert_ne, lookup_delete_ne by congruence. reflexivity.
  - rewrite lookup_delete_ne by congruence. reflexivity.
Qed.

(** X20.  Setting and getting: after [setProperty] with a value,
    [getValue] of that name (in any letter case) returns the value and
    [getValues] the list of values; after [setProperty] with no value, or
    [removeProperty], there is none; and what is stored under every other
    name is unchanged. *)
Theorem set_then_get (c : Component) (name : jsstring) (params : Params) :
  (forall v, getValue (setProperty c name (Some (Single v)) params) name = Some (Some v))
  /\ (forall vs, getValues (setProperty c name (Some (Multi vs)) params) name = vs)
  /\ (forall value name',
        toUpperCase name' = toUpperCase name ->
        getValue (setProperty c name value params) name'
        = getValue (setProperty c name value params) name)
  /\ getValue (setProperty c name None params) name = None
  /\ getValue (removeProperty c name) name = None
  /\ (forall value name',
        toUpperCase name' <> toUpperCase name ->
        getValue (setProperty c name value params) name' = getValue c name'
        /\ getValue (removeProperty c name) name' = getValue c name').
Proof.
  unfold getValue, getValues, getProperty. split_and!.
  - intros v. rewrite getProperties_setProperty. reflexivity.
  - intros vs. rewrite getProperties_setProperty. reflexivity.
  - intros value name' H. unfold getProperties. rewrite H. reflexivity.
  - rewrite getProperties_setProperty. reflexivity.
  - unfold getProperties, removeProperty. cbn [_index]. rewrite lookup_delete_eq. reflexivity.
  - intros value name' H. split.
    + rewrite getProperties_setProperty_other by exact H. reflexivity.
    + unfold getProperties, removeProperty. cbn [_index].
      rewrite lookup_delete_ne by congruence. reflexivity.
Qed.

(** * Value lists of dates, date-times and periods *)

(** A comma-joined list of texts without comma and backslash is split
    into the texts. *)
Lemma splitMultiValue_written {A} (ser : A -> jsstring) (xs : list A) :
  xs <> [] ->
  Forall (fun x => lacks 92 (ser x) = true /\ lacks 44 (ser x) = true) xs ->
  splitMultiValue (join [44] (map ser xs)) = map ser xs.
Proof.
  intros Hne Hall. unfold splitMultiValue.
  rewrite splitMultiValueLoop_split.
  - cbn [rev app]. change (splitAux 44 [] ?s) with (split 44 s).
    apply split_join.
    + destruct xs; [congruence | discriminate].
    + apply Forall_map. eapply Forall_impl; [exact Hall |]. intros x [_ H]. exact H.
  - apply lacks_join; [reflexivity |].
    apply Forall_map. eapply Forall_impl; [exact Hall |]. intros x [H _]. exact H.
Qed.

Lemma foreignChar_digits (c : Z) (ds : jsstring) :
  foreignChar c = true -> forallb isDigit ds = true -> lacks c ds = true.
Proof.
  intros Hc Hd. unfold lacks. eapply forallb_weaken; [| exact Hd].
  intros x Hx. apply negb_true_iff, Z.eqb_neq. intros ->.
  unfold foreignChar in Hc. rewrite Hx in Hc. discriminate.
Qed.

Lemma foreignChar_letter (c x : Z) :
  foreignChar c = true -> existsb (Z.eqb x) (js "TZ/-PWDHMS") = true -> (x =? c) = false.
Proof.
  intros Hc Hx. apply Z.eqb_neq. intros ->.
  unfold foreignChar in Hc. rewrite Hx, orb_true_r in Hc. discriminate.
Qed.

Lemma foreignChar_dateTime (c : Z) (s : jsstring) :
  foreignChar c = true -> forallb dateTimeChar s = true -> lacks c s = true.
Proof.
  intros Hc Hs. unfold lacks. eapply forallb_weaken; [| exact Hs].
  intros x Hx. apply negb_true_iff. unfold dateTimeChar in Hx.
  apply orb_true_iff in Hx as [Hx | Hx]; [apply orb_true_iff in Hx as [Hx | Hx] |].
  - apply Z.eqb_neq. intros ->. unfold foreignChar in Hc. rewrite Hx in Hc. discriminate.
  - apply Z.eqb_eq in Hx as ->. apply (foreignChar_letter c 84 Hc). reflexivity.
  - apply Z.eqb_eq in Hx as ->. apply (foreignChar_letter c 90 Hc). reflexivity.
Qed.

Lemma foreignChar_showUnit (c u : Z) (o : option number) :
  foreignChar c = true -> existsb (Z.eqb u) (js "TZ/-PWDHMS") = true ->
  unitOK o -> lacks c (showUnit o [u]) = true.
Proof.
  intros Hc Hu Ho.
  destruct (unitOK_show o u Ho) as [(_ & -> & _) | (z & _ & _ & -> & _ & _ & Hd & _)].
  - reflexivity.
  - rewrite lacks_app, (foreignChar_digits c _ Hc Hd). unfold lacks. cbn [forallb].
    rewrite (foreignChar_letter c u Hc Hu). reflexivity.
Qed.

Lemma foreignChar_duration (c : Z) (v : ICalDuration.t) :
  foreignChar c = true -> validDuration v -> lacks c (DURATION.serialize v) = true.
Proof.
  intros Hc. destruct v as [neg weeks days hours minutes seconds]. unfold validDuration.
  cbn [ICalDuration.weeks ICalDuration.days ICalDuration.hours ICalDuration.minutes
       ICalDuration.seconds ICalDuration.negative].
  assert (Hsign : lacks c (if neg then [45] else []) = true).
  { destruct neg; [| reflexivity]. unfold lacks. cbn [forallb].
    rewrite (foreignChar_letter c 45 Hc) by reflexivity. reflexivity. }
  assert (HP : (80 =? c) = false) by (apply (foreignChar_letter c 80 Hc); reflexivity).
  assert (HT : (84 =? c) = false) by (apply (foreignChar_letter c 84 Hc); reflexivity).
  assert (HW : (87 =? c) = false) by (apply (foreignChar_letter c 87 Hc); reflexivity).
  destruct weeks as [w |].
  - intros (Hw & -> & -> & -> & ->). apply inRange_Int in Hw as (z & -> & Hz).
    destruct (decimal_spec z) as (Hne & Hd & Hv & _); [lia |].
    unfold DURATION.serialize. cbn [ICalDuration.negative ICalDuration.weeks numberToString].
    replace (z <? 0) with false by (symmetry; apply Z.ltb_ge; lia).
    rewrite !lacks_app, Hsign, (foreignChar_digits c _ Hc Hd).
    unfold lacks. cbn [forallb]. rewrite HP, HW. reflexivity.
  - intros (Hd & Hh & Hm & Hs & Hsome).
    unfold DURATION.serialize.
    cbn [ICalDuration.negative ICalDuration.weeks ICalDuration.days ICalDuration.hours
         ICalDuration.minutes ICalDuration.seconds].
    set (s := if truthyOpt hours || truthyOpt minutes || truthyOpt seconds then _ else _).
    assert (Hl : lacks c s = true).
    { unfold s. destruct (truthyOpt hours || truthyOpt minutes || truthyOpt seconds);
        rewrite !lacks_app, ?Hsign, ?foreignChar_showUnit by (auto; reflexivity);
        unfold lacks; cbn [forallb]; rewrite ?HP, ?HT; reflexivity. }
    destruct s as [| x s'] eqn:Es; [| exact Hl].
    exfalso. unfold s in Es. clear - Es.
    destruct (truthyOpt hours || truthyOpt minutes || truthyOpt seconds), neg; discriminate.
Qed.

Lemma foreignChar_period (c : Z) (v : ICalPeriod.t) :
  foreignChar c = true -> validPeriod v -> lacks c (PERIOD.serialize v) = true.
Proof.
  intros Hc. destruct v as [start e]. unfold validPeriod.
  cbn [ICalPeriod.start ICalPeriod.end_]. intros (Hstart & _ & Hend).
  unfold PERIOD.serialize. cbn [ICalPeriod.start ICalPeriod.end_].
  rewrite !lacks_app.
  rewrite (foreignChar_dateTime c _ Hc (proj1 (DATE_TIME_serialize_chars start Hstart))).
  unfold lacks at 1. cbn [forallb].
  rewrite (foreignChar_letter c 47 Hc) by reflexivity. cbn [negb andb].
  destruct e as [dt | d].
  - destruct Hend as [Hdt _].
    apply (foreignChar_dateTime c _ Hc (proj1 (DATE_TIME_serialize_chars dt Hdt))).
  - apply foreignChar_duration; assumption.
Qed.

(** What [parseProperty] does with a list property whose codec returns. *)
Lemma parseProperty_list (P : Platform) (name raw : jsstring) (params : Params)
    (ty : jsstring) (codec : CodecParse) (vs : list ICalValue) :
  resolveValueType name params = ty ->
  streq ty (js "GEO") = false ->
  lookupCodec P ty = Some codec ->
  PropertyDef.multi <$> getPropertyDef name = Some true ->
  mapM (fun p => codec p params) (splitMultiValue raw) = Ok vs ->
  parseProperty P name raw params = Ok (newProperty name (Multi vs) params raw).
Proof.
  intros Hty Hgeo Hcodec Hmulti Hvs.
  unfold parseProperty, parsePropertyTry. rewrite Hty, Hgeo, Hcodec, Hmulti.
  cbn [default]. unfold id. cbv beta iota. rewrite Hvs. reflexivity.
Qed.

(** X21.  A list of values written the way a list property is written
    (each value serialized, the texts joined by commas) is read back by
    [parseProperty] as the list of the values: for the date-times of a
    property such as [EXDATE] or [RDATE] (with the [tzid] of the [TZID]
    parameter), for its dates under [VALUE=DATE], and for the periods of
    [FREEBUSY] or of [RDATE] under [VALUE=PERIOD]. *)
Theorem date_lists_round_trip (P : Platform) (name : jsstring) (params : Params) :
  PropertyDef.multi <$> getPropertyDef name = Some true ->
  (forall vs : list ICalDateTime.t,
      resolveValueType name params = js "DATE-TIME" ->
      vs <> [] ->
      Forall (fun v => validDateTime v /\ ICalDateTime.tzid v = paramTzid params) vs ->
      let raw := join [44] (map DATE_TIME.serialize vs) in
      parseProperty P name raw params
      = Ok (newProperty name (Multi (map VDateTime vs)) params raw))
  /\ (forall vs : list ICalDate.t,
        resolveValueType name params = js "DATE" ->
        vs <> [] ->
        Forall validDate vs ->
        let raw := join [44] (map DATE.serialize vs) in
        parseProperty P name raw params
        = Ok (newProperty name (Multi (map VDate vs)) params raw))
  /\ (forall vs : list ICalPeriod.t,
        resolveValueType name params = js "PERIOD" ->
        vs <> [] ->
        Forall validPeriod vs ->
        let raw := join [44] (map PERIOD.serialize vs) in
        parseProperty P name raw params
        = Ok (newProperty name (Multi (map VPeriod vs)) params raw)).
Proof.
  intros Hmulti. split_and!.
  - intros vs Hty Hne Hvs raw.
    apply (parseProperty_list P name raw params _
             (fun raw params => Ok (VDateTime (DATE_TIME.parse raw params)))
             _ Hty eq_refl eq_refl Hmulti).
    unfold raw. rewrite splitMultiValue_written.
    + rewrite (mapM_pure (fun p => VDateTime (DATE_TIME.parse p params))), map_map.
      f_equal. clear - Hvs. induction Hvs as [| v vs [Hv Htz] _ IH]; [reflexivity |].
      cbn [map]. rewrite IH, DATE_TIME_round_trip by exact Hv.
      unfold paramTzid in Htz. rewrite <- Htz. destruct v; reflexivity.
    + exact Hne.
    + eapply Forall_impl; [exact Hvs |]. intros v [Hv _].
      destruct (DATE_TIME_serialize_chars v Hv) as [Hc _].
      split; apply foreignChar_dateTime; (reflexivity || exact Hc).
  - intros vs Hty Hne Hvs raw.
    apply (parseProperty_list P name raw params _
             (fun raw _ => Ok (VDate (DATE.parse raw)))
             _ Hty eq_refl eq_refl Hmulti).
    unfold raw. rewrite splitMultiValue_written.
    + rewrite (mapM_pure (fun p => VDate (DATE.parse p))), map_map.
      f_equal. clear - Hvs. induction Hvs as [| v vs Hv _ IH]; [reflexivity |].
      cbn [map]. rewrite IH, DATE_round_trip by exact Hv. reflexivity.
    + exact Hne.
    + eapply Forall_impl; [exact Hvs |]. intros v Hv.
      destruct (DATE_serialize_chars v Hv) as [Hc _].
      split; apply foreignChar_digits; (reflexivity || exact Hc).
  - intros vs Hty Hne Hvs raw.
    apply (parseProperty_list P name raw params _
             (fun raw _ => bind (PERIOD.parse raw) (fun v => Ok (VPeriod v)))
             _ Hty eq_refl eq_refl Hmulti).
    unfold raw. rewrite splitMultiValue_written.
    + clear - Hvs. induction Hvs as [| v vs Hv _ IH]; [reflexivity |].
      cbn [map mapM]. rewrite PERIOD_round_trip by exact Hv. cbn [bind].
      rewrite IH. reflexivity.
    + exact Hne.
    + eapply Forall_impl; [exact Hvs |]. intros v Hv.
      split; apply foreignChar_period; (reflexivity || exact Hv).
Qed.

Lemma date_lists_round_trip_witness :
  parseProperty refPlatform (js "EXDATE") (js "20240615T140000,20240616T140000")
    [(js "TZID", PString (js "Europe/Berlin"))]
  = Ok (newProperty (js "EXDATE")
          (Multi [VDateTime berlinTime;
                  VDateTime (ICalDateTime.mk (Int 2024) (Int 6) (Int 16) (Int 14) (Int 0) (Int 0)
                               false (Some (js "Europe/Berlin")))])
          [(js "TZID", PString (js "Europe/Berlin"))]
          (js "20240615T140000,20240616T140000")).
Proof.
  destruct (date_lists_round_trip refPlatform (js "EXDATE")
              [(js "TZID", PString (js "Europe/Berlin"))] eq_refl) as (Hdt & _ & _).
  apply (Hdt [berlinTime;
              ICalDateTime.mk (Int 2024) (Int 6) (Int 16) (Int 14) (Int 0) (Int 0)
                false (Some (js "Europe/Berlin"))]).
  - reflexivity.
  - discriminate.
  - repeat constructor; simpl; lia.
Defined.

(** * The order of the parts of a recurrence rule *)

(** The map of the parts: a later part with the same key replaces an
    earlier one. *)
Lemma buildMap_entries (parts : list jsstring) :
  RECUR.buildMap parts = list_to_map (rev (omap partEntry parts)).
Proof.
  unfold RECUR.buildMap. induction parts as [| p parts IH] using rev_ind; [reflexivity |].
  rewrite fold_left_app, IH, omap_app, rev_app_distr. cbn [fold_left].
  change (omap partEntry [p])
    with (match partEntry p with Some x => [x] | None => [] end).
  assert (Hp : partEntry p
               = match indexOf 61 p with
                 | None => None
                 | Some eq => Some (toUpperCase (slice p 0 eq), sliceFrom p (eq + 1))
                 end) by reflexivity.
  destruct (indexOf 61 p) as [eq |]; rewrite Hp; reflexivity.
Qed.

Lemma RECUR_parts (parts : list jsstring) :
  parts <> [] ->
  Forall (fun p => lacks 59 p = true /\ noWS p = true) parts ->
  split 59 (trim (join [59] parts)) = parts.
Proof.
  intros Hne Hall. rewrite trim_noWS.
  - apply split_join; [exact Hne |].
    eapply Forall_impl; [exact Hall |]. intros p [H _]. exact H.
  - apply noWS_join; [reflexivity |].
    eapply Forall_impl; [exact Hall |]. intros p [_ H]. exact H.
Qed.

(** X22.  The order of the parts of a recurrence rule does not matter:
    two rules made of the same parts, in any order, are parsed alike
    (to the same rule, or to the same failure), when no two parts have
    the same key, and no part holds a [;] or white space. *)
Theorem RECUR_parse_ignores_part_order (P : Platform) (parts parts' : list jsstring) :
  parts ≡ₚ parts' ->
  NoDup (map fst (omap partEntry parts)) ->
  Forall (fun p => lacks 59 p = true /\ noWS p = true) parts ->
  RECUR.parse P (join [59] parts) = RECUR.parse P (join [59] parts').
Proof.
  intros Hperm Hnd Hall.
  destruct parts as [| p ps].
  { apply Permutation_nil in Hperm. subst. reflexivity. }
  assert (Hne' : parts' <> []).
  { intros ->. symmetry in Hperm. apply Permutation_nil in Hperm. discriminate. }
  assert (Hall' : Forall (fun p => lacks 59 p = true /\ noWS p = true) parts').
  { rewrite <- Hperm. exact Hall. }
  unfold RECUR.parse.
  rewrite (RECUR_parts (p :: ps)), (RECUR_parts parts') by (assumption || discriminate).
  rewrite !buildMap_entries.
  assert (E : (list_to_map (rev (omap partEntry (p :: ps))) : gmap jsstring jsstring)
              = list_to_map (rev (omap partEntry parts'))).
  { apply list_to_map_proper.
    - rewrite <- Permutation_rev. exact Hnd.
    - rewrite <- !Permutation_rev. rewrite Hperm. reflexivity. }
  rewrite E. reflexivity.
Qed.

Lemma RECUR_parse_ignores_part_order_witness :
  RECUR.parse refPlatform (js "FREQ=WEEKLY;COUNT=10;BYDAY=MO,WE")
  = RECUR.parse refPlatform (js "BYDAY=MO,WE;FREQ=WEEKLY;COUNT=10").
Proof.
  apply (RECUR_parse_ignores_part_order refPlatform
           [js "FREQ=WEEKLY"; js "COUNT=10"; js "BYDAY=MO,WE"]
           [js "BYDAY=MO,WE"; js "FREQ=WEEKLY"; js "COUNT=10"]).
  - apply (Permutation_app_comm [js "FREQ=WEEKLY"; js "COUNT=10"] [js "BYDAY=MO,WE"]).
  - apply (bool_decide_unpack (NoDup [js "FREQ"; js "COUNT"; js "BYDAY"])). vm_compute.
    exact I.
  - repeat constructor.
Defined.
